(** * A shallow embedding of the DataFrame library (dataframe.h, stats.cpp,
      date_utils.cpp) and the properties its specification states.

    Conventions of the embedding.
    - [double] is the kernel's binary64 float; [v == v] is [PrimFloat.eqb],
      so a NaN is exactly a value with [isnan v = true].
    - [std::vector<T>] is [list T]; [std::size_t] is [nat]; [int] is a [Z]
      with the 32-bit conversion written out where the code converts.
    - [throw std::runtime_error(msg)] is [Err msg]; a function that can
      throw returns a [result].
    - Functions of the C++ runtime that the repository calls but does not
      define ([std::log], [std::stod], [std::sort] on doubles, the
      formatting of a double by [operator<<], the random engines) are
      fields of the class [Runtime] or explicit arguments. *)

From Stdlib Require Import Bool Arith ZArith Lia List String Ascii Floats.
From Stdlib Require Import Permutation Sorted.
From Stdlib Require Strings.Byte.
From Stdlib Require Uint63.
From Stdlib Require Import DecimalString DecimalN DecimalPos.
Import ListNotations.

Local Open Scope string_scope.
Local Open Scope list_scope.

(* ================================================================== *)
(** * Part I. Definitions *)
(* ================================================================== *)

(** ** Exceptions *)

Inductive result (A : Type) : Type :=
| Ok (a : A)
| Err (msg : string).
Arguments Ok {A} a.
Arguments Err {A} msg.

Definition bind {A B : Type} (m : result A) (k : A -> result B) : result B :=
  match m with
  | Ok a => k a
  | Err msg => Err msg
  end.

Declare Scope result_scope.
Delimit Scope result_scope with result.
Notation "x <- m ;; k" := (bind m (fun x => k))
  (at level 61, m at next level, right associativity) : result_scope.
Notation "' pat <- m ;; k" := (bind m (fun x => match x with pat => k end))
  (at level 61, pat pattern, m at next level, right associativity) : result_scope.
Local Open Scope result_scope.

Definition is_ok {A : Type} (m : result A) : bool :=
  match m with Ok _ => true | Err _ => false end.

(** A loop whose body may throw: the bodies run in order and the first
    exception ends the loop. *)
Fixpoint mapM {A B : Type} (f : A -> result B) (l : list A) : result (list B) :=
  match l with
  | [] => Ok []
  | x :: l' => y <- f x ;; ys <- mapM f l' ;; Ok (y :: ys)
  end.

(** ** Doubles *)

(** [double] is another name of the kernel's binary64 [float]. *)
Abbreviation double := float (only parsing).

(** [std::numeric_limits<double>::quiet_NaN()] *)
Definition quiet_NaN : double := nan.

(** [!(v == v)], which is also what [std::isnan] computes. *)
Definition isnan (v : double) : bool := negb (v =? v)%float.

(** [std::isfinite] *)
Definition isfinite (v : double) : bool := is_finite v.

(** [static_cast<double>(n)] for an integer [n]: round to nearest even. *)
Definition double_of_Z (z : Z) : double :=
  SF2Prim (binary_normalize prec emax z 0 false).

Definition double_of_size_t (n : nat) : double := double_of_Z (Z.of_nat n).

(** [std::floor] and [std::ceil]. A finite double [m * 2^e] is floored on
    its exact value; zeros, infinities and NaN are returned unchanged. *)
Definition floor_Z (s : bool) (m : positive) (e : Z) : Z :=
  Z.shiftl (cond_Zopp s (Zpos m)) e.

Definition std_floor (x : double) : double :=
  match Prim2SF x with
  | S754_finite s m e =>
      let z := floor_Z s m e in
      if (z =? 0)%Z then (if s then (-0)%float else 0%float) else double_of_Z z
  | _ => x
  end.

Definition std_ceil (x : double) : double := (- std_floor (- x))%float.

(** [static_cast<std::size_t>(x)] for a double that holds a non-negative
    integer (anything else is undefined behaviour; the model returns the
    truncation, 0 for NaN and negative values). *)
Definition size_t_of_double (x : double) : nat :=
  match Prim2SF x with
  | S754_finite false m e => Z.to_nat (floor_Z false m e)
  | _ => 0
  end.

(** [static_cast<int>(n)] for a [std::size_t]: reduction modulo 2^32 into
    the signed range. *)
Definition int_of_size_t (n : nat) : Z :=
  let w := (Z.of_nat n mod 2 ^ 32)%Z in
  if (w <? 2 ^ 31)%Z then w else (w - 2 ^ 32)%Z.

(** ** Vectors *)

(** [v[i]]; reading past the end is undefined behaviour in C++ and yields
    the default here. *)
Definition at_ {A : Type} (d : A) (v : list A) (i : nat) : A := nth i v d.

(** [data_[r][c]] *)
Definition cell (data : list (list double)) (r c : nat) : double :=
  at_ 0%float (at_ [] data r) c.

(** [std::vector<T>(n, x)] *)
Definition filled {A : Type} (n : nat) (x : A) : list A := repeat x n.

(** The vector whose element [i] is [f i], for [0 <= i < n]: the result of
    a loop [for (i = 0; i < n; ++i) v[i] = f(i)] over a vector of size [n]. *)
Definition tabulate {A : Type} (n : nat) (f : nat -> A) : list A :=
  map f (seq 0 n).

(** The same loop when the body may throw. *)
Definition tabulateM {A : Type} (n : nat) (f : nat -> result A) : result (list A) :=
  mapM f (seq 0 n).

(** [std::find(v.begin(), v.end(), x) != v.end()] *)
Definition contains {A : Type} (eqb : A -> A -> bool) (x : A) (v : list A) : bool :=
  existsb (eqb x) v.

(** Position of the first element equal to [x]. *)
Fixpoint find_index {A : Type} (eqb : A -> A -> bool) (x : A) (v : list A)
  : option nat :=
  match v with
  | [] => None
  | y :: v' => if eqb y x then Some 0
               else option_map S (find_index eqb x v')
  end.

(** [u == v] on vectors, from the elements' [==]. *)
Fixpoint vector_eqb {A : Type} (eqb : A -> A -> bool) (u v : list A) : bool :=
  match u, v with
  | [], [] => true
  | x :: u', y :: v' => eqb x y && vector_eqb eqb u' v'
  | _, _ => false
  end.

(** ** The C++ runtime *)

(** What the repository takes from [<cmath>], [<string>], [<ostream>] and
    [<algorithm>] without defining it. [ostream_double v] is the text
    [os << v] writes with the stream's default flags; [std_stod s] is
    [std::stod(s)], [Err] when it throws. [std_sort values] is the vector
    after [std::sort(values.begin(), values.end())] and
    [std_nth_element nth values] the vector after
    [std::nth_element(values.begin(), values.begin() + nth, values.end())]:
    the standard fixes the order they establish, not the place of values
    that compare equal (as [+0.0] and [-0.0] do). *)
Class Runtime : Type := {
  std_log : double -> double;
  std_exp : double -> double;
  std_pow : double -> double -> double;
  ostream_double : double -> string;
  std_stod : string -> result double;
  std_sort : list double -> list double;
  std_nth_element : nat -> list double -> list double
}.

(** ** namespace df::detail: text *)

Module detail.

(** [std::isspace] in the "C" locale. *)
Definition isspace (c : ascii) : bool :=
  let n := nat_of_ascii c in
  ((n =? 32) || ((9 <=? n) && (n <=? 13)))%nat.

Definition empty (s : string) : bool :=
  match s with EmptyString => true | String _ _ => false end.

(** [s.back()] *)
Fixpoint back (s : string) : option ascii :=
  match s with
  | EmptyString => None
  | String c EmptyString => Some c
  | String _ s' => back s'
  end.

(** [trim]: [start] moves right over leading white space ... *)
Fixpoint skip_leading (s : string) : string :=
  match s with
  | EmptyString => EmptyString
  | String c s' => if isspace c then skip_leading s' else s
  end.

(** ... and [end] moves left over trailing white space. *)
Fixpoint drop_trailing (s : string) : string :=
  match s with
  | EmptyString => EmptyString
  | String c s' =>
      match drop_trailing s' with
      | EmptyString => if isspace c then EmptyString else String c EmptyString
      | t => String c t
      end
  end.

Definition trim (s : string) : string := drop_trailing (skip_leading s).

(** The characters [std::getline(is, out, delim)] extracts from a non-empty
    stream, and the stream left behind: everything up to the first [delim],
    which is consumed and not stored. *)
Fixpoint read_until (delim : ascii) (input : string) : string * string :=
  match input with
  | EmptyString => (EmptyString, EmptyString)
  | String c input' =>
      if Ascii.eqb c delim then (EmptyString, input')
      else let (out, rest) := read_until delim input' in (String c out, rest)
  end.

(** [std::getline]: it fails, and the stream tests false, exactly when no
    character is left to extract. *)
Definition getline (delim : ascii) (input : string) : option (string * string) :=
  match input with
  | EmptyString => None
  | String _ _ => Some (read_until delim input)
  end.

(** [while (std::getline(is, out, delim)) { ... out ... }]: the values of
    [out], in order. A successful [getline] consumes at least one
    character, so the length of the stream bounds the number of rounds. *)
Fixpoint getline_loop (fuel : nat) (delim : ascii) (input : string) : list string :=
  match fuel with
  | 0 => []
  | S fuel' =>
      match getline delim input with
      | None => []
      | Some (out, rest) => out :: getline_loop fuel' delim rest
      end
  end.

Definition getlines (delim : ascii) (input : string) : list string :=
  getline_loop (String.length input) delim input.

Definition split_csv (line : string) : list string :=
  let fields := map trim (getlines "," line) in
  if negb (empty line) && match back line with
                          | Some c => Ascii.eqb c ","
                          | None => false
                          end
  then fields ++ [EmptyString]
  else fields.

(** Fields written one after the other with a comma before every field
    but the first ([if (wrote_field) output << ',']). *)
Fixpoint write_fields (fields : list string) : string :=
  match fields with
  | [] => EmptyString
  | [f] => f
  | f :: fields' => (f ++ "," ++ write_fields fields')%string
  end.

(** *** Binary streams *)

Definition stream : Type := list Byte.byte.

Definition byte_of_Z (z : Z) : Byte.byte :=
  byte_of_ascii (ascii_of_N (Z.to_N (z mod 256))).

Definition Z_of_byte (b : Byte.byte) : Z := Z.of_N (Byte.to_N b).

(** The object representation of an integer of [n] bytes, least
    significant byte first, and the value such bytes hold. *)
Fixpoint le_bytes (n : nat) (z : Z) : list Byte.byte :=
  match n with
  | 0 => []
  | S n' => byte_of_Z z :: le_bytes n' (z / 256)
  end.

Fixpoint le_value (bs : list Byte.byte) : Z :=
  match bs with
  | [] => 0
  | b :: bs' => Z_of_byte b + 256 * le_value bs'
  end.

(** The IEEE-754 binary64 bit pattern of a double, and back. [float] has
    one NaN: its pattern is that of the quiet NaN [0x7ff8000000000000],
    and the sign and the payload a NaN cell has in the code are not
    modelled. *)
Definition bits_of_double (v : double) : Z :=
  match Prim2SF v with
  | S754_zero s => if s then 2 ^ 63 else 0
  | S754_infinity s => (if s then 2 ^ 63 else 0) + 2047 * 2 ^ 52
  | S754_nan => 2047 * 2 ^ 52 + 2 ^ 51
  | S754_finite s m e =>
      (if s then 2 ^ 63 else 0) +
      (if 2 ^ 52 <=? Zpos m then (e + 1075) * 2 ^ 52 + (Zpos m - 2 ^ 52)
       else Zpos m)
  end%Z.

Definition double_of_bits (b : Z) : double :=
  let s := (2 ^ 63 <=? b)%Z in
  let biased := ((b / 2 ^ 52) mod 2 ^ 11)%Z in
  let fraction := (b mod 2 ^ 52)%Z in
  if (biased =? 0)%Z then
    if (fraction =? 0)%Z then SF2Prim (S754_zero s)
    else SF2Prim (S754_finite s (Z.to_pos fraction) (-1074))
  else if (biased =? 2047)%Z then
    if (fraction =? 0)%Z then SF2Prim (S754_infinity s) else nan
  else SF2Prim (S754_finite s (Z.to_pos (fraction + 2 ^ 52)) (biased - 1075)).

(** A reader consumes a prefix of the stream or throws. *)
Definition reader (A : Type) : Type := stream -> result (A * stream).

Definition ret {A : Type} (a : A) : reader A := fun input => Ok (a, input).

Definition rbind {A B : Type} (m : reader A) (k : A -> reader B) : reader B :=
  fun input =>
    match m input with
    | Ok (a, rest) => k a rest
    | Err msg => Err msg
    end.

Definition rthrow {A : Type} (msg : string) : reader A := fun _ => Err msg.

(** [is.read(buf, n); if (!is) throw std::runtime_error(msg)] *)
Definition read_exact (n : nat) (msg : string) : reader (list Byte.byte) :=
  fun input =>
    if (List.length input <? n)%nat then Err msg
    else Ok (firstn n input, skipn n input).

(** A loop of [n] reads, filling a vector of size [n]. *)
Fixpoint read_n {A : Type} (n : nat) (m : reader A) : reader (list A) :=
  match n with
  | 0 => ret []
  | S n' => rbind m (fun a => rbind (read_n n' m) (fun l => ret (a :: l)))
  end.

Definition read_failed : string := "dataframe::binary_read: failed to read data".

(** [write_pod] and [read_pod] at the types the library uses them. *)
Definition write_pod_u64 (n : Z) : stream := le_bytes 8 n.
Definition read_pod_u64 : reader Z :=
  rbind (read_exact 8 read_failed) (fun bs => ret (le_value bs)).

Definition write_pod_unsigned (n : Z) : stream := le_bytes 4 n.
Definition read_pod_unsigned : reader Z :=
  rbind (read_exact 4 read_failed) (fun bs => ret (le_value bs)).

Definition write_pod_int (n : Z) : stream := le_bytes 4 n.
Definition read_pod_int : reader Z :=
  rbind (read_exact 4 read_failed)
        (fun bs => let w := le_value bs in
                   ret (if w <? 2 ^ 31 then w else w - 2 ^ 32)%Z).

Definition write_pod_double (v : double) : stream := le_bytes 8 (bits_of_double v).
Definition read_pod_double : reader double :=
  rbind (read_exact 8 read_failed) (fun bs => ret (double_of_bits (le_value bs))).

Definition write_string (value : string) : stream :=
  write_pod_u64 (Z.of_nat (String.length value)) ++ list_byte_of_string value.

Definition read_string : reader string :=
  rbind read_pod_u64 (fun len =>
  if (0 <? len)%Z then
    rbind (read_exact (Z.to_nat len)
                      "dataframe::binary_read: failed to read string")
          (fun bs => ret (string_of_list_byte bs))
  else ret EmptyString).

End detail.

(** ** Decimal text of integers *)

Definition isdigit (c : ascii) : bool :=
  let n := nat_of_ascii c in ((48 <=? n) && (n <=? 57))%nat.

(** The decimal digits of a natural number, as [os << n] and the [%u] and
    [%d] conversions of [printf] produce them. *)
Definition decimal (n : Z) : string :=
  NilEmpty.string_of_uint (N.to_uint (Z.to_N n)).

(** The value of a non-empty string of decimal digits ([std::stoi] and
    [operator>>] on such a string); [None] on any other string. *)
Definition digits_value (s : string) : option Z :=
  match s with
  | EmptyString => None
  | String _ _ =>
      option_map (fun d => Z.of_N (N.of_uint d)) (NilEmpty.uint_of_string s)
  end.

(** Field width with zero padding, [%0<width>...]. *)
Definition zero_pad (width : nat) (s : string) : string :=
  (string_of_list_ascii (repeat "0"%char (width - String.length s)) ++ s)%string.

Definition printf_04d (n : Z) : string :=
  if (n <? 0)%Z then ("-" ++ zero_pad 3 (decimal (- n)))%string
  else zero_pad 4 (decimal n).

Definition printf_02u (n : Z) : string := zero_pad 2 (decimal n).

(** [std::to_string] of an [int]. *)
Definition std_to_string (value : Z) : string :=
  if (value <? 0)%Z then ("-" ++ decimal (- value))%string else decimal value.

(** ** date_utils.cpp *)

(** [int year; unsigned month; unsigned day;] *)
Record Date : Type := mkDate { year : Z; month : Z; day : Z }.

Record DateTime : Type := mkDateTime {
  dt_year : Z; dt_month : Z; dt_day : Z;
  hour : Z; minute : Z; second : Z
}.

Definition is_leap_year (y : Z) : bool :=
  if (Z.rem y 400 =? 0)%Z then true
  else if (Z.rem y 100 =? 0)%Z then false
  else (Z.rem y 4 =? 0)%Z.

Definition days_per_month : list Z := [31; 28; 31; 30; 31; 30; 31; 31; 30; 31; 30; 31]%Z.

Definition days_in_month (y m : Z) : Z :=
  if ((m =? 0) || (12 <? m))%Z then 0%Z
  else if ((m =? 2)%Z && is_leap_year y) then 29%Z
  else nth (Z.to_nat (m - 1)) days_per_month 0%Z.

Definition is_valid_date (y m d : Z) : bool :=
  if ((m =? 0) || (12 <? m))%Z then false
  else ((1 <=? d) && (d <=? days_in_month y m))%Z.

Definition is_valid_time (h mi s : Z) : bool :=
  if (23 <? h)%Z then false
  else if (59 <? mi)%Z then false
  else if (59 <? s)%Z then false
  else true.

Definition Date_eqb (lhs rhs : Date) : bool :=
  ((year lhs =? year rhs) && (month lhs =? month rhs) && (day lhs =? day rhs))%Z.

Definition Date_ltb (lhs rhs : Date) : bool :=
  if negb (year lhs =? year rhs)%Z then (year lhs <? year rhs)%Z
  else if negb (month lhs =? month rhs)%Z then (month lhs <? month rhs)%Z
  else (day lhs <? day rhs)%Z.

Definition DateTime_eqb (lhs rhs : DateTime) : bool :=
  ((dt_year lhs =? dt_year rhs) && (dt_month lhs =? dt_month rhs) &&
   (dt_day lhs =? dt_day rhs) && (hour lhs =? hour rhs) &&
   (minute lhs =? minute rhs) && (second lhs =? second rhs))%Z.

Definition DateTime_ltb (lhs rhs : DateTime) : bool :=
  if negb (dt_year lhs =? dt_year rhs)%Z then (dt_year lhs <? dt_year rhs)%Z
  else if negb (dt_month lhs =? dt_month rhs)%Z then (dt_month lhs <? dt_month rhs)%Z
  else if negb (dt_day lhs =? dt_day rhs)%Z then (dt_day lhs <? dt_day rhs)%Z
  else if negb (hour lhs =? hour rhs)%Z then (hour lhs <? hour rhs)%Z
  else if negb (minute lhs =? minute rhs)%Z then (minute lhs <? minute rhs)%Z
  else (second lhs <? second rhs)%Z.

Module io.

(** [text[i]], and whether it is the character [c]. *)
Definition char_is (text : string) (i : nat) (c : ascii) : bool :=
  match String.get i text with
  | Some x => Ascii.eqb x c
  | None => false
  end.

Definition digit_at (text : string) (i : nat) : bool :=
  match String.get i text with
  | Some x => isdigit x
  | None => false
  end.

(** [parse_number]: [std::stoi] of a substring that the callers have
    checked to consist of digits. *)
Definition parse_number (text : string) (offset count : nat) : result Z :=
  match digits_value (substring offset count text) with
  | Some z => Ok z
  | None => Err "stoi"
  end.

Definition parse_iso_date (iso_date : string) : result Date :=
  if negb (String.length iso_date =? 10)%nat
     || negb (char_is iso_date 4 "-") || negb (char_is iso_date 7 "-")
  then Err ("invalid date format: " ++ iso_date)%string
  else if negb (forallb (digit_at iso_date) [0; 1; 2; 3; 5; 6; 8; 9]%nat)
  then Err ("invalid character in date/time: " ++ iso_date)%string
  else
    y <- parse_number iso_date 0 4 ;;
    m <- parse_number iso_date 5 2 ;;
    d <- parse_number iso_date 8 2 ;;
    if negb (is_valid_date y m d)
    then Err ("invalid calendar date: " ++ iso_date)%string
    else Ok (mkDate y m d).

(** The optional time-zone designator after the 19 characters of the
    local time: accepted, never applied. *)
Definition check_timezone (iso_datetime : string) : result unit :=
  let size := String.length iso_datetime in
  if (size <=? 19)%nat then Ok tt
  else
    pos <-
      (if char_is iso_datetime 19 "Z" then Ok 20%nat
       else if char_is iso_datetime 19 "+" || char_is iso_datetime 19 "-" then
         if (size <? 19 + 6)%nat
         then Err ("invalid timezone specifier: " ++ iso_datetime)%string
         else if negb (digit_at iso_datetime 20 && digit_at iso_datetime 21)
         then Err ("invalid character in date/time: " ++ iso_datetime)%string
         else if negb (char_is iso_datetime 22 ":")
         then Err ("invalid timezone separator: " ++ iso_datetime)%string
         else if negb (digit_at iso_datetime 23 && digit_at iso_datetime 24)
         then Err ("invalid character in date/time: " ++ iso_datetime)%string
         else Ok 25%nat
       else Err ("invalid timezone marker: " ++ iso_datetime)%string) ;;
    if negb (pos =? size)%nat
    then Err ("unexpected characters after timezone: " ++ iso_datetime)%string
    else Ok tt.

Definition parse_iso_datetime (iso_datetime : string) : result DateTime :=
  if (String.length iso_datetime <? 19)%nat
  then Err ("invalid datetime format: " ++ iso_datetime)%string
  else if negb (char_is iso_datetime 4 "-") || negb (char_is iso_datetime 7 "-")
  then Err ("invalid datetime delimiters: " ++ iso_datetime)%string
  else if negb (char_is iso_datetime 10 " ") && negb (char_is iso_datetime 10 "T")
  then Err ("invalid datetime separator: " ++ iso_datetime)%string
  else if negb (char_is iso_datetime 13 ":") || negb (char_is iso_datetime 16 ":")
  then Err ("invalid time delimiters: " ++ iso_datetime)%string
  else if negb (forallb (digit_at iso_datetime)
                        [0; 1; 2; 3; 5; 6; 8; 9; 11; 12; 14; 15; 17; 18]%nat)
  then Err ("invalid character in date/time: " ++ iso_datetime)%string
  else
    y <- parse_number iso_datetime 0 4 ;;
    m <- parse_number iso_datetime 5 2 ;;
    d <- parse_number iso_datetime 8 2 ;;
    h <- parse_number iso_datetime 11 2 ;;
    mi <- parse_number iso_datetime 14 2 ;;
    sec <- parse_number iso_datetime 17 2 ;;
    if negb (is_valid_date y m d)
    then Err ("invalid calendar date: " ++ iso_datetime)%string
    else if negb (is_valid_time h mi sec)
    then Err ("invalid time of day: " ++ iso_datetime)%string
    else
      _ <- check_timezone iso_datetime ;;
      Ok (mkDateTime y m d h mi sec).

(** [std::snprintf(buf, size, ...)] keeps at most [size - 1] characters. *)
Definition snprintf (size : nat) (text : string) : string :=
  substring 0 (size - 1) text.

Definition format_iso_date (date : Date) : result string :=
  if negb (is_valid_date (year date) (month date) (day date))
  then Err "cannot format invalid date"
  else Ok (snprintf 16 (printf_04d (year date) ++ "-" ++ printf_02u (month date)
                        ++ "-" ++ printf_02u (day date))%string).

Definition format_iso_datetime (datetime : DateTime) : result string :=
  if negb (is_valid_date (dt_year datetime) (dt_month datetime) (dt_day datetime))
     || negb (is_valid_time (hour datetime) (minute datetime) (second datetime))
  then Err "cannot format invalid datetime"
  else Ok (snprintf 32 (printf_04d (dt_year datetime) ++ "-"
                        ++ printf_02u (dt_month datetime) ++ "-"
                        ++ printf_02u (dt_day datetime) ++ " "
                        ++ printf_02u (hour datetime) ++ ":"
                        ++ printf_02u (minute datetime) ++ ":"
                        ++ printf_02u (second datetime))%string).

(** [parse_iso_date_to_int]. The fields of a parsed date are at most
    9999, 12 and 31, so the [int] arithmetic does not overflow. *)
Definition parse_iso_date_to_int (iso_date : string) : result Z :=
  parsed <- parse_iso_date iso_date ;;
  Ok (year parsed * 10000 + month parsed * 100 + day parsed)%Z.

(** [format_int_date]; [std::to_string] of an [int] is its decimal text. *)
Definition format_int_date (yyyymmdd : Z) : string :=
  if (yyyymmdd <=? 0)%Z then std_to_string yyyymmdd
  else
    let year := Z.quot yyyymmdd 10000 in
    let month := Z.rem (Z.quot yyyymmdd 100) 100 in
    let day := Z.rem yyyymmdd 100 in
    if negb (is_valid_date year month day) then std_to_string yyyymmdd
    else snprintf 16 (printf_04d year ++ "-" ++ printf_02u month ++ "-"
                      ++ printf_02u day)%string.

End io.

(** ** The index type *)

(** What [DataFrame<IndexT>] uses of its parameter: the operators [==] and
    [<] ([>], [<=] and [>=] are derived from [<] the way date_utils.cpp
    derives them), value initialisation [IndexT{}], the type traits the
    [if constexpr] branches test, and the text and binary conversions of
    namespace detail. *)
Class IndexType (IndexT : Type) : Type := {
  index_eqb : IndexT -> IndexT -> bool;
  index_ltb : IndexT -> IndexT -> bool;
  index_init : IndexT;
  (** [std::numeric_limits<IndexT>::max()] when [std::is_integral_v<IndexT>] *)
  integral_max : option Z;
  (** [static_cast<IndexT>(n)] when [std::is_convertible_v<std::size_t, IndexT>] *)
  of_size_t : option (nat -> IndexT);
  index_to_string : IndexT -> result string;
  parse_token : string -> result IndexT;
  write_index_value : IndexT -> detail.stream;
  read_index_value : detail.reader IndexT
}.

Definition index_gtb {IndexT} `{IndexType IndexT} (a b : IndexT) : bool := index_ltb b a.
Definition index_leb {IndexT} `{IndexType IndexT} (a b : IndexT) : bool := negb (index_ltb b a).
Definition index_geb {IndexT} `{IndexType IndexT} (a b : IndexT) : bool := negb (index_ltb a b).

(** *** [int] *)

(** [ss >> value] for an [int] followed by
    [if (!ss || (ss >> std::ws && !ss.eof())) throw]: leading white space
    is skipped, an optional sign and a non-empty run of digits are read,
    the value must fit an [int], and only white space may follow. *)
Fixpoint take_digits (s : string) : string * string :=
  match s with
  | EmptyString => (EmptyString, EmptyString)
  | String c s' =>
      if isdigit c then let (ds, rest) := take_digits s' in (String c ds, rest)
      else (EmptyString, s)
  end.

Definition parse_token_int (token : string) : result Z :=
  let s := detail.skip_leading token in
  let '(negative, s) :=
    match s with
    | String "-" s' => (true, s')
    | String "+" s' => (false, s')
    | _ => (false, s)
    end in
  let (ds, rest) := take_digits s in
  match digits_value ds with
  | None => Err "failed to parse token"
  | Some n =>
      let value := if negative then (- n)%Z else n in
      if ((value <? - 2 ^ 31) || (2 ^ 31 - 1 <? value))%Z
      then Err "failed to parse token"
      else if negb (detail.empty (detail.skip_leading rest))
      then Err "failed to parse token"
      else Ok value
  end.

(** [oss << value] for an [int]. *)
Definition int_to_string (value : Z) : string :=
  if (value <? 0)%Z then ("-" ++ decimal (- value))%string else decimal value.

#[export] Instance int_index : IndexType Z := {
  index_eqb := Z.eqb;
  index_ltb := Z.ltb;
  index_init := 0%Z;
  integral_max := Some (2 ^ 31 - 1)%Z;
  of_size_t := Some int_of_size_t;
  index_to_string := fun value => Ok (int_to_string value);
  parse_token := parse_token_int;
  write_index_value := detail.write_pod_int;
  read_index_value := detail.read_pod_int
}.

(** *** [std::string] *)

#[export] Instance string_index : IndexType string := {
  index_eqb := String.eqb;
  index_ltb := String.ltb;
  index_init := EmptyString;
  integral_max := None;
  of_size_t := None;
  index_to_string := fun value => Ok value;
  parse_token := fun token => Ok token;
  write_index_value := detail.write_string;
  read_index_value := detail.read_string
}.

(** *** [Date] and [DateTime] *)

Definition write_Date (value : Date) : detail.stream :=
  detail.write_pod_int (year value) ++ detail.write_pod_unsigned (month value)
  ++ detail.write_pod_unsigned (day value).

Definition read_Date : detail.reader Date :=
  detail.rbind detail.read_pod_int (fun y =>
  detail.rbind detail.read_pod_unsigned (fun m =>
  detail.rbind detail.read_pod_unsigned (fun d =>
  detail.ret (mkDate y m d)))).

#[export] Instance Date_index : IndexType Date := {
  index_eqb := Date_eqb;
  index_ltb := Date_ltb;
  index_init := mkDate 0 0 0;
  integral_max := None;
  of_size_t := None;
  index_to_string := io.format_iso_date;
  parse_token := io.parse_iso_date;
  write_index_value := write_Date;
  read_index_value := read_Date
}.

Definition write_DateTime (value : DateTime) : detail.stream :=
  detail.write_pod_int (dt_year value) ++ detail.write_pod_unsigned (dt_month value)
  ++ detail.write_pod_unsigned (dt_day value) ++ detail.write_pod_unsigned (hour value)
  ++ detail.write_pod_unsigned (minute value) ++ detail.write_pod_unsigned (second value).

Definition read_DateTime : detail.reader DateTime :=
  detail.rbind detail.read_pod_int (fun y =>
  detail.rbind detail.read_pod_unsigned (fun m =>
  detail.rbind detail.read_pod_unsigned (fun d =>
  detail.rbind detail.read_pod_unsigned (fun h =>
  detail.rbind detail.read_pod_unsigned (fun mi =>
  detail.rbind detail.read_pod_unsigned (fun sec =>
  detail.ret (mkDateTime y m d h mi sec))))))).

#[export] Instance DateTime_index : IndexType DateTime := {
  index_eqb := DateTime_eqb;
  index_ltb := DateTime_ltb;
  index_init := mkDateTime 0 0 0 0 0 0;
  integral_max := None;
  of_size_t := None;
  index_to_string := io.format_iso_datetime;
  parse_token := io.parse_iso_datetime;
  write_index_value := write_DateTime;
  read_index_value := read_DateTime
}.

Definition is_nil {A : Type} (v : list A) : bool :=
  match v with [] => true | _ :: _ => false end.

(** ** Sorting *)

(** [std::stable_sort(first, last, comp)]: the elements in ascending order
    of [comp], equivalent elements in their original order. The model
    inserts each element in front of the sorted rest, before the first
    element that is not less than it. A [std::sort] whose comparator
    leaves no two elements of the vector equivalent, as the one of
    [spearman_correlation_matrix] on its pairs of a value and a row, has
    this result too: there is no other ascending order. *)
Section Sort.

Variable A : Type.
Variable comp : A -> A -> bool.

Fixpoint insert_sorted (x : A) (l : list A) : list A :=
  match l with
  | [] => [x]
  | y :: l' => if comp y x then y :: insert_sorted x l' else x :: l
  end.

Fixpoint stable_sort (l : list A) : list A :=
  match l with
  | [] => []
  | x :: l' => insert_sorted x (stable_sort l')
  end.

End Sort.
Arguments insert_sorted {A} comp x l.
Arguments stable_sort {A} comp l.

(** [*std::max_element(first, last)]: the first largest element. *)
Definition max_element (values : list double) : double :=
  match values with
  | [] => 0%float
  | v :: values' =>
      fold_left (fun largest x => if (largest <? x)%float then x else largest)
                values' v
  end.

(** *** A runtime to run examples with *)

(** The properties below hold for every [Runtime]. To evaluate the model
    on examples one instance is needed; this one covers what the examples
    use and nothing more. A double that is an integer of at most six
    digits is written the way the default stream flags write it, any
    other double as [?], which is not what a stream writes;
    [std_stod] reads a leading decimal integer and, like [std::stod],
    ignores the text that follows it, but it knows no fractions,
    exponents, hexadecimal digits, infinities or NaN; [std_sort] and
    [std_nth_element] sort by insertion, one of the orders the standard
    allows;
    [std_log], [std_exp] and [std_pow] are placeholders, since no such
    functions exist on [float]. *)
Definition integer_of_double (v : double) : option Z :=
  match Prim2SF v with
  | S754_zero _ => Some 0%Z
  | S754_finite s m e =>
      let z := floor_Z s m e in
      if (double_of_Z z =? v)%float then Some z else None
  | _ => None
  end.

Definition sample_ostream_double (v : double) : string :=
  match integer_of_double v with
  | Some z =>
      if (Z.abs z <? 1000000)%Z then
        if (z =? 0)%Z then (if (1 / v <? 0)%float then "-0" else "0")
        else int_to_string z
      else "?"
  | None => "?"
  end.

Definition sample_stod (s : string) : result double :=
  let s := detail.skip_leading s in
  let '(negative, s) :=
    match s with
    | String "-" s' => (true, s')
    | String "+" s' => (false, s')
    | _ => (false, s)
    end in
  let (ds, _) := take_digits s in
  match digits_value ds with
  | None => Err "stod"
  | Some n => Ok (if negative then (- double_of_Z n)%float else double_of_Z n)
  end.

Definition sample_runtime : Runtime := {|
  std_log := fun v => v;
  std_exp := fun v => v;
  std_pow := fun v _ => v;
  ostream_double := sample_ostream_double;
  std_stod := sample_stod;
  std_sort := stable_sort PrimFloat.ltb;
  std_nth_element := fun _ values => stable_sort PrimFloat.ltb values
|}.

(** ** stats.cpp *)

Module stats.

Record SummaryStats : Type := mkSummaryStats {
  s_n : Z;
  s_mean : double;
  s_sd : double;
  s_skew : double;
  s_ex_kurtosis : double;
  s_min : double;
  s_max : double
}.

Section WithRuntime.
Context {RT : Runtime}.

Definition size (x : list double) : Z := Z.of_nat (List.length x).

Definition mean (x : list double) : double :=
  if (size x <=? 0)%Z then quiet_NaN
  else (fold_left (fun s v => s + v) x 0 / double_of_Z (size x))%float.

Definition stdev (x : list double) : double :=
  if (size x <=? 1)%Z then quiet_NaN
  else
    let m := mean x in
    let ss := fold_left (fun ss xi => let d := (xi - m)%float in (ss + d * d)%float)
                        x 0%float in
    let v := (ss / double_of_Z (size x - 1))%float in
    if negb (0 <=? v)%float then quiet_NaN else PrimFloat.sqrt v.

Definition skew (x : list double) : double :=
  if (size x <=? 2)%Z then quiet_NaN
  else
    let m := mean x in
    let '(m2, m3) :=
      fold_left (fun acc xi =>
                   let d := (xi - m)%float in
                   let d2 := (d * d)%float in
                   (fst acc + d2, snd acc + d2 * d)%float)
                x (0%float, 0%float) in
    let m2 := (m2 / double_of_Z (size x))%float in
    let m3 := (m3 / double_of_Z (size x))%float in
    if negb (0 <? m2)%float then quiet_NaN
    else (m3 / std_pow m2 1.5)%float.

Definition excess_kurtosis (x : list double) : double :=
  if (size x <=? 3)%Z then quiet_NaN
  else
    let m := mean x in
    let '(m2, m4) :=
      fold_left (fun acc xi =>
                   let d := (xi - m)%float in
                   let d2 := (d * d)%float in
                   (fst acc + d2, snd acc + d2 * d2)%float)
                x (0%float, 0%float) in
    let m2 := (m2 / double_of_Z (size x))%float in
    let m4 := (m4 / double_of_Z (size x))%float in
    if negb (0 <? m2)%float then quiet_NaN
    else (m4 / (m2 * m2) - 3)%float.

Definition summary_stats (x : list double) : SummaryStats :=
  let filtered := filter (fun v => (v =? v)%float) x in
  let n := size filtered in
  match filtered with
  | [] => mkSummaryStats n quiet_NaN quiet_NaN quiet_NaN quiet_NaN quiet_NaN quiet_NaN
  | v0 :: rest =>
      let '(mn, mx) :=
        fold_left (fun acc v =>
                     let mn := if (v <? fst acc)%float then v else fst acc in
                     let mx := if (snd acc <? v)%float then v else snd acc in
                     (mn, mx))
                  rest (v0, v0) in
      mkSummaryStats n (mean filtered) (stdev filtered) (skew filtered)
                     (excess_kurtosis filtered) mn mx
  end.

End WithRuntime.

End stats.

(** [detail::compute_median]. *)
Definition compute_median {RT : Runtime} (values : list double) : double :=
  if is_nil values then quiet_NaN
  else
    let mid := (List.length values / 2)%nat in
    let values := std_nth_element mid values in
    let median := at_ 0%float values mid in
    if (List.length values mod 2 =? 0)%nat
    then (0.5 * (median + max_element (firstn mid values)))%float
    else median.

(** ** class DataFrame *)

Record DataFrame (IndexT : Type) : Type := mkDataFrame {
  columns_ : list string;
  index_ : list IndexT;
  data_ : list (list double);
  index_name_ : string
}.
Arguments mkDataFrame {IndexT} columns_ index_ data_ index_name_.
Arguments columns_ {IndexT} d.
Arguments index_ {IndexT} d.
Arguments data_ {IndexT} d.
Arguments index_name_ {IndexT} d.

Definition rows {IndexT} (df : DataFrame IndexT) : nat := List.length (data_ df).
Definition cols {IndexT} (df : DataFrame IndexT) : nat := List.length (columns_ df).

(** [data_[r][c]] of a frame. *)
Definition value_at {IndexT} (df : DataFrame IndexT) (r c : nat) : double :=
  cell (data_ df) r c.

(** Vectors indexed while they are traversed: element [i] becomes [f i x]. *)
Definition imap {A B : Type} (f : nat -> A -> B) (v : list A) : list B :=
  map (fun p => f (fst p) (snd p)) (combine (seq 0 (List.length v)) v).

Section Codec.

Context {RT : Runtime} {IndexT : Type} {IT : IndexType IndexT}.

(** *** from_csv *)

(** One data line of [from_csv]: [columns] are the frame's column names
    and [size] is [df.index_.size()] when the line is read. *)
Definition from_csv_cell (token : string) : result double :=
  if detail.empty token then Ok quiet_NaN
  else match std_stod token with
       | Ok v => Ok v
       | Err _ => Err "dataframe::from_csv: invalid numeric value"
       end.

Definition from_csv_line (columns : list string) (has_index : bool) (size : nat)
           (line : string) : result (IndexT * list double) :=
  let fields := detail.split_csv line in
  let expected := (List.length columns + (if has_index then 1 else 0))%nat in
  if negb (List.length fields =? expected)%nat
  then Err "dataframe::from_csv: row has unexpected number of columns"
  else
    '(idx, offset) <-
      (if has_index then
         match parse_token (at_ EmptyString fields 0) with
         | Ok idx => Ok (idx, 1%nat)
         | Err _ => Err "dataframe::from_csv: invalid index value"
         end
       else
         match of_size_t with
         | Some cast => Ok (cast size, 0%nat)
         | None => Err "dataframe::from_csv: index type cannot be auto-generated"
         end) ;;
    row <- tabulateM (List.length columns)
             (fun c => from_csv_cell (at_ EmptyString fields (c + offset))) ;;
    Ok (idx, row).

(** The [while (std::getline(input, line))] loop over the lines after the
    header, with the frame's [index_] and [data_] built so far. *)
Fixpoint from_csv_lines (columns : list string) (has_index : bool)
         (lines : list string) (index : list IndexT) (data : list (list double))
  : result (list IndexT * list (list double)) :=
  match lines with
  | [] => Ok (index, data)
  | line :: lines' =>
      if detail.empty (detail.trim line)
      then from_csv_lines columns has_index lines' index data
      else
        '(idx, row) <- from_csv_line columns has_index (List.length index) line ;;
        from_csv_lines columns has_index lines' (index ++ [idx]) (data ++ [row])
  end.

Definition newline : ascii := "010"%char.

Definition from_csv (input : string) (has_index : bool) : result (DataFrame IndexT) :=
  match detail.getline newline input with
  | None => Err "dataframe::from_csv: missing header row"
  | Some (header, rest) =>
      let header_fields := detail.split_csv header in
      if is_nil header_fields
      then Err "dataframe::from_csv: header has no columns"
      else if has_index && (List.length header_fields <? 2)%nat
      then Err "dataframe::from_csv: need at least one data column when reading indices"
      else
        let start_col := if has_index then 1%nat else 0%nat in
        let columns := skipn start_col header_fields in
        let index_name := if has_index then at_ EmptyString header_fields 0
                          else "index" in
        if is_nil columns
        then Err "dataframe::from_csv: no data columns found"
        else
          '(index, data) <- from_csv_lines columns has_index
                              (detail.getlines newline rest) [] [] ;;
          Ok (mkDataFrame columns index data index_name)
  end.

(** *** from_vectors *)

Definition from_vectors (indices : list IndexT) (columns : list string)
           (data : list (list double)) : result (DataFrame IndexT) :=
  if is_nil columns
  then Err "dataframe::from_vectors: no columns provided"
  else if negb (List.length indices =? List.length data)%nat
  then Err "dataframe::from_vectors: index count must match row count"
  else if existsb detail.empty columns
  then Err "dataframe::from_vectors: column name cannot be empty"
  else if existsb (fun row => negb (List.length row =? List.length columns)%nat) data
  then Err "dataframe::from_vectors: row size does not match column count"
  else Ok (mkDataFrame columns indices data "index").

(** *** to_csv *)

(** [output << value] for a cell: NaN fields are left empty. *)
Definition to_csv_cell (value : double) : string :=
  if (value =? value)%float then ostream_double value else EmptyString.

Definition to_csv_row (df : DataFrame IndexT) (include_index : bool) (r : nat)
  : result string :=
  if negb (List.length (at_ [] (data_ df) r) =? cols df)%nat
  then Err "dataframe::to_csv: row has unexpected number of columns"
  else
    index_field <-
      (if include_index
       then s <- index_to_string (at_ index_init (index_ df) r) ;; Ok [s]
       else Ok []) ;;
    Ok (detail.write_fields
          (index_field ++ tabulate (cols df) (fun c => to_csv_cell (value_at df r c)))
        ++ String newline EmptyString)%string.

Definition to_csv (df : DataFrame IndexT) (include_header include_index : bool)
  : result string :=
  let header :=
    if include_header
    then (detail.write_fields
            ((if include_index then [index_name_ df] else []) ++ columns_ df)
          ++ String newline EmptyString)%string
    else EmptyString in
  if include_index && negb (List.length (index_ df) =? rows df)%nat
  then Err "dataframe::to_csv: index size mismatch"
  else
    lines <- tabulateM (rows df) (to_csv_row df include_index) ;;
    Ok (header ++ String.concat EmptyString lines)%string.

(** *** to_binary and from_binary *)

Definition magic : detail.stream := list_byte_of_string "DFBIN1".

Definition to_binary (df : DataFrame IndexT) : detail.stream :=
  magic
  ++ detail.write_pod_u64 (Z.of_nat (rows df))
  ++ detail.write_pod_u64 (Z.of_nat (cols df))
  ++ detail.write_string (index_name_ df)
  ++ detail.write_pod_u64 (Z.of_nat (List.length (columns_ df)))
  ++ List.concat (map detail.write_string (columns_ df))
  ++ List.concat (map write_index_value (index_ df))
  ++ List.concat (map (fun row => List.concat (map detail.write_pod_double row))
                      (data_ df)).

Definition from_binary : detail.reader (DataFrame IndexT) :=
  detail.rbind (fun input =>
    if (List.length input <? 6)%nat
       || negb (vector_eqb Byte.eqb (firstn 6 input) magic)
    then Err "dataframe::from_binary: invalid file header"
    else Ok (tt, skipn 6 input)) (fun _ =>
  detail.rbind detail.read_pod_u64 (fun row_count =>
  detail.rbind detail.read_pod_u64 (fun col_count =>
  detail.rbind detail.read_string (fun index_name =>
  detail.rbind detail.read_pod_u64 (fun column_names =>
  if negb (column_names =? col_count)%Z
  then detail.rthrow "dataframe::from_binary: column metadata mismatch"
  else
  detail.rbind (detail.read_n (Z.to_nat col_count) detail.read_string) (fun columns =>
  detail.rbind (detail.read_n (Z.to_nat row_count) read_index_value) (fun index =>
  detail.rbind (detail.read_n (Z.to_nat row_count)
                  (detail.read_n (Z.to_nat col_count) detail.read_pod_double))
               (fun data =>
  detail.ret (mkDataFrame columns index data index_name))))))))).

End Codec.

Section Frame.

Context {RT : Runtime} {IndexT : Type} {IT : IndexType IndexT}.
Implicit Types df other : DataFrame IndexT.

(** The cells of column [c], top to bottom, and those that are not NaN
    ([if (v == v) values.push_back(v)]). *)
Definition column_values df (c : nat) : list double :=
  tabulate (rows df) (fun r => value_at df r c).

Definition non_missing (values : list double) : list double :=
  filter (fun v => (v =? v)%float) values.

(** *** Lookup *)

Definition find_column_index df (name : string) : result nat :=
  match find_index String.eqb name (columns_ df) with
  | Some i => Ok i
  | None => Err "dataframe::select_columns: column not found"
  end.

Definition find_row_position df (value : IndexT) : result nat :=
  match find_index index_eqb value (index_ df) with
  | Some i => Ok i
  | None => Err "dataframe::select_rows: index not found"
  end.

Definition value df (row col : nat) : result double :=
  if (rows df <=? row)%nat || (cols df <=? col)%nat
  then Err "dataframe::value: index out of range"
  else Ok (value_at df row col).

(** *** Selection *)

Definition select_rows_by_positions df (positions : list nat)
  : result (DataFrame IndexT) :=
  picked <- mapM (fun pos =>
                    if (rows df <=? pos)%nat
                    then Err "dataframe::select_rows: position out of bounds"
                    else Ok (at_ index_init (index_ df) pos, at_ [] (data_ df) pos))
                 positions ;;
  Ok (mkDataFrame (columns_ df) (map fst picked) (map snd picked) (index_name_ df)).

Definition select_columns_by_positions df (positions : list nat)
  : result (DataFrame IndexT) :=
  columns <- mapM (fun pos =>
                     if (cols df <=? pos)%nat
                     then Err "dataframe::select_columns: position out of bounds"
                     else Ok (at_ EmptyString (columns_ df) pos))
                  positions ;;
  Ok (mkDataFrame columns (index_ df)
        (tabulate (rows df) (fun r =>
           tabulate (List.length positions) (fun c =>
             value_at df r (at_ 0%nat positions c))))
        (index_name_ df)).

Definition select_rows df (values : list IndexT) : result (DataFrame IndexT) :=
  positions <- mapM (fun v =>
                       match find_index index_eqb v (index_ df) with
                       | Some pos => Ok pos
                       | None => Err "dataframe::select_rows: requested index not found"
                       end)
                    values ;;
  select_rows_by_positions df positions.

Definition select_columns df (names : list string) : result (DataFrame IndexT) :=
  positions <- mapM (find_column_index df) names ;;
  select_columns_by_positions df positions.

(** [add_column] changes the frame it is called on: the result is the
    frame after the call; on [Err] the frame is as it was. *)
Definition add_column df (name : string) (values : list double)
  : result (DataFrame IndexT) :=
  if contains String.eqb name (columns_ df)
  then Err "dataframe::add_column: column already exists"
  else
    let row_count := rows df in
    if (row_count =? 0)%nat then
      if negb (is_nil values)
      then Err "dataframe::add_column: cannot add data to an empty dataframe"
      else Ok (mkDataFrame (columns_ df ++ [name]) (index_ df) (data_ df)
                           (index_name_ df))
    else if negb (List.length values =? row_count)%nat
    then Err "dataframe::add_column: value count mismatch"
    else Ok (mkDataFrame (columns_ df ++ [name]) (index_ df)
               (imap (fun r row => row ++ [at_ 0%float values r]) (data_ df))
               (index_name_ df)).

Definition find_row_positions_in_range df (start end_ : IndexT)
           (inclusive_end : bool) : list nat :=
  if (rows df =? 0)%nat then []
  else
    let '(lo, hi) := if index_ltb end_ start then (end_, start) else (start, end_) in
    filter (fun i =>
              let x := at_ index_init (index_ df) i in
              let lower_ok := index_geb x lo in
              let upper_ok := if inclusive_end then index_leb x hi
                              else index_ltb x hi in
              lower_ok && upper_ok)
           (seq 0 (List.length (index_ df))).

Definition slice_rows_range df (start end_ : IndexT) (inclusive_end : bool)
  : result (DataFrame IndexT) :=
  select_rows_by_positions df (find_row_positions_in_range df start end_ inclusive_end).

Definition head_rows df (count : nat) : result (DataFrame IndexT) :=
  if (count =? 0)%nat then select_rows_by_positions df []
  else if (rows df <=? count)%nat then Ok df
  else select_rows_by_positions df (tabulate count (fun i => i)).

Definition tail_rows df (count : nat) : result (DataFrame IndexT) :=
  if (count =? 0)%nat then select_rows_by_positions df []
  else if (rows df <=? count)%nat then Ok df
  else
    let start := (rows df - count)%nat in
    select_rows_by_positions df (tabulate count (fun i => start + i)%nat).

Definition head_columns df (count : nat) : result (DataFrame IndexT) :=
  if (count =? 0)%nat then select_columns_by_positions df []
  else if (cols df <=? count)%nat then Ok df
  else select_columns_by_positions df (tabulate count (fun i => i)).

Definition tail_columns df (count : nat) : result (DataFrame IndexT) :=
  if (count =? 0)%nat then select_columns_by_positions df []
  else if (cols df <=? count)%nat then Ok df
  else
    let start := (cols df - count)%nat in
    select_columns_by_positions df (tabulate count (fun i => start + i)%nat).

Definition column_data df (name : string) : result (list double) :=
  col <- find_column_index df name ;;
  Ok (column_values df col).

Definition row_data df (index_value : IndexT) : result (list double) :=
  pos <- find_row_position df index_value ;;
  Ok (at_ [] (data_ df) pos).

Definition remove_rows_with_nan df : result (DataFrame IndexT) :=
  select_rows_by_positions df
    (filter (fun r => negb (existsb isnan (at_ [] (data_ df) r)))
            (seq 0 (rows df))).

Definition remove_columns_with_nan df : result (DataFrame IndexT) :=
  select_columns_by_positions df
    (filter (fun c => negb (existsb (fun r => isnan (value_at df r c))
                                    (seq 0 (rows df))))
            (seq 0 (cols df))).

(** *** Sorting *)

(** The lambda [comparator] of [sort_rows_by_column] and
    [sort_columns_by_row]: [key] reads the sort key of a position. *)
Definition comparator (key : nat -> double) (ascending : bool) (lhs rhs : nat)
  : bool :=
  let left_value := key lhs in
  let right_value := key rhs in
  let left_nan := negb (left_value =? left_value)%float in
  let right_nan := negb (right_value =? right_value)%float in
  if left_nan || right_nan then
    if left_nan && right_nan then (lhs <? rhs)%nat
    else if ascending then negb left_nan && right_nan
    else left_nan && negb right_nan
  else if ascending then (left_value <? right_value)%float
  else (right_value <? left_value)%float.

Definition sort_rows_by_column df (column_name : string) (ascending : bool)
  : result (DataFrame IndexT) :=
  if (cols df =? 0)%nat
  then Err "dataframe::sort_rows_by_column: no columns to sort by"
  else
    column_index <- find_column_index df column_name ;;
    let order := stable_sort
                   (comparator (fun r => value_at df r column_index) ascending)
                   (seq 0 (rows df)) in
    Ok (mkDataFrame (columns_ df)
          (map (at_ index_init (index_ df)) order)
          (map (at_ [] (data_ df)) order)
          (index_name_ df)).

Definition sort_columns_by_row df (index_value : IndexT) (ascending : bool)
  : result (DataFrame IndexT) :=
  if (cols df =? 0)%nat
  then Err "dataframe::sort_columns_by_row: no columns to sort"
  else if (rows df =? 0)%nat
  then Err "dataframe::sort_columns_by_row: no rows available"
  else
    row_position <- find_row_position df index_value ;;
    let order := stable_sort
                   (comparator (fun c => value_at df row_position c) ascending)
                   (seq 0 (cols df)) in
    Ok (mkDataFrame (map (at_ EmptyString (columns_ df)) order)
          (index_ df)
          (tabulate (rows df) (fun r => map (fun c => value_at df r c) order))
          (index_name_ df)).

(** *** Elementwise transforms *)

Definition apply_scalar df (func : double -> result double)
  : result (DataFrame IndexT) :=
  data <- mapM (mapM func) (data_ df) ;;
  Ok (mkDataFrame (columns_ df) (index_ df) data (index_name_ df)).

Definition apply_unary df (func : double -> result double) (name : string)
  : result (DataFrame IndexT) :=
  apply_scalar df func.

Definition apply_binary df other (func : double -> double -> result double)
           (name : string) : result (DataFrame IndexT) :=
  if negb (rows df =? rows other)%nat || negb (cols df =? cols other)%nat
  then Err ("dataframe::" ++ name ++ ": shape mismatch")%string
  else if negb (vector_eqb String.eqb (columns_ df) (columns_ other))
  then Err ("dataframe::" ++ name ++ ": column mismatch")%string
  else if negb (vector_eqb index_eqb (index_ df) (index_ other))
  then Err ("dataframe::" ++ name ++ ": index mismatch")%string
  else
    data <- tabulateM (rows df) (fun r =>
              tabulateM (cols df) (fun c =>
                func (value_at df r c) (value_at other r c))) ;;
    Ok (mkDataFrame (columns_ df) (index_ df) data (index_name_ df)).

Definition add df (value : double) : result (DataFrame IndexT) :=
  apply_scalar df (fun v => Ok (v + value)%float).

Definition subtract df (value : double) : result (DataFrame IndexT) :=
  apply_scalar df (fun v => Ok (v - value)%float).

Definition multiply df (value : double) : result (DataFrame IndexT) :=
  apply_scalar df (fun v => Ok (v * value)%float).

Definition divide df (value : double) : result (DataFrame IndexT) :=
  if (value =? 0)%float
  then Err "dataframe::divide: division by zero"
  else apply_scalar df (fun v => Ok (v / value)%float).

Definition add_frame df other : result (DataFrame IndexT) :=
  apply_binary df other (fun a b => Ok (a + b)%float) "add".

Definition subtract_frame df other : result (DataFrame IndexT) :=
  apply_binary df other (fun a b => Ok (a - b)%float) "subtract".

Definition multiply_frame df other : result (DataFrame IndexT) :=
  apply_binary df other (fun a b => Ok (a * b)%float) "multiply".

Definition divide_frame df other : result (DataFrame IndexT) :=
  apply_binary df other
    (fun a b => if (b =? 0)%float
                then Err "dataframe::divide: division by zero element"
                else Ok (a / b)%float)
    "divide".

(** The lambda [log_elements] applies to every cell. *)
Definition log_of (v : double) : result double :=
  if isnan v then Ok quiet_NaN
  else if negb (0 <? v)%float
  then Err "dataframe::log_elements: non-positive value encountered"
  else Ok (std_log v).

Definition log_elements df : result (DataFrame IndexT) :=
  apply_unary df log_of "log_elements".

Definition exp_elements df : result (DataFrame IndexT) :=
  apply_unary df (fun v => Ok (std_exp v)) "exp_elements".

Definition power df (exponent : double) : result (DataFrame IndexT) :=
  apply_unary df (fun v => Ok (std_pow v exponent)) "power".

Definition power_int df (exponent : Z) : result (DataFrame IndexT) :=
  apply_unary df (fun v => Ok (std_pow v (double_of_Z exponent))) "power_int".

(** *** Changes between consecutive rows *)

Definition differences df : result (DataFrame IndexT) :=
  if (rows df <? 2)%nat
  then Err "dataframe::differences: need at least two rows"
  else
    Ok (mkDataFrame (columns_ df) (skipn 1 (index_ df))
          (tabulate (rows df - 1) (fun r =>
             tabulate (cols df) (fun c =>
               (value_at df (r + 1) c - value_at df r c)%float)))
          (index_name_ df)).

Definition log_changes df : result (DataFrame IndexT) :=
  if (rows df <? 2)%nat
  then Err "dataframe::log_changes: need at least two rows"
  else
    data <- tabulateM (rows df - 1) (fun r =>
              tabulateM (cols df) (fun c =>
                let prev := value_at df r c in
                let curr := value_at df (r + 1) c in
                if negb (0 <? prev)%float || negb (0 <? curr)%float
                then Err "dataframe::log_changes: non-positive value encountered"
                else Ok (std_log curr - std_log prev)%float)) ;;
    Ok (mkDataFrame (columns_ df) (skipn 1 (index_ df)) data (index_name_ df)).

Definition proportional_changes df : result (DataFrame IndexT) :=
  if (rows df <? 2)%nat
  then Err "dataframe::proportional_changes: need at least two rows"
  else
    data <- tabulateM (rows df - 1) (fun r =>
              tabulateM (cols df) (fun c =>
                let prev := value_at df r c in
                let curr := value_at df (r + 1) c in
                if (prev =? 0)%float
                then Err "dataframe::proportional_changes: zero value encountered"
                else Ok ((curr - prev) / prev)%float)) ;;
    Ok (mkDataFrame (columns_ df) (skipn 1 (index_ df)) data (index_name_ df)).

(** *** standardize and normalize *)

(** The first loop of [standardize] fills [means] from all cells and the
    next one resets it to zero: that first pass has no effect and is not
    modelled. *)
Definition standardize df : DataFrame IndexT :=
  let zeros := tabulate (rows df) (fun _ => filled (cols df) 0%float) in
  if (rows df =? 0)%nat || (cols df =? 0)%nat
  then mkDataFrame (columns_ df) (index_ df) zeros (index_name_ df)
  else
    let counts := tabulate (cols df) (fun c =>
                    List.length (non_missing (column_values df c))) in
    let means := tabulate (cols df) (fun c =>
                   let sum := fold_left (fun s v => (s + v)%float)
                                        (non_missing (column_values df c)) 0%float in
                   if (0 <? at_ 0%nat counts c)%nat
                   then (sum / double_of_size_t (at_ 0%nat counts c))%float
                   else quiet_NaN) in
    let sds := tabulate (cols df) (fun c =>
                 if (1 <? at_ 0%nat counts c)%nat then
                   let accum :=
                     fold_left (fun a v =>
                                  let diff := (v - at_ 0%float means c)%float in
                                  (a + diff * diff)%float)
                               (non_missing (column_values df c)) 0%float in
                   let var := (accum / double_of_size_t (at_ 0%nat counts c - 1))%float in
                   if (0 <? var)%float then PrimFloat.sqrt var else quiet_NaN
                 else quiet_NaN) in
    mkDataFrame (columns_ df) (index_ df)
      (tabulate (rows df) (fun r =>
         tabulate (cols df) (fun c =>
           let value := value_at df r c in
           let mean := at_ 0%float means c in
           let sd := at_ 0%float sds c in
           if negb (value =? value)%float || negb (mean =? mean)%float
              || negb (sd =? sd)%float || (sd =? 0)%float
           then quiet_NaN
           else ((value - mean) / sd)%float)))
      (index_name_ df).

(** [std::min(a, b)] is [b < a ? b : a]; [std::max(a, b)] is
    [a < b ? b : a]. *)
Definition std_min (a b : double) : double := if (b <? a)%float then b else a.
Definition std_max (a b : double) : double := if (a <? b)%float then b else a.

Definition normalize df : DataFrame IndexT :=
  let zeros := tabulate (rows df) (fun _ => filled (cols df) 0%float) in
  if (rows df =? 0)%nat || (cols df =? 0)%nat
  then mkDataFrame (columns_ df) (index_ df) zeros (index_name_ df)
  else
    let mins := tabulate (cols df) (fun c =>
                  fold_left std_min (non_missing (column_values df c)) infinity) in
    let maxs := tabulate (cols df) (fun c =>
                  fold_left std_max (non_missing (column_values df c)) neg_infinity) in
    mkDataFrame (columns_ df) (index_ df)
      (tabulate (rows df) (fun r =>
         tabulate (cols df) (fun c =>
           let v := value_at df r c in
           let mn := at_ 0%float mins c in
           let mx := at_ 0%float maxs c in
           if negb (v =? v)%float then quiet_NaN
           else if negb (isfinite mn) || negb (isfinite mx) then quiet_NaN
           else
             let spread := (mx - mn)%float in
             if (0 <? spread)%float then ((v - mn) / spread)%float else 0%float)))
      (index_name_ df).

(** *** Rolling windows *)

(** The loop shared by [rolling_mean], [rolling_std] and [rolling_rms]:
    for every row [r], top to bottom, the running state of every column
    [c] is updated by [step r c]; once [r + 1 >= window] the row
    [r + 1 - window] of the output is written from the states by [emit]. *)
Definition rolling_loop {S : Type} (step : nat -> nat -> S -> S)
           (emit : S -> double) (init : S) (window nrows ncols : nat)
  : list (list double) :=
  snd (fold_left
         (fun acc r =>
            let states := imap (fun c st => step r c st) (fst acc) in
            (states,
             if (window <=? r + 1)%nat then snd acc ++ [map emit states]
             else snd acc))
         (seq 0 nrows)
         (filled ncols init, [])).

(** [sums[c]] and [valid_counts[c]] after row [r] has been taken in and
    row [r - window] has been taken out. *)
Definition rolling_mean_step df (window r c : nat) (st : double * Z) : double * Z :=
  let value := value_at df r c in
  let st := if negb (isnan value) then ((fst st + value)%float, (snd st + 1)%Z)
            else st in
  if (window <=? r)%nat then
    let old_value := value_at df (r - window) c in
    if negb (isnan old_value) then ((fst st - old_value)%float, (snd st - 1)%Z)
    else st
  else st.

Definition rolling_mean_emit (window : nat) (st : double * Z) : double :=
  if (snd st =? int_of_size_t window)%Z
  then (fst st / double_of_size_t window)%float
  else quiet_NaN.

Definition rolling_mean df (window : nat) : result (DataFrame IndexT) :=
  if (window =? 0)%nat
  then Err "dataframe::rolling_mean: window must be positive"
  else if (rows df <? window)%nat
  then Err "dataframe::rolling_mean: window exceeds row count"
  else
    Ok (mkDataFrame (columns_ df) (skipn (window - 1) (index_ df))
          (rolling_loop (rolling_mean_step df window) (rolling_mean_emit window)
                        (0%float, 0%Z) window (rows df) (cols df))
          (index_name_ df)).

(** [sums[c]], [sums_sq[c]] and [valid_counts[c]]. *)
Definition rolling_std_step df (window r c : nat) (st : double * double * Z)
  : double * double * Z :=
  let '(sum, sum_sq, count) := st in
  let value := value_at df r c in
  let '(sum, sum_sq, count) :=
    if negb (isnan value)
    then ((sum + value)%float, (sum_sq + value * value)%float, (count + 1)%Z)
    else (sum, sum_sq, count) in
  if (window <=? r)%nat then
    let old := value_at df (r - window) c in
    if negb (isnan old)
    then ((sum - old)%float, (sum_sq - old * old)%float, (count - 1)%Z)
    else (sum, sum_sq, count)
  else (sum, sum_sq, count).

Definition rolling_std_emit (window : nat) (st : double * double * Z) : double :=
  let '(sum, sum_sq, count) := st in
  if (count =? int_of_size_t window)%Z then
    if (window =? 1)%nat then 0%float
    else
      let mean := (sum / double_of_size_t window)%float in
      let numerator := (sum_sq - sum * mean)%float in
      let variance := (numerator / double_of_size_t (window - 1))%float in
      let variance := if (variance <? 0)%float && (-0x1.19799812dea11p-40 <? variance)%float
                      then 0%float else variance in
      if (0 <? variance)%float then PrimFloat.sqrt variance else 0%float
  else quiet_NaN.

Definition rolling_std df (window : nat) : result (DataFrame IndexT) :=
  if (window =? 0)%nat
  then Err "dataframe::rolling_std: window must be positive"
  else if (rows df <? window)%nat
  then Err "dataframe::rolling_std: window exceeds row count"
  else
    Ok (mkDataFrame (columns_ df) (skipn (window - 1) (index_ df))
          (rolling_loop (rolling_std_step df window) (rolling_std_emit window)
                        (0%float, 0%float, 0%Z) window (rows df) (cols df))
          (index_name_ df)).

Definition rolling_rms_step df (window r c : nat) (st : double * Z) : double * Z :=
  let value := value_at df r c in
  let st := if (value =? value)%float
            then ((fst st + value * value)%float, (snd st + 1)%Z)
            else st in
  if (window <=? r)%nat then
    let old := value_at df (r - window) c in
    if (old =? old)%float then ((fst st - old * old)%float, (snd st - 1)%Z)
    else st
  else st.

Definition rolling_rms_emit (window : nat) (st : double * Z) : double :=
  if (snd st =? int_of_size_t window)%Z
  then PrimFloat.sqrt (fst st / double_of_size_t window)
  else quiet_NaN.

Definition rolling_rms df (window : nat) : result (DataFrame IndexT) :=
  if (window =? 0)%nat
  then Err "dataframe::rolling_rms: window must be positive"
  else if (rows df <? window)%nat
  then Err "dataframe::rolling_rms: window exceeds row count"
  else
    Ok (mkDataFrame (columns_ df) (skipn (window - 1) (index_ df))
          (if (cols df =? 0)%nat
           then tabulate (rows df - window + 1) (fun _ => filled (cols df) 0%float)
           else rolling_loop (rolling_rms_step df window) (rolling_rms_emit window)
                             (0%float, 0%Z) window (rows df) (cols df))
          (index_name_ df)).

(** *** Exponential moving average *)

(** The inner loop of [exponential_moving_average] over the rows of one
    column, from the state [ema], [has_ema]. *)
Fixpoint ema_column (alpha : double) (values : list double) (ema : double)
         (has_ema : bool) : list double :=
  match values with
  | [] => []
  | value :: rest =>
      if negb (value =? value)%float
      then quiet_NaN :: ema_column alpha rest ema has_ema
      else
        let ema := if has_ema then (alpha * value + (1 - alpha) * ema)%float
                   else value in
        ema :: ema_column alpha rest ema true
  end.

Definition exponential_moving_average df (alpha : double)
  : result (DataFrame IndexT) :=
  if negb (0 <? alpha)%float || negb (alpha <? 1)%float
  then Err "dataframe::exponential_moving_average: alpha must be in (0,1)"
  else
    Ok (mkDataFrame (columns_ df) (index_ df)
          (tabulate (rows df) (fun r =>
             tabulate (cols df) (fun c =>
               at_ quiet_NaN
                   (ema_column alpha (column_values df c) quiet_NaN false) r)))
          (index_name_ df)).

(** *** Random frames *)

(** [dist(rng)] on a [std::uniform_int_distribution<std::size_t>(lo, hi)]:
    some value between [lo] and [hi], here taken from the raw value [raw]
    of the engine. *)
Definition uniform_int (lo hi raw : nat) : nat := (lo + raw mod (hi - lo + 1))%nat.

(** [entropy i] is the raw value the engine yields for draw [i]. *)
Definition resample_rows df (entropy : nat -> nat) (sample_size : nat)
           (reset_index : bool) : result (DataFrame IndexT) :=
  if (rows df =? 0)%nat
  then Err "dataframe::resample_rows: no rows to sample"
  else
    let sample_size := if (sample_size =? 0)%nat then rows df else sample_size in
    let picks := tabulate sample_size (fun i => uniform_int 0 (rows df - 1) (entropy i)) in
    let integral := match integral_max, of_size_t with
                    | Some _, Some cast => Some cast
                    | _, _ => None
                    end in
    Ok (mkDataFrame (columns_ df)
          (imap (fun i pick =>
                   match integral with
                   | Some cast => if reset_index then cast i
                                  else at_ index_init (index_ df) pick
                   | None => at_ index_init (index_ df) pick
                   end)
                picks)
          (map (at_ [] (data_ df)) picks)
          (match integral with
           | Some _ => if reset_index then "resample_index" else index_name_ df
           | None => index_name_ df
           end)).

(** [dist k] is the value of the [k]-th call [dist(rng)], counted from 0:
    it stands for the engine, its seed and the distribution's parameters
    ([mean] and [stddev], or [min] and [max]). *)
Definition random_normal (dist : nat -> double) (nrows : nat)
           (columns : list string) (mean stddev : double) (seed : Z)
           (target_corr : double) : result (DataFrame IndexT) :=
  match integral_max, of_size_t with
  | Some index_max, Some cast =>
      if is_nil columns
      then Err "random_normal: at least one column is required"
      else if (stddev <=? 0)%float
      then Err "random_normal: standard deviation must be positive"
      else if (target_corr <? 0)%float || (1 <? target_corr)%float
      then Err "random_normal: target correlation must be in [0, 1]"
      else if (index_max <? Z.of_nat nrows)%Z
      then Err "random_normal: row count exceeds index capacity"
      else
        let ncols := List.length columns in
        let data :=
          if (ncols <=? 1)%nat || (target_corr =? 0)%float then
            tabulate nrows (fun row =>
              tabulate ncols (fun col => dist (row * ncols + col)%nat))
          else
            let coeff1 := PrimFloat.sqrt target_corr in
            let coeff2 := PrimFloat.sqrt (1 - target_corr) in
            tabulate nrows (fun row =>
              let common := dist (row * ncols)%nat in
              tabulate ncols (fun col =>
                if (col =? 0)%nat then common
                else (coeff1 * common + coeff2 * dist (row * ncols + col)%nat)%float))
        in Ok (mkDataFrame columns (tabulate nrows cast) data "index")
  | _, _ => Err "random_normal requires integral indices"
  end.

Definition random_uniform (dist : nat -> double) (nrows : nat)
           (columns : list string) (min max : double) (seed : Z)
  : result (DataFrame IndexT) :=
  match integral_max, of_size_t with
  | Some index_max, Some cast =>
      if is_nil columns
      then Err "random_uniform: at least one column is required"
      else if (max <=? min)%float
      then Err "random_uniform: min must be less than max"
      else if (index_max <? Z.of_nat nrows)%Z
      then Err "random_uniform: row count exceeds index capacity"
      else
        let ncols := List.length columns in
        Ok (mkDataFrame columns (tabulate nrows cast)
              (tabulate nrows (fun row =>
                 tabulate ncols (fun col => dist (row * ncols + col)%nat)))
              "index")
  | _, _ => Err "random_uniform requires integral indices"
  end.

(** *** Aggregations *)

Definition stat_labels : list string :=
  ["n"; "median"; "mean"; "sd"; "skew"; "ex_kurtosis"; "min"; "max"].

Definition column_stats_dataframe df : DataFrame string :=
  let summaries := tabulate (cols df) (fun c =>
                     let values := non_missing (column_values df c) in
                     (stats.summary_stats values, compute_median values)) in
  mkDataFrame (columns_ df) stat_labels
    [ map (fun s => double_of_Z (stats.s_n (fst s))) summaries;
      map (fun s => snd s) summaries;
      map (fun s => stats.s_mean (fst s)) summaries;
      map (fun s => stats.s_sd (fst s)) summaries;
      map (fun s => stats.s_skew (fst s)) summaries;
      map (fun s => stats.s_ex_kurtosis (fst s)) summaries;
      map (fun s => stats.s_min (fst s)) summaries;
      map (fun s => stats.s_max (fst s)) summaries ]
    "statistic".

(** The rows in which no column holds NaN. *)
Definition valid_rows df : list nat :=
  filter (fun r => negb (existsb (fun c => negb (value_at df r c =? value_at df r c)%float)
                                 (seq 0 (cols df))))
         (seq 0 (rows df)).

(** [means[c]] over the rows [valid]. *)
Definition valid_mean df (valid : list nat) (c : nat) : double :=
  (fold_left (fun m r => (m + value_at df r c)%float) valid 0
   / double_of_size_t (List.length valid))%float.

(** The sample covariance of columns [i] and [j] over the rows [valid]. *)
Definition valid_cov df (valid : list nat) (i j : nat) : double :=
  (fold_left (fun accum r =>
                (accum + (value_at df r i - valid_mean df valid i)
                         * (value_at df r j - valid_mean df valid j))%float)
             valid 0
   / double_of_size_t (List.length valid - 1))%float.

(** [var], the sample variance of column [c] over the rows [valid], and
    [sds[c]]. *)
Definition valid_var df (valid : list nat) (c : nat) : double :=
  let accum := fold_left (fun accum r =>
                            let diff := (value_at df r c - valid_mean df valid c)%float in
                            (accum + diff * diff)%float)
                         valid 0%float in
  (accum / double_of_size_t (List.length valid - 1))%float.

Definition valid_sd df (valid : list nat) (c : nat) : double :=
  let var := valid_var df valid c in
  if (0 <? var)%float then PrimFloat.sqrt var else 0%float.

Definition correlation_matrix df : result (DataFrame string) :=
  if is_nil (columns_ df)
  then Err "dataframe::correlation_matrix: no columns"
  else if (rows df <? 2)%nat
  then Err "dataframe::correlation_matrix: need at least two rows"
  else
    let valid := valid_rows df in
    if (List.length valid <? 2)%nat
    then Err "dataframe::correlation_matrix: need at least two non-NaN rows"
    else
      Ok (mkDataFrame (columns_ df) (columns_ df)
            (tabulate (cols df) (fun i =>
               tabulate (cols df) (fun j =>
                 if (i =? j)%nat then 1%float
                 else
                   let cov := valid_cov df valid i j in
                   if (valid_sd df valid i <=? 0)%float || (valid_sd df valid j <=? 0)%float
                   then quiet_NaN
                   else (cov / (valid_sd df valid i * valid_sd df valid j))%float)))
            "column").

Definition covariance_matrix df : result (DataFrame string) :=
  if is_nil (columns_ df)
  then Err "dataframe::covariance_matrix: no columns"
  else if (rows df <? 2)%nat
  then Err "dataframe::covariance_matrix: need at least two rows"
  else
    let valid := valid_rows df in
    if (List.length valid <? 2)%nat
    then Err "dataframe::covariance_matrix: need at least two non-NaN rows"
    else
      Ok (mkDataFrame (columns_ df) (columns_ df)
            (tabulate (cols df) (fun i =>
               tabulate (cols df) (fun j => valid_cov df valid i j)))
            "column").

(** [column_percentiles]: the value written for one requested percentile
    from the sorted non-missing values of a column. *)
Definition percentile_of (values : list double) (percentile : double) : double :=
  if (percentile <=? 0)%float then at_ 0%float values 0
  else if (100 <=? percentile)%float then at_ 0%float values (List.length values - 1)
  else
    let rank := (percentile / 100 * double_of_size_t (List.length values - 1))%float in
    let lower := size_t_of_double (std_floor rank) in
    let upper := size_t_of_double (std_ceil rank) in
    let fraction := (rank - double_of_size_t lower)%float in
    let lower_value := at_ 0%float values lower in
    let upper_value := at_ 0%float values upper in
    (lower_value + fraction * (upper_value - lower_value))%float.

Definition column_percentiles df (percentiles : list double)
  : result (DataFrame string) :=
  if is_nil (columns_ df)
  then Err "dataframe::column_percentiles: no columns"
  else if is_nil percentiles
  then Err "dataframe::column_percentiles: no percentiles specified"
  else if existsb (fun p => (p <? 0)%float || (100 <? p)%float) percentiles
  then Err "dataframe::column_percentiles: percentiles must be in [0, 100]"
  else
    Ok (mkDataFrame (columns_ df) (map ostream_double percentiles)
          (tabulate (List.length percentiles) (fun p_idx =>
             tabulate (cols df) (fun c =>
               let values := non_missing (column_values df c) in
               if is_nil values then quiet_NaN
               else percentile_of (std_sort values) (at_ 0%float percentiles p_idx))))
          "percentile").

(** *** Rank correlations *)

(** The comparator of the [(value, row)] pairs in
    [spearman_correlation_matrix]. *)
Definition pair_less (a b : double * nat) : bool :=
  if (fst a =? fst b)%float then (snd a <? snd b)%nat else (fst a <? fst b)%float.

(** The inner [while] of the ranking: the run of pairs whose value equals
    [first], and what follows it. *)
Fixpoint take_ties (first : double) (values : list (double * nat))
  : list (double * nat) * list (double * nat) :=
  match values with
  | [] => ([], [])
  | p :: values' =>
      if (fst p =? first)%float
      then let (group, rest) := take_ties first values' in (p :: group, rest)
      else ([], values)
  end.

(** The outer [while]: [rest] is [values] from position [i] on. Every round
    writes the average rank of one run of ties; the values are not NaN, so
    a run holds at least its first pair and the length of [values] bounds
    the number of rounds. The result lists the writes
    [ranked.data_[row][c] = avg_rank] as pairs [(row, avg_rank)]. *)
Fixpoint rank_loop (fuel i : nat) (rest : list (double * nat))
  : list (nat * double) :=
  match fuel, rest with
  | S fuel', p :: _ =>
      let (group, rest') := take_ties (fst p) rest in
      let j := (i + List.length group)%nat in
      let rank_sum := fold_left (fun sum k => (sum + double_of_size_t (k + 1))%float)
                                (seq i (List.length group)) 0%float in
      let avg_rank := (rank_sum / double_of_size_t (j - i))%float in
      map (fun q => (snd q, avg_rank)) group ++ rank_loop fuel' j rest'
  | _, _ => []
  end.

Definition column_ranks df (c : nat) : result (list (nat * double)) :=
  let values := filter (fun p => (fst p =? fst p)%float)
                       (tabulate (rows df) (fun r => (value_at df r c, r))) in
  if (List.length values <? 2)%nat
  then Err ("dataframe::spearman_correlation_matrix: insufficient data in column "
            ++ at_ EmptyString (columns_ df) c)%string
  else Ok (rank_loop (List.length values) 0 (stable_sort pair_less values)).

Definition rank_of (writes : list (nat * double)) (r : nat) (unranked : double)
  : double :=
  match find (fun q => (fst q =? r)%nat) writes with
  | Some q => snd q
  | None => unranked
  end.

Definition spearman_correlation_matrix df : result (DataFrame string) :=
  if is_nil (columns_ df)
  then Err "dataframe::spearman_correlation_matrix: no columns"
  else if (rows df <? 2)%nat
  then Err "dataframe::spearman_correlation_matrix: need at least two rows"
  else
    ranks <- tabulateM (cols df) (column_ranks df) ;;
    let ranked :=
      mkDataFrame (columns_ df) (index_ df)
        (imap (fun r row =>
                 imap (fun c v =>
                         if (c <? cols df)%nat then
                           if negb (v =? v)%float then quiet_NaN
                           else rank_of (at_ [] ranks c) r v
                         else v)
                      row)
              (data_ df))
        (index_name_ df) in
    correlation_matrix ranked.

(** The rows of columns [i] and [j] in which both values are present. *)
Definition kendall_pairs df (i j : nat) : list (double * double) :=
  filter (fun p => (fst p =? fst p)%float && (snd p =? snd p)%float)
         (tabulate (rows df) (fun r => (value_at df r i, value_at df r j))).

(** One pair of rows: the counters [(concordant, discordant)] after it. *)
Definition kendall_step (pa pb : double * double) (acc : Z * Z) : Z * Z :=
  let diff_i := (fst pa - fst pb)%float in
  let diff_j := (snd pa - snd pb)%float in
  if (diff_i =? 0)%float || (diff_j =? 0)%float then acc
  else if ((0 <? diff_i)%float && (0 <? diff_j)%float)
          || ((diff_i <? 0)%float && (diff_j <? 0)%float)
  then (fst acc + 1, snd acc)%Z
  else (fst acc, snd acc + 1)%Z.

(** The two nested loops over [a < b]. *)
Fixpoint kendall_count (pairs : list (double * double)) (acc : Z * Z) : Z * Z :=
  match pairs with
  | [] => acc
  | pa :: rest => kendall_count rest (fold_left (fun acc pb => kendall_step pa pb acc) rest acc)
  end.

Definition kendall_tau df (i j : nat) : double :=
  let pairs := kendall_pairs df i j in
  if (List.length pairs <? 2)%nat then quiet_NaN
  else
    let '(concordant, discordant) := kendall_count pairs (0, 0)%Z in
    let total := (concordant + discordant)%Z in
    if (total =? 0)%Z then quiet_NaN
    else (double_of_Z (concordant - discordant) / double_of_Z total)%float.

Definition kendall_tau_matrix df : result (DataFrame string) :=
  if is_nil (columns_ df)
  then Err "dataframe::kendall_tau_matrix: no columns"
  else if (rows df <? 2)%nat
  then Err "dataframe::kendall_tau_matrix: need at least two rows"
  else
    Ok (mkDataFrame (columns_ df) (columns_ df)
          (tabulate (cols df) (fun i =>
             tabulate (cols df) (fun j =>
               if (i =? j)%nat then 1%float
               else kendall_tau df (Nat.min i j) (Nat.max i j))))
          "column").

End Frame.

(** ** Vocabulary of the properties *)

(** Two frames have the same shape. *)
Definition same_shape {IndexT : Type} (df other : DataFrame IndexT) : Prop :=
  rows df = rows other /\ cols df = cols other.

(** The running state of column [c] in [rolling_loop] once the rows
    [0 .. r - 1] have been processed. *)
Definition rolling_state {S : Type} (step : nat -> nat -> S -> S) (init : S)
           (c r : nat) : S :=
  fold_left (fun st r' => step r' c st) (seq 0 r) init.

(** The number of cells that are not NaN among the [n] cells of column
    [c] from row [lo] on. *)
Definition valid_in {IndexT : Type} (df : DataFrame IndexT) (c lo n : nat) : Z :=
  Z.of_nat (List.length (filter (fun r => negb (isnan (value_at df r c))) (seq lo n))).

(** [sums[c]] of [rolling_mean] once the rows [0 .. r - 1] have been
    processed. *)
Definition running_sum {IndexT : Type} (df : DataFrame IndexT) (window c r : nat)
  : double :=
  fst (rolling_state (rolling_mean_step df window) (0%float, 0%Z) c r).

(** The cell at row [r] of column [c] is not NaN. *)
Definition present {IndexT : Type} (df : DataFrame IndexT) (r c : nat) : bool :=
  negb (isnan (value_at df r c)).

(** [std::isinf] *)
Definition isinf (v : double) : bool := is_infinity v.

(** A number in the sense of the specification's floats: a zero or a
    finite non-zero value. *)
Definition SFnumber (x : spec_float) : bool :=
  match x with
  | S754_zero _ | S754_finite _ _ _ => true
  | _ => false
  end.

(** The frame made of the rows of [df] in which no column holds NaN. *)
Definition complete_rows {IndexT : Type} `{IndexType IndexT} (df : DataFrame IndexT)
  : DataFrame IndexT :=
  mkDataFrame (columns_ df)
              (map (at_ index_init (index_ df)) (valid_rows df))
              (map (at_ [] (data_ df)) (valid_rows df))
              (index_name_ df).

(** Row [r] holds no NaN in any column. *)
Definition complete {IndexT : Type} (df : DataFrame IndexT) (r : nat) : bool :=
  forallb (fun c => negb (isnan (value_at df r c))) (seq 0 (cols df)).

(** The cells of column [c] in the rows that hold no NaN, top to bottom. *)
Definition complete_cells {IndexT : Type} (df : DataFrame IndexT) (c : nat)
  : list double :=
  map (fun r => value_at df r c) (filter (complete df) (seq 0 (rows df))).

(** The sample statistics of lists of doubles, in double arithmetic: a sum
    starts at 0.0 and runs from the first value to the last; the
    covariance and the variance divide the sum of the products of the
    deviations from the means by the count less one; the standard
    deviation is the square root of a positive variance, and 0.0 for a
    variance that is zero, negative or NaN. *)
Definition sample_mean (xs : list double) : double :=
  (fold_left (fun sum x => sum + x) xs 0 / double_of_size_t (List.length xs))%float.

Definition sample_covariance (xs ys : list double) : double :=
  (fold_left (fun sum xy =>
                sum + (fst xy - sample_mean xs) * (snd xy - sample_mean ys))
             (combine xs ys) 0
   / double_of_size_t (List.length xs - 1))%float.

Definition sample_variance (xs : list double) : double := sample_covariance xs xs.

Definition sample_standard_deviation (xs : list double) : double :=
  if (0 <? sample_variance xs)%float then PrimFloat.sqrt (sample_variance xs)
  else 0%float.

(** The running sum of a rolling window of [window] rows over a column,
    once the rows [0 .. r - 1] have been read: every cell that is not NaN
    is added when its row is read and subtracted [window] rows later. *)
Fixpoint incremental_sum (column : nat -> double) (window r : nat) : double :=
  match r with
  | 0 => 0%float
  | S r' =>
      let sum := incremental_sum column window r' in
      let sum := if isnan (column r') then sum else (sum + column r')%float in
      if (window <=? r')%nat
      then if isnan (column (r' - window)%nat) then sum
           else (sum - column (r' - window)%nat)%float
      else sum
  end.

(** Position [a] comes before position [b] in the order of [comp] with
    ties broken by position. *)
Definition before (comp : nat -> nat -> bool) (a b : nat) : Prop :=
  comp a b = true \/ (comp b a = false /\ a < b).

(** What the specification says of a sorted sequence of positions
    [order], for the sort keys [key]: of two positions, the one listed
    first never is a NaN key before a number (ascending) or a number before
    a NaN key (descending); two numbers are listed in the order asked for;
    and two positions whose keys are equal, or both NaN, are listed in
    their original order. *)
Definition sorted_as_specified (key : nat -> double) (ascending : bool)
           (order : list nat) : Prop :=
  forall p q, p < q -> q < List.length order ->
    let a := at_ 0 order p in
    let b := at_ 0 order q in
    (if ascending then isnan (key a) = true -> isnan (key b) = true
     else isnan (key b) = true -> isnan (key a) = true)
    /\ (isnan (key a) = false -> isnan (key b) = false ->
        if ascending then (key b <? key a)%float = false
        else (key a <? key b)%float = false)
    /\ ((key a =? key b)%float = true
        \/ (isnan (key a) = true /\ isnan (key b) = true) -> a < b).

(** [a] is not after [b] in the order of [comp]: [b < a] is false. *)
Definition not_after {A : Type} (comp : A -> A -> bool) (a b : A) : Prop :=
  comp b a = false.

(** What the standard promises of [std::sort] on doubles none of which is
    NaN: the vector holds the same values as before, and no value is less
    than one that stands before it. *)
Definition std_sort_contract (RT : Runtime) : Prop :=
  forall values, Forall (fun v => isnan v = false) values ->
    Permutation (std_sort values) values
    /\ StronglySorted (not_after PrimFloat.ltb) (std_sort values).

(** The columns a CSV header line declares, and the data lines of the
    text after the header: the lines that are not blank. *)
Definition csv_columns (header : string) (has_index : bool) : list string :=
  skipn (if has_index then 1 else 0) (detail.split_csv header).

Definition csv_data_lines (rest : string) : list string :=
  filter (fun line => negb (detail.empty (detail.trim line)))
         (detail.getlines newline rest).

(** A data line decodes to the row [row] of a frame with [ncols] columns:
    it splits into one field per column, plus one when an index is read;
    an empty cell field gives NaN and any other field the double that
    [std::stod] reads from it. *)
Definition line_decodes `{Runtime} (ncols : nat) (has_index : bool)
           (line : string) (row : list double) : Prop :=
  let fields := detail.split_csv line in
  let offset := if has_index then 1 else 0 in
  List.length fields = ncols + offset
  /\ List.length row = ncols
  /\ forall c, c < ncols ->
       let token := at_ EmptyString fields (c + offset) in
       (token = EmptyString -> isnan (at_ 0%float row c) = true)
       /\ (token <> EmptyString -> std_stod token = Ok (at_ 0%float row c)).

(** A data line that [from_csv] cannot decode: the number of fields is
    wrong, or a cell field is not empty and [std::stod] throws on it. *)
Definition line_malformed `{Runtime} (ncols : nat) (has_index : bool)
           (line : string) : Prop :=
  let fields := detail.split_csv line in
  let offset := if has_index then 1 else 0 in
  List.length fields <> ncols + offset
  \/ exists c, c < ncols
               /\ at_ EmptyString fields (c + offset) <> EmptyString
               /\ is_ok (std_stod (at_ EmptyString fields (c + offset))) = false.

(** The invariant of the data model: one index value per row, and in
    every row one cell per column. *)
Definition well_formed {IndexT : Type} (df : DataFrame IndexT) : Prop :=
  List.length (index_ df) = rows df
  /\ Forall (fun row => List.length row = cols df) (data_ df).

(** [set_index_name] *)
Definition set_index_name {IndexT : Type} (df : DataFrame IndexT) (name : string)
  : DataFrame IndexT :=
  mkDataFrame (columns_ df) (index_ df) (data_ df) name.

(** The frames a program can obtain through the public interface of
    [DataFrame]: the default-constructed frame, the results of the static
    factories, and the results of the member functions on frames obtained
    before. *)
Inductive produced `{Runtime}
  : forall (IndexT : Type), IndexType IndexT -> DataFrame IndexT -> Prop :=
| by_default T IT : produced T IT (mkDataFrame [] [] [] "index")
| by_from_csv T IT input has_index df :
    from_csv input has_index = Ok df -> produced T IT df
| by_from_vectors T IT indices columns data df :
    from_vectors indices columns data = Ok df -> produced T IT df
| by_from_binary T IT input df rest :
    from_binary input = Ok (df, rest) -> produced T IT df
| by_random_normal T IT dist nrows columns mean stddev seed target_corr df :
    random_normal dist nrows columns mean stddev seed target_corr = Ok df ->
    produced T IT df
| by_random_uniform T IT dist nrows columns min max seed df :
    random_uniform dist nrows columns min max seed = Ok df -> produced T IT df
| by_set_index_name T IT df name :
    produced T IT df -> produced T IT (set_index_name df name)
| by_add_column T IT df name values out :
    produced T IT df -> add_column df name values = Ok out -> produced T IT out
| by_differences T IT df out :
    produced T IT df -> differences df = Ok out -> produced T IT out
| by_log_changes T IT df out :
    produced T IT df -> log_changes df = Ok out -> produced T IT out
| by_proportional_changes T IT df out :
    produced T IT df -> proportional_changes df = Ok out -> produced T IT out
| by_add T IT df value out :
    produced T IT df -> add df value = Ok out -> produced T IT out
| by_subtract T IT df value out :
    produced T IT df -> subtract df value = Ok out -> produced T IT out
| by_multiply T IT df value out :
    produced T IT df -> multiply df value = Ok out -> produced T IT out
| by_divide T IT df value out :
    produced T IT df -> divide df value = Ok out -> produced T IT out
| by_add_frame T IT df other out :
    produced T IT df -> produced T IT other -> add_frame df other = Ok out ->
    produced T IT out
| by_subtract_frame T IT df other out :
    produced T IT df -> produced T IT other -> subtract_frame df other = Ok out ->
    produced T IT out
| by_multiply_frame T IT df other out :
    produced T IT df -> produced T IT other -> multiply_frame df other = Ok out ->
    produced T IT out
| by_divide_frame T IT df other out :
    produced T IT df -> produced T IT other -> divide_frame df other = Ok out ->
    produced T IT out
| by_log_elements T IT df out :
    produced T IT df -> log_elements df = Ok out -> produced T IT out
| by_exp_elements T IT df out :
    produced T IT df -> exp_elements df = Ok out -> produced T IT out
| by_power T IT df exponent out :
    produced T IT df -> power df exponent = Ok out -> produced T IT out
| by_power_int T IT df exponent out :
    produced T IT df -> power_int df exponent = Ok out -> produced T IT out
| by_standardize T IT df :
    produced T IT df -> produced T IT (standardize df)
| by_normalize T IT df :
    produced T IT df -> produced T IT (normalize df)
| by_select_rows T IT df values out :
    produced T IT df -> select_rows df values = Ok out -> produced T IT out
| by_select_columns T IT df names out :
    produced T IT df -> select_columns df names = Ok out -> produced T IT out
| by_slice_rows_range T IT df start end_ inclusive_end out :
    produced T IT df -> slice_rows_range df start end_ inclusive_end = Ok out ->
    produced T IT out
| by_head_rows T IT df count out :
    produced T IT df -> head_rows df count = Ok out -> produced T IT out
| by_tail_rows T IT df count out :
    produced T IT df -> tail_rows df count = Ok out -> produced T IT out
| by_head_columns T IT df count out :
    produced T IT df -> head_columns df count = Ok out -> produced T IT out
| by_tail_columns T IT df count out :
    produced T IT df -> tail_columns df count = Ok out -> produced T IT out
| by_sort_rows_by_column T IT df column_name ascending out :
    produced T IT df -> sort_rows_by_column df column_name ascending = Ok out ->
    produced T IT out
| by_sort_columns_by_row T IT df index_value ascending out :
    produced T IT df -> sort_columns_by_row df index_value ascending = Ok out ->
    produced T IT out
| by_rolling_mean T IT df window out :
    produced T IT df -> rolling_mean df window = Ok out -> produced T IT out
| by_rolling_std T IT df window out :
    produced T IT df -> rolling_std df window = Ok out -> produced T IT out
| by_rolling_rms T IT df window out :
    produced T IT df -> rolling_rms df window = Ok out -> produced T IT out
| by_exponential_moving_average T IT df alpha out :
    produced T IT df -> exponential_moving_average df alpha = Ok out ->
    produced T IT out
| by_resample_rows T IT df entropy sample_size reset_index out :
    produced T IT df -> resample_rows df entropy sample_size reset_index = Ok out ->
    produced T IT out
| by_remove_rows_with_nan T IT df out :
    produced T IT df -> remove_rows_with_nan df = Ok out -> produced T IT out
| by_remove_columns_with_nan T IT df out :
    produced T IT df -> remove_columns_with_nan df = Ok out -> produced T IT out
| by_column_stats_dataframe T IT df :
    produced T IT df -> produced string string_index (column_stats_dataframe df)
| by_correlation_matrix T IT df out :
    produced T IT df -> correlation_matrix df = Ok out ->
    produced string string_index out
| by_spearman_correlation_matrix T IT df out :
    produced T IT df -> spearman_correlation_matrix df = Ok out ->
    produced string string_index out
| by_kendall_tau_matrix T IT df out :
    produced T IT df -> kendall_tau_matrix df = Ok out ->
    produced string string_index out
| by_column_percentiles T IT df percentiles out :
    produced T IT df -> column_percentiles df percentiles = Ok out ->
    produced string string_index out
| by_covariance_matrix T IT df out :
    produced T IT df -> covariance_matrix df = Ok out ->
    produced string string_index out.

(** [c] occurs in [s]. *)
Fixpoint has_char (c : ascii) (s : string) : bool :=
  match s with
  | EmptyString => false
  | String x s' => Ascii.eqb x c || has_char c s'
  end.

(** A field the text format carries unchanged: no comma, no line break,
    and no white space that [trim] would remove. *)
Definition clean (s : string) : Prop :=
  has_char "," s = false /\ has_char newline s = false /\ detail.trim s = s.

(** A size that a [std::uint64_t] holds. *)
Definition fits_size_t (n : nat) : Prop := (Z.of_nat n < 2 ^ 64)%Z.

(** An index value that [read_index_value] restores from the bytes
    [write_index_value] writes, whatever follows them in the stream. *)
Definition binary_stable {IndexT : Type} `{IndexType IndexT} (x : IndexT) : Prop :=
  forall rest, read_index_value (write_index_value x ++ rest) = Ok (x, rest).

(** A frame whose sizes are sizes of C++ objects and whose index values
    are restored from their bytes. *)
Definition binary_representable {IndexT : Type} `{IndexType IndexT}
           (df : DataFrame IndexT) : Prop :=
  fits_size_t (rows df) /\ fits_size_t (cols df)
  /\ fits_size_t (String.length (index_name_ df))
  /\ Forall (fun name => fits_size_t (String.length name)) (columns_ df)
  /\ Forall binary_stable (index_ df).

(** An index value that [index_to_string] writes as a clean field which
    [parse_token] reads back as the same value. *)
Definition text_stable {IndexT : Type} `{IndexType IndexT} (x : IndexT) : Prop :=
  exists s, index_to_string x = Ok s /\ clean s /\ parse_token s = Ok x.

(** A cell that is missing, or that [os << v] writes as a clean, non-empty
    field which [std::stod] reads back as the same double. *)
Definition cell_stable `{Runtime} (v : double) : Prop :=
  isnan v = true
  \/ (ostream_double v <> EmptyString /\ clean (ostream_double v)
      /\ std_stod (ostream_double v) = Ok v).

(** A frame with at least one column whose labels, index values and cells
    the text format carries. *)
Definition text_representable `{Runtime} {IndexT : Type} `{IndexType IndexT}
           (df : DataFrame IndexT) : Prop :=
  columns_ df <> [] /\ clean (index_name_ df) /\ Forall clean (columns_ df)
  /\ Forall text_stable (index_ df)
  /\ Forall (Forall cell_stable) (data_ df).

(** Every character of [s] satisfies [p]. *)
Fixpoint all_chars (p : ascii -> bool) (s : string) : bool :=
  match s with
  | EmptyString => true
  | String c s' => p c && all_chars p s'
  end.

(** ** Raw buffers *)

(** The memory [out] points to, by offset; [out[i] = v] changes one
    position. *)
Definition buffer : Type := nat -> double.

Definition store (out : buffer) (i : nat) (v : double) : buffer :=
  fun j => if (j =? i)%nat then v else out j.

(** [to_row_major] and [to_column_major]: the buffer after the call; a
    null pointer is [None]. *)
Definition to_row_major {IndexT : Type} (df : DataFrame IndexT) (out : option buffer)
           (row_stride : nat) : result buffer :=
  match out with
  | None => Err "dataframe::to_row_major: output buffer is null"
  | Some out =>
      let row_count := rows df in
      let col_count := cols df in
      if (row_count =? 0)%nat || (col_count =? 0)%nat then Ok out
      else
        let stride := if (row_stride =? 0)%nat then col_count else row_stride in
        if (stride <? col_count)%nat
        then Err "dataframe::to_row_major: row_stride is too small"
        else
          Ok (fold_left
                (fun out r =>
                   fold_left (fun out c => store out (r * stride + c) (value_at df r c))
                             (seq 0 col_count) out)
                (seq 0 row_count) out)
  end.

Definition to_column_major {IndexT : Type} (df : DataFrame IndexT) (out : option buffer)
           (column_stride : nat) : result buffer :=
  match out with
  | None => Err "dataframe::to_column_major: output buffer is null"
  | Some out =>
      let row_count := rows df in
      let col_count := cols df in
      if (row_count =? 0)%nat || (col_count =? 0)%nat then Ok out
      else
        let stride := if (column_stride =? 0)%nat then row_count else column_stride in
        if (stride <? row_count)%nat
        then Err "dataframe::to_column_major: column_stride is too small"
        else
          Ok (fold_left
                (fun out c =>
                   fold_left (fun out r => store out (c * stride + r) (value_at df r c))
                             (seq 0 row_count) out)
                (seq 0 col_count) out)
  end.

(** ** sample_utils.h *)

Module samples.

(** The text the loaders hand to [from_csv]: the header line and every
    line after it that is not empty, each followed by a line break. *)
Definition buffered (header : string) (lines : list string) : string :=
  (header ++ String newline
     (String.concat EmptyString
        (map (fun line => line ++ String newline EmptyString)
             (filter (fun line => negb (detail.empty line)) lines))))%string.

(** [file] is the content of the file at [path], [None] when it cannot be
    opened. *)
Definition load_prices_dataframe {RT : Runtime} (path : string) (file : option string)
  : result (DataFrame Date) :=
  match file with
  | None => Err ("samples::load_prices_dataframe: failed to open " ++ path)%string
  | Some input =>
      match detail.getline newline input with
      | None => Err "samples::load_prices_dataframe: empty file"
      | Some (header, rest) =>
          df <- from_csv (buffered header (detail.getlines newline rest)) true ;;
          Ok (set_index_name df "Date")
      end
  end.

Definition load_intraday_dataframe {RT : Runtime} (path : string) (file : option string)
  : result (DataFrame DateTime) :=
  match file with
  | None => Err ("samples::load_intraday_dataframe: failed to open " ++ path)%string
  | Some input =>
      match detail.getline newline input with
      | None => Err "samples::load_intraday_dataframe: empty file"
      | Some (header, rest) =>
          df <- from_csv (buffered header (detail.getlines newline rest)) true ;;
          Ok (set_index_name df "Datetime")
      end
  end.

End samples.

(* ================================================================== *)
(** * Part II. Properties *)
(* ================================================================== *)

(** ** Vectors and loops *)

Lemma isnan_quiet_NaN : isnan quiet_NaN = true.
Proof. reflexivity. Qed.

Lemma tabulate_length {A : Type} (n : nat) (f : nat -> A) :
  List.length (tabulate n f) = n.
Proof. unfold tabulate. now rewrite length_map, length_seq. Qed.

Lemma tabulate_at {A : Type} (d : A) (n : nat) (f : nat -> A) (i : nat) :
  i < n -> at_ d (tabulate n f) i = f i.
Proof.
  intros Hi. unfold at_, tabulate.
  rewrite (nth_indep _ d (f 0)) by (now rewrite length_map, length_seq).
  rewrite (map_nth f (seq 0 n) 0 i), seq_nth; auto.
Qed.

Lemma filled_length {A : Type} (n : nat) (x : A) : List.length (filled n x) = n.
Proof. apply repeat_length. Qed.

Lemma imap_length {A B : Type} (f : nat -> A -> B) (v : list A) :
  List.length (imap f v) = List.length v.
Proof.
  unfold imap. rewrite length_map, length_combine, length_seq.
  apply Nat.min_id.
Qed.

Lemma imap_at {A B : Type} (da : A) (db : B) (f : nat -> A -> B) (v : list A) (i : nat) :
  i < List.length v -> at_ db (imap f v) i = f i (at_ da v i).
Proof.
  intros Hi. unfold at_, imap.
  rewrite (nth_indep _ db (f 0 da)).
  - rewrite (map_nth (fun p => f (fst p) (snd p)) _ (0, da) i).
    rewrite combine_nth by (now rewrite length_seq).
    rewrite seq_nth by assumption. reflexivity.
  - rewrite length_map, length_combine, length_seq. lia.
Qed.

Lemma mapM_ok_length {A B : Type} (f : A -> result B) (l : list A) (out : list B) :
  mapM f l = Ok out -> List.length out = List.length l.
Proof.
  revert out. induction l as [|x l IH]; simpl; intros out H.
  - now inversion H.
  - destruct (f x) as [y|]; simpl in H; try discriminate.
    destruct (mapM f l) as [ys|]; simpl in H; try discriminate.
    inversion H; subst. simpl. now rewrite (IH ys).
Qed.

Lemma mapM_ok_Forall2 {A B : Type} (f : A -> result B) (l : list A) (out : list B) :
  mapM f l = Ok out -> Forall2 (fun x y => f x = Ok y) l out.
Proof.
  revert out. induction l as [|x l IH]; simpl; intros out H.
  - inversion H. constructor.
  - destruct (f x) as [y|] eqn:Hx; simpl in H; try discriminate.
    destruct (mapM f l) as [ys|]; simpl in H; try discriminate.
    inversion H; subst. constructor; auto.
Qed.

Lemma mapM_ok_at {A B : Type} (da : A) (db : B) (f : A -> result B)
      (l : list A) (out : list B) (i : nat) :
  mapM f l = Ok out -> i < List.length l -> f (at_ da l i) = Ok (at_ db out i).
Proof.
  intros H. apply mapM_ok_Forall2 in H. revert i.
  induction H as [|x y l out Hxy _ IH]; intros i Hi; simpl in Hi; [lia|].
  destruct i as [|i]; simpl; [assumption|]. apply IH. lia.
Qed.

Lemma mapM_err {A B : Type} (f : A -> result B) (l : list A) (x : A) :
  In x l -> is_ok (f x) = false -> is_ok (mapM f l) = false.
Proof.
  induction l as [|y l IH]; simpl; intros Hin Hx; [contradiction|].
  destruct (f y) as [b|] eqn:Hy; simpl; [|reflexivity].
  destruct Hin as [->|Hin]; [rewrite Hy in Hx; discriminate|].
  specialize (IH Hin Hx). destruct (mapM f l); simpl; [discriminate|reflexivity].
Qed.

Lemma mapM_all_ok {A B : Type} (f : A -> result B) (l : list A) :
  (forall x, In x l -> is_ok (f x) = true) -> is_ok (mapM f l) = true.
Proof.
  induction l as [|y l IH]; simpl; intros H; [reflexivity|].
  assert (Hy : is_ok (f y) = true) by (apply H; now left).
  destruct (f y); simpl in *; [|discriminate].
  assert (Hl : is_ok (mapM f l) = true) by (apply IH; intros; apply H; now right).
  destruct (mapM f l); simpl in *; [reflexivity|discriminate].
Qed.

(** A loop that throws, throws the message of the first body that does. *)
Lemma mapM_err_msg {A B : Type} (f : A -> result B) (l : list A) (msg : string) :
  (forall x m, In x l -> f x = Err m -> m = msg) ->
  is_ok (mapM f l) = false -> mapM f l = Err msg.
Proof.
  induction l as [|y l IH]; simpl; intros H Hbad; [discriminate|].
  destruct (f y) as [b|m] eqn:Hy; simpl in *.
  - destruct (mapM f l) as [ys|m] eqn:Hl; simpl in *; [discriminate|].
    assert (E : Err (A:=list B) m = Err msg).
    { apply IH; [|reflexivity]. intros x m' Hin. apply H. now right. }
    now inversion E.
  - f_equal. apply (H y m); auto.
Qed.

Lemma tabulateM_ok_length {A : Type} (n : nat) (f : nat -> result A) (out : list A) :
  tabulateM n f = Ok out -> List.length out = n.
Proof.
  unfold tabulateM. intros H. apply mapM_ok_length in H. now rewrite length_seq in H.
Qed.

Lemma tabulateM_ok_at {A : Type} (d : A) (n : nat) (f : nat -> result A)
      (out : list A) (i : nat) :
  tabulateM n f = Ok out -> i < n -> f i = Ok (at_ d out i).
Proof.
  unfold tabulateM. intros H Hi.
  pose proof (mapM_ok_at 0 d f (seq 0 n) out i H) as E.
  rewrite length_seq in E. specialize (E Hi).
  unfold at_ in E at 1. now rewrite seq_nth in E.
Qed.

Lemma tabulateM_err {A : Type} (n : nat) (f : nat -> result A) (i : nat) :
  i < n -> is_ok (f i) = false -> is_ok (tabulateM n f) = false.
Proof.
  intros Hi Hf. unfold tabulateM. apply (mapM_err f (seq 0 n) i); auto.
  apply in_seq. lia.
Qed.

Lemma existsb_eqb_In (name : string) (l : list string) :
  contains String.eqb name l = true <-> In name l.
Proof.
  unfold contains. rewrite existsb_exists. split.
  - intros [x [Hin Heq]]. apply String.eqb_eq in Heq. now subst.
  - intros Hin. exists name. split; auto. apply String.eqb_refl.
Qed.

Lemma vector_eqb_string (u v : list string) :
  vector_eqb String.eqb u v = true <-> u = v.
Proof.
  revert v. induction u as [|x u IH]; destruct v as [|y v]; simpl;
    try (split; [discriminate|discriminate]); try tauto.
  rewrite andb_true_iff, String.eqb_eq, IH. split.
  - intros [-> ->]. reflexivity.
  - intros H. inversion H. auto.
Qed.

(** ** add_column *)

Section AddColumn.

Context {IndexT : Type}.
Implicit Types df : DataFrame IndexT.

Lemma is_nil_true {A : Type} (v : list A) : is_nil v = true <-> v = [].
Proof. destruct v; simpl; split; congruence. Qed.

Lemma add_column_duplicate df name values :
  In name (columns_ df) ->
  add_column df name values = Err "dataframe::add_column: column already exists".
Proof.
  intros Hin. unfold add_column.
  apply existsb_eqb_In in Hin. now rewrite Hin.
Qed.

Lemma add_column_fresh df name values :
  ~ In name (columns_ df) ->
  add_column df name values =
  if (rows df =? 0)%nat then
    if negb (is_nil values)
    then Err "dataframe::add_column: cannot add data to an empty dataframe"
    else Ok (mkDataFrame (columns_ df ++ [name]) (index_ df) (data_ df) (index_name_ df))
  else if negb (List.length values =? rows df)%nat
  then Err "dataframe::add_column: value count mismatch"
  else Ok (mkDataFrame (columns_ df ++ [name]) (index_ df)
             (imap (fun r row => row ++ [at_ 0%float values r]) (data_ df))
             (index_name_ df)).
Proof.
  intros Hnot. unfold add_column.
  destruct (contains String.eqb name (columns_ df)) eqn:E; [|reflexivity].
  apply existsb_eqb_In in E. contradiction.
Qed.

(** C10. [add_column] fails when the name is already a column; on a frame
    without rows it succeeds exactly when the value vector is empty, and
    then only the name is appended; on a frame with rows it succeeds
    exactly when there is one value per row; and when it succeeds the
    index, the index label, the existing column names and the existing
    cells are as before, the column list has the new name at its end and
    row [r] has [values[r]] at its end. *)
Theorem add_column_contract df name values :
  (In name (columns_ df) -> is_ok (add_column df name values) = false)
  /\ (rows df = 0 ->
      (is_ok (add_column df name values) = true
       <-> ~ In name (columns_ df) /\ values = [])
      /\ (~ In name (columns_ df) -> values = [] ->
          add_column df name values =
          Ok (mkDataFrame (columns_ df ++ [name]) (index_ df) (data_ df)
                          (index_name_ df))))
  /\ (0 < rows df ->
      (is_ok (add_column df name values) = true
       <-> ~ In name (columns_ df) /\ List.length values = rows df))
  /\ (forall df', add_column df name values = Ok df' ->
      index_ df' = index_ df
      /\ index_name_ df' = index_name_ df
      /\ columns_ df' = columns_ df ++ [name]
      /\ rows df' = rows df
      /\ forall r, r < rows df ->
           at_ [] (data_ df') r = at_ [] (data_ df) r ++ [at_ 0%float values r]).
Proof.
  split; [|split; [|split]].
  - intros Hin. now rewrite add_column_duplicate.
  - intros Hrows. split.
    + split.
      * intros Hok. destruct (in_dec string_dec name (columns_ df)) as [Hin|Hnot].
        { rewrite add_column_duplicate in Hok by assumption. discriminate. }
        split; [assumption|].
        rewrite add_column_fresh, Hrows in Hok by assumption. simpl in Hok.
        destruct values; [reflexivity|discriminate].
      * intros [Hnot ->]. rewrite add_column_fresh, Hrows by assumption. reflexivity.
    + intros Hnot ->. rewrite add_column_fresh, Hrows by assumption. reflexivity.
  - intros Hrows.
    assert (E0 : (rows df =? 0)%nat = false) by (apply Nat.eqb_neq; lia).
    split.
    + intros Hok. destruct (in_dec string_dec name (columns_ df)) as [Hin|Hnot].
      { rewrite add_column_duplicate in Hok by assumption. discriminate. }
      split; [assumption|].
      rewrite add_column_fresh, E0 in Hok by assumption.
      destruct (List.length values =? rows df)%nat eqn:E; [|discriminate].
      now apply Nat.eqb_eq.
    + intros [Hnot Hlen]. rewrite add_column_fresh, E0 by assumption.
      apply Nat.eqb_eq in Hlen. now rewrite Hlen.
  - intros df' Hok.
    destruct (in_dec string_dec name (columns_ df)) as [Hin|Hnot].
    { rewrite add_column_duplicate in Hok by assumption. discriminate. }
    rewrite add_column_fresh in Hok by assumption.
    destruct (rows df =? 0)%nat eqn:E0.
    + destruct (negb (is_nil values)); [discriminate|].
      inversion Hok; subst; simpl. repeat split; auto.
      apply Nat.eqb_eq in E0. intros r Hr. lia.
    + destruct (negb (List.length values =? rows df)%nat); [discriminate|].
      inversion Hok; subst; simpl. repeat split; auto.
      * unfold rows. simpl. apply imap_length.
      * intros r Hr. now rewrite (imap_at [] []).
Qed.

End AddColumn.

(** ** Elementwise binary operations and division *)

Section Binary.

Context {IndexT : Type} {IT : IndexType IndexT}.
Implicit Types df other : DataFrame IndexT.

Lemma same_shape_dec df other :
  (negb (rows df =? rows other)%nat || negb (cols df =? cols other)%nat) = false
  <-> same_shape df other.
Proof.
  unfold same_shape. rewrite orb_false_iff, !negb_false_iff, !Nat.eqb_eq. tauto.
Qed.

Lemma apply_binary_checks df other func name :
  (~ same_shape df other ->
   apply_binary df other func name
   = Err ("dataframe::" ++ name ++ ": shape mismatch")%string)
  /\ (same_shape df other -> columns_ df <> columns_ other ->
      apply_binary df other func name
      = Err ("dataframe::" ++ name ++ ": column mismatch")%string)
  /\ (same_shape df other -> columns_ df = columns_ other ->
      vector_eqb index_eqb (index_ df) (index_ other) = false ->
      apply_binary df other func name
      = Err ("dataframe::" ++ name ++ ": index mismatch")%string).
Proof.
  unfold apply_binary. repeat split.
  - intros Hshape.
    destruct (negb (rows df =? rows other)%nat || negb (cols df =? cols other)%nat) eqn:E;
      [reflexivity|].
    apply same_shape_dec in E. contradiction.
  - intros Hshape Hcols. apply same_shape_dec in Hshape. rewrite Hshape.
    destruct (vector_eqb String.eqb (columns_ df) (columns_ other)) eqn:E; [|reflexivity].
    apply vector_eqb_string in E. contradiction.
  - intros Hshape Hcols Hidx. apply same_shape_dec in Hshape. rewrite Hshape.
    apply vector_eqb_string in Hcols. rewrite Hcols, Hidx. reflexivity.
Qed.

Lemma divide_frame_zero df other r c :
  r < rows df -> c < cols df ->
  (value_at other r c =? 0)%float = true ->
  is_ok (divide_frame df other) = false.
Proof.
  intros Hr Hc Hz. unfold divide_frame, apply_binary.
  destruct (negb (rows df =? rows other)%nat || negb (cols df =? cols other)%nat);
    [reflexivity|].
  destruct (negb (vector_eqb String.eqb (columns_ df) (columns_ other))); [reflexivity|].
  destruct (negb (vector_eqb index_eqb (index_ df) (index_ other))); [reflexivity|].
  match goal with
  | |- is_ok (bind ?m _) = false => assert (Hm : is_ok m = false)
  end.
  { apply (tabulateM_err _ _ r Hr). apply (tabulateM_err _ _ c Hc).
    now rewrite Hz. }
  destruct (tabulateM _ _); [discriminate|reflexivity].
Qed.

(** C5. The elementwise operations of two frames fail with the shape
    error when the shapes differ, else with the column error when the
    column sequences differ, else with the index error when the index
    sequences differ; [divide] by a frame fails when a divisor cell is
    zero; [divide] by the scalar zero fails whatever the cells are. *)
Theorem binary_operation_failures df other :
  (forall op name,
      In (op, name) [(add_frame df other, "add"); (subtract_frame df other, "subtract");
                     (multiply_frame df other, "multiply");
                     (divide_frame df other, "divide")] ->
      (~ same_shape df other ->
       op = Err ("dataframe::" ++ name ++ ": shape mismatch")%string)
      /\ (same_shape df other -> columns_ df <> columns_ other ->
          op = Err ("dataframe::" ++ name ++ ": column mismatch")%string)
      /\ (same_shape df other -> columns_ df = columns_ other ->
          vector_eqb index_eqb (index_ df) (index_ other) = false ->
          op = Err ("dataframe::" ++ name ++ ": index mismatch")%string))
  /\ (forall r c, r < rows df -> c < cols df ->
      (value_at other r c =? 0)%float = true ->
      is_ok (divide_frame df other) = false)
  /\ (forall value, (value =? 0)%float = true ->
      divide df value = Err "dataframe::divide: division by zero").
Proof.
  split; [|split].
  - intros op name Hin. simpl in Hin.
    destruct Hin as [H|[H|[H|[H|[]]]]]; inversion H; subst;
      apply apply_binary_checks.
  - apply divide_frame_zero.
  - intros value Hz. unfold divide. now rewrite Hz.
Qed.

End Binary.

(** ** Logarithms and missing values *)

Lemma mapM_err_inv {A B : Type} (f : A -> result B) (l : list A) :
  is_ok (mapM f l) = false -> exists x, In x l /\ is_ok (f x) = false.
Proof.
  induction l as [|y l IH]; simpl; intros H; [discriminate|].
  destruct (f y) as [b|m] eqn:Hy; simpl in H.
  - destruct (mapM f l) as [ys|m]; simpl in H; [discriminate|].
    destruct (IH eq_refl) as [x [Hin Hx]]. exists x. auto.
  - exists y. rewrite Hy. auto.
Qed.

Lemma In_at {A : Type} (d : A) (l : list A) (x : A) :
  In x l <-> exists i, i < List.length l /\ at_ d l i = x.
Proof.
  unfold at_. split.
  - intros H. destruct (In_nth l x d H) as [i [Hi E]]. eauto.
  - intros [i [Hi E]]. subst. now apply nth_In.
Qed.

Lemma tabulateM_err_msg {A : Type} (n : nat) (f : nat -> result A) (msg : string) :
  (forall i m, i < n -> f i = Err m -> m = msg) ->
  is_ok (tabulateM n f) = false -> tabulateM n f = Err msg.
Proof.
  intros H. unfold tabulateM. apply mapM_err_msg.
  intros x m Hin. apply H. apply in_seq in Hin. lia.
Qed.

Lemma tabulateM_err_same {A : Type} (n : nat) (f : nat -> result A) (msg m : string) :
  tabulateM n f = Err m ->
  (forall i m', i < n -> f i = Err m' -> m' = msg) -> m = msg.
Proof.
  intros E H.
  assert (Hbad : is_ok (tabulateM n f) = false) by (rewrite E; reflexivity).
  apply tabulateM_err_msg with (msg := msg) in Hbad; [|assumption].
  rewrite E in Hbad. now inversion Hbad.
Qed.

Section Logarithms.

Context {RT : Runtime} {IndexT : Type}.
Implicit Types df : DataFrame IndexT.

Lemma log_elements_unfold df :
  log_elements df =
  bind (mapM (mapM log_of) (data_ df))
       (fun data => Ok (mkDataFrame (columns_ df) (index_ df) data (index_name_ df))).
Proof. reflexivity. Qed.

Lemma log_elements_nan df out r c :
  log_elements df = Ok out ->
  r < rows df -> c < List.length (at_ [] (data_ df) r) ->
  isnan (value_at df r c) = true -> isnan (value_at out r c) = true.
Proof.
  rewrite log_elements_unfold. intros H Hr Hc Hnan.
  destruct (mapM (mapM log_of) (data_ df)) as [data|] eqn:E; simpl in H; [|discriminate].
  inversion H; subst; clear H. unfold value_at, cell. cbn [data_].
  pose proof (mapM_ok_at [] [] _ _ _ r E Hr) as Erow.
  pose proof (mapM_ok_at 0%float 0%float _ _ _ c Erow Hc) as Ecell.
  unfold value_at, cell in Hnan. unfold log_of in Ecell at 1.
  rewrite Hnan in Ecell. inversion Ecell as [E']. reflexivity.
Qed.

Lemma log_elements_fails df :
  is_ok (log_elements df) = false
  <-> exists r c, r < rows df /\ c < List.length (at_ [] (data_ df) r)
                  /\ isnan (value_at df r c) = false
                  /\ (0 <? value_at df r c)%float = false.
Proof.
  rewrite log_elements_unfold. split.
  - intros H.
    assert (Hm : is_ok (mapM (mapM log_of) (data_ df)) = false).
    { destruct (mapM (mapM log_of) (data_ df)); [discriminate|reflexivity]. }
    apply mapM_err_inv in Hm. destruct Hm as [row [Hin Hrow]].
    apply (In_at []) in Hin. destruct Hin as [r [Hr <-]].
    apply mapM_err_inv in Hrow. destruct Hrow as [v [Hin Hv]].
    apply (In_at 0%float) in Hin. destruct Hin as [c [Hc Ev]].
    exists r, c. unfold value_at, cell. rewrite Ev.
    unfold log_of in Hv. repeat split; auto.
    + destruct (isnan v); [discriminate|reflexivity].
    + destruct (isnan v); [discriminate|].
      destruct (0 <? v)%float; [discriminate|reflexivity].
  - intros [r [c [Hr [Hc [Hnan Hpos]]]]].
    assert (Hm : is_ok (mapM (mapM log_of) (data_ df)) = false).
    { apply (mapM_err _ _ (at_ [] (data_ df) r)).
      - apply (In_at []). eauto.
      - apply (mapM_err _ _ (value_at df r c)).
        + apply (In_at 0%float). eauto.
        + unfold log_of. now rewrite Hnan, Hpos. }
    destruct (mapM (mapM log_of) (data_ df)); [discriminate|reflexivity].
Qed.

Lemma isnan_not_positive (v : double) : isnan v = true -> (0 <? v)%float = false.
Proof.
  unfold isnan. rewrite negb_true_iff, FloatAxioms.eqb_spec, ltb_spec.
  unfold SFeqb, SFltb. destruct (Prim2SF v) as [s| s| |s m e]; simpl; try discriminate.
  - destruct s; discriminate.
  - reflexivity.
  - destruct s; simpl.
    + rewrite Z.compare_refl, Pos.compare_cont_refl. discriminate.
    + rewrite Z.compare_refl, Pos.compare_cont_refl. discriminate.
Qed.

Lemma log_changes_nan df r c :
  2 <= rows df -> r < rows df -> c < cols df ->
  isnan (value_at df r c) = true ->
  log_changes df = Err "dataframe::log_changes: non-positive value encountered".
Proof.
  intros Hrows Hr Hc Hnan. unfold log_changes.
  assert (E : (rows df <? 2)%nat = false) by (apply Nat.ltb_ge; lia).
  rewrite E.
  match goal with
  | |- bind ?m _ = _ =>
      assert (Hm : m = Err "dataframe::log_changes: non-positive value encountered")
  end.
  { apply tabulateM_err_msg.
    - intros i m Hi Hrow.
      apply (tabulateM_err_same _ _ _ _ Hrow).
      intros j m' _. cbv zeta.
      destruct (negb (0 <? value_at df i j)%float || negb (0 <? value_at df (i + 1) j)%float);
        intros H; now inversion H.
    - apply isnan_not_positive in Hnan.
      destruct (Nat.eq_dec r 0) as [->|Hr0].
      + apply (tabulateM_err _ _ 0); [lia|]. apply (tabulateM_err _ _ c Hc).
        simpl. now rewrite Hnan.
      + apply (tabulateM_err _ _ (r - 1)); [lia|]. apply (tabulateM_err _ _ c Hc).
        simpl. replace (r - 1 + 1) with r by lia. rewrite Hnan.
        now rewrite orb_true_r. }
  now rewrite Hm.
Qed.

(** C9. [log_elements] maps a NaN cell to NaN and fails exactly when some
    cell is not NaN and not positive; [log_changes], on a frame of at least
    two rows, fails with its non-positive-value error as soon as any cell
    is NaN. *)
Theorem log_changes_rejects_missing_values df :
  (forall out r c,
      log_elements df = Ok out ->
      r < rows df -> c < List.length (at_ [] (data_ df) r) ->
      isnan (value_at df r c) = true -> isnan (value_at out r c) = true)
  /\ (is_ok (log_elements df) = false
      <-> exists r c, r < rows df /\ c < List.length (at_ [] (data_ df) r)
                      /\ isnan (value_at df r c) = false
                      /\ (0 <? value_at df r c)%float = false)
  /\ (forall r c,
      2 <= rows df -> r < rows df -> c < cols df ->
      isnan (value_at df r c) = true ->
      log_changes df = Err "dataframe::log_changes: non-positive value encountered").
Proof.
  split; [|split].
  - apply log_elements_nan.
  - apply log_elements_fails.
  - apply log_changes_nan.
Qed.

End Logarithms.

(** ** Doubles *)

Lemma isnan_spec (v : double) : isnan v = true <-> Prim2SF v = S754_nan.
Proof.
  unfold isnan. rewrite negb_true_iff, FloatAxioms.eqb_spec. unfold SFeqb.
  destruct (Prim2SF v) as [s|s| |s m e]; simpl.
  - split; discriminate.
  - destruct s; split; discriminate.
  - split; reflexivity.
  - destruct s; rewrite Z.compare_refl, Pos.compare_cont_refl; split; discriminate.
Qed.

Lemma isnan_false_spec (v : double) : isnan v = false <-> Prim2SF v <> S754_nan.
Proof.
  rewrite <- isnan_spec. destruct (isnan v); split; congruence.
Qed.

Lemma isinf_spec (v : double) :
  isinf v = true <-> exists s, Prim2SF v = S754_infinity s.
Proof.
  unfold isinf, is_infinity. rewrite FloatAxioms.eqb_spec, abs_spec.
  change (Prim2SF infinity) with (S754_infinity false). unfold SFeqb.
  destruct (Prim2SF v) as [s|s| |s m e]; simpl.
  - split; [discriminate|]. intros [s' H]. discriminate.
  - split; eauto.
  - split; [discriminate|]. intros [s' H]. discriminate.
  - split; [discriminate|]. intros [s' H]. discriminate.
Qed.

Lemma number_spec (v : double) :
  isnan v = false -> isinf v = false -> SFnumber (Prim2SF v) = true.
Proof.
  intros Hnan Hinf. apply isnan_false_spec in Hnan.
  destruct (Prim2SF v) as [s|s| |s m e] eqn:E; simpl; try reflexivity.
  - assert (H : isinf v = true) by (apply isinf_spec; eauto). congruence.
  - congruence.
Qed.

Lemma shr_1_nonneg (mrs : shr_record) :
  (0 <= shr_m mrs)%Z -> (0 <= shr_m (shr_1 mrs))%Z.
Proof.
  destruct mrs as [m r s]. simpl.
  destruct m as [|p|p]; simpl; try lia; destruct p; simpl; lia.
Qed.

Lemma iter_pos_shr_1_nonneg (p : positive) (mrs : shr_record) :
  (0 <= shr_m mrs)%Z -> (0 <= shr_m (iter_pos shr_1 p mrs))%Z.
Proof.
  revert mrs. induction p as [p IH|p IH|]; intros mrs H; simpl.
  - apply IH, IH, shr_1_nonneg, H.
  - apply IH, IH, H.
  - apply shr_1_nonneg, H.
Qed.

Lemma shr_fexp_nonneg (m e : Z) (l : location) :
  (0 <= m)%Z -> (0 <= shr_m (fst (shr_fexp prec emax m e l)))%Z.
Proof.
  intros H. unfold shr_fexp, shr.
  assert (H0 : (0 <= shr_m (shr_record_of_loc m l))%Z).
  { destruct l as [|[| |]]; simpl; assumption. }
  destruct (fexp prec emax (Zdigits2 m + e) - e)%Z; simpl; auto.
  now apply iter_pos_shr_1_nonneg.
Qed.

Lemma round_nearest_even_nonneg (m : Z) (l : location) :
  (0 <= m)%Z -> (0 <= round_nearest_even m l)%Z.
Proof.
  intros H. unfold round_nearest_even.
  destruct l as [|[| |]]; try lia. destruct (Z.even m); lia.
Qed.

(** Rounding a non-negative mantissa never yields NaN. *)
Lemma binary_round_aux_number (sx : bool) (mx ex : Z) (lx : location) :
  (0 <= mx)%Z -> binary_round_aux prec emax sx mx ex lx <> S754_nan.
Proof.
  intros H. unfold binary_round_aux.
  pose proof (shr_fexp_nonneg mx ex lx H) as H1.
  destruct (shr_fexp prec emax mx ex lx) as [mrs' e']. simpl in H1.
  pose proof (shr_fexp_nonneg _ e' loc_Exact
                (round_nearest_even_nonneg _ (loc_of_shr_record mrs') H1)) as H2.
  destruct (shr_fexp prec emax (round_nearest_even (shr_m mrs') (loc_of_shr_record mrs'))
                     e' loc_Exact) as [mrs'' e'']. simpl in H2.
  destruct (shr_m mrs'') as [|p|p]; try discriminate; [|lia].
  destruct (e'' <=? emax - prec)%Z; discriminate.
Qed.

Lemma binary_round_number (sx : bool) (mx : positive) (ex : Z) :
  binary_round prec emax sx mx ex <> S754_nan.
Proof.
  unfold binary_round.
  destruct (shl_align mx ex (fexp prec emax (Z.pos (digits2_pos mx) + ex))) as [mz ez].
  apply binary_round_aux_number. lia.
Qed.

Lemma binary_normalize_number (m e : Z) (szero : bool) :
  binary_normalize prec emax m e szero <> S754_nan.
Proof.
  unfold binary_normalize. destruct m; try discriminate; apply binary_round_number.
Qed.

Lemma SFadd_number (x y : spec_float) :
  x <> S754_nan -> SFnumber y = true -> SFadd prec emax x y <> S754_nan.
Proof.
  intros Hx Hy.
  destruct x as [sx|sx| |sx mx ex]; destruct y as [sy|sy| |sy my ey];
    simpl in *; try discriminate; try congruence.
  - destruct sx, sy; discriminate.
  - apply binary_normalize_number.
Qed.

Lemma SFsub_number (x y : spec_float) :
  x <> S754_nan -> SFnumber y = true -> SFsub prec emax x y <> S754_nan.
Proof.
  intros Hx Hy.
  destruct x as [sx|sx| |sx mx ex]; destruct y as [sy|sy| |sy my ey];
    simpl in *; try discriminate; try congruence.
  - destruct sx, sy; discriminate.
  - apply binary_normalize_number.
Qed.

Lemma SFdiv_number (x : spec_float) (sy : bool) (my : positive) (ey : Z) :
  x <> S754_nan -> SFdiv prec emax x (S754_finite sy my ey) <> S754_nan.
Proof.
  intros Hx. destruct x as [sx|sx| |sx mx ex]; simpl; try discriminate; try congruence.
  unfold SFdiv_core_binary.
  set (e' := Z.min _ _). set (sft := (ex - ey - e')%Z).
  set (m' := match sft with Z.pos _ => Z.shiftl (Z.pos mx) sft | 0%Z => Z.pos mx
                       | Z.neg _ => 0%Z end).
  assert (Hm : (0 <= m')%Z).
  { unfold m'. destruct sft; try lia. apply Z.shiftl_nonneg. lia. }
  pose proof (Z_div_mod m' (Z.pos my) eq_refl) as Hdiv.
  destruct (Z.div_eucl m' (Z.pos my)) as [q r].
  apply binary_round_aux_number. destruct Hdiv as [Hq Hr]. nia.
Qed.

Lemma add_number (x y : double) :
  isnan x = false -> isnan y = false -> isinf y = false -> isnan (x + y)%float = false.
Proof.
  intros Hx Hy Hi. apply isnan_false_spec. rewrite add_spec.
  apply SFadd_number; [now apply isnan_false_spec | now apply number_spec].
Qed.

Lemma sub_number (x y : double) :
  isnan x = false -> isnan y = false -> isinf y = false -> isnan (x - y)%float = false.
Proof.
  intros Hx Hy Hi. apply isnan_false_spec. rewrite sub_spec.
  apply SFsub_number; [now apply isnan_false_spec | now apply number_spec].
Qed.

Lemma digits2_pos_lower (p : positive) : (2 ^ (Z.pos (digits2_pos p) - 1) <= Z.pos p)%Z.
Proof.
  induction p as [p IH|p IH|]; simpl digits2_pos.
  - rewrite Pos2Z.inj_succ. replace (Z.succ (Z.pos (digits2_pos p)) - 1)%Z with (Z.succ (Z.pos (digits2_pos p) - 1))%Z by lia.
    rewrite Z.pow_succ_r by lia. lia.
  - rewrite Pos2Z.inj_succ. replace (Z.succ (Z.pos (digits2_pos p)) - 1)%Z with (Z.succ (Z.pos (digits2_pos p) - 1))%Z by lia.
    rewrite Z.pow_succ_r by lia. lia.
  - simpl. lia.
Qed.
Lemma digits2_pos_upper (p : positive) : (Z.pos p < 2 ^ Z.pos (digits2_pos p))%Z.
Proof.
  induction p as [p IH|p IH|]; simpl digits2_pos.
  - rewrite Pos2Z.inj_succ, Z.pow_succ_r by lia. lia.
  - rewrite Pos2Z.inj_succ, Z.pow_succ_r by lia. lia.
  - simpl. lia.
Qed.
Lemma digits2_pos_iter (p k : positive) : digits2_pos (Pos.iter xO p k) = (digits2_pos p + k)%positive.
Proof.
  induction k as [|k IH] using Pos.peano_ind.
  - simpl. lia.
  - rewrite Pos.iter_succ. simpl. rewrite IH. lia.
Qed.
Lemma binary_round_aux_exact (sx : bool) (mz : positive) (ez : Z) :
  digits2_pos mz = 53%positive -> (-1074 <= ez <= 971)%Z ->
  binary_round_aux prec emax sx (Z.pos mz) ez loc_Exact = S754_finite sx mz ez.
Proof.
  intros Hd He. unfold binary_round_aux.
  assert (Hshr : forall l, shr_fexp prec emax (Z.pos mz) ez l = (shr_record_of_loc (Z.pos mz) l, ez)).
  { intros l. unfold shr_fexp. simpl Zdigits2. rewrite Hd.
    unfold fexp, SpecFloat.emin, prec, emax.
    replace (Z.max (53 + ez - 53) (3 - 1024 - 53) - ez)%Z with 0%Z by lia.
    reflexivity. }
  rewrite Hshr. cbn [shr_record_of_loc shr_m loc_of_shr_record round_nearest_even].
  rewrite Hshr. cbn [shr_record_of_loc shr_m].
  unfold prec, emax.
  destruct (ez <=? 1024 - 53)%Z eqn:E; [reflexivity|]. apply Z.leb_gt in E. lia.
Qed.

Lemma binary_normalize_small (p : positive) :
  (Z.pos p < 2 ^ 53)%Z ->
  exists m e, binary_normalize prec emax (Z.pos p) 0 false = S754_finite false m e.
Proof.
  intros Hp. pose proof (digits2_pos_lower p) as Hlo.
  assert (Hd : (Z.pos (digits2_pos p) <= 53)%Z).
  { destruct (Z_le_gt_dec (Z.pos (digits2_pos p)) 53) as [H|H]; [assumption|].
    assert (2 ^ 53 <= 2 ^ (Z.pos (digits2_pos p) - 1))%Z by (apply Z.pow_le_mono_r; lia).
    lia. }
  unfold binary_normalize, binary_round, shl_align.
  unfold fexp, SpecFloat.emin, prec, emax.
  replace (Z.max (Z.pos (digits2_pos p) + 0 - 53) (3 - 1024 - 53) - 0)%Z
    with (Z.pos (digits2_pos p) - 53)%Z by lia.
  destruct (Z.pos (digits2_pos p) - 53)%Z as [|k|k] eqn:E; try lia.
  - exists p, 0%Z. apply binary_round_aux_exact; [lia|lia].
  - eexists _, _. apply binary_round_aux_exact.
    + rewrite digits2_pos_iter. lia.
    + lia.
Qed.

Lemma Prim2SF_double_of_Z (z : Z) :
  (0 <= z < 2 ^ 63)%Z -> Prim2SF (double_of_Z z) = binary_normalize prec emax z 0 false.
Proof.
  intros Hz. unfold double_of_Z.
  rewrite <- (Z.mod_small z Uint63.wB) at 1 by (change Uint63.wB with (2 ^ 63)%Z; lia).
  rewrite <- Uint63.of_Z_spec, <- of_uint63_spec, SF2Prim_Prim2SF.
  rewrite of_uint63_spec, Uint63.of_Z_spec, Z.mod_small; [reflexivity|].
  change Uint63.wB with (2 ^ 63)%Z; lia.
Qed.

Lemma div_number (x : double) (n : nat) :
  1 <= n -> (Z.of_nat n < 2 ^ 31)%Z ->
  isnan x = false -> isnan (x / double_of_size_t n)%float = false.
Proof.
  intros Hn Hsmall Hx. apply isnan_false_spec. rewrite div_spec.
  unfold double_of_size_t. rewrite Prim2SF_double_of_Z by lia.
  destruct (Z.of_nat n) as [|p|p] eqn:E; try lia.
  destruct (binary_normalize_small p ltac:(lia)) as [m [e H]]. rewrite H.
  apply SFdiv_number. now apply isnan_false_spec.
Qed.

Ltac split_compare :=
  repeat match goal with
  | H : context [Pos.compare_cont Eq ?a ?b] |- _ =>
      change (Pos.compare_cont Eq a b) with (Pos.compare a b) in H
  | |- context [Pos.compare_cont Eq ?a ?b] =>
      change (Pos.compare_cont Eq a b) with (Pos.compare a b)
  end;
  repeat match goal with
  | H : context [(?a ?= ?b)%Z] |- _ => destruct (Z.compare_spec a b); simpl in H
  | |- context [(?a ?= ?b)%Z] => destruct (Z.compare_spec a b); simpl
  | H : context [(?a ?= ?b)%positive] |- _ => destruct (Pos.compare_spec a b); simpl in H
  | |- context [(?a ?= ?b)%positive] => destruct (Pos.compare_spec a b); simpl
  end.

(** [x < y] and not [z < y] give [x < z]. *)
Lemma SFltb_left (x y z : spec_float) :
  z <> S754_nan -> SFltb x y = true -> SFltb z y = false -> SFltb x z = true.
Proof.
  unfold SFltb. intros Hz.
  destruct x as [sx|sx| |sx mx ex]; destruct y as [sy|sy| |sy my ey];
    destruct z as [sz|sz| |sz mz ez]; simpl; try congruence;
    try destruct sx; try destruct sy; try destruct sz; simpl; try congruence;
    intros H1 H2; split_compare; try discriminate; try reflexivity; subst; try lia.
Qed.

Lemma SFltb_right (x y z : spec_float) :
  z <> S754_nan -> SFltb y x = true -> SFltb y z = false -> SFltb z x = true.
Proof.
  unfold SFltb. intros Hz.
  destruct x as [sx|sx| |sx mx ex]; destruct y as [sy|sy| |sy my ey];
    destruct z as [sz|sz| |sz mz ez]; simpl; try congruence;
    try destruct sx; try destruct sy; try destruct sz; simpl; try congruence;
    intros H1 H2; split_compare; try discriminate; try reflexivity; subst; try lia.
Qed.

Lemma SFltb_asym (x y : spec_float) : SFltb x y = true -> SFltb y x = false.
Proof.
  unfold SFltb.
  destruct x as [sx|sx| |sx mx ex]; destruct y as [sy|sy| |sy my ey];
    simpl; try congruence;
    try destruct sx; try destruct sy; simpl; try congruence;
    intros H1; split_compare; try discriminate; try reflexivity; subst; try lia.
Qed.

Lemma SFeqb_not_lt (x y : spec_float) : SFeqb x y = true -> SFltb x y = false /\ SFltb y x = false.
Proof.
  unfold SFltb, SFeqb.
  destruct x as [sx|sx| |sx mx ex]; destruct y as [sy|sy| |sy my ey];
    simpl; try congruence; try (split; reflexivity);
    try destruct sx; try destruct sy; simpl; try congruence; try (split; reflexivity);
    intros H1; split_compare; try discriminate; try (split; reflexivity); subst; try lia.
Qed.

Lemma SFleb_ltb (x y : spec_float) : x <> S754_nan -> y <> S754_nan -> SFleb x y = negb (SFltb y x).
Proof.
  unfold SFltb, SFleb. intros Hx Hy.
  destruct x as [sx|sx| |sx mx ex]; destruct y as [sy|sy| |sy my ey];
    simpl; try congruence;
    try destruct sx; try destruct sy; simpl; try congruence;
    split_compare; try discriminate; try reflexivity; subst; try lia.
Qed.

Lemma ltb_left (x y z : double) :
  isnan z = false -> (x <? y)%float = true -> (z <? y)%float = false ->
  (x <? z)%float = true.
Proof.
  rewrite !ltb_spec. intros Hz. apply SFltb_left. now apply isnan_false_spec.
Qed.

Lemma ltb_right (x y z : double) :
  isnan z = false -> (y <? x)%float = true -> (y <? z)%float = false ->
  (z <? x)%float = true.
Proof.
  rewrite !ltb_spec. intros Hz. apply SFltb_right. now apply isnan_false_spec.
Qed.

Lemma ltb_asym (x y : double) : (x <? y)%float = true -> (y <? x)%float = false.
Proof. rewrite !ltb_spec. apply SFltb_asym. Qed.

Lemma eqb_not_ltb (x y : double) :
  (x =? y)%float = true -> (x <? y)%float = false /\ (y <? x)%float = false.
Proof. rewrite FloatAxioms.eqb_spec, !ltb_spec. apply SFeqb_not_lt. Qed.

Lemma leb_ltb (x y : double) :
  isnan x = false -> isnan y = false -> (x <=? y)%float = negb (y <? x)%float.
Proof.
  intros Hx Hy. rewrite leb_spec, ltb_spec.
  apply SFleb_ltb; now apply isnan_false_spec.
Qed.

(** ** Rolling windows *)

Lemma tabulate_S {A : Type} (n : nat) (f : nat -> A) :
  tabulate (S n) f = tabulate n f ++ [f n].
Proof. unfold tabulate. now rewrite seq_S, map_app. Qed.

Lemma tabulate_ext {A : Type} (n : nat) (f g : nat -> A) :
  (forall i, i < n -> f i = g i) -> tabulate n f = tabulate n g.
Proof.
  intros H. unfold tabulate. apply map_ext_in. intros i Hi.
  apply in_seq in Hi. apply H. lia.
Qed.

Lemma filled_tabulate {A : Type} (n : nat) (x : A) :
  filled n x = tabulate n (fun _ => x).
Proof.
  unfold filled, tabulate. induction n as [|n IH]; [reflexivity|].
  rewrite seq_S, map_app, <- IH. simpl. now rewrite repeat_cons.
Qed.

Lemma map_tabulate {A B : Type} (g : A -> B) (n : nat) (f : nat -> A) :
  map g (tabulate n f) = tabulate n (fun i => g (f i)).
Proof. unfold tabulate. now rewrite map_map. Qed.

Lemma combine_seq_map {A : Type} (f : nat -> A) (a n : nat) :
  combine (seq a n) (map f (seq a n)) = map (fun i => (i, f i)) (seq a n).
Proof.
  revert a. induction n as [|n IH]; intros a; simpl; [reflexivity|].
  now rewrite IH.
Qed.

Lemma imap_tabulate {A B : Type} (g : nat -> A -> B) (n : nat) (f : nat -> A) :
  imap g (tabulate n f) = tabulate n (fun i => g i (f i)).
Proof.
  unfold imap. rewrite tabulate_length. unfold tabulate.
  rewrite combine_seq_map, map_map. reflexivity.
Qed.

Lemma rolling_state_S {S : Type} (step : nat -> nat -> S -> S) (init : S) (c r : nat) :
  rolling_state step init c (Datatypes.S r) = step r c (rolling_state step init c r).
Proof. unfold rolling_state. now rewrite seq_S, fold_left_app. Qed.

(** The loop over the first [n] rows leaves the states of the columns and
    has written the output rows [0 .. n - window]. *)
Lemma rolling_fold {S : Type} (step : nat -> nat -> S -> S) (emit : S -> double)
      (init : S) (window ncols n : nat) :
  1 <= window ->
  fold_left
    (fun acc r =>
       let states := imap (fun c st => step r c st) (fst acc) in
       (states,
        if (window <=? r + 1)%nat then snd acc ++ [map emit states] else snd acc))
    (seq 0 n) (filled ncols init, [])
  = (tabulate ncols (fun c => rolling_state step init c n),
     tabulate (n + 1 - window)
              (fun i => tabulate ncols
                          (fun c => emit (rolling_state step init c (i + window))))).
Proof.
  intros Hw. induction n as [|n IH].
  - replace (0 + 1 - window) with 0 by lia. cbn [seq fold_left].
    rewrite filled_tabulate. reflexivity.
  - rewrite seq_S, fold_left_app, IH. cbn [fold_left fst snd]. rewrite Nat.add_0_l.
    rewrite imap_tabulate. f_equal.
    + apply tabulate_ext. intros c _. now rewrite rolling_state_S.
    + destruct (window <=? n + 1)%nat eqn:E.
      * apply Nat.leb_le in E.
        replace (Datatypes.S n + 1 - window) with (Datatypes.S (n + 1 - window)) by lia.
        rewrite tabulate_S. f_equal. f_equal. rewrite map_tabulate.
        apply tabulate_ext. intros c _.
        replace (n + 1 - window + window) with (Datatypes.S n) by lia.
        now rewrite rolling_state_S.
      * apply Nat.leb_gt in E.
        replace (Datatypes.S n + 1 - window) with 0 by lia.
        replace (n + 1 - window) with 0 by lia. reflexivity.
Qed.

Lemma rolling_loop_spec {S : Type} (step : nat -> nat -> S -> S) (emit : S -> double)
      (init : S) (window nrows ncols : nat) :
  1 <= window ->
  rolling_loop step emit init window nrows ncols
  = tabulate (nrows + 1 - window)
             (fun i => tabulate ncols
                         (fun c => emit (rolling_state step init c (i + window)))).
Proof.
  intros Hw. unfold rolling_loop. now rewrite rolling_fold.
Qed.

Section RollingMean.

Context {IndexT : Type}.
Implicit Types df : DataFrame IndexT.

Lemma valid_in_S df c lo n :
  valid_in df c lo (S n)
  = (valid_in df c lo n + if present df (lo + n) c then 1 else 0)%Z.
Proof.
  unfold valid_in, present. rewrite seq_S, filter_app, length_app. cbn [filter].
  destruct (negb (isnan (value_at df (lo + n) c))); cbn [List.length]; lia.
Qed.

Lemma valid_in_cons df c lo n :
  valid_in df c lo (S n)
  = ((if present df lo c then 1 else 0) + valid_in df c (S lo) n)%Z.
Proof.
  unfold valid_in, present. cbn [seq filter].
  destruct (negb (isnan (value_at df lo c))); cbn [List.length]; lia.
Qed.

Lemma valid_in_bounds df c lo n : (0 <= valid_in df c lo n <= Z.of_nat n)%Z.
Proof.
  unfold valid_in. pose proof (filter_length_le (fun r => negb (isnan (value_at df r c))) (seq lo n)) as H.
  rewrite length_seq in H. lia.
Qed.

(** The window is complete exactly when none of its cells is NaN. *)
Lemma valid_in_full df c lo n :
  valid_in df c lo n = Z.of_nat n
  <-> forall k, k < n -> isnan (value_at df (lo + k) c) = false.
Proof.
  revert lo. induction n as [|n IH]; intros lo.
  - split; [intros _ k Hk; lia | reflexivity].
  - rewrite valid_in_cons. pose proof (valid_in_bounds df c (S lo) n) as Hb.
    unfold present. split.
    + intros H k Hk.
      destruct (isnan (value_at df lo c)) eqn:E; cbn [negb] in H; [lia|].
      destruct k as [|k]; [now rewrite Nat.add_0_r|].
      replace (lo + S k) with (S lo + k) by lia. apply IH; lia.
    + intros H. pose proof (H 0 ltac:(lia)) as H0. rewrite Nat.add_0_r in H0.
      rewrite H0. cbn [negb].
      assert (E : valid_in df c (S lo) n = Z.of_nat n).
      { apply IH. intros k Hk. replace (S lo + k) with (lo + S k) by lia.
        apply H. lia. }
      lia.
Qed.

Lemma rolling_mean_step_count df window r c st :
  snd (rolling_mean_step df window r c st)
  = (snd st + (if present df r c then 1 else 0)
     - (if (window <=? r)%nat && present df (r - window) c then 1 else 0))%Z.
Proof.
  unfold rolling_mean_step, present. destruct st as [sum count].
  destruct (negb (isnan (value_at df r c)));
    destruct (window <=? r)%nat;
    try destruct (negb (isnan (value_at df (r - window) c)));
    cbn [fst snd andb]; lia.
Qed.

(** [valid_counts[c]] counts the cells of the current window that are not
    NaN. *)
Lemma rolling_mean_count df window c r :
  1 <= window ->
  snd (rolling_state (rolling_mean_step df window) (0%float, 0%Z) c r)
  = valid_in df c (r - window) (Nat.min r window).
Proof.
  intros Hw. induction r as [|r IH].
  - reflexivity.
  - rewrite rolling_state_S, rolling_mean_step_count, IH.
    destruct (window <=? r)%nat eqn:E.
    + apply Nat.leb_le in E.
      replace (Nat.min r window) with window by lia.
      replace (Nat.min (S r) window) with window by lia.
      replace (S r - window) with (S (r - window)) by lia.
      pose proof (valid_in_S df c (r - window) window) as H1.
      pose proof (valid_in_cons df c (r - window) window) as H2.
      replace (r - window + window) with r in H1 by lia.
      simpl. lia.
    + apply Nat.leb_gt in E.
      replace (Nat.min r window) with r by lia.
      replace (Nat.min (S r) window) with (S r) by lia.
      replace (S r - window) with 0 by lia.
      replace (r - window) with 0 by lia.
      rewrite valid_in_S. simpl. lia.
Qed.

Lemma int_of_size_t_small (n : nat) :
  (Z.of_nat n < 2 ^ 31)%Z -> int_of_size_t n = Z.of_nat n.
Proof.
  intros H. unfold int_of_size_t.
  rewrite Z.mod_small by lia.
  destruct (Z.of_nat n <? 2 ^ 31)%Z eqn:E; [reflexivity|].
  apply Z.ltb_ge in E. lia.
Qed.

(** What [rolling_mean] writes at row [i] of column [c]. *)
Lemma rolling_mean_cell df window out i c :
  rolling_mean df window = Ok out ->
  (Z.of_nat window < 2 ^ 31)%Z ->
  i < rows df + 1 - window -> c < cols df ->
  value_at out i c
  = if (valid_in df c i window =? Z.of_nat window)%Z
    then (running_sum df window c (i + window) / double_of_size_t window)%float
    else quiet_NaN.
Proof.
  unfold rolling_mean. intros H Hint Hi Hc.
  destruct (window =? 0)%nat eqn:E0; [discriminate|].
  destruct (rows df <? window)%nat eqn:E1; [discriminate|].
  apply Nat.eqb_neq in E0. inversion H; subst; clear H.
  unfold value_at, cell. cbn [data_].
  rewrite rolling_loop_spec by lia.
  rewrite (tabulate_at []) by assumption.
  rewrite (tabulate_at 0%float) by assumption.
  unfold rolling_mean_emit. rewrite rolling_mean_count by lia.
  rewrite int_of_size_t_small by assumption.
  replace (i + window - window) with i by lia.
  replace (Nat.min (i + window) window) with window by lia.
  reflexivity.
Qed.

(** The same for any window: the count of the cells of the window that are
    not NaN is compared with the window converted to [int]. *)
Lemma rolling_mean_cell_int df window out i c :
  rolling_mean df window = Ok out ->
  i < rows df + 1 - window -> c < cols df ->
  value_at out i c
  = if (valid_in df c i window =? int_of_size_t window)%Z
    then (running_sum df window c (i + window) / double_of_size_t window)%float
    else quiet_NaN.
Proof.
  unfold rolling_mean. intros H Hi Hc.
  destruct (window =? 0)%nat eqn:E0; [discriminate|].
  destruct (rows df <? window)%nat eqn:E1; [discriminate|].
  apply Nat.eqb_neq in E0. inversion H; subst; clear H.
  unfold value_at, cell. cbn [data_].
  rewrite rolling_loop_spec by lia.
  rewrite (tabulate_at []) by assumption.
  rewrite (tabulate_at 0%float) by assumption.
  unfold rolling_mean_emit. rewrite rolling_mean_count by lia.
  replace (i + window - window) with i by lia.
  replace (Nat.min (i + window) window) with window by lia.
  reflexivity.
Qed.

Lemma valid_in_none df c lo n :
  (forall k, k < n -> isnan (value_at df (lo + k) c) = true) ->
  valid_in df c lo n = 0%Z.
Proof.
  revert lo. induction n as [|n IH]; intros lo H; [reflexivity|].
  rewrite valid_in_cons, IH.
  - unfold present. pose proof (H 0 ltac:(lia)) as H0. rewrite Nat.add_0_r in H0.
    now rewrite H0.
  - intros k Hk. replace (S lo + k) with (lo + S k) by lia. apply H. lia.
Qed.

Lemma rolling_mean_rows df window out :
  rolling_mean df window = Ok out -> rows out = rows df - window + 1.
Proof.
  unfold rolling_mean. intros H.
  destruct (window =? 0)%nat eqn:E0; [discriminate|].
  destruct (rows df <? window)%nat eqn:E1; [discriminate|].
  apply Nat.eqb_neq in E0. apply Nat.ltb_ge in E1.
  inversion H; subst; clear H. unfold rows at 1. cbn [data_].
  rewrite rolling_loop_spec by lia. rewrite tabulate_length. lia.
Qed.

End RollingMean.

Section RollingMeanClaim.

Context {IndexT : Type}.
Implicit Types df : DataFrame IndexT.

(** The running sum is a number as long as every cell taken in so far is
    NaN (and skipped) or finite. *)
Lemma running_sum_number df window c r :
  (forall r', r' < r -> isinf (value_at df r' c) = false) ->
  isnan (running_sum df window c r) = false.
Proof.
  unfold running_sum. induction r as [|r IH]; intros H.
  - reflexivity.
  - rewrite rolling_state_S.
    assert (IH' : isnan (fst (rolling_state (rolling_mean_step df window)
                                            (0%float, 0%Z) c r)) = false)
      by (apply IH; intros; apply H; lia).
    destruct (rolling_state (rolling_mean_step df window) (0%float, 0%Z) c r)
      as [sum count].
    cbn [fst] in IH'. unfold rolling_mean_step. cbn [fst snd].
    assert (H1 : isnan (fst (if negb (isnan (value_at df r c))
                             then ((sum + value_at df r c)%float, (count + 1)%Z)
                             else (sum, count))) = false).
    { destruct (isnan (value_at df r c)) eqn:E; cbn [negb fst]; [assumption|].
      apply add_number; auto. }
    destruct (if negb (isnan (value_at df r c))
              then ((sum + value_at df r c)%float, (count + 1)%Z)
              else (sum, count)) as [sum' count'].
    cbn [fst snd] in *.
    destruct (window <=? r)%nat eqn:Ew; [|assumption].
    destruct (isnan (value_at df (r - window) c)) eqn:E; cbn [negb fst]; [assumption|].
    apply sub_number; auto. apply H. apply Nat.leb_le in Ew. lia.
Qed.

(** The sums the loop of [rolling_mean] keeps are the running sums of the
    columns. *)
Lemma running_sum_incremental df window c r :
  running_sum df window c r = incremental_sum (fun r => value_at df r c) window r.
Proof.
  unfold running_sum. induction r as [|r IH]; [reflexivity|].
  rewrite rolling_state_S. cbn [incremental_sum]. rewrite <- IH.
  destruct (rolling_state (rolling_mean_step df window) (0%float, 0%Z) c r)
    as [sum count].
  unfold rolling_mean_step. cbn [fst snd].
  destruct (isnan (value_at df r c)); cbn [negb fst snd];
    destruct (window <=? r)%nat; try reflexivity;
    destruct (isnan (value_at df (r - window) c)); reflexivity.
Qed.

(** Until a cell leaves the window, the running sum of a column without
    NaN is the sum of its cells from the first row on. *)
Lemma incremental_sum_first (column : nat -> double) (window r : nat) :
  r <= window ->
  (forall k, k < r -> isnan (column k) = false) ->
  incremental_sum column window r
  = fold_left (fun sum x => (sum + x)%float) (map column (seq 0 r)) 0%float.
Proof.
  induction r as [|r IH]; intros Hr Hnum; [reflexivity|].
  cbn [incremental_sum]. rewrite IH by (try lia; intros k Hk; apply Hnum; lia).
  rewrite (Hnum r) by lia.
  assert (E : (window <=? r)%nat = false) by (apply Nat.leb_gt; lia).
  rewrite E, seq_S, map_app, fold_left_app. reflexivity.
Qed.

(** C4 (amended). [rolling_mean] fails on a window of 0 or of more rows
    than the frame has. For [1 <= window <= rows] (and a window that fits
    the [int] in which the code counts the cells of the window that are
    not NaN) it returns [rows - window + 1] rows. An output cell is NaN
    when one of the [window] cells it covers is NaN. When none is, the
    cell is the running sum of the column divided by [window]: the sum to
    which every cell was added when its row was read and from which it
    was subtracted [window] rows later, which for the first window is the
    sum of its cells. When no cell of the column in the rows read so far
    is infinite, the output cell is NaN exactly when a covered cell is
    NaN. *)
Theorem rolling_mean_window df window :
  (window = 0 ->
   rolling_mean df window = Err "dataframe::rolling_mean: window must be positive")
  /\ (rows df < window ->
      rolling_mean df window = Err "dataframe::rolling_mean: window exceeds row count")
  /\ (1 <= window <= rows df -> (Z.of_nat window < 2 ^ 31)%Z ->
      exists out,
        rolling_mean df window = Ok out
        /\ rows out = rows df - window + 1
        /\ forall i c, i < rows out -> c < cols df ->
             ((exists k, k < window /\ isnan (value_at df (i + k) c) = true) ->
              isnan (value_at out i c) = true)
             /\ ((forall k, k < window -> isnan (value_at df (i + k) c) = false) ->
                 value_at out i c
                 = (incremental_sum (fun r => value_at df r c) window (i + window)
                    / double_of_size_t window)%float
                 /\ (i = 0 ->
                     value_at out i c
                     = (fold_left (fun sum x => sum + x)
                                  (map (fun r => value_at df r c) (seq 0 window)) 0
                        / double_of_size_t window)%float))
             /\ ((forall r, r < i + window -> isinf (value_at df r c) = false) ->
                 (isnan (value_at out i c) = true
                  <-> exists k, k < window /\ isnan (value_at df (i + k) c) = true))).
Proof.
  split; [|split].
  - intros ->. reflexivity.
  - intros H. unfold rolling_mean.
    destruct (window =? 0)%nat eqn:E0.
    + apply Nat.eqb_eq in E0. lia.
    + apply Nat.ltb_lt in H. now rewrite H.
  - intros Hw Hint.
    destruct (rolling_mean df window) as [out|msg] eqn:E.
    2:{ unfold rolling_mean in E.
        destruct (window =? 0)%nat eqn:E0; [apply Nat.eqb_eq in E0; lia|].
        destruct (rows df <? window)%nat eqn:E1; [apply Nat.ltb_lt in E1; lia|].
        discriminate. }
    exists out. split; [reflexivity|]. pose proof (rolling_mean_rows df window out E) as Hrows.
    split; [assumption|]. intros i c Hi Hc.
    assert (Hcell := rolling_mean_cell df window out i c E Hint ltac:(lia) Hc).
    assert (Hfull := valid_in_full df c i window).
    assert (Hnan : (exists k, k < window /\ isnan (value_at df (i + k) c) = true) ->
                   isnan (value_at out i c) = true).
    { intros [k [Hk Hnan]].
      destruct (valid_in df c i window =? Z.of_nat window)%Z eqn:Ev.
      - apply Z.eqb_eq in Ev. rewrite (proj1 Hfull Ev k Hk) in Hnan. discriminate.
      - rewrite Hcell. reflexivity. }
    assert (Hval : (forall k, k < window -> isnan (value_at df (i + k) c) = false) ->
                   value_at out i c
                   = (incremental_sum (fun r => value_at df r c) window (i + window)
                      / double_of_size_t window)%float).
    { intros Hall. apply (proj2 Hfull) in Hall. apply Z.eqb_eq in Hall.
      now rewrite Hcell, Hall, running_sum_incremental. }
    split; [assumption|]. split.
    { intros Hall. split; [now apply Hval|]. intros ->.
      rewrite (Hval Hall). cbn [Nat.add].
      rewrite incremental_sum_first; [reflexivity|lia|intros k Hk; now apply (Hall k)]. }
    intros Hfin. split; [|assumption].
    intros Hout.
    destruct (valid_in df c i window =? Z.of_nat window)%Z eqn:Ev.
    + rewrite Hcell in Hout.
      rewrite div_number in Hout; [discriminate|lia|assumption|].
      now apply running_sum_number.
    + apply Z.eqb_neq in Ev.
      assert (Hex : ~ forall k, k < window -> isnan (value_at df (i + k) c) = false)
        by (intros Hall; apply Ev, (proj2 Hfull), Hall).
      clear - Hex. induction window as [|w IH].
      * exfalso. apply Hex. intros k Hk. lia.
      * destruct (isnan (value_at df (i + w) c)) eqn:E.
        { exists w. split; [lia|assumption]. }
        destruct IH as [k [Hk Hnan]].
        { intros Hall. apply Hex. intros k Hk.
          destruct (Nat.eq_dec k w) as [->|Hne]; [assumption|]. apply Hall. lia. }
        exists k. split; [lia|assumption].
Qed.

(** The running sum of a column whose cells after the first are all NaN,
    as long as no cell has left the window. *)
Lemma incremental_sum_single (column : nat -> double) (window r : nat) :
  isnan (column 0%nat) = false ->
  (forall k, 1 <= k < r -> isnan (column k) = true) ->
  1 <= r <= window ->
  incremental_sum column window r = (0 + column 0%nat)%float.
Proof.
  intros H0 Hrest. induction r as [|r IH]; intros Hr; [lia|].
  cbn [incremental_sum].
  assert (E : (window <=? r)%nat = false) by (apply Nat.leb_gt; lia). rewrite E.
  destruct r as [|r]; [now rewrite H0|].
  rewrite IH by (try lia; intros k Hk; apply Hrest; lia).
  now rewrite (Hrest (S r)) by lia.
Qed.

Lemma at_repeat {A : Type} (d x : A) (n k : nat) : k < n -> at_ d (repeat x n) k = x.
Proof.
  unfold at_. revert k. induction n as [|n IH]; intros k Hk; [lia|].
  destruct k as [|k]; [reflexivity|]. cbn [repeat nth]. apply IH. lia.
Qed.

End RollingMeanClaim.

(** A frame of one column whose first cell is a number and whose [n] other
    cells are NaN, and the window of all its [n + 1] rows: the loop counts
    one cell, and when the window converts to the [int] 1, the single
    output cell is the first cell divided by the window. *)
Lemma rolling_mean_wrapped_window (n : nat) (x : double) :
  isnan x = false -> int_of_size_t (S n) = 1%Z ->
  let df := mkDataFrame ["a"] (repeat 0%Z (S n)) ([x] :: repeat [quiet_NaN] n) "index" in
  exists out,
    rolling_mean df (S n) = Ok out
    /\ (forall k, 1 <= k <= n -> isnan (value_at df k 0) = true)
    /\ value_at out 0 0 = ((0 + x) / double_of_size_t (S n))%float.
Proof.
  intros Hx Hint df.
  assert (Hrows : rows df = S n).
  { unfold rows, df. cbn [data_ List.length]. now rewrite repeat_length. }
  assert (H0 : value_at df 0 0 = x) by reflexivity.
  assert (Hnan : forall k, 1 <= k <= n -> isnan (value_at df k 0) = true).
  { intros k Hk. destruct k as [|k]; [lia|].
    unfold value_at, cell, df. cbn [data_].
    change (at_ [] ([x] :: repeat [quiet_NaN] n) (S k)) with (at_ [] (repeat [quiet_NaN] n) k).
    rewrite at_repeat by lia. reflexivity. }
  destruct (rolling_mean df (S n)) as [out|msg] eqn:E.
  2:{ unfold rolling_mean in E. rewrite Hrows, Nat.ltb_irrefl in E. discriminate. }
  exists out. split; [reflexivity|]. split; [exact Hnan|].
  rewrite (rolling_mean_cell_int df (S n) out 0 0 E);
    [|rewrite Hrows; lia|unfold cols, df; cbn; lia].
  rewrite valid_in_cons, valid_in_none.
  2:{ intros k Hk. apply Hnan. lia. }
  unfold present. rewrite H0, Hx. cbn [negb]. rewrite Hint. cbn [Z.add Z.eqb Pos.eqb].
  rewrite running_sum_incremental. cbn [Nat.add].
  rewrite incremental_sum_single; [now rewrite H0|now rewrite H0| |lia].
  intros k Hk. apply Hnan. lia.
Qed.

(** C4, as stated, fails in three ways. With the rows [inf] and [1] and a
    window of 1, the second output cell covers the single cell [1], yet the
    running sum is by then [inf + 1 - inf], which is NaN. With the rows
    [1e16] and [1] and a window of 1, the running sum of the second window
    is [1e16 + 1 - 1e16], which is 0 in double arithmetic: the output cell
    is 0 and not the mean 1 of the cell it covers. With [2^32 + 1] rows, of
    which the first is [1] and the others are NaN, and a window of all the
    rows, the loop counts one cell that is not NaN and compares that count
    with [static_cast<int>(window)], which is 1 as well: the output cell is
    [1 / (2^32 + 1)] and not NaN, although the window holds [2^32] NaN
    cells. No counter overflows on that input. *)
Lemma rolling_mean_counterexample :
  (let df := mkDataFrame ["a"] [0; 1]%Z [[infinity]; [1%float]] "index" in
   exists out,
     rolling_mean df 1 = Ok out
     /\ ~ (isnan (value_at out 1 0) = true
           <-> exists k, k < 1 /\ isnan (value_at df (1 + k) 0) = true))
  /\ (let df := mkDataFrame ["a"] [0; 1]%Z [[1e16%float]; [1%float]] "index" in
      exists out,
        rolling_mean df 1 = Ok out
        /\ value_at df 1 0 = 1%float
        /\ value_at out 1 0 = 0%float
        /\ (value_at out 1 0 =? value_at df 1 0)%float = false)
  /\ (let df := mkDataFrame ["a"] (repeat 0%Z (S (2 ^ 32)))
                  ([1%float] :: repeat [quiet_NaN] (2 ^ 32)) "index" in
      exists out,
        rolling_mean df (S (2 ^ 32)) = Ok out
        /\ isnan (value_at df 1 0) = true
        /\ isnan (value_at out 0 0) = false).
Proof.
  split; [|split].
  - eexists. split; [reflexivity|].
    intros [H _]. destruct (H eq_refl) as [k [Hk Hnan]].
    assert (k = 0) by lia. subst. vm_compute in Hnan. discriminate.
  - eexists. split; [reflexivity|]. repeat split.
  - assert (Hint : int_of_size_t (S (2 ^ 32)) = 1%Z).
    { unfold int_of_size_t. rewrite Nat2Z.inj_succ, Nat2Z.inj_pow.
      change (Z.of_nat 2) with 2%Z. change (Z.of_nat 32) with 32%Z. reflexivity. }
    destruct (rolling_mean_wrapped_window (2 ^ 32) 1%float eq_refl Hint)
      as (out & Hout & Hnan & Hcell).
    exists out. split; [exact Hout|]. split.
    + apply Hnan. split; [lia|]. apply Nat.pow_lower_bound. lia.
    + rewrite Hcell. unfold double_of_size_t.
      rewrite Nat2Z.inj_succ, Nat2Z.inj_pow.
      change (Z.of_nat 2) with 2%Z. change (Z.of_nat 32) with 32%Z.
      vm_compute. reflexivity.
Qed.


(** ** Correlation and covariance *)

Lemma map_at_seq {A : Type} (d : A) (l : list A) :
  map (at_ d l) (seq 0 (List.length l)) = l.
Proof.
  unfold at_. induction l as [|x l IH]; [reflexivity|].
  cbn [List.length seq map nth]. f_equal.
  rewrite <- seq_shift, map_map. exact IH.
Qed.

Lemma fold_left_map {A B C : Type} (f : A -> C -> A) (g : B -> C) (l : list B) (a : A) :
  fold_left f (map g l) a = fold_left (fun acc x => f acc (g x)) l a.
Proof. revert a. induction l as [|x l IH]; intros a; simpl; auto. Qed.

Lemma combine_map_map {A B C : Type} (f : C -> A) (g : C -> B) (l : list C) :
  combine (map f l) (map g l) = map (fun i => (f i, g i)) l.
Proof. induction l as [|x l IH]; [reflexivity|]. cbn. now rewrite IH. Qed.

Lemma fold_left_ext_in {A B : Type} (f g : A -> B -> A) (l : list B) (a : A) :
  (forall acc x, In x l -> f acc x = g acc x) -> fold_left f l a = fold_left g l a.
Proof.
  revert a. induction l as [|x l IH]; intros a H; simpl; [reflexivity|].
  rewrite H by now left. apply IH. intros acc y Hy. apply H. now right.
Qed.

Lemma filter_all {A : Type} (f : A -> bool) (l : list A) :
  (forall x, In x l -> f x = true) -> filter f l = l.
Proof.
  induction l as [|x l IH]; intros H; simpl; [reflexivity|].
  rewrite H by now left. f_equal. apply IH. intros y Hy. apply H. now right.
Qed.

Section Correlation.

Context {IndexT : Type} {IT : IndexType IndexT}.
Implicit Types df : DataFrame IndexT.

Lemma valid_rows_spec df r :
  In r (valid_rows df)
  <-> r < rows df /\ forall c, c < cols df -> isnan (value_at df r c) = false.
Proof.
  unfold valid_rows. rewrite filter_In, in_seq, negb_true_iff.
  split; intros [Hr H]; (split; [lia|]).
  - intros c Hc. unfold isnan. apply negb_false_iff.
    destruct (value_at df r c =? value_at df r c)%float eqn:E; [reflexivity|].
    assert (Hex : existsb (fun c0 => negb (value_at df r c0 =? value_at df r c0)%float)
                          (seq 0 (cols df)) = true).
    { apply existsb_exists. exists c. rewrite in_seq, E. split; [lia|reflexivity]. }
    congruence.
  - destruct (existsb _ _) eqn:E; [|reflexivity].
    apply existsb_exists in E. destruct E as [c [Hc E]]. apply in_seq in Hc.
    specialize (H c ltac:(lia)). unfold isnan in H. congruence.
Qed.

(** The frame made of the rows of [df] at the positions [valid]. *)
Lemma select_rows_ok df (positions : list nat) :
  (forall r, In r positions -> r < rows df) ->
  select_rows_by_positions df positions
  = Ok (mkDataFrame (columns_ df) (map (at_ index_init (index_ df)) positions)
                    (map (at_ [] (data_ df)) positions) (index_name_ df)).
Proof.
  intros H. unfold select_rows_by_positions.
  assert (E : mapM (fun pos =>
                      if (rows df <=? pos)%nat
                      then Err "dataframe::select_rows: position out of bounds"
                      else Ok (at_ index_init (index_ df) pos, at_ [] (data_ df) pos))
                   positions
              = Ok (map (fun pos => (at_ index_init (index_ df) pos, at_ [] (data_ df) pos))
                        positions)).
  { induction positions as [|p ps IH]; [reflexivity|]. simpl.
    assert (Hp : (rows df <=? p)%nat = false)
      by (apply Nat.leb_gt, H; now left).
    rewrite Hp. simpl. rewrite IH by (intros; apply H; now right). reflexivity. }
  rewrite E. simpl. now rewrite !map_map.
Qed.

Lemma complete_rows_selected df :
  select_rows_by_positions df (valid_rows df) = Ok (complete_rows df).
Proof.
  apply select_rows_ok. intros r Hr. now apply valid_rows_spec in Hr.
Qed.

Lemma complete_rows_value df k c :
  k < List.length (valid_rows df) ->
  value_at (complete_rows df) k c = value_at df (at_ 0 (valid_rows df) k) c.
Proof.
  intros Hk. unfold value_at, cell, complete_rows. cbn [data_]. f_equal.
  unfold at_ at 1. rewrite (nth_indep _ [] (at_ [] (data_ df) 0))
    by (now rewrite length_map).
  now rewrite (map_nth (at_ [] (data_ df))).
Qed.

Lemma complete_rows_valid df :
  valid_rows (complete_rows df) = seq 0 (List.length (valid_rows df)).
Proof.
  unfold valid_rows at 1.
  assert (Hrows : rows (complete_rows df) = List.length (valid_rows df))
    by (unfold rows, complete_rows; cbn [data_]; apply length_map).
  rewrite Hrows. apply filter_all. intros k Hk. apply in_seq in Hk.
  apply negb_true_iff.
  destruct (existsb _ _) eqn:E; [|reflexivity].
  apply existsb_exists in E. destruct E as [c [Hc E]]. apply in_seq in Hc.
  rewrite complete_rows_value in E by lia.
  assert (Hin : In (at_ 0 (valid_rows df) k) (valid_rows df))
    by (apply nth_In; lia).
  apply valid_rows_spec in Hin. destruct Hin as [_ Hin].
  specialize (Hin c ltac:(unfold cols, complete_rows in Hc; cbn [columns_] in Hc;
                          unfold cols; lia)).
  unfold isnan in Hin. apply negb_false_iff in Hin. rewrite Hin in E. discriminate.
Qed.

(** A loop over all rows of [complete_rows df] is the same loop over the
    valid rows of [df]. *)
Lemma fold_complete_rows {A : Type} df (F G : A -> nat -> A) (a : A) :
  (forall acc k, k < List.length (valid_rows df) ->
                 F acc k = G acc (at_ 0 (valid_rows df) k)) ->
  fold_left F (seq 0 (List.length (valid_rows df))) a = fold_left G (valid_rows df) a.
Proof.
  intros H. rewrite <- (map_at_seq 0 (valid_rows df)) at 2.
  rewrite fold_left_map. apply fold_left_ext_in.
  intros acc k Hk. apply in_seq in Hk. apply H. lia.
Qed.

Lemma complete_rows_mean df c :
  valid_mean (complete_rows df) (valid_rows (complete_rows df)) c
  = valid_mean df (valid_rows df) c.
Proof.
  unfold valid_mean. rewrite complete_rows_valid, length_seq. f_equal.
  apply fold_complete_rows. intros acc k Hk. now rewrite complete_rows_value.
Qed.

Lemma complete_rows_cov df i j :
  valid_cov (complete_rows df) (valid_rows (complete_rows df)) i j
  = valid_cov df (valid_rows df) i j.
Proof.
  unfold valid_cov. rewrite !complete_rows_mean.
  rewrite complete_rows_valid, length_seq. f_equal.
  apply fold_complete_rows. intros acc k Hk. now rewrite !complete_rows_value.
Qed.

Lemma complete_rows_var df c :
  valid_var (complete_rows df) (valid_rows (complete_rows df)) c
  = valid_var df (valid_rows df) c.
Proof.
  unfold valid_var. rewrite !complete_rows_mean.
  rewrite complete_rows_valid, length_seq. cbv zeta. f_equal.
  apply fold_complete_rows. intros acc k Hk. now rewrite !complete_rows_value.
Qed.

Lemma complete_rows_sd df c :
  valid_sd (complete_rows df) (valid_rows (complete_rows df)) c
  = valid_sd df (valid_rows df) c.
Proof. unfold valid_sd. now rewrite complete_rows_var. Qed.

Lemma valid_rows_length df : List.length (valid_rows df) <= rows df.
Proof.
  unfold valid_rows.
  pose proof (filter_length_le
                (fun r => negb (existsb (fun c => negb (value_at df r c =? value_at df r c)%float)
                                        (seq 0 (cols df))))
                (seq 0 (rows df))) as H.
  now rewrite length_seq in H.
Qed.

Lemma correlation_complete_rows df :
  2 <= List.length (valid_rows df) ->
  correlation_matrix df = correlation_matrix (complete_rows df)
  /\ covariance_matrix df = covariance_matrix (complete_rows df).
Proof.
  intros H2. pose proof (valid_rows_length df) as Hle.
  assert (Hrows : rows (complete_rows df) = List.length (valid_rows df))
    by (unfold rows, complete_rows; cbn [data_]; apply length_map).
  assert (Hlen : List.length (valid_rows (complete_rows df)) = List.length (valid_rows df))
    by (now rewrite complete_rows_valid, length_seq).
  assert (E1 : (rows df <? 2)%nat = false) by (apply Nat.ltb_ge; lia).
  assert (E2 : (rows (complete_rows df) <? 2)%nat = false) by (apply Nat.ltb_ge; lia).
  assert (E3 : (List.length (valid_rows df) <? 2)%nat = false) by (apply Nat.ltb_ge; lia).
  unfold correlation_matrix, covariance_matrix.
  rewrite E1, E2, Hlen, E3.
  change (columns_ (complete_rows df)) with (columns_ df).
  change (cols (complete_rows df)) with (cols df).
  destruct (is_nil (columns_ df)); [split; reflexivity|].
  split; f_equal; f_equal; apply tabulate_ext; intros i _; apply tabulate_ext; intros j _.
  - now rewrite !complete_rows_sd, complete_rows_cov.
  - now rewrite complete_rows_cov.
Qed.

End Correlation.

(** *** The sample statistics of the complete rows *)

Lemma forallb_negb_existsb {A : Type} (p : A -> bool) (l : list A) :
  negb (existsb p l) = forallb (fun x => negb (p x)) l.
Proof.
  induction l as [|x l IH]; [reflexivity|]. cbn [existsb forallb].
  now rewrite negb_orb, IH.
Qed.

Section SampleStatistics.

Context {IndexT : Type}.
Implicit Types df : DataFrame IndexT.

Lemma valid_rows_complete df : valid_rows df = filter (complete df) (seq 0 (rows df)).
Proof.
  unfold valid_rows. apply filter_ext. intros r. unfold complete.
  now rewrite forallb_negb_existsb.
Qed.

Lemma valid_mean_cells df c :
  valid_mean df (valid_rows df) c = sample_mean (complete_cells df c).
Proof.
  unfold valid_mean, sample_mean, complete_cells.
  rewrite valid_rows_complete, fold_left_map, length_map. reflexivity.
Qed.

Lemma valid_cov_cells df i j :
  valid_cov df (valid_rows df) i j
  = sample_covariance (complete_cells df i) (complete_cells df j).
Proof.
  unfold valid_cov, sample_covariance. rewrite <- !valid_mean_cells.
  unfold complete_cells. rewrite <- valid_rows_complete.
  rewrite combine_map_map, fold_left_map, length_map. reflexivity.
Qed.

Lemma valid_sd_cells df c :
  valid_sd df (valid_rows df) c = sample_standard_deviation (complete_cells df c).
Proof.
  unfold valid_sd, sample_standard_deviation, sample_variance.
  assert (E : valid_var df (valid_rows df) c
              = sample_covariance (complete_cells df c) (complete_cells df c)).
  { rewrite <- valid_cov_cells. reflexivity. }
  cbv zeta. now rewrite E.
Qed.

End SampleStatistics.

(** A double less itself is [+0.0], or NaN when it is infinite or NaN. *)
Lemma SFsub_self (x : spec_float) :
  SFsub prec emax x x = S754_zero false \/ SFsub prec emax x x = S754_nan.
Proof.
  destruct x as [[|]|[|]| |s m e]; cbn [SFsub]; auto. left.
  match goal with |- context [binary_normalize _ _ ?d _ _] =>
    replace d with 0%Z by (symmetry; apply Z.sub_diag) end.
  reflexivity.
Qed.

Lemma squared_deviation_self (m : double) :
  Prim2SF ((m - m) * (m - m))%float = S754_zero false
  \/ Prim2SF ((m - m) * (m - m))%float = S754_nan.
Proof.
  rewrite mul_spec, sub_spec. unfold SF64mul, SF64sub.
  destruct (SFsub_self (Prim2SF m)) as [-> | ->]; [left|right]; reflexivity.
Qed.

Lemma sum_of_zero_squares (m : double) (xs : list double) (sum : double) :
  (forall x, In x xs -> x = m) ->
  Prim2SF sum = S754_zero false \/ Prim2SF sum = S754_nan ->
  let total := fold_left (fun sum xy => (sum + (fst xy - m) * (snd xy - m))%float)
                         (combine xs xs) sum in
  Prim2SF total = S754_zero false \/ Prim2SF total = S754_nan.
Proof.
  revert sum. induction xs as [|x xs IH]; intros sum Hall Hsum; [exact Hsum|].
  cbn [combine fold_left fst snd]. apply IH; [intros y Hy; apply Hall; now right|].
  rewrite (Hall x (or_introl eq_refl)). rewrite add_spec. unfold SF64add.
  destruct (squared_deviation_self m) as [-> | ->], Hsum as [-> | ->]; auto.
Qed.

Lemma sample_sd_degenerate (xs : list double) :
  (forall x, In x xs -> x = sample_mean xs) ->
  (sample_standard_deviation xs <=? 0)%float = true.
Proof.
  intros Hall. unfold sample_standard_deviation, sample_variance, sample_covariance.
  pose proof (sum_of_zero_squares (sample_mean xs) xs 0%float Hall (or_introl eq_refl)) as H.
  cbv zeta in H.
  set (total := fold_left _ (combine xs xs) 0%float) in *.
  assert (E : (0 <? total / double_of_size_t (List.length xs - 1))%float = false).
  { rewrite ltb_spec, div_spec. unfold SF64div.
    change (Prim2SF 0) with (S754_zero false).
    destruct H as [-> | ->];
      destruct (Prim2SF (double_of_size_t (List.length xs - 1))) as [s|s| |s m e];
      reflexivity. }
  rewrite E. reflexivity.
Qed.

Section CorrelationClaim.

Context {IndexT : Type} {IT : IndexType IndexT}.
Implicit Types df : DataFrame IndexT.

Lemma correlation_few_rows df :
  List.length (valid_rows df) < 2 ->
  is_ok (correlation_matrix df) = false /\ is_ok (covariance_matrix df) = false.
Proof.
  intros H. apply Nat.ltb_lt in H. unfold correlation_matrix, covariance_matrix.
  rewrite H. destruct (is_nil (columns_ df)); [split; reflexivity|].
  destruct (rows df <? 2)%nat; split; reflexivity.
Qed.

Lemma correlation_cell df out i j :
  correlation_matrix df = Ok out -> i < cols df -> j < cols df ->
  value_at out i j
  = if (i =? j)%nat then 1%float
    else if (valid_sd df (valid_rows df) i <=? 0)%float
            || (valid_sd df (valid_rows df) j <=? 0)%float
         then quiet_NaN
         else (valid_cov df (valid_rows df) i j
               / (valid_sd df (valid_rows df) i * valid_sd df (valid_rows df) j))%float.
Proof.
  unfold correlation_matrix. intros H Hi Hj.
  destruct (is_nil (columns_ df)); [discriminate|].
  destruct (rows df <? 2)%nat; [discriminate|].
  destruct (List.length (valid_rows df) <? 2)%nat; [discriminate|].
  inversion H; subst; clear H. unfold value_at, cell. cbn [data_].
  rewrite (tabulate_at []) by assumption.
  now rewrite (tabulate_at 0%float) by assumption.
Qed.

Lemma covariance_matrix_cell df out (i j : nat) :
  covariance_matrix df = Ok out -> i < cols df -> j < cols df ->
  value_at out i j
  = sample_covariance (complete_cells df i) (complete_cells df j).
Proof.
  unfold covariance_matrix. intros H Hi Hj.
  destruct (is_nil (columns_ df)); [discriminate|].
  destruct (rows df <? 2)%nat; [discriminate|].
  destruct (List.length (valid_rows df) <? 2)%nat; [discriminate|].
  inversion H; subst; clear H. unfold value_at, cell. cbn [data_].
  rewrite (tabulate_at []) by assumption.
  rewrite (tabulate_at 0%float) by assumption. apply valid_cov_cells.
Qed.

(** C3 (amended). [correlation_matrix] and [covariance_matrix] compute on
    the rows in which no column holds NaN: with at least two such rows
    they return what they return on the frame made of those rows only,
    with fewer they fail. A cell of the covariance matrix is the sample
    covariance of the cells its two columns hold in those rows. In the
    correlation matrix every diagonal cell is 1.0; a cell off the diagonal
    is NaN when the sample standard deviation of one of its two columns,
    computed in double arithmetic on those cells, is not positive, and
    the covariance divided by the product of the two standard deviations
    otherwise. The standard deviation is not positive for a column whose
    cells in those rows all equal their computed mean. *)
Theorem correlation_matrix_contract df :
  (forall r, In r (valid_rows df)
             <-> r < rows df /\ forall c, c < cols df -> isnan (value_at df r c) = false)
  /\ select_rows_by_positions df (valid_rows df) = Ok (complete_rows df)
  /\ (2 <= List.length (valid_rows df) ->
      correlation_matrix df = correlation_matrix (complete_rows df)
      /\ covariance_matrix df = covariance_matrix (complete_rows df))
  /\ (List.length (valid_rows df) < 2 ->
      is_ok (correlation_matrix df) = false /\ is_ok (covariance_matrix df) = false)
  /\ (forall out, covariance_matrix df = Ok out ->
      forall i j, i < cols df -> j < cols df ->
        value_at out i j
        = sample_covariance (complete_cells df i) (complete_cells df j))
  /\ (forall out, correlation_matrix df = Ok out ->
      (forall i, i < cols df -> value_at out i i = 1%float)
      /\ (forall i j, i < cols df -> j < cols df -> i <> j ->
          let sd_i := sample_standard_deviation (complete_cells df i) in
          let sd_j := sample_standard_deviation (complete_cells df j) in
          value_at out i j
          = if (sd_i <=? 0)%float || (sd_j <=? 0)%float then quiet_NaN
            else (sample_covariance (complete_cells df i) (complete_cells df j)
                  / (sd_i * sd_j))%float)
      /\ (forall i j, i < cols df -> j < cols df -> i <> j ->
          (forall x, In x (complete_cells df i) -> x = sample_mean (complete_cells df i))
          \/ (forall x, In x (complete_cells df j) -> x = sample_mean (complete_cells df j)) ->
          isnan (value_at out i j) = true)).
Proof.
  split; [apply valid_rows_spec|].
  split; [apply complete_rows_selected|].
  split; [apply correlation_complete_rows|].
  split; [apply correlation_few_rows|].
  split; [intros out Hout i j Hi Hj; now apply covariance_matrix_cell|].
  intros out Hout.
  assert (Hcell : forall i j, i < cols df -> j < cols df -> i <> j ->
            value_at out i j
            = if (sample_standard_deviation (complete_cells df i) <=? 0)%float
                 || (sample_standard_deviation (complete_cells df j) <=? 0)%float
              then quiet_NaN
              else (sample_covariance (complete_cells df i) (complete_cells df j)
                    / (sample_standard_deviation (complete_cells df i)
                       * sample_standard_deviation (complete_cells df j)))%float).
  { intros i j Hi Hj Hne. rewrite (correlation_cell df out i j Hout Hi Hj).
    apply Nat.eqb_neq in Hne. rewrite Hne.
    now rewrite !valid_sd_cells, valid_cov_cells. }
  split; [|split].
  - intros i Hi. rewrite (correlation_cell df out i i Hout Hi Hi).
    now rewrite Nat.eqb_refl.
  - intros i j Hi Hj Hne. cbv zeta. now apply Hcell.
  - intros i j Hi Hj Hne Hflat. rewrite (Hcell i j Hi Hj Hne).
    destruct Hflat as [H|H]; rewrite (sample_sd_degenerate _ H);
      [reflexivity|now rewrite orb_true_r].
Qed.

End CorrelationClaim.

(** C3, as stated, fails on a column of equal values whose mean is not
    computed exactly: three cells 0.1 (the double [0x1.999999999999ap-4])
    have the computed mean 0.10000000000000002, so the computed standard
    deviation is about 1.7e-17 and not zero, and the cell of this column
    and a second column is 0.0 and not NaN. *)
Lemma correlation_constant_column_counterexample :
  let df := mkDataFrame ["a"; "b"] [0; 1; 2]%Z
              [[0x1.999999999999ap-4; 1]; [0x1.999999999999ap-4; 2];
               [0x1.999999999999ap-4; 3]]%float "index" in
  exists out,
    correlation_matrix df = Ok out
    /\ (forall r, r < rows df -> value_at df r 0 = 0x1.999999999999ap-4%float)
    /\ isnan (value_at out 0 1) = false.
Proof.
  eexists. split; [vm_compute; reflexivity|]. split; [|vm_compute; reflexivity].
  intros r Hr. cbn in Hr.
  destruct r as [|[|[|r]]]; [reflexivity|reflexivity|reflexivity|lia].
Qed.

(** ** Stable sorting *)

Lemma insert_sorted_perm {A : Type} (comp : A -> A -> bool) (x : A) (l : list A) :
  Permutation (insert_sorted comp x l) (x :: l).
Proof.
  induction l as [|y l IH]; simpl; [apply Permutation_refl|].
  destruct (comp y x); [|apply Permutation_refl].
  eapply Permutation_trans; [apply perm_skip, IH|apply perm_swap].
Qed.

Lemma stable_sort_perm {A : Type} (comp : A -> A -> bool) (l : list A) :
  Permutation (stable_sort comp l) l.
Proof.
  induction l as [|x l IH]; simpl; [constructor|].
  eapply Permutation_trans; [apply insert_sorted_perm|now apply perm_skip].
Qed.

Section StableSort.

Variable comp : nat -> nat -> bool.

Hypothesis comp_asym : forall a b, comp a b = true -> comp b a = false.
Hypothesis comp_left :
  forall x y z, comp z x = true -> comp y x = false -> comp z y = true.

Lemma insert_sorted_before (x : nat) (l : list nat) :
  StronglySorted (before comp) l -> (forall y, In y l -> x < y) ->
  StronglySorted (before comp) (insert_sorted comp x l).
Proof.
  induction l as [|y l IH]; intros Hs Hx; simpl.
  - repeat constructor.
  - inversion Hs as [|y' l' Hl Hy]; subst.
    destruct (comp y x) eqn:E.
    + constructor.
      * apply IH; [assumption|]. intros z Hz. apply Hx. now right.
      * rewrite Forall_forall. intros z Hz.
        apply (Permutation_in _ (insert_sorted_perm comp x l)) in Hz.
        destruct Hz as [<-|Hz]; [now left|].
        rewrite Forall_forall in Hy. now apply Hy.
    + constructor; [assumption|].
      rewrite Forall_forall. intros z [<-|Hz].
      * right. split; [assumption|]. apply Hx. now left.
      * assert (Hxz : x < z) by (apply Hx; now right).
        rewrite Forall_forall in Hy. specialize (Hy z Hz).
        destruct (comp z x) eqn:Ezx; [|right; split; assumption].
        exfalso. pose proof (comp_left x y z Ezx E) as Hzy.
        destruct Hy as [Hyz|[Hzy' _]]; [|congruence].
        apply comp_asym in Hyz. congruence.
Qed.

Lemma stable_sort_seq (a n : nat) :
  StronglySorted (before comp) (stable_sort comp (seq a n)).
Proof.
  revert a. induction n as [|n IH]; intros a; simpl; [constructor|].
  apply insert_sorted_before; [apply IH|].
  intros y Hy. apply (Permutation_in _ (stable_sort_perm comp (seq (S a) n))) in Hy.
  apply in_seq in Hy. lia.
Qed.

End StableSort.

Lemma StronglySorted_at {A : Type} (R : A -> A -> Prop) (d : A) (l : list A) (p q : nat) :
  StronglySorted R l -> p < q -> q < List.length l -> R (at_ d l p) (at_ d l q).
Proof.
  intros Hs. revert p q. induction Hs as [|x l Hs IH Hx]; intros p q Hpq Hq.
  - simpl in Hq. lia.
  - simpl in Hq. destruct q as [|q]; [lia|]. destruct p as [|p]; unfold at_; simpl.
    + rewrite Forall_forall in Hx. apply Hx, nth_In. lia.
    + apply IH; lia.
Qed.

Section Comparator.

Variable key : nat -> double.
Variable ascending : bool.

Lemma isnan_eqb (v : double) : negb (v =? v)%float = isnan v.
Proof. reflexivity. Qed.

Lemma comparator_unfold (lhs rhs : nat) :
  comparator key ascending lhs rhs
  = if isnan (key lhs) || isnan (key rhs) then
      if isnan (key lhs) && isnan (key rhs) then (lhs <? rhs)%nat
      else if ascending then negb (isnan (key lhs)) && isnan (key rhs)
      else isnan (key lhs) && negb (isnan (key rhs))
    else if ascending then (key lhs <? key rhs)%float
    else (key rhs <? key lhs)%float.
Proof. reflexivity. Qed.

Lemma comparator_asym (a b : nat) :
  comparator key ascending a b = true -> comparator key ascending b a = false.
Proof.
  rewrite !comparator_unfold.
  destruct (isnan (key a)) eqn:Ea; destruct (isnan (key b)) eqn:Eb;
    destruct ascending; simpl; try congruence;
    try (rewrite Nat.ltb_lt, Nat.ltb_ge; lia); apply ltb_asym.
Qed.

Lemma comparator_left (x y z : nat) :
  comparator key ascending z x = true -> comparator key ascending y x = false ->
  comparator key ascending z y = true.
Proof.
  rewrite !comparator_unfold.
  destruct (isnan (key x)) eqn:Ex; destruct (isnan (key y)) eqn:Ey;
    destruct (isnan (key z)) eqn:Ez; destruct ascending; simpl; try congruence;
    try (rewrite !Nat.ltb_lt, Nat.ltb_ge; lia).
  - intros H1 H2. apply (ltb_left _ _ _ Ey H1 H2).
  - intros H1 H2. apply (ltb_right _ _ _ Ey H1 H2).
Qed.

(** The positions [0 .. n - 1] sorted by the comparator are listed as the
    specification asks. *)
Lemma stable_sort_as_specified (n : nat) :
  sorted_as_specified key ascending
    (stable_sort (comparator key ascending) (seq 0 n)).
Proof.
  intros p q Hpq Hq.
  pose proof (StronglySorted_at _ 0 _ p q
                (stable_sort_seq _ comparator_asym comparator_left 0 n) Hpq Hq) as H.
  cbv zeta.
  set (a := at_ 0 (stable_sort (comparator key ascending) (seq 0 n)) p) in *.
  set (b := at_ 0 (stable_sort (comparator key ascending) (seq 0 n)) q) in *.
  unfold before in H. rewrite !comparator_unfold in H.
  split; [|split].
  - destruct ascending; destruct (isnan (key a)) eqn:Ea; destruct (isnan (key b)) eqn:Eb;
      simpl in H; try congruence; destruct H as [H|[H _]]; discriminate.
  - intros Ea Eb. rewrite Ea, Eb in H. simpl in H.
    destruct ascending; destruct H as [H|[H _]]; try assumption; now apply ltb_asym.
  - intros [Heq|[Ea Eb]].
    + assert (Ea : isnan (key a) = false).
      { destruct (isnan (key a)) eqn:E; [|reflexivity].
        apply isnan_spec in E. rewrite FloatAxioms.eqb_spec, E in Heq. discriminate. }
      assert (Eb : isnan (key b) = false).
      { destruct (isnan (key b)) eqn:E; [|reflexivity].
        apply isnan_spec in E. rewrite FloatAxioms.eqb_spec, E in Heq.
        unfold SFeqb, SFcompare in Heq. destruct (Prim2SF (key a)); discriminate. }
      rewrite Ea, Eb in H. simpl in H. apply eqb_not_ltb in Heq. destruct Heq as [H1 H2].
      destruct ascending; destruct H as [H|[_ H]]; congruence || assumption.
    + rewrite Ea, Eb in H. simpl in H. destruct H as [H|[_ H]]; [|assumption].
      now apply Nat.ltb_lt.
Qed.

End Comparator.

Section SortClaim.

Context {IndexT : Type} {IT : IndexType IndexT}.
Implicit Types df : DataFrame IndexT.

Lemma find_index_Some_length {A : Type} (eqb : A -> A -> bool) (x : A) (v : list A) (i : nat) :
  find_index eqb x v = Some i -> i < List.length v.
Proof.
  revert i. induction v as [|y v IH]; simpl; intros i H; [discriminate|].
  destruct (eqb y x).
  - inversion H. lia.
  - destruct (find_index eqb x v) as [j|]; simpl in H; [|discriminate].
    inversion H. specialize (IH j eq_refl). lia.
Qed.

(** C7. [sort_rows_by_column] returns the rows, and
    [sort_columns_by_row] the columns, in an order that is a permutation
    of the original positions in which, of any two positions, a NaN key
    comes after every number when ascending and before every number when
    descending, numbers come in ascending (descending) order, and equal
    keys as well as NaN keys keep their original relative order. *)
Theorem sort_is_stable df :
  (forall column_name ascending column_index,
      find_column_index df column_name = Ok column_index ->
      exists order,
        sort_rows_by_column df column_name ascending
        = Ok (mkDataFrame (columns_ df)
                          (map (at_ index_init (index_ df)) order)
                          (map (at_ [] (data_ df)) order)
                          (index_name_ df))
        /\ Permutation order (seq 0 (rows df))
        /\ sorted_as_specified (fun r => value_at df r column_index) ascending order)
  /\ (forall index_value ascending row_position,
      0 < cols df -> 0 < rows df ->
      find_row_position df index_value = Ok row_position ->
      exists order,
        sort_columns_by_row df index_value ascending
        = Ok (mkDataFrame (map (at_ EmptyString (columns_ df)) order)
                          (index_ df)
                          (tabulate (rows df)
                                    (fun r => map (fun c => value_at df r c) order))
                          (index_name_ df))
        /\ Permutation order (seq 0 (cols df))
        /\ sorted_as_specified (fun c => value_at df row_position c) ascending order).
Proof.
  split.
  - intros column_name ascending column_index Hfind.
    exists (stable_sort (comparator (fun r => value_at df r column_index) ascending)
                        (seq 0 (rows df))).
    split; [|split].
    + unfold sort_rows_by_column. rewrite Hfind.
      assert (Hc : (cols df =? 0)%nat = false).
      { unfold find_column_index in Hfind.
        destruct (find_index String.eqb column_name (columns_ df)) as [i|] eqn:E;
          [|discriminate].
        apply find_index_Some_length in E. apply Nat.eqb_neq. unfold cols. lia. }
      rewrite Hc. reflexivity.
    + apply stable_sort_perm.
    + apply stable_sort_as_specified.
  - intros index_value ascending row_position Hcols Hrows Hfind.
    exists (stable_sort (comparator (fun c => value_at df row_position c) ascending)
                        (seq 0 (cols df))).
    split; [|split].
    + unfold sort_columns_by_row. rewrite Hfind.
      assert (Hc : (cols df =? 0)%nat = false) by (apply Nat.eqb_neq; lia).
      assert (Hr : (rows df =? 0)%nat = false) by (apply Nat.eqb_neq; lia).
      rewrite Hc, Hr. reflexivity.
    + apply stable_sort_perm.
    + apply stable_sort_as_specified.
Qed.

End SortClaim.

(** ** Percentiles *)

Section SortedValues.

Variable A : Type.
Variable comp : A -> A -> bool.
Variable P : A -> Prop.

Hypothesis comp_asym : forall a b, comp a b = true -> comp b a = false.
Hypothesis comp_trans :
  forall x y z, P y -> comp y x = false -> comp z y = false -> comp z x = false.

Lemma insert_sorted_not_after (x : A) (l : list A) :
  Forall P l -> StronglySorted (not_after comp) l ->
  StronglySorted (not_after comp) (insert_sorted comp x l).
Proof.
  induction l as [|y l IH]; intros HP Hs; simpl.
  - repeat constructor.
  - inversion Hs as [|y' l' Hl Hy]; subst. inversion HP as [|y' l' Py Pl]; subst.
    destruct (comp y x) eqn:E.
    + constructor; [now apply IH|].
      rewrite Forall_forall. intros z Hz.
      apply (Permutation_in _ (insert_sorted_perm comp x l)) in Hz.
      destruct Hz as [<-|Hz]; [now apply comp_asym|].
      rewrite Forall_forall in Hy. now apply Hy.
    + constructor; [assumption|].
      rewrite Forall_forall. intros z [<-|Hz]; [assumption|].
      rewrite Forall_forall in Hy. specialize (Hy z Hz).
      unfold not_after in *. now apply (comp_trans x y z).
Qed.

Lemma stable_sort_not_after (l : list A) :
  Forall P l -> StronglySorted (not_after comp) (stable_sort comp l).
Proof.
  induction l as [|x l IH]; intros HP; simpl; [constructor|].
  inversion HP; subst. apply insert_sorted_not_after; [|now apply IH].
  rewrite Forall_forall. intros y Hy.
  apply (Permutation_in _ (stable_sort_perm comp l)) in Hy.
  rewrite Forall_forall in H2. now apply H2.
Qed.

End SortedValues.

Lemma non_missing_number (values : list double) :
  Forall (fun v => isnan v = false) (non_missing values).
Proof.
  rewrite Forall_forall. intros v Hv. apply filter_In in Hv.
  destruct Hv as [_ Hv]. unfold isnan. now rewrite Hv.
Qed.

Lemma non_missing_In (values : list double) (v : double) :
  In v (non_missing values) <-> In v values /\ isnan v = false.
Proof.
  unfold non_missing. rewrite filter_In. unfold isnan.
  destruct (v =? v)%float; simpl; intuition congruence.
Qed.

Lemma ltb_irrefl (x : double) : (x <? x)%float = false.
Proof.
  destruct (x <? x)%float eqn:E; [|reflexivity].
  pose proof (ltb_asym _ _ E). congruence.
Qed.

Lemma ltb_not_after_trans (x y z : double) :
  isnan y = false -> (y <? x)%float = false -> (z <? y)%float = false ->
  (z <? x)%float = false.
Proof.
  intros Hy H1 H2. destruct (z <? x)%float eqn:E; [|reflexivity].
  rewrite (ltb_left z x y Hy E H1) in H2. discriminate.
Qed.

Lemma ltb_true_number (x y : double) :
  (x <? y)%float = true -> isnan x = false /\ isnan y = false.
Proof.
  rewrite ltb_spec. intros H. split; apply isnan_false_spec; intros E;
    rewrite E in H; unfold SFltb, SFcompare in H;
    try discriminate; destruct (Prim2SF x); discriminate.
Qed.

Section PercentileClaim.

Context {RT : Runtime} {IndexT : Type}.
Implicit Types df : DataFrame IndexT.

Lemma column_percentiles_cell df percentiles out p_idx c :
  column_percentiles df percentiles = Ok out ->
  p_idx < List.length percentiles -> c < cols df ->
  value_at out p_idx c
  = let values := non_missing (column_values df c) in
    if is_nil values then quiet_NaN
    else percentile_of (std_sort values) (at_ 0%float percentiles p_idx).
Proof.
  unfold column_percentiles. intros H Hp Hc.
  destruct (is_nil (columns_ df)); [discriminate|].
  destruct (is_nil percentiles); [discriminate|].
  destruct (existsb _ percentiles); [discriminate|].
  inversion H; subst; clear H. unfold value_at at 1, cell. cbn [data_].
  rewrite (tabulate_at []) by assumption.
  now rewrite (tabulate_at 0%float) by assumption.
Qed.

Lemma column_percentiles_range df percentiles p :
  In p percentiles -> (p <? 0)%float = true \/ (100 <? p)%float = true ->
  column_percentiles df percentiles
  = (if is_nil (columns_ df) then Err "dataframe::column_percentiles: no columns"
     else Err "dataframe::column_percentiles: percentiles must be in [0, 100]").
Proof.
  intros Hin Hp. unfold column_percentiles.
  destruct (is_nil (columns_ df)); [reflexivity|].
  destruct percentiles as [|p0 ps]; [contradiction|]. cbn [is_nil].
  assert (E : existsb (fun p => (p <? 0)%float || (100 <? p)%float) (p0 :: ps) = true).
  { apply existsb_exists. exists p. split; [assumption|].
    destruct Hp as [-> | ->]; [reflexivity|apply orb_true_r]. }
  now rewrite E.
Qed.

End PercentileClaim.

Section PercentileRange.

Context {RT : Runtime} {IndexT : Type} {IT : IndexType IndexT}.
Implicit Types df : DataFrame IndexT.

(** C8. The claim fails on the code for a percentile that is NaN: the
    range check [p < 0.0 || p > 100.0] is false for it, so
    [column_percentiles] does not fail and returns a row for it, whatever
    the frame holds. [exponential_moving_average] tests its parameter the
    other way round, [!(alpha > 0.0) || !(alpha < 1.0)], and rejects
    NaN. *)
Theorem column_percentiles_accepts_nan df :
  columns_ df <> [] ->
  (exists out,
     column_percentiles df [quiet_NaN] = Ok out
     /\ columns_ out = columns_ df
     /\ index_ out = [ostream_double quiet_NaN]
     /\ rows out = 1)
  /\ exponential_moving_average df quiet_NaN
     = Err "dataframe::exponential_moving_average: alpha must be in (0,1)".
Proof.
  intros Hcolumns. split; [|reflexivity].
  unfold column_percentiles.
  destruct (columns_ df) as [|name names] eqn:E; [congruence|].
  cbn [is_nil existsb]. change (quiet_NaN <? 0)%float with false.
  change (100 <? quiet_NaN)%float with false. cbn [orb].
  eexists. split; [reflexivity|]. repeat split.
Qed.

End PercentileRange.

Lemma column_percentiles_accepts_nan_witness :
  exists out,
    column_percentiles (RT := sample_runtime)
      (mkDataFrame ["a"] [0; 1]%Z [[1]; [2]]%float "index") [quiet_NaN] = Ok out
    /\ rows out = 1.
Proof.
  destruct (column_percentiles_accepts_nan (RT := sample_runtime)
              (mkDataFrame ["a"] [0; 1]%Z [[1]; [2]]%float "index"))
    as [(out & Hout & _ & _ & Hrows) _]; [discriminate|].
  exists out. split; assumption.
Defined.

(** ** Decoding CSV text *)

Section FromCsv.

Context {RT : Runtime} {IndexT : Type} {IT : IndexType IndexT}.

Lemma from_csv_cell_ok (token : string) (v : double) :
  from_csv_cell token = Ok v ->
  (token = EmptyString -> isnan v = true)
  /\ (token <> EmptyString -> std_stod token = Ok v).
Proof.
  unfold from_csv_cell. destruct token as [|ch token]; simpl.
  - intros H. inversion H; subst. split; [reflexivity|congruence].
  - destruct (std_stod (String ch token)) as [w|msg]; [|discriminate].
    intros H. inversion H; subst. split; [discriminate|reflexivity].
Qed.

Lemma from_csv_line_ok (columns : list string) (has_index : bool) (size : nat)
      (line : string) (idx : IndexT) (row : list double) :
  from_csv_line columns has_index size line = Ok (idx, row) ->
  line_decodes (List.length columns) has_index line row.
Proof.
  unfold from_csv_line, line_decodes. cbv zeta.
  destruct (List.length (detail.split_csv line)
            =? List.length columns + (if has_index then 1 else 0))%nat eqn:E;
    [|discriminate].
  apply Nat.eqb_eq in E. cbn [negb].
  intros H.
  assert (Hoff : exists idx0,
             (if has_index
              then match parse_token (at_ EmptyString (detail.split_csv line) 0) with
                   | Ok idx => Ok (idx, 1)
                   | Err _ => Err "dataframe::from_csv: invalid index value"
                   end
              else match of_size_t with
                   | Some cast => Ok (cast size, 0)
                   | None => Err "dataframe::from_csv: index type cannot be auto-generated"
                   end) = Ok (idx0, if has_index then 1 else 0)).
  { destruct has_index.
    - destruct (parse_token _) as [i|]; [eauto|discriminate].
    - destruct of_size_t as [cast|]; [eauto|discriminate]. }
  destruct Hoff as [idx0 Hoff]. rewrite Hoff in H. cbn [bind] in H.
  destruct (tabulateM (List.length columns) _) as [cells|] eqn:Ecells; [|discriminate].
  cbn [bind] in H. inversion H; subst.
  split; [assumption|]. split; [now apply tabulateM_ok_length in Ecells|].
  intros c Hc. apply from_csv_cell_ok.
  apply (tabulateM_ok_at 0%float _ _ _ c Ecells Hc).
Qed.

Lemma from_csv_lines_ok (columns : list string) (has_index : bool)
      (lines : list string) (index index' : list IndexT) (data data' : list (list double)) :
  from_csv_lines columns has_index lines index data = Ok (index', data') ->
  exists idxs new_rows,
    index' = index ++ idxs /\ data' = data ++ new_rows
    /\ List.length idxs = List.length new_rows
    /\ Forall2 (line_decodes (List.length columns) has_index)
               (filter (fun line => negb (detail.empty (detail.trim line))) lines)
               new_rows.
Proof.
  revert index data. induction lines as [|line lines IH]; intros index data H.
  - simpl in H. inversion H; subst. exists [], []. rewrite !app_nil_r.
    repeat split; constructor.
  - simpl in H. simpl filter.
    destruct (detail.empty (detail.trim line)); cbn [negb].
    + now apply IH.
    + destruct (from_csv_line columns has_index (List.length index) line)
        as [[idx row]|] eqn:El; [|discriminate].
      cbn [bind] in H. apply IH in H.
      destruct H as [idxs [new_rows [-> [-> [Hlen Hrows]]]]].
      exists (idx :: idxs), (row :: new_rows). rewrite <- !app_assoc.
      repeat split; simpl; auto.
      constructor; [|assumption]. now apply from_csv_line_ok in El.
Qed.

Lemma Forall2_at {A B : Type} (R : A -> B -> Prop) (da : A) (db : B)
      (l : list A) (l' : list B) (i : nat) :
  Forall2 R l l' -> i < List.length l -> R (at_ da l i) (at_ db l' i).
Proof.
  intros H. revert i. induction H as [|x y l l' Hxy _ IH]; intros i Hi; simpl in Hi.
  - lia.
  - destruct i as [|i]; [assumption|]. apply IH. lia.
Qed.

(** When [from_csv] returns a frame, every data line has split into
    one field per column (plus one for the index when it is read), every
    empty cell field has become NaN and every other cell field the double
    that [std::stod] read from it; and a data line with another number of
    fields, or with a non-empty cell field on which [std::stod] throws,
    makes [from_csv] fail. *)
Theorem from_csv_data_lines (input : string) (has_index : bool) :
  (forall df : DataFrame IndexT,
      from_csv input has_index = Ok df ->
      exists header rest,
        detail.getline newline input = Some (header, rest)
        /\ columns_ df = csv_columns header has_index
        /\ rows df = List.length (csv_data_lines rest)
        /\ forall r, r < rows df ->
             line_decodes (cols df) has_index (at_ EmptyString (csv_data_lines rest) r)
                          (at_ [] (data_ df) r))
  /\ (forall header rest line,
      detail.getline newline input = Some (header, rest) ->
      In line (csv_data_lines rest) ->
      line_malformed (List.length (csv_columns header has_index)) has_index line ->
      is_ok (from_csv (IndexT := IndexT) input has_index) = false).
Proof.
  assert (Hok : forall df : DataFrame IndexT,
      from_csv input has_index = Ok df ->
      exists header rest,
        detail.getline newline input = Some (header, rest)
        /\ columns_ df = csv_columns header has_index
        /\ rows df = List.length (csv_data_lines rest)
        /\ forall r, r < rows df ->
             line_decodes (cols df) has_index (at_ EmptyString (csv_data_lines rest) r)
                          (at_ [] (data_ df) r)).
  { intros df H. unfold from_csv in H.
    destruct (detail.getline newline input) as [[header rest]|]; [|discriminate].
    exists header, rest. split; [reflexivity|].
    destruct (is_nil (detail.split_csv header)); [discriminate|].
    destruct (has_index && (List.length (detail.split_csv header) <? 2)%nat); [discriminate|].
    fold (csv_columns header has_index) in H.
    destruct (is_nil (csv_columns header has_index)); [discriminate|].
    destruct (from_csv_lines (csv_columns header has_index) has_index
                             (detail.getlines newline rest) [] [])
      as [[index data]|] eqn:E; [|discriminate].
    cbn [bind] in H. inversion H; subst; clear H.
    apply from_csv_lines_ok in E.
    destruct E as [idxs [new_rows [-> [-> [Hlen Hrows]]]]].
    fold (csv_data_lines rest) in Hrows. cbn [app] in *.
    unfold rows, cols. cbn [columns_ data_].
    split; [reflexivity|]. split; [symmetry; apply (Forall2_length Hrows)|].
    intros r Hr. apply Forall2_at; [assumption|].
    rewrite (Forall2_length Hrows). assumption. }
  split; [exact Hok|].
  intros header rest line Hget Hin Hbad.
  destruct (from_csv input has_index) as [df|msg] eqn:E; [|reflexivity].
  exfalso. destruct (Hok df eq_refl) as [header' [rest' [Hget' [Hcols [Hrows Hlines]]]]].
  rewrite Hget in Hget'. inversion Hget'; subst header' rest'.
  apply (In_at EmptyString) in Hin. destruct Hin as [r [Hr <-]].
  rewrite <- Hrows in Hr. specialize (Hlines r Hr).
  unfold cols in Hlines. rewrite Hcols in Hlines.
  destruct Hlines as [Hlen [_ Hcells]]. destruct Hbad as [Hbad|[c [Hc [Hne Hstod]]]].
  - contradiction.
  - destruct (Hcells c Hc) as [_ Hv]. rewrite (Hv Hne) in Hstod. discriminate.
Qed.

End FromCsv.

(** C6. The claim fails on the code for a cell field that starts with a
    number and goes on with other text: [std::stod] converts the longest
    prefix it can and [from_csv] never asks how much of the field was
    read, so the field [12abc] is loaded as 12. The index column takes
    the other path: [parse_token] rejects such a field. *)
Theorem from_csv_accepts_trailing_text {RT : Runtime} :
  std_stod "12abc" = Ok 12%float ->
  from_csv (IndexT := Z) ("a" ++ String newline ("12abc" ++ String newline "")) false
  = Ok (mkDataFrame ["a"] [0%Z] [[12%float]] "index")
  /\ parse_token (IndexT := Z) "12abc" = Err "failed to parse token"
  /\ from_csv (IndexT := Z) ("i,a" ++ String newline ("12abc,1" ++ String newline "")) true
     = Err "dataframe::from_csv: invalid index value".
Proof.
  intros Hstod. split; [|split].
  - cbv -[std_stod]. rewrite Hstod. reflexivity.
  - reflexivity.
  - reflexivity.
Qed.

Lemma from_csv_accepts_trailing_text_witness :
  std_stod (Runtime := sample_runtime) "12abc" = Ok 12%float
  /\ from_csv (RT := sample_runtime) (IndexT := Z)
              ("a" ++ String newline ("12abc" ++ String newline "")) false
     = Ok (mkDataFrame ["a"] [0%Z] [[12%float]] "index").
Proof.
  split; [reflexivity|].
  apply (from_csv_accepts_trailing_text (RT := sample_runtime)). reflexivity.
Defined.

(** ** The invariant of the data model *)

Lemma Forall_tabulate {A : Type} (P : A -> Prop) (n : nat) (f : nat -> A) :
  (forall i, i < n -> P (f i)) -> Forall P (tabulate n f).
Proof.
  intros H. unfold tabulate. rewrite Forall_forall. intros x Hx.
  apply in_map_iff in Hx. destruct Hx as [i [<- Hi]]. apply in_seq in Hi.
  apply H. lia.
Qed.

Lemma well_formed_intro {IndexT : Type} (columns : list string) (index : list IndexT)
      (data : list (list double)) (name : string) :
  List.length index = List.length data ->
  Forall (fun row => List.length row = List.length columns) data ->
  well_formed (mkDataFrame columns index data name).
Proof. intros H1 H2. split; assumption. Qed.

Lemma well_formed_row {IndexT : Type} (df : DataFrame IndexT) (r : nat) :
  well_formed df -> r < rows df -> List.length (at_ [] (data_ df) r) = cols df.
Proof.
  intros [_ H] Hr. rewrite Forall_forall in H. apply H. now apply nth_In.
Qed.

Lemma matrix_tabulate (n m : nat) (f : nat -> nat -> double) :
  Forall (fun row => List.length row = m) (tabulate n (fun r => tabulate m (f r))).
Proof. apply Forall_tabulate. intros r _. apply tabulate_length. Qed.

Lemma mapM_Forall {A B : Type} (f : A -> result B) (P : A -> Prop) (Q : B -> Prop)
      (l : list A) (out : list B) :
  (forall x y, P x -> f x = Ok y -> Q y) ->
  mapM f l = Ok out -> Forall P l -> Forall Q out.
Proof.
  intros HPQ H. apply mapM_ok_Forall2 in H.
  induction H as [|x y l out Hxy _ IH]; intros HP; constructor; inversion HP; subst; eauto.
Qed.

Lemma matrix_mapM (f : double -> result double) (m : nat)
      (data out : list (list double)) :
  mapM (mapM f) data = Ok out ->
  Forall (fun row => List.length row = m) data ->
  List.length out = List.length data /\ Forall (fun row => List.length row = m) out.
Proof.
  intros H Hd. split; [now apply mapM_ok_length in H|].
  apply (mapM_Forall _ _ _ _ _ (fun row row' Hrow E =>
           eq_trans (mapM_ok_length _ _ _ E) Hrow) H Hd).
Qed.

Lemma matrix_tabulateM (n m : nat) (f : nat -> nat -> result double)
      (out : list (list double)) :
  tabulateM n (fun r => tabulateM m (f r)) = Ok out ->
  List.length out = n /\ Forall (fun row => List.length row = m) out.
Proof.
  intros H. split; [now apply tabulateM_ok_length in H|].
  unfold tabulateM in H at 1.
  apply (mapM_Forall _ (fun _ => True) _ _ _
           (fun r row _ E => tabulateM_ok_length _ _ _ E) H).
  rewrite Forall_forall. auto.
Qed.

Section Invariant.

Context {RT : Runtime} {IndexT : Type} {IT : IndexType IndexT}.
Implicit Types df other : DataFrame IndexT.

Lemma apply_scalar_wf df func out :
  well_formed df -> apply_scalar df func = Ok out -> well_formed out.
Proof.
  intros [Hi Hd] H. unfold apply_scalar in H.
  destruct (mapM (mapM func) (data_ df)) as [data|] eqn:E; [|discriminate].
  cbn [bind] in H. inversion H; subst; clear H.
  destruct (matrix_mapM _ _ _ _ E Hd) as [Hlen Hrows].
  apply well_formed_intro; [unfold rows in Hi; congruence|exact Hrows].
Qed.

Lemma apply_binary_wf df other func name out :
  well_formed df -> apply_binary df other func name = Ok out -> well_formed out.
Proof.
  intros [Hi Hd] H. unfold apply_binary in H.
  destruct (negb (rows df =? rows other)%nat || negb (cols df =? cols other)%nat);
    [discriminate|].
  destruct (negb (vector_eqb String.eqb (columns_ df) (columns_ other))); [discriminate|].
  destruct (negb (vector_eqb index_eqb (index_ df) (index_ other))); [discriminate|].
  destruct (tabulateM (rows df) _) as [data|] eqn:E; [|discriminate].
  cbn [bind] in H. inversion H; subst; clear H.
  destruct (matrix_tabulateM _ _ _ _ E) as [Hlen Hrows].
  apply well_formed_intro; [congruence|exact Hrows].
Qed.

Lemma select_rows_by_positions_wf df positions out :
  well_formed df -> select_rows_by_positions df positions = Ok out -> well_formed out.
Proof.
  intros Hwf H. unfold select_rows_by_positions in H.
  destruct (mapM _ positions) as [picked|] eqn:E; [|discriminate].
  cbn [bind] in H. inversion H; subst; clear H.
  apply well_formed_intro; [now rewrite !length_map|].
  rewrite Forall_map.
  eapply (mapM_Forall _ (fun _ => True)); [|exact E|rewrite Forall_forall; auto].
  intros pos pr _ Epos. cbv beta in Epos.
  destruct (rows df <=? pos)%nat eqn:Ep; [discriminate|].
  inversion Epos; subst. cbn [snd]. apply well_formed_row; [assumption|].
  now apply Nat.leb_gt.
Qed.

Lemma select_columns_by_positions_wf df positions out :
  well_formed df -> select_columns_by_positions df positions = Ok out -> well_formed out.
Proof.
  intros [Hi Hd] H. unfold select_columns_by_positions in H.
  destruct (mapM _ positions) as [columns|] eqn:E; [|discriminate].
  cbn [bind] in H. inversion H; subst; clear H.
  apply well_formed_intro.
  - now rewrite tabulate_length.
  - apply mapM_ok_length in E. rewrite E. apply matrix_tabulate.
Qed.

Lemma from_vectors_wf indices columns data (out : DataFrame IndexT) :
  from_vectors indices columns data = Ok out -> well_formed out.
Proof.
  unfold from_vectors. intros H.
  destruct (is_nil columns); [discriminate|].
  destruct (List.length indices =? List.length data)%nat eqn:E1; [|discriminate].
  cbn [negb] in H. destruct (existsb detail.empty columns); [discriminate|].
  destruct (existsb _ data) eqn:E2; [discriminate|].
  inversion H; subst; clear H. apply Nat.eqb_eq in E1.
  apply well_formed_intro; [assumption|].
  rewrite Forall_forall. intros row Hrow.
  destruct (List.length row =? List.length columns)%nat eqn:E; [now apply Nat.eqb_eq|].
  assert (Hex : existsb (fun row => negb (List.length row =? List.length columns)%nat) data
                = true).
  { apply existsb_exists. exists row. now rewrite E. }
  congruence.
Qed.

Lemma from_csv_wf input has_index (out : DataFrame IndexT) :
  from_csv input has_index = Ok out -> well_formed out.
Proof.
  unfold from_csv. intros H.
  destruct (detail.getline newline input) as [[header rest]|]; [|discriminate].
  destruct (is_nil (detail.split_csv header)); [discriminate|].
  destruct (has_index && (List.length (detail.split_csv header) <? 2)%nat); [discriminate|].
  destruct (is_nil _); [discriminate|].
  destruct (from_csv_lines _ has_index (detail.getlines newline rest) [] [])
    as [[index data]|] eqn:E; [|discriminate].
  cbn [bind] in H. inversion H; subst; clear H.
  apply from_csv_lines_ok in E.
  destruct E as [idxs [new_rows [-> [-> [Hlen Hrows]]]]]. cbn [app].
  apply well_formed_intro; [assumption|].
  clear Hlen. induction Hrows as [|line row lines rows_ Hd _ IH]; constructor; auto.
  destruct Hd as [_ [Hd _]]. exact Hd.
Qed.

Lemma read_n_length {A : Type} (n : nat) (m : detail.reader A) (input rest : detail.stream)
      (l : list A) :
  detail.read_n n m input = Ok (l, rest) -> List.length l = n.
Proof.
  revert input l. induction n as [|n IH]; intros input l H; simpl in H.
  - unfold detail.ret in H. now inversion H.
  - unfold detail.rbind in H. destruct (m input) as [[a input1]|]; [|discriminate].
    destruct (detail.read_n n m input1) as [[l1 input2]|] eqn:E; [|discriminate].
    unfold detail.ret in H. inversion H; subst. simpl. f_equal. eapply IH, E.
Qed.

Lemma read_n_Forall {A : Type} (P : A -> Prop) (n : nat) (m : detail.reader A)
      (input rest : detail.stream) (l : list A) :
  (forall i a r, m i = Ok (a, r) -> P a) ->
  detail.read_n n m input = Ok (l, rest) -> Forall P l.
Proof.
  intros HP. revert input l. induction n as [|n IH]; intros input l H; simpl in H.
  - unfold detail.ret in H. inversion H. constructor.
  - unfold detail.rbind in H. destruct (m input) as [[a input1]|] eqn:Ea; [|discriminate].
    destruct (detail.read_n n m input1) as [[l1 input2]|] eqn:E; [|discriminate].
    unfold detail.ret in H. inversion H; subst. constructor; eauto.
Qed.

Lemma from_binary_wf input (out : DataFrame IndexT) rest :
  from_binary input = Ok (out, rest) -> well_formed out.
Proof.
  unfold from_binary, detail.rbind. intros H.
  destruct (_ || _); [discriminate|].
  destruct (detail.read_pod_u64 _) as [[row_count i1]|]; [|discriminate].
  destruct (detail.read_pod_u64 _) as [[col_count i2]|]; [|discriminate].
  destruct (detail.read_string _) as [[index_name i3]|]; [|discriminate].
  destruct (detail.read_pod_u64 _) as [[column_names i4]|]; [|discriminate].
  destruct (negb (column_names =? col_count)%Z); [discriminate|].
  destruct (detail.read_n (Z.to_nat col_count) detail.read_string i4)
    as [[columns i5]|] eqn:Ec; [|discriminate].
  destruct (detail.read_n (Z.to_nat row_count) read_index_value i5)
    as [[index i6]|] eqn:Ei; [|discriminate].
  destruct (detail.read_n (Z.to_nat row_count) _ i6) as [[data i7]|] eqn:Ed; [|discriminate].
  unfold detail.ret in H. inversion H; subst; clear H.
  apply read_n_length in Ec. apply read_n_length in Ei.
  apply well_formed_intro.
  - apply read_n_length in Ed. congruence.
  - rewrite Ec. eapply read_n_Forall; [|exact Ed].
    intros i a r Hr. eapply read_n_length, Hr.
Qed.

Lemma random_normal_wf dist nrows columns mean stddev seed target_corr
      (out : DataFrame IndexT) :
  random_normal dist nrows columns mean stddev seed target_corr = Ok out ->
  well_formed out.
Proof.
  unfold random_normal. intros H.
  destruct integral_max as [index_max|]; [|discriminate].
  destruct of_size_t as [cast|]; [|discriminate].
  destruct (is_nil columns); [discriminate|].
  destruct (stddev <=? 0)%float; [discriminate|].
  destruct (_ || _); [discriminate|].
  destruct (index_max <? Z.of_nat nrows)%Z; [discriminate|].
  inversion H; subst; clear H.
  apply well_formed_intro.
  - destruct (_ || _); now rewrite !tabulate_length.
  - destruct (_ || _); apply matrix_tabulate.
Qed.

Lemma random_uniform_wf dist nrows columns min max seed (out : DataFrame IndexT) :
  random_uniform dist nrows columns min max seed = Ok out -> well_formed out.
Proof.
  unfold random_uniform. intros H.
  destruct integral_max as [index_max|]; [|discriminate].
  destruct of_size_t as [cast|]; [|discriminate].
  destruct (is_nil columns); [discriminate|].
  destruct (max <=? min)%float; [discriminate|].
  destruct (index_max <? Z.of_nat nrows)%Z; [discriminate|].
  inversion H; subst; clear H.
  apply well_formed_intro; [now rewrite !tabulate_length|apply matrix_tabulate].
Qed.

Lemma add_column_wf df name values out :
  well_formed df -> add_column df name values = Ok out -> well_formed out.
Proof.
  intros [Hi Hd] H. unfold add_column in H.
  destruct (contains String.eqb name (columns_ df)); [discriminate|].
  destruct (rows df =? 0)%nat eqn:E0.
  - destruct (negb (is_nil values)); [discriminate|].
    inversion H; subst; clear H. apply Nat.eqb_eq in E0.
    apply well_formed_intro; [exact Hi|].
    unfold rows in E0. destruct (data_ df); [constructor|discriminate].
  - destruct (negb (List.length values =? rows df)%nat); [discriminate|].
    inversion H; subst; clear H.
    apply well_formed_intro; [now rewrite imap_length|].
    unfold imap. rewrite Forall_map, Forall_forall. intros [r row] Hin.
    apply in_combine_r in Hin. cbn [fst snd]. rewrite !length_app. simpl.
    rewrite Forall_forall in Hd. unfold cols in Hd. now rewrite (Hd row Hin).
Qed.

Lemma skipn_index_length df (k : nat) :
  well_formed df -> List.length (skipn k (index_ df)) = rows df - k.
Proof. intros [Hi _]. now rewrite length_skipn, Hi. Qed.

Lemma differences_wf df out :
  well_formed df -> differences df = Ok out -> well_formed out.
Proof.
  intros Hwf H. unfold differences in H.
  destruct (rows df <? 2)%nat; [discriminate|].
  pose proof (skipn_index_length df 1 Hwf) as Hs.
  inversion H; subst; clear H.
  apply well_formed_intro; [|apply matrix_tabulate].
  rewrite tabulate_length. exact Hs.
Qed.

Lemma log_changes_wf df out :
  well_formed df -> log_changes df = Ok out -> well_formed out.
Proof.
  intros Hwf H. unfold log_changes in H.
  destruct (rows df <? 2)%nat; [discriminate|].
  destruct (tabulateM (rows df - 1) _) as [data|] eqn:E; [|discriminate].
  cbn [bind] in H. inversion H; subst; clear H.
  destruct (matrix_tabulateM _ _ _ _ E) as [Hlen Hrows].
  apply well_formed_intro; [|exact Hrows].
  rewrite Hlen. exact (skipn_index_length df 1 Hwf).
Qed.

Lemma proportional_changes_wf df out :
  well_formed df -> proportional_changes df = Ok out -> well_formed out.
Proof.
  intros Hwf H. unfold proportional_changes in H.
  destruct (rows df <? 2)%nat; [discriminate|].
  destruct (tabulateM (rows df - 1) _) as [data|] eqn:E; [|discriminate].
  cbn [bind] in H. inversion H; subst; clear H.
  destruct (matrix_tabulateM _ _ _ _ E) as [Hlen Hrows].
  apply well_formed_intro; [|exact Hrows].
  rewrite Hlen. exact (skipn_index_length df 1 Hwf).
Qed.

Lemma zeros_wf df name :
  well_formed df ->
  well_formed (mkDataFrame (columns_ df) (index_ df)
                 (tabulate (rows df) (fun _ => filled (cols df) 0%float)) name).
Proof.
  intros [Hi _]. apply well_formed_intro; [now rewrite tabulate_length|].
  apply Forall_tabulate. intros r _. apply filled_length.
Qed.

Lemma standardize_wf df : well_formed df -> well_formed (standardize df).
Proof.
  intros Hwf. unfold standardize.
  destruct (_ || _); [now apply zeros_wf|].
  destruct Hwf as [Hi _].
  apply well_formed_intro; [now rewrite tabulate_length|apply matrix_tabulate].
Qed.

Lemma normalize_wf df : well_formed df -> well_formed (normalize df).
Proof.
  intros Hwf. unfold normalize.
  destruct (_ || _); [now apply zeros_wf|].
  destruct Hwf as [Hi _].
  apply well_formed_intro; [now rewrite tabulate_length|apply matrix_tabulate].
Qed.

Lemma select_rows_wf df values out :
  well_formed df -> select_rows df values = Ok out -> well_formed out.
Proof.
  intros Hwf H. unfold select_rows in H.
  destruct (mapM _ values) as [positions|]; [|discriminate].
  cbn [bind] in H. now apply select_rows_by_positions_wf in H.
Qed.

Lemma select_columns_wf df names out :
  well_formed df -> select_columns df names = Ok out -> well_formed out.
Proof.
  intros Hwf H. unfold select_columns in H.
  destruct (mapM _ names) as [positions|]; [|discriminate].
  cbn [bind] in H. now apply select_columns_by_positions_wf in H.
Qed.

Lemma head_tail_wf df count out :
  well_formed df ->
  head_rows df count = Ok out \/ tail_rows df count = Ok out
  \/ head_columns df count = Ok out \/ tail_columns df count = Ok out ->
  well_formed out.
Proof.
  intros Hwf H.
  unfold head_rows, tail_rows, head_columns, tail_columns in H.
  destruct H as [H|[H|[H|H]]];
    destruct (count =? 0)%nat;
    try (now apply select_rows_by_positions_wf in H);
    try (now apply select_columns_by_positions_wf in H);
    destruct (_ <=? count)%nat;
    try (inversion H; subst; assumption);
    try (now apply select_rows_by_positions_wf in H);
    try (now apply select_columns_by_positions_wf in H).
Qed.

Lemma sort_rows_by_column_wf df column_name ascending out :
  well_formed df -> sort_rows_by_column df column_name ascending = Ok out ->
  well_formed out.
Proof.
  intros Hwf H. unfold sort_rows_by_column in H.
  destruct (cols df =? 0)%nat; [discriminate|].
  destruct (find_column_index df column_name) as [column_index|]; [|discriminate].
  cbn [bind] in H. inversion H; subst; clear H.
  apply well_formed_intro; [now rewrite !length_map|].
  rewrite Forall_map, Forall_forall. intros r Hr.
  apply (Permutation_in _ (stable_sort_perm _ _)) in Hr. apply in_seq in Hr.
  apply well_formed_row; [assumption|lia].
Qed.

Lemma sort_columns_by_row_wf df index_value ascending out :
  well_formed df -> sort_columns_by_row df index_value ascending = Ok out ->
  well_formed out.
Proof.
  intros [Hi _] H. unfold sort_columns_by_row in H.
  destruct (cols df =? 0)%nat; [discriminate|].
  destruct (rows df =? 0)%nat; [discriminate|].
  destruct (find_row_position df index_value) as [row_position|]; [|discriminate].
  cbn [bind] in H. inversion H; subst; clear H.
  apply well_formed_intro; [now rewrite tabulate_length|].
  apply Forall_tabulate. intros r _. now rewrite !length_map.
Qed.

Lemma rolling_loop_wf {S : Type} (step : nat -> nat -> S -> S) (emit : S -> double)
      (init : S) df (window : nat) name :
  well_formed df -> 1 <= window <= rows df ->
  well_formed (mkDataFrame (columns_ df) (skipn (window - 1) (index_ df))
                 (rolling_loop step emit init window (rows df) (cols df)) name).
Proof.
  intros Hwf Hw. rewrite rolling_loop_spec by lia.
  apply well_formed_intro; [|apply matrix_tabulate].
  rewrite tabulate_length, skipn_index_length by assumption. lia.
Qed.

Lemma rolling_wf df window out :
  well_formed df ->
  rolling_mean df window = Ok out \/ rolling_std df window = Ok out
  \/ rolling_rms df window = Ok out ->
  well_formed out.
Proof.
  intros Hwf H. unfold rolling_mean, rolling_std, rolling_rms in H.
  destruct (window =? 0)%nat eqn:E0;
    [destruct H as [H|[H|H]]; discriminate|].
  destruct (rows df <? window)%nat eqn:E1;
    [destruct H as [H|[H|H]]; discriminate|].
  apply Nat.eqb_neq in E0. apply Nat.ltb_ge in E1.
  destruct H as [H|[H|H]]; inversion H; subst; clear H.
  - apply rolling_loop_wf; [assumption|lia].
  - apply rolling_loop_wf; [assumption|lia].
  - destruct (cols df =? 0)%nat; [|apply rolling_loop_wf; [assumption|lia]].
    apply well_formed_intro.
    + rewrite tabulate_length, skipn_index_length by assumption. lia.
    + apply Forall_tabulate. intros r _. apply filled_length.
Qed.

Lemma exponential_moving_average_wf df alpha out :
  well_formed df -> exponential_moving_average df alpha = Ok out -> well_formed out.
Proof.
  intros [Hi _] H. unfold exponential_moving_average in H.
  destruct (_ || _); [discriminate|]. inversion H; subst; clear H.
  apply well_formed_intro; [now rewrite tabulate_length|apply matrix_tabulate].
Qed.

Lemma resample_rows_wf df entropy sample_size reset_index out :
  well_formed df -> resample_rows df entropy sample_size reset_index = Ok out ->
  well_formed out.
Proof.
  intros Hwf H. unfold resample_rows in H.
  destruct (rows df =? 0)%nat eqn:E0; [discriminate|].
  apply Nat.eqb_neq in E0. inversion H; subst; clear H.
  apply well_formed_intro; [now rewrite imap_length, length_map|].
  rewrite Forall_map. apply Forall_tabulate. intros i _.
  apply well_formed_row; [assumption|].
  unfold uniform_int. pose proof (Nat.mod_upper_bound (entropy i) (rows df - 1 - 0 + 1)).
  lia.
Qed.

Lemma remove_nan_wf df out :
  well_formed df ->
  remove_rows_with_nan df = Ok out \/ remove_columns_with_nan df = Ok out ->
  well_formed out.
Proof.
  intros Hwf [H|H].
  - now apply select_rows_by_positions_wf in H.
  - now apply select_columns_by_positions_wf in H.
Qed.

Lemma column_stats_dataframe_wf df : well_formed (column_stats_dataframe df).
Proof.
  unfold column_stats_dataframe. apply well_formed_intro; [reflexivity|].
  repeat constructor; now rewrite length_map, tabulate_length.
Qed.

Lemma square_matrix_wf (columns : list string) (f : nat -> nat -> double) name :
  well_formed (mkDataFrame columns columns
                 (tabulate (List.length columns)
                           (fun i => tabulate (List.length columns) (f i))) name).
Proof.
  apply well_formed_intro; [now rewrite tabulate_length|apply matrix_tabulate].
Qed.

Lemma correlation_matrix_wf df out : correlation_matrix df = Ok out -> well_formed out.
Proof.
  unfold correlation_matrix. intros H.
  destruct (is_nil (columns_ df)); [discriminate|].
  destruct (rows df <? 2)%nat; [discriminate|].
  destruct (List.length (valid_rows df) <? 2)%nat; [discriminate|].
  inversion H; subst. apply square_matrix_wf.
Qed.

Lemma covariance_matrix_wf df out : covariance_matrix df = Ok out -> well_formed out.
Proof.
  unfold covariance_matrix. intros H.
  destruct (is_nil (columns_ df)); [discriminate|].
  destruct (rows df <? 2)%nat; [discriminate|].
  destruct (List.length (valid_rows df) <? 2)%nat; [discriminate|].
  inversion H; subst. apply square_matrix_wf.
Qed.

Lemma kendall_tau_matrix_wf df out : kendall_tau_matrix df = Ok out -> well_formed out.
Proof.
  unfold kendall_tau_matrix. intros H.
  destruct (is_nil (columns_ df)); [discriminate|].
  destruct (rows df <? 2)%nat; [discriminate|].
  inversion H; subst. apply square_matrix_wf.
Qed.

Lemma column_percentiles_wf df percentiles out :
  column_percentiles df percentiles = Ok out -> well_formed out.
Proof.
  unfold column_percentiles. intros H.
  destruct (is_nil (columns_ df)); [discriminate|].
  destruct (is_nil percentiles); [discriminate|].
  destruct (existsb _ percentiles); [discriminate|].
  inversion H; subst.
  apply well_formed_intro; [now rewrite length_map, tabulate_length|apply matrix_tabulate].
Qed.

End Invariant.

Lemma spearman_correlation_matrix_wf {RT : Runtime} {IndexT : Type} {IT : IndexType IndexT}
      (df : DataFrame IndexT) out :
  spearman_correlation_matrix df = Ok out -> well_formed out.
Proof.
  unfold spearman_correlation_matrix. intros H.
  destruct (is_nil (columns_ df)); [discriminate|].
  destruct (rows df <? 2)%nat; [discriminate|].
  destruct (tabulateM (cols df) (column_ranks df)) as [ranks|]; [|discriminate].
  cbn [bind] in H. now apply correlation_matrix_wf in H.
Qed.

(** C2. Every frame obtained through the public interface satisfies the
    invariant of the data model: the index has one value per row and every
    row has one cell per column. *)
Theorem produced_well_formed {RT : Runtime} (IndexT : Type) (IT : IndexType IndexT)
        (df : DataFrame IndexT) :
  produced IndexT IT df -> well_formed df.
Proof.
  intros H. induction H.
  - split; [reflexivity|constructor].
  - eapply from_csv_wf; eassumption.
  - eapply from_vectors_wf; eassumption.
  - eapply from_binary_wf; eassumption.
  - eapply random_normal_wf; eassumption.
  - eapply random_uniform_wf; eassumption.
  - destruct IHproduced. split; assumption.
  - eapply add_column_wf; eassumption.
  - eapply differences_wf; eassumption.
  - eapply log_changes_wf; eassumption.
  - eapply proportional_changes_wf; eassumption.
  - eapply apply_scalar_wf; eassumption.
  - eapply apply_scalar_wf; eassumption.
  - eapply apply_scalar_wf; eassumption.
  - unfold divide in *.
    match goal with
    | E : (if ?b then _ else _) = Ok _ |- _ => destruct b; [discriminate|]
    end.
    eapply apply_scalar_wf; eassumption.
  - match goal with E : _ = Ok _ |- _ => eapply apply_binary_wf; [|exact E] end.
    assumption.
  - match goal with E : _ = Ok _ |- _ => eapply apply_binary_wf; [|exact E] end.
    assumption.
  - match goal with E : _ = Ok _ |- _ => eapply apply_binary_wf; [|exact E] end.
    assumption.
  - match goal with E : _ = Ok _ |- _ => eapply apply_binary_wf; [|exact E] end.
    assumption.
  - eapply apply_scalar_wf; eassumption.
  - eapply apply_scalar_wf; eassumption.
  - eapply apply_scalar_wf; eassumption.
  - eapply apply_scalar_wf; eassumption.
  - now apply standardize_wf.
  - now apply normalize_wf.
  - eapply select_rows_wf; eassumption.
  - eapply select_columns_wf; eassumption.
  - eapply select_rows_by_positions_wf; eassumption.
  - eapply head_tail_wf; eauto.
  - eapply head_tail_wf; eauto.
  - eapply head_tail_wf; eauto 6.
  - eapply head_tail_wf; eauto 6.
  - eapply sort_rows_by_column_wf; eassumption.
  - eapply sort_columns_by_row_wf; eassumption.
  - eapply rolling_wf; eauto.
  - eapply rolling_wf; eauto.
  - eapply rolling_wf; eauto.
  - eapply exponential_moving_average_wf; eassumption.
  - eapply resample_rows_wf; eassumption.
  - eapply remove_nan_wf; eauto.
  - eapply remove_nan_wf; eauto.
  - apply column_stats_dataframe_wf.
  - eapply correlation_matrix_wf; eassumption.
  - eapply spearman_correlation_matrix_wf; eassumption.
  - eapply kendall_tau_matrix_wf; eassumption.
  - eapply column_percentiles_wf; eassumption.
  - eapply covariance_matrix_wf; eassumption.
Qed.

(** The theorem at a frame built by [from_vectors] and passed through
    [rolling_mean]. *)
Lemma produced_well_formed_witness :
  exists out : DataFrame Z,
    rolling_mean (mkDataFrame ["a"; "b"] [10; 20; 30]%Z
                              [[1; 2]; [nan; 4]; [5; 6]]%float "index") 2 = Ok out
    /\ well_formed out.
Proof.
  eexists. split; [reflexivity|].
  apply (produced_well_formed (RT := sample_runtime) Z int_index).
  apply (by_rolling_mean Z int_index
           (mkDataFrame ["a"; "b"] [10; 20; 30]%Z [[1; 2]; [nan; 4]; [5; 6]]%float "index") 2).
  - apply (by_from_vectors Z int_index [10; 20; 30]%Z ["a"; "b"]
             [[1; 2]; [nan; 4]; [5; 6]]%float).
    reflexivity.
  - reflexivity.
Defined.

(** ** The binary codec *)

Lemma Z_of_byte_of_Z (z : Z) : detail.Z_of_byte (detail.byte_of_Z z) = (z mod 256)%Z.
Proof.
  unfold detail.Z_of_byte, detail.byte_of_Z.
  pose proof (Z.mod_pos_bound z 256 ltac:(lia)) as Hb.
  assert (E : Byte.to_N (byte_of_ascii (ascii_of_N (Z.to_N (z mod 256)))) = Z.to_N (z mod 256)).
  { apply Byte.to_of_N. rewrite byte_of_ascii_via_N. f_equal.
    symmetry. apply N_ascii_embedding. lia. }
  rewrite E. lia.
Qed.

Lemma le_bytes_length (n : nat) (z : Z) : List.length (detail.le_bytes n z) = n.
Proof. revert z. induction n as [|n IH]; intros z; simpl; auto. Qed.

Lemma le_value_bytes (n : nat) (z : Z) :
  detail.le_value (detail.le_bytes n z) = (z mod 256 ^ Z.of_nat n)%Z.
Proof.
  revert z. induction n as [|n IH]; intros z.
  - simpl. now rewrite Z.mod_1_r.
  - cbn [detail.le_bytes detail.le_value]. rewrite Z_of_byte_of_Z, IH.
    rewrite Nat2Z.inj_succ, Z.pow_succ_r by lia.
    rewrite (Z.rem_mul_r z 256 (256 ^ Z.of_nat n)) by lia. reflexivity.
Qed.

Lemma read_exact_app (n : nat) (msg : string) (bs rest : detail.stream) :
  List.length bs = n -> detail.read_exact n msg (bs ++ rest) = Ok (bs, rest).
Proof.
  intros H. unfold detail.read_exact. rewrite length_app.
  assert (E : (List.length bs + List.length rest <? n)%nat = false)
    by (apply Nat.ltb_ge; lia).
  rewrite E. subst n.
  rewrite firstn_app, Nat.sub_diag, firstn_all, firstn_O, app_nil_r.
  rewrite skipn_app, Nat.sub_diag, skipn_all, skipn_O. reflexivity.
Qed.

Lemma read_pod_u64_write (n : Z) (rest : detail.stream) :
  (0 <= n < 2 ^ 64)%Z ->
  detail.read_pod_u64 (detail.write_pod_u64 n ++ rest) = Ok (n, rest).
Proof.
  intros H. unfold detail.read_pod_u64, detail.write_pod_u64, detail.rbind.
  rewrite read_exact_app by apply le_bytes_length.
  unfold detail.ret. rewrite le_value_bytes. change (256 ^ Z.of_nat 8)%Z with (2 ^ 64)%Z.
  now rewrite Z.mod_small.
Qed.

Lemma read_pod_unsigned_write (n : Z) (rest : detail.stream) :
  (0 <= n < 2 ^ 32)%Z ->
  detail.read_pod_unsigned (detail.write_pod_unsigned n ++ rest) = Ok (n, rest).
Proof.
  intros H. unfold detail.read_pod_unsigned, detail.write_pod_unsigned, detail.rbind.
  rewrite read_exact_app by apply le_bytes_length.
  unfold detail.ret. rewrite le_value_bytes. change (256 ^ Z.of_nat 4)%Z with (2 ^ 32)%Z.
  now rewrite Z.mod_small.
Qed.

Lemma read_pod_int_write (n : Z) (rest : detail.stream) :
  (- 2 ^ 31 <= n < 2 ^ 31)%Z ->
  detail.read_pod_int (detail.write_pod_int n ++ rest) = Ok (n, rest).
Proof.
  intros H. unfold detail.read_pod_int, detail.write_pod_int, detail.rbind.
  rewrite read_exact_app by apply le_bytes_length.
  unfold detail.ret. rewrite le_value_bytes. change (256 ^ Z.of_nat 4)%Z with (2 ^ 32)%Z.
  f_equal. f_equal.
  destruct (Z_lt_ge_dec n 0) as [Hneg|Hpos].
  - assert (E : (n mod 2 ^ 32 = n + 2 ^ 32)%Z).
    { symmetry. apply (Z.mod_unique n (2 ^ 32) (-1) (n + 2 ^ 32))%Z; lia. }
    rewrite E. destruct (n + 2 ^ 32 <? 2 ^ 31)%Z eqn:E1; [apply Z.ltb_lt in E1; lia|lia].
  - rewrite Z.mod_small by lia.
    destruct (n <? 2 ^ 31)%Z eqn:E1; [reflexivity|apply Z.ltb_ge in E1; lia].
Qed.

Lemma read_string_write (s : string) (rest : detail.stream) :
  (Z.of_nat (String.length s) < 2 ^ 64)%Z ->
  detail.read_string (detail.write_string s ++ rest) = Ok (s, rest).
Proof.
  intros H. unfold detail.read_string, detail.write_string, detail.rbind.
  rewrite <- app_assoc, read_pod_u64_write by lia.
  assert (Hlen : List.length (list_byte_of_string s) = String.length s).
  { unfold list_byte_of_string. rewrite length_map.
    clear H. induction s; simpl; auto. }
  destruct (0 <? Z.of_nat (String.length s))%Z eqn:E.
  - rewrite read_exact_app by (rewrite Hlen; lia).
    unfold detail.ret. now rewrite string_of_list_byte_of_string.
  - apply Z.ltb_ge in E. destruct s; [reflexivity|simpl in E; lia].
Qed.

Lemma read_n_write {A : Type} (m : detail.reader A) (w : A -> detail.stream)
      (l : list A) (rest : detail.stream) :
  Forall (fun x => forall rest', m (w x ++ rest') = Ok (x, rest')) l ->
  detail.read_n (List.length l) m (List.concat (map w l) ++ rest) = Ok (l, rest).
Proof.
  intros H. induction H as [|x l Hx _ IH]; [reflexivity|].
  cbn [List.length map List.concat detail.read_n]. unfold detail.rbind.
  rewrite <- app_assoc, Hx, IH. reflexivity.
Qed.

(** The bit pattern of a double determines it. *)
Lemma bits_fields (s : bool) (E f : Z) :
  (0 <= E < 2 ^ 11)%Z -> (0 <= f < 2 ^ 52)%Z ->
  let b := ((if s then 2 ^ 63 else 0) + (E * 2 ^ 52 + f))%Z in
  (2 ^ 63 <=? b)%Z = s /\ ((b / 2 ^ 52) mod 2 ^ 11 = E)%Z /\ (b mod 2 ^ 52 = f)%Z
  /\ (0 <= b < 2 ^ 64)%Z.
Proof.
  intros HE Hf b.
  assert (Hb : (b = 2 ^ 52 * (E + 2 ^ 11 * (if s then 1 else 0)) + f)%Z)
    by (unfold b; destruct s; lia).
  assert (Hq : (b / 2 ^ 52 = E + 2 ^ 11 * (if s then 1 else 0))%Z).
  { symmetry.
    apply (Z.div_unique_pos b (2 ^ 52) (E + 2 ^ 11 * (if s then 1 else 0)) f);
      [lia|exact Hb]. }
  repeat split.
  - unfold b. destruct s; [apply Z.leb_le|apply Z.leb_gt]; lia.
  - rewrite Hq. symmetry.
    apply (Z.mod_unique_pos _ (2 ^ 11) (if s then 1 else 0) E); destruct s; lia.
  - symmetry.
    apply (Z.mod_unique_pos b (2 ^ 52) (E + 2 ^ 11 * (if s then 1 else 0)) f);
      [lia|exact Hb].
  - unfold b. destruct s; lia.
  - unfold b. destruct s; lia.
Qed.

Lemma bounded_cases (m : positive) (e : Z) :
  bounded prec emax m e = true ->
  (e <= 971)%Z /\
  ((2 ^ 52 <= Z.pos m < 2 ^ 53 /\ -1074 <= e)%Z \/ (Z.pos m < 2 ^ 52 /\ e = -1074)%Z).
Proof.
  unfold bounded, canonical_mantissa, fexp, SpecFloat.emin, prec, emax.
  intros H. apply andb_true_iff in H. destruct H as [H1 H2].
  apply Z.eqb_eq in H1. apply Z.leb_le in H2.
  pose proof (digits2_pos_lower m) as Hlo. pose proof (digits2_pos_upper m) as Hup.
  split; [lia|].
  destruct (Z.eq_dec (Z.pos (digits2_pos m)) 53) as [Hd|Hd].
  - left. rewrite Hd in Hlo, Hup. change (53 - 1)%Z with 52%Z in Hlo. lia.
  - right. assert (Hlt : (Z.pos (digits2_pos m) <= 52)%Z) by lia.
    assert (2 ^ Z.pos (digits2_pos m) <= 2 ^ 52)%Z by (apply Z.pow_le_mono_r; lia).
    lia.
Qed.

Lemma double_of_bits_of_double (v : double) :
  detail.double_of_bits (detail.bits_of_double v) = v
  /\ (0 <= detail.bits_of_double v < 2 ^ 64)%Z.
Proof.
  pose proof (Prim2SF_valid v) as Hvalid. pose proof (SF2Prim_Prim2SF v) as Hv.
  unfold detail.bits_of_double, detail.double_of_bits.
  destruct (Prim2SF v) as [s|s| |s m e].
  - rewrite <- Hv. destruct s; split; try reflexivity; lia.
  - rewrite <- Hv. destruct s; split; try reflexivity; lia.
  - rewrite <- Hv. split; [reflexivity|lia].
  - apply bounded_cases in Hvalid. destruct Hvalid as [He [[Hm He']|[Hm He']]].
    + assert (E1 : (2 ^ 52 <=? Z.pos m)%Z = true) by (apply Z.leb_le; lia).
      rewrite E1.
      destruct (bits_fields s (e + 1075) (Z.pos m - 2 ^ 52)) as (B1 & B2 & B3 & B4);
        [lia|lia|].
      cbv zeta in B1, B2, B3, B4. rewrite B1, B2, B3. split; [|exact B4].
      assert (E2 : (e + 1075 =? 0)%Z = false) by (apply Z.eqb_neq; lia).
      assert (E3 : (e + 1075 =? 2047)%Z = false) by (apply Z.eqb_neq; lia).
      rewrite E2, E3, <- Hv. f_equal.
      replace (Z.pos m - 2 ^ 52 + 2 ^ 52)%Z with (Z.pos m) by lia.
      replace (e + 1075 - 1075)%Z with e by lia. reflexivity.
    + assert (E1 : (2 ^ 52 <=? Z.pos m)%Z = false) by (apply Z.leb_gt; lia).
      rewrite E1.
      destruct (bits_fields s 0 (Z.pos m)) as (B1 & B2 & B3 & B4); [lia|lia|].
      cbv zeta in B1, B2, B3, B4. change (0 * 2 ^ 52 + Z.pos m)%Z with (Z.pos m) in *.
      rewrite B1, B2, B3. split; [|exact B4].
      assert (E2 : (Z.pos m =? 0)%Z = false) by (apply Z.eqb_neq; lia).
      rewrite E2, <- Hv. subst e. reflexivity.
Qed.

Lemma read_pod_double_write (v : double) (rest : detail.stream) :
  detail.read_pod_double (detail.write_pod_double v ++ rest) = Ok (v, rest).
Proof.
  destruct (double_of_bits_of_double v) as [Hv Hb].
  unfold detail.read_pod_double, detail.write_pod_double, detail.rbind.
  rewrite read_exact_app by apply le_bytes_length.
  unfold detail.ret. rewrite le_value_bytes. change (256 ^ Z.of_nat 8)%Z with (2 ^ 64)%Z.
  now rewrite Z.mod_small, Hv.
Qed.

Lemma from_binary_magic (input : detail.stream) :
  ((List.length (magic ++ input) <? 6)%nat
   || negb (vector_eqb Byte.eqb (firstn 6 (magic ++ input)) magic)) = false
  /\ skipn 6 (magic ++ input) = input.
Proof. split; reflexivity. Qed.

Section BinaryCodec.

Context {IndexT : Type} {IT : IndexType IndexT}.

Lemma from_binary_to_binary (df : DataFrame IndexT) (rest : detail.stream) :
  well_formed df -> binary_representable df ->
  from_binary (to_binary df ++ rest) = Ok (df, rest).
Proof.
  intros [Hindex Hrows] (Hr & Hc & Hname & Hcolumns & Hstable).
  unfold fits_size_t in *.
  unfold from_binary, to_binary, detail.rbind.
  repeat rewrite <- app_assoc.
  destruct (from_binary_magic
    (detail.write_pod_u64 (Z.of_nat (rows df)) ++
     detail.write_pod_u64 (Z.of_nat (cols df)) ++
     detail.write_string (index_name_ df) ++
     detail.write_pod_u64 (Z.of_nat (List.length (columns_ df))) ++
     List.concat (map detail.write_string (columns_ df)) ++
     List.concat (map write_index_value (index_ df)) ++
     List.concat (map (fun row => List.concat (map detail.write_pod_double row)) (data_ df))
     ++ rest)) as [M1 M2].
  rewrite M1, M2.
  rewrite read_pod_u64_write by lia.
  rewrite read_pod_u64_write by lia.
  rewrite read_string_write by lia.
  rewrite read_pod_u64_write by (fold (cols df); lia).
  fold (cols df). rewrite Z.eqb_refl. cbn [negb].
  rewrite !Nat2Z.id. unfold cols at 1.
  rewrite (read_n_write detail.read_string detail.write_string).
  2:{ eapply Forall_impl; [|exact Hcolumns]. intros name Hn rest'.
      apply read_string_write. exact Hn. }
  rewrite <- Hindex at 1.
  rewrite (read_n_write read_index_value write_index_value) by exact Hstable.
  unfold rows.
  rewrite (read_n_write (detail.read_n (cols df) detail.read_pod_double)
             (fun row => List.concat (map detail.write_pod_double row))).
  2:{ eapply Forall_impl; [|exact Hrows]. intros row Hrow rest'. cbv beta.
      rewrite <- Hrow. apply read_n_write.
      apply Forall_forall. intros v _ rest''. apply read_pod_double_write. }
  unfold detail.ret. destruct df; reflexivity.
Qed.

End BinaryCodec.

(** ** The text codec *)

(** *** Strings *)

Lemma append_nil_r (s : string) : (s ++ "")%string = s.
Proof. induction s as [|c s IH]; simpl; [reflexivity|now rewrite IH]. Qed.

Lemma append_assoc (a b c : string) : ((a ++ b) ++ c)%string = (a ++ (b ++ c))%string.
Proof. induction a as [|x a IH]; simpl; [reflexivity|now rewrite IH]. Qed.

Lemma length_append (a b : string) :
  String.length (a ++ b) = String.length a + String.length b.
Proof. induction a as [|x a IH]; simpl; [reflexivity|now rewrite IH]. Qed.

Lemma concat_cons (x : string) (l : list string) :
  String.concat "" (x :: l) = (x ++ String.concat "" l)%string.
Proof. destruct l; simpl; [now rewrite append_nil_r|reflexivity]. Qed.

Lemma has_char_append (c : ascii) (a b : string) :
  has_char c (a ++ b) = has_char c a || has_char c b.
Proof.
  induction a as [|x a IH]; simpl; [reflexivity|]. now rewrite IH, orb_assoc.
Qed.

Lemma read_until_app (d : ascii) (f rest : string) :
  has_char d f = false ->
  detail.read_until d (f ++ String d rest) = (f, rest).
Proof.
  induction f as [|c f IH]; simpl; intros H.
  - now rewrite Ascii.eqb_refl.
  - apply orb_false_iff in H. destruct H as [Hc Hf].
    rewrite Hc, (IH Hf). reflexivity.
Qed.

Lemma read_until_none (d : ascii) (f : string) :
  has_char d f = false -> detail.read_until d f = (f, EmptyString).
Proof.
  induction f as [|c f IH]; simpl; intros H; [reflexivity|].
  apply orb_false_iff in H. destruct H as [Hc Hf].
  rewrite Hc, (IH Hf). reflexivity.
Qed.

Lemma getline_app (d : ascii) (f rest : string) :
  has_char d f = false ->
  detail.getline d (f ++ String d rest) = Some (f, rest).
Proof.
  intros H. unfold detail.getline.
  rewrite <- (read_until_app d f rest H).
  destruct f; reflexivity.
Qed.

Lemma getline_loop_nil (fuel : nat) (d : ascii) : detail.getline_loop fuel d "" = [].
Proof. destruct fuel; reflexivity. Qed.

(** *** Lines *)

Lemma getline_loop_lines (d : ascii) (bodies : list string) (fuel : nat) :
  Forall (fun b => has_char d b = false) bodies ->
  List.length bodies <= fuel ->
  detail.getline_loop fuel d
    (String.concat "" (map (fun b => b ++ String d "")%string bodies)) = bodies.
Proof.
  intros H. revert fuel. induction H as [|b bodies Hb _ IH]; intros fuel Hfuel.
  - apply getline_loop_nil.
  - destruct fuel as [|fuel]; [simpl in Hfuel; lia|].
    cbn [map]. rewrite concat_cons, append_assoc.
    cbn [detail.getline_loop append]. rewrite (getline_app d b _ Hb).
    rewrite IH by (simpl in Hfuel; lia). reflexivity.
Qed.

Lemma lines_length (d : ascii) (bodies : list string) :
  List.length bodies
  <= String.length (String.concat "" (map (fun b => b ++ String d "")%string bodies)).
Proof.
  induction bodies as [|b bodies IH]; [simpl; lia|].
  cbn [map]. rewrite concat_cons, !length_append. simpl. lia.
Qed.

Lemma getlines_lines (d : ascii) (bodies : list string) :
  Forall (fun b => has_char d b = false) bodies ->
  detail.getlines d
    (String.concat "" (map (fun b => b ++ String d "")%string bodies)) = bodies.
Proof.
  intros H. apply getline_loop_lines; [exact H|apply lines_length].
Qed.

(** *** Fields *)

Lemma write_fields_cons (f g : string) (fields : list string) :
  detail.write_fields (f :: g :: fields)
  = (f ++ String "," (detail.write_fields (g :: fields)))%string.
Proof. reflexivity. Qed.

Lemma back_append (f : string) (c : ascii) (rest : string) :
  detail.back (f ++ String c rest)
  = match rest with EmptyString => Some c | _ => detail.back rest end.
Proof.
  induction f as [|x f IH].
  - destruct rest; reflexivity.
  - cbn [append]. change (detail.back (String x (f ++ String c rest)))
      with (match (f ++ String c rest)%string with
            | EmptyString => Some x
            | _ => detail.back (f ++ String c rest)
            end).
    rewrite IH. destruct f; reflexivity.
Qed.

Lemma back_no_comma (f : string) :
  has_char "," f = false ->
  match detail.back f with Some c => Ascii.eqb c "," | None => false end = false.
Proof.
  induction f as [|x f IH]; intros H; [reflexivity|].
  simpl in H. apply orb_false_iff in H. destruct H as [Hx Hf].
  destruct f as [|y f]; [exact Hx|]. exact (IH Hf).
Qed.

Lemma split_fields (f : string) (fields : list string) (fuel : nat) :
  Forall (fun g => has_char "," g = false) (f :: fields) ->
  String.length (detail.write_fields (f :: fields)) <= fuel ->
  let line := detail.write_fields (f :: fields) in
  (detail.getline_loop fuel "," line
   ++ (if negb (detail.empty line) && match detail.back line with
                                      | Some c => Ascii.eqb c ","
                                      | None => false
                                      end
       then [EmptyString] else []))
  = match fields with
    | [] => if detail.empty f then [] else [f]
    | _ => f :: fields
    end
  /\ (detail.empty line = true -> fields = [] /\ f = EmptyString).
Proof.
  revert f fuel. induction fields as [|g fields IH]; intros f fuel H Hfuel line.
  - unfold line. cbn [detail.write_fields].
    inversion H as [|? ? Hf _]; subst.
    destruct f as [|c f]; [rewrite getline_loop_nil; split; [reflexivity|auto]|].
    destruct fuel as [|fuel]; [simpl in Hfuel; lia|].
    cbn [detail.getline_loop detail.getline]. rewrite (read_until_none _ _ Hf).
    rewrite getline_loop_nil. rewrite (back_no_comma _ Hf).
    rewrite andb_false_r. split; [reflexivity|discriminate].
  - inversion H as [|? ? Hf Hrest]; subst.
    rewrite write_fields_cons, length_append in Hfuel. cbn [String.length] in Hfuel.
    destruct fuel as [|fuel]; [lia|].
    specialize (IH g fuel Hrest ltac:(lia)). cbv zeta in IH.
    destruct IH as [IH Hempty].
    unfold line. rewrite write_fields_cons.
    cbn [detail.getline_loop]. rewrite (getline_app "," f _ Hf).
    rewrite back_append.
    assert (Hne : detail.empty (f ++ String "," (detail.write_fields (g :: fields))) = false)
      by (destruct f; reflexivity).
    rewrite Hne. cbn [negb andb]. split; [|discriminate].
    destruct (detail.write_fields (g :: fields)) as [|c rest] eqn:E.
    + destruct (Hempty eq_refl) as [-> ->].
      rewrite getline_loop_nil. reflexivity.
    + cbn [detail.empty negb andb] in IH.
      rewrite <- app_comm_cons. f_equal.
      rewrite IH. destruct fields as [|h fields]; [|reflexivity].
      cbn [detail.write_fields] in E. subst g. reflexivity.
Qed.

Lemma trim_empty : detail.trim "" = "".
Proof. reflexivity. Qed.

Lemma split_csv_write_fields (f g : string) (fields : list string) :
  Forall clean (f :: g :: fields) ->
  detail.split_csv (detail.write_fields (f :: g :: fields)) = f :: g :: fields.
Proof.
  intros H.
  assert (Hcomma : Forall (fun s => has_char "," s = false) (f :: g :: fields))
    by (eapply Forall_impl; [|exact H]; intros s Hs; apply Hs).
  assert (Htrim : map detail.trim (f :: g :: fields) = f :: g :: fields).
  { clear Hcomma. induction H as [|s l Hs _ IH]; [reflexivity|].
    cbn [map]. rewrite IH. f_equal. apply Hs. }
  destruct (split_fields f (g :: fields)
              (String.length (detail.write_fields (f :: g :: fields))) Hcomma (le_n _))
    as [E _]. cbv zeta in E.
  unfold detail.split_csv, detail.getlines.
  remember (detail.write_fields (f :: g :: fields)) as line eqn:Hline.
  transitivity (map detail.trim (f :: g :: fields)); [|exact Htrim].
  rewrite <- E.
  destruct (negb _ && _); rewrite map_app; [reflexivity|now rewrite app_nil_r].
Qed.

(** *** Blank lines *)

Lemma skip_leading_has (c : ascii) (s : string) :
  detail.isspace c = false -> has_char c s = true ->
  has_char c (detail.skip_leading s) = true.
Proof.
  intros Hc. induction s as [|x s IH]; simpl; intros H; [discriminate|].
  destruct (detail.isspace x) eqn:Hx; [|exact H].
  apply IH. destruct (Ascii.eqb x c) eqn:E; [|exact H].
  apply Ascii.eqb_eq in E. congruence.
Qed.

Lemma drop_trailing_has (c : ascii) (s : string) :
  detail.isspace c = false -> has_char c s = true ->
  detail.empty (detail.drop_trailing s) = false.
Proof.
  intros Hc. induction s as [|x s IH]; simpl; intros H; [discriminate|].
  destruct (Ascii.eqb x c) eqn:E.
  - apply Ascii.eqb_eq in E. subst x. rewrite Hc.
    destruct (detail.drop_trailing s); reflexivity.
  - simpl in H. specialize (IH H).
    destruct (detail.drop_trailing s); [discriminate|reflexivity].
Qed.

Lemma trim_not_blank (c : ascii) (s : string) :
  detail.isspace c = false -> has_char c s = true ->
  detail.empty (detail.trim s) = false.
Proof.
  intros Hc H. unfold detail.trim.
  apply (drop_trailing_has c); [exact Hc|]. now apply skip_leading_has.
Qed.

Lemma write_fields_has_comma (f g : string) (fields : list string) :
  has_char "," (detail.write_fields (f :: g :: fields)) = true.
Proof.
  rewrite write_fields_cons, has_char_append. simpl. apply orb_true_r.
Qed.

Lemma isnan_eq (v : double) : isnan v = true -> v = nan.
Proof.
  intros H. apply isnan_spec in H.
  rewrite <- (SF2Prim_Prim2SF v), H. reflexivity.
Qed.

Lemma tabulate_map {A B : Type} (d : A) (f : A -> B) (l : list A) :
  tabulate (List.length l) (fun i => f (at_ d l i)) = map f l.
Proof.
  unfold tabulate, at_. induction l as [|x l IH]; [reflexivity|].
  cbn [List.length seq map]. f_equal.
  rewrite <- seq_shift, map_map. exact IH.
Qed.

Lemma tabulate_self {A : Type} (d : A) (l : list A) :
  tabulate (List.length l) (at_ d l) = l.
Proof. rewrite (tabulate_map d (fun x => x)). apply map_id. Qed.

Lemma mapM_ok_map {A B : Type} (f : A -> result B) (g : A -> B) (l : list A) :
  (forall x, In x l -> f x = Ok (g x)) -> mapM f l = Ok (map g l).
Proof.
  induction l as [|x l IH]; intros H; [reflexivity|].
  cbn [mapM map]. rewrite (H x (or_introl eq_refl)). cbn [bind].
  rewrite IH by (intros y Hy; apply H; now right). reflexivity.
Qed.

Lemma tabulateM_ok_tabulate {A : Type} (n : nat) (f : nat -> result A) (g : nat -> A) :
  (forall i, i < n -> f i = Ok (g i)) -> tabulateM n f = Ok (tabulate n g).
Proof.
  intros H. apply mapM_ok_map. intros i Hi. apply H. apply in_seq in Hi. lia.
Qed.

Lemma clean_empty : clean "".
Proof. repeat split. Qed.

Lemma write_fields_no_newline (fields : list string) :
  Forall clean fields -> has_char newline (detail.write_fields fields) = false.
Proof.
  induction 1 as [|f fields Hf _ IH]; [reflexivity|].
  destruct fields as [|g fields]; [apply Hf|].
  rewrite write_fields_cons, has_char_append.
  cbn [has_char]. rewrite IH. destruct Hf as (_ & -> & _). reflexivity.
Qed.

Section TextCodec.

Context {RT : Runtime} {IndexT : Type} {IT : IndexType IndexT}.

Lemma to_csv_cell_clean (v : double) : cell_stable v -> clean (to_csv_cell v).
Proof.
  unfold to_csv_cell, isnan. intros [H|(_ & H & _)].
  - apply negb_true_iff in H. rewrite H. exact clean_empty.
  - destruct (v =? v)%float; [exact H|exact clean_empty].
Qed.

Lemma from_csv_cell_to_csv_cell (v : double) :
  cell_stable v -> from_csv_cell (to_csv_cell v) = Ok v.
Proof.
  unfold to_csv_cell, from_csv_cell. intros [H|(Hne & _ & H)].
  - rewrite (isnan_eq v H). reflexivity.
  - destruct (v =? v)%float eqn:E.
    + destruct (ostream_double v) eqn:Es; [congruence|].
      cbn [detail.empty]. now rewrite H.
    + cbn [detail.empty]. f_equal. symmetry. apply isnan_eq.
      unfold isnan. now rewrite E.
Qed.

Lemma from_csv_line_row (columns : list string) (x : IndexT) (row : list double)
      (s : string) (size : nat) :
  columns <> [] -> List.length row = List.length columns ->
  clean s -> parse_token s = Ok x -> Forall cell_stable row ->
  from_csv_line columns true size (detail.write_fields (s :: map to_csv_cell row))
  = Ok (x, row).
Proof.
  intros Hcolumns Hlen Hs Hparse Hrow.
  destruct row as [|v row]; [destruct columns; [congruence|discriminate]|].
  unfold from_csv_line. cbn [map]. rewrite split_csv_write_fields.
  2:{ constructor; [exact Hs|]. change (Forall clean (map to_csv_cell (v :: row))).
      apply Forall_map. eapply Forall_impl; [|exact Hrow].
      intros. now apply to_csv_cell_clean. }
  change (to_csv_cell v :: map to_csv_cell row) with (map to_csv_cell (v :: row)).
  cbn [List.length]. rewrite length_map, <- Hlen, Nat.add_1_r.
  cbn [List.length]. rewrite Nat.eqb_refl. cbn [negb at_ nth].
  rewrite Hparse. cbn [bind].
  rewrite (tabulateM_ok_tabulate _ _ (at_ 0%float (v :: row))).
  - change (S (List.length row)) with (List.length (v :: row)).
    rewrite tabulate_self. reflexivity.
  - intros c Hc. rewrite Nat.add_1_r. unfold at_.
    change (nth (S c) (s :: map to_csv_cell (v :: row)) EmptyString)
      with (nth c (map to_csv_cell (v :: row)) EmptyString).
    rewrite (nth_indep _ EmptyString (to_csv_cell 0%float)) by (now rewrite length_map).
    rewrite map_nth. apply from_csv_cell_to_csv_cell.
    rewrite Forall_forall in Hrow. apply Hrow. now apply nth_In.
Qed.

Lemma from_csv_lines_rows (columns : list string) (body : nat -> string)
      (idx : nat -> IndexT) (row : nat -> list double) (n : nat) :
  (forall r size, r < n ->
     detail.empty (detail.trim (body r)) = false
     /\ from_csv_line columns true size (body r) = Ok (idx r, row r)) ->
  forall m k acc_i acc_d, k + m <= n ->
    from_csv_lines columns true (map body (seq k m)) acc_i acc_d
    = Ok (acc_i ++ map idx (seq k m), acc_d ++ map row (seq k m)).
Proof.
  intros H. induction m as [|m IH]; intros k acc_i acc_d Hk.
  - cbn. now rewrite !app_nil_r.
  - cbn [seq map from_csv_lines].
    destruct (H k (List.length acc_i) ltac:(lia)) as [Hblank Hline].
    rewrite Hblank, Hline. cbn [bind].
    rewrite IH by lia. now rewrite <- !app_assoc.
Qed.

Lemma from_csv_to_csv (df : DataFrame IndexT) :
  well_formed df -> text_representable df ->
  exists text, to_csv df true true = Ok text /\ from_csv text true = Ok df.
Proof.
  intros [Hindex Hrows] (Hcolumns & Hname & Hclean & Hstable & Hcells).
  pose (label := fun x : IndexT =>
                   match index_to_string x with Ok s => s | Err _ => EmptyString end).
  assert (Hlabel : forall r, r < rows df ->
            index_to_string (at_ index_init (index_ df) r)
              = Ok (label (at_ index_init (index_ df) r))
            /\ clean (label (at_ index_init (index_ df) r))
            /\ parse_token (label (at_ index_init (index_ df) r))
               = Ok (at_ index_init (index_ df) r)).
  { intros r Hr. rewrite Forall_forall in Hstable.
    destruct (Hstable (at_ index_init (index_ df) r)) as (s & H1 & H2 & H3).
    - apply nth_In. now rewrite Hindex.
    - unfold label. rewrite H1. auto. }
  assert (Hrow : forall r, r < rows df ->
            List.length (at_ [] (data_ df) r) = cols df
            /\ Forall cell_stable (at_ [] (data_ df) r)).
  { intros r Hr. rewrite Forall_forall in Hrows, Hcells.
    split; [apply Hrows|apply Hcells]; now apply nth_In. }
  pose (body := fun r =>
          detail.write_fields (label (at_ index_init (index_ df) r)
                               :: map to_csv_cell (at_ [] (data_ df) r))).
  exists (detail.write_fields (index_name_ df :: columns_ df)
          ++ String newline
               (String.concat ""
                  (map (fun b => b ++ String newline "") (tabulate (rows df) body))))%string.
  split.
  - unfold to_csv. rewrite Hindex, Nat.eqb_refl. cbn [negb andb].
    rewrite (tabulateM_ok_tabulate _ _ (fun r => (body r ++ String newline "")%string)).
    + cbn [bind]. unfold tabulate. rewrite map_map, append_assoc. reflexivity.
    + intros r Hr. unfold to_csv_row. destruct (Hrow r Hr) as [Hlen _].
      rewrite Hlen, Nat.eqb_refl. cbn [negb].
      destruct (Hlabel r Hr) as [-> _]. cbn [bind app].
      unfold body, value_at, cell. rewrite <- Hlen.
      rewrite (tabulate_map 0%float to_csv_cell). reflexivity.
  - unfold from_csv.
    destruct (columns_ df) as [|name columns] eqn:Ecolumns; [congruence|].
    rewrite getline_app
      by (apply write_fields_no_newline; constructor; assumption).
    rewrite split_csv_write_fields by (constructor; assumption).
    cbn [is_nil List.length Nat.ltb Nat.leb andb skipn at_ nth].
    rewrite getlines_lines.
    2:{ apply Forall_forall. intros b Hb. apply in_map_iff in Hb.
        destruct Hb as (r & <- & Hr). apply in_seq in Hr.
        destruct (Hrow r ltac:(lia)) as [_ Hstab].
        destruct (Hlabel r ltac:(lia)) as (_ & Hc & _).
        apply write_fields_no_newline. constructor; [exact Hc|].
        apply Forall_map. eapply Forall_impl; [|exact Hstab].
        intros v Hv. now apply to_csv_cell_clean. }
    unfold tabulate.
    rewrite (from_csv_lines_rows (name :: columns) body (at_ index_init (index_ df))
               (at_ [] (data_ df)) (rows df)).
    + cbn [bind app]. fold (tabulate (rows df) (at_ index_init (index_ df))).
      fold (tabulate (rows df) (at_ [] (data_ df))).
      rewrite <- Hindex at 1. unfold rows. rewrite !tabulate_self.
      rewrite <- Ecolumns. destruct df; reflexivity.
    + intros r size Hr. destruct (Hrow r Hr) as [Hlen Hstab].
      destruct (Hlabel r Hr) as (_ & Hc & Hp). split.
      * unfold body. destruct (at_ [] (data_ df) r) as [|v row] eqn:Erow.
        { unfold cols in Hlen. rewrite Ecolumns in Hlen. discriminate. }
        cbn [map]. apply (trim_not_blank ","); [reflexivity|].
        apply write_fields_has_comma.
      * unfold body.
        apply from_csv_line_row;
          [discriminate|unfold cols in Hlen; now rewrite Ecolumns in Hlen
          |exact Hc|exact Hp|exact Hstab].
    + lia.
Qed.

End TextCodec.

(** ** Round trips *)

(** C1 (amended). Both codecs restore a frame that satisfies the invariant
    of the data model, with or without missing cells. The binary codec
    restores it, leaving the rest of the stream, when its index values are
    restored from their bytes. The text codec, writing header and index and
    reading with an index column, restores it when it has a column, its
    labels and the texts of its index values are clean fields that parse
    back, and every cell that is not missing is written as a clean field
    that [std::stod] reads back as the same double. *)
Theorem codecs_round_trip {RT : Runtime} {IndexT : Type} {IT : IndexType IndexT}
        (df : DataFrame IndexT) :
  well_formed df ->
  (binary_representable df ->
   forall rest, from_binary (to_binary df ++ rest) = Ok (df, rest))
  /\ (text_representable df ->
      exists text, to_csv df true true = Ok text /\ from_csv text true = Ok df).
Proof.
  intros Hwf. split.
  - intros Hrep rest. now apply from_binary_to_binary.
  - intros Hrep. now apply from_csv_to_csv.
Qed.

(** The theorem at a frame with an [int] index and a missing cell. *)
Lemma codecs_round_trip_witness :
  let df := mkDataFrame ["a"; "b"] [10; -20]%Z [[1; nan]; [-3; 4]]%float "index" in
  from_binary (to_binary df ++ []) = Ok (df, [])
  /\ exists text, to_csv (RT := sample_runtime) df true true = Ok text
                  /\ from_csv (RT := sample_runtime) text true = Ok df.
Proof.
  intros df.
  assert (Hwf : well_formed df) by (split; [reflexivity|repeat constructor]).
  destruct (codecs_round_trip (RT := sample_runtime) df Hwf) as [Hbinary Htext].
  split.
  - apply Hbinary. unfold binary_representable, fits_size_t. cbn.
    repeat split; try lia.
    + repeat constructor.
    + repeat constructor; intros rest; reflexivity.
  - apply Htext. unfold text_representable. cbn.
    repeat split; try discriminate.
    + repeat constructor.
    + repeat constructor; eexists; repeat split.
    + repeat (apply Forall_cons || apply Forall_nil);
        first [left; reflexivity
              |right; split; [discriminate|split; [repeat split|reflexivity]]].
Defined.

(** The claim as stated fails for the text codec: white space around an
    index label is removed by [from_csv]. *)
Lemma text_round_trip_counterexample :
  let df := mkDataFrame ["x"] [" a"] [[nan]] "index" : DataFrame string in
  let text := ("index,x" ++ String newline (" a," ++ String newline ""))%string in
  from_vectors [" a"] ["x"] [[nan]] = Ok df
  /\ well_formed df
  /\ forall RT : Runtime,
       to_csv df true true = Ok text
       /\ from_csv text true = Ok (mkDataFrame ["x"] ["a"] [[nan]] "index")
       /\ from_csv text true <> Ok df.
Proof.
  intros df text. split; [reflexivity|]. split; [split; [reflexivity|repeat constructor]|].
  intros RT. split; [reflexivity|]. split; [reflexivity|]. discriminate.
Qed.

(** ** The index types *)

(** *** Characters *)

Lemma isdigit_cases (c : ascii) :
  isdigit c = true ->
  detail.isspace c = false /\ Ascii.eqb c "," = false /\ Ascii.eqb c newline = false
  /\ match c with "-"%char | "+"%char => false | _ => true end = true.
Proof.
  destruct c as [b0 b1 b2 b3 b4 b5 b6 b7].
  destruct b0, b1, b2, b3, b4, b5, b6, b7; intros H;
    solve [discriminate H | repeat split].
Qed.

Lemma all_chars_has_char (p : ascii -> bool) (c : ascii) (s : string) :
  (forall x, p x = true -> Ascii.eqb x c = false) ->
  all_chars p s = true -> has_char c s = false.
Proof.
  intros Hp. induction s as [|x s IH]; simpl; intros H; [reflexivity|].
  apply andb_true_iff in H. destruct H as [Hx Hs].
  now rewrite (Hp x Hx), IH.
Qed.

Lemma all_chars_back (p : ascii -> bool) (s : string) :
  all_chars p s = true -> s <> EmptyString ->
  exists c, detail.back s = Some c /\ p c = true.
Proof.
  induction s as [|x s IH]; intros H Hne; [congruence|].
  simpl in H. apply andb_true_iff in H. destruct H as [Hx Hs].
  destruct s as [|y s]; [exists x; auto|].
  destruct (IH Hs ltac:(discriminate)) as (c & Hc & Hp). exists c. auto.
Qed.

Lemma drop_trailing_back (s : string) (c : ascii) :
  detail.back s = Some c -> detail.isspace c = false -> detail.drop_trailing s = s.
Proof.
  induction s as [|x s IH]; intros Hb Hc; [reflexivity|].
  destruct s as [|y s].
  - simpl in Hb. inversion Hb; subst. simpl. now rewrite Hc.
  - change (detail.back (String x (String y s))) with (detail.back (String y s)) in Hb.
    specialize (IH Hb Hc).
    change (detail.drop_trailing (String x (String y s)))
      with (match detail.drop_trailing (String y s) with
            | EmptyString => if detail.isspace x then EmptyString else String x EmptyString
            | t => String x t
            end).
    now rewrite IH.
Qed.

Lemma trim_ends (x : ascii) (s : string) (c : ascii) :
  detail.isspace x = false -> detail.back (String x s) = Some c ->
  detail.isspace c = false -> detail.trim (String x s) = String x s.
Proof.
  intros Hx Hb Hc. unfold detail.trim. cbn [detail.skip_leading]. rewrite Hx.
  now apply (drop_trailing_back _ c).
Qed.

(** *** Decimal text *)

Lemma string_of_uint_digits (d : Decimal.uint) :
  all_chars isdigit (NilEmpty.string_of_uint d) = true.
Proof. induction d; simpl; auto. Qed.

Lemma decimal_digits (n : Z) : all_chars isdigit (decimal n) = true.
Proof. apply string_of_uint_digits. Qed.

Lemma decimal_not_empty (n : Z) : decimal n <> EmptyString.
Proof.
  unfold decimal. destruct (Z.to_N n) as [|p]; [discriminate|].
  cbn [N.to_uint]. pose proof (DecimalPos.Unsigned.to_uint_nonnil p) as H.
  destruct (Pos.to_uint p); [congruence|discriminate..].
Qed.

Lemma digits_value_decimal (n : Z) : (0 <= n)%Z -> digits_value (decimal n) = Some n.
Proof.
  intros Hn. unfold digits_value.
  destruct (decimal n) eqn:E; [now apply decimal_not_empty in E|].
  rewrite <- E. unfold decimal. rewrite NilEmpty.usu. cbn [option_map].
  rewrite DecimalN.Unsigned.of_to. f_equal. lia.
Qed.

Lemma take_digits_all (s : string) :
  all_chars isdigit s = true -> take_digits s = (s, EmptyString).
Proof.
  induction s as [|c s IH]; simpl; intros H; [reflexivity|].
  apply andb_true_iff in H. destruct H as [Hc Hs]. now rewrite Hc, IH.
Qed.

Lemma digits_clean (s : string) :
  all_chars isdigit s = true -> s <> EmptyString -> clean s.
Proof.
  intros H Hne. repeat split.
  - apply (all_chars_has_char isdigit); [|exact H]. intros x Hx. now apply isdigit_cases.
  - apply (all_chars_has_char isdigit); [|exact H]. intros x Hx. now apply isdigit_cases.
  - destruct (all_chars_back _ _ H Hne) as (c & Hb & Hc).
    destruct s as [|x s]; [congruence|].
    simpl in H. apply andb_true_iff in H. destruct H as [Hx _].
    apply (trim_ends x s c); [now apply isdigit_cases|exact Hb|now apply isdigit_cases].
Qed.

Lemma parse_token_int_decimal (n : Z) :
  (0 <= n <= 2 ^ 31 - 1)%Z -> parse_token_int (decimal n) = Ok n.
Proof.
  intros Hn. pose proof (decimal_digits n) as Hd. pose proof (decimal_not_empty n) as Hne.
  pose proof (digits_value_decimal n ltac:(lia)) as Hv.
  pose proof (take_digits_all _ Hd) as Ht.
  unfold parse_token_int.
  destruct (decimal n) as [|c s] eqn:E; [congruence|].
  assert (Hc : isdigit c = true) by (simpl in Hd; now apply andb_true_iff in Hd).
  destruct (isdigit_cases c Hc) as (Hsp & _ & _ & Hsign).
  cbn [detail.skip_leading]. rewrite Hsp.
  assert (Hm : match String c s with
               | String "-" s' => (true, s')
               | String "+" s' => (false, s')
               | _ => (false, String c s)
               end = (false, String c s)).
  { clear - Hc. destruct c as [b0 b1 b2 b3 b4 b5 b6 b7].
    destruct b0, b1, b2, b3, b4, b5, b6, b7; solve [discriminate Hc | reflexivity]. }
  rewrite Hm, Ht, Hv.
  assert (Hr : ((n <? - 2 ^ 31) || (2 ^ 31 - 1 <? n))%Z = false).
  { apply orb_false_iff. split; apply Z.ltb_ge; lia. }
  rewrite Hr. reflexivity.
Qed.

Lemma parse_token_int_negative (n : Z) :
  (0 < n <= 2 ^ 31)%Z -> parse_token_int ("-" ++ decimal n) = Ok (- n)%Z.
Proof.
  intros Hn. pose proof (decimal_digits n) as Hd.
  pose proof (digits_value_decimal n ltac:(lia)) as Hv.
  pose proof (take_digits_all _ Hd) as Ht.
  unfold parse_token_int. cbn [append detail.skip_leading].
  change (detail.isspace "-") with false. cbv iota.
  rewrite Ht, Hv.
  assert (Hr : ((- n <? - 2 ^ 31) || (2 ^ 31 - 1 <? - n))%Z = false).
  { apply orb_false_iff. split; apply Z.ltb_ge; lia. }
  rewrite Hr. reflexivity.
Qed.

Lemma int_text_stable (z : Z) : (- 2 ^ 31 <= z < 2 ^ 31)%Z -> text_stable z.
Proof.
  intros Hz. exists (int_to_string z). split; [reflexivity|].
  unfold int_to_string. destruct (z <? 0)%Z eqn:E.
  - apply Z.ltb_lt in E. split.
    + pose proof (decimal_digits (- z)) as Hd.
      pose proof (decimal_not_empty (- z)) as Hne.
      destruct (digits_clean _ Hd Hne) as (H1 & H2 & _).
      repeat split.
      * cbn [append has_char]. now rewrite H1.
      * cbn [append has_char]. now rewrite H2.
      * destruct (all_chars_back _ _ Hd Hne) as (c & Hb & Hc).
        apply (trim_ends "-" (decimal (- z)) c); [reflexivity| |now apply isdigit_cases].
        cbn [append]. destruct (decimal (- z)); [congruence|exact Hb].
    + cbn [parse_token int_index]. rewrite parse_token_int_negative by lia.
      f_equal. lia.
  - apply Z.ltb_ge in E. split.
    + apply digits_clean; [apply decimal_digits|apply decimal_not_empty].
    + cbn [parse_token int_index]. apply parse_token_int_decimal. lia.
Qed.

Lemma int_binary_stable (z : Z) : (- 2 ^ 31 <= z < 2 ^ 31)%Z -> binary_stable z.
Proof. intros Hz rest. now apply read_pod_int_write. Qed.

Lemma string_text_stable (s : string) : clean s -> text_stable s.
Proof. intros H. exists s. auto. Qed.

Lemma string_binary_stable (s : string) : fits_size_t (String.length s) -> binary_stable s.
Proof. intros H rest. now apply read_string_write. Qed.

(** *** Dates *)

(** The four digits of a year and the two digits of the other fields. *)
Lemma printf_04d_digits (n : Z) :
  (0 <= n <= 9999)%Z ->
  exists c1 c2 c3 c4,
    printf_04d n = String c1 (String c2 (String c3 (String c4 "")))
    /\ isdigit c1 = true /\ isdigit c2 = true /\ isdigit c3 = true /\ isdigit c4 = true
    /\ digits_value (String c1 (String c2 (String c3 (String c4 "")))) = Some n.
Proof.
  intros Hn.
  assert (H : forallb (fun k =>
                match printf_04d (Z.of_nat k) with
                | String c1 (String c2 (String c3 (String c4 ""))) =>
                    isdigit c1 && isdigit c2 && isdigit c3 && isdigit c4
                    && match digits_value (printf_04d (Z.of_nat k)) with
                       | Some v => (v =? Z.of_nat k)%Z
                       | None => false
                       end
                | _ => false
                end) (seq 0 (100 * 100)) = true) by (vm_compute; reflexivity).
  rewrite forallb_forall in H. specialize (H (Z.to_nat n)).
  rewrite Z2Nat.id in H by lia.
  assert (Hin : In (Z.to_nat n) (seq 0 (100 * 100))) by (apply in_seq; lia).
  specialize (H Hin).
  destruct (printf_04d n) as [|c1 [|c2 [|c3 [|c4 [|c5 s]]]]]; try discriminate.
  exists c1, c2, c3, c4.
  destruct (digits_value _) as [v|]; [|rewrite andb_false_r in H; discriminate].
  do 4 (apply andb_true_iff in H; destruct H as [H ?]).
  repeat split; try assumption. f_equal. now apply Z.eqb_eq.
Qed.

Lemma printf_02u_digits (n : Z) :
  (0 <= n <= 99)%Z ->
  exists c1 c2,
    printf_02u n = String c1 (String c2 "")
    /\ isdigit c1 = true /\ isdigit c2 = true
    /\ digits_value (String c1 (String c2 "")) = Some n.
Proof.
  intros Hn.
  assert (H : forallb (fun k =>
                match printf_02u (Z.of_nat k) with
                | String c1 (String c2 "") =>
                    isdigit c1 && isdigit c2
                    && match digits_value (printf_02u (Z.of_nat k)) with
                       | Some v => (v =? Z.of_nat k)%Z
                       | None => false
                       end
                | _ => false
                end) (seq 0 100) = true) by (vm_compute; reflexivity).
  rewrite forallb_forall in H. specialize (H (Z.to_nat n)).
  rewrite Z2Nat.id in H by lia.
  assert (Hin : In (Z.to_nat n) (seq 0 100)) by (apply in_seq; lia).
  specialize (H Hin).
  destruct (printf_02u n) as [|c1 [|c2 [|c3 s]]]; try discriminate.
  exists c1, c2.
  destruct (digits_value _) as [v|]; [|rewrite andb_false_r in H; discriminate].
  do 2 (apply andb_true_iff in H; destruct H as [H ?]).
  repeat split; try assumption. f_equal. now apply Z.eqb_eq.
Qed.

Lemma is_valid_date_range (y m d : Z) :
  (0 <= m)%Z -> is_valid_date y m d = true -> (1 <= m <= 12 /\ 1 <= d <= 31)%Z.
Proof.
  intros Hunsigned. unfold is_valid_date, days_in_month.
  destruct ((m =? 0)%Z || (12 <? m)%Z) eqn:E; [discriminate|].
  apply orb_false_iff in E. destruct E as [E1 E2].
  apply Z.eqb_neq in E1. apply Z.ltb_ge in E2.
  intros H. apply andb_true_iff in H. destruct H as [H1 H2].
  apply Z.leb_le in H1. apply Z.leb_le in H2.
  destruct ((m =? 2)%Z && is_leap_year y); [lia|].
  assert (Hm : (m = 1 \/ m = 2 \/ m = 3 \/ m = 4 \/ m = 5 \/ m = 6 \/ m = 7
                  \/ m = 8 \/ m = 9 \/ m = 10 \/ m = 11 \/ m = 12)%Z) by lia.
  destruct Hm as [Hm|[Hm|[Hm|[Hm|[Hm|[Hm|[Hm|[Hm|[Hm|[Hm|[Hm|Hm]]]]]]]]]]];
    subst m;
    match type of H2 with
    | (_ <= ?t)%Z => let v := eval vm_compute in t in change t with v in H2
    end; lia.
Qed.

Lemma is_valid_time_range (h mi s : Z) :
  is_valid_time h mi s = true -> (h <= 23 /\ mi <= 59 /\ s <= 59)%Z.
Proof.
  unfold is_valid_time.
  destruct (23 <? h)%Z eqn:E1; [discriminate|].
  destruct (59 <? mi)%Z eqn:E2; [discriminate|].
  destruct (59 <? s)%Z eqn:E3; [discriminate|].
  apply Z.ltb_ge in E1, E2, E3. lia.
Qed.

Ltac digits_of H :=
  let c1 := fresh "c" in let c2 := fresh "c" in
  let E := fresh "E" in let D1 := fresh "D" in let D2 := fresh "D" in
  let V := fresh "V" in
  destruct H as (c1 & c2 & E & D1 & D2 & V); rewrite E;
  destruct (isdigit_cases c1 D1) as (? & ? & ? & _);
  destruct (isdigit_cases c2 D2) as (? & ? & ? & _).

Lemma Date_text_stable (x : Date) :
  (0 <= year x <= 9999)%Z -> (0 <= month x)%Z ->
  is_valid_date (year x) (month x) (day x) = true ->
  text_stable x.
Proof.
  destruct x as [y m d]. cbn [year month day]. intros Hy Hunsigned Hvalid.
  destruct (is_valid_date_range y m d Hunsigned Hvalid) as [Hm Hd].
  unfold text_stable. cbn [index_to_string parse_token Date_index].
  unfold io.format_iso_date. cbn [year month day]. rewrite Hvalid. cbn [negb].
  eexists. split; [reflexivity|].
  destruct (printf_04d_digits y Hy) as (y1 & y2 & y3 & y4 & Ey & Y1 & Y2 & Y3 & Y4 & Vy).
  rewrite Ey.
  destruct (isdigit_cases y1 Y1) as (? & ? & ? & _).
  destruct (isdigit_cases y2 Y2) as (? & ? & ? & _).
  destruct (isdigit_cases y3 Y3) as (? & ? & ? & _).
  destruct (isdigit_cases y4 Y4) as (? & ? & ? & _).
  pose proof (printf_02u_digits m ltac:(lia)) as Pm. digits_of Pm.
  pose proof (printf_02u_digits d ltac:(lia)) as Pd. digits_of Pd.
  cbn [append io.snprintf Nat.sub substring].
  split.
  - repeat split.
    + cbn [has_char]. repeat match goal with H : Ascii.eqb _ _ = false |- _ => rewrite H; clear H end.
      reflexivity.
    + cbn [has_char]. repeat match goal with H : Ascii.eqb _ _ = false |- _ => rewrite H; clear H end.
      reflexivity.
    + eapply trim_ends; [eassumption|reflexivity|assumption].
  - unfold io.parse_iso_date.
    cbn [String.length Nat.eqb negb io.char_is String.get Ascii.eqb Bool.eqb orb andb
         forallb io.digit_at].
    rewrite Y1, Y2, Y3, Y4. repeat match goal with H : isdigit _ = true |- _ => rewrite H end.
    cbn [andb negb]. unfold io.parse_number. cbn [substring].
    rewrite Vy. cbn [bind]. repeat match goal with V : digits_value _ = Some _ |- _ => rewrite V end.
    cbn [bind]. rewrite Hvalid. reflexivity.
Qed.

Lemma DateTime_text_stable (x : DateTime) :
  (0 <= dt_year x <= 9999)%Z ->
  (0 <= dt_month x)%Z -> (0 <= hour x)%Z -> (0 <= minute x)%Z -> (0 <= second x)%Z ->
  is_valid_date (dt_year x) (dt_month x) (dt_day x) = true ->
  is_valid_time (hour x) (minute x) (second x) = true ->
  text_stable x.
Proof.
  destruct x as [y m d h mi s]. cbn [dt_year dt_month dt_day hour minute second].
  intros Hy Hm0 Hh0 Hmi0 Hs0 Hvalid Htime.
  destruct (is_valid_date_range y m d Hm0 Hvalid) as [Hm Hd].
  destruct (is_valid_time_range h mi s Htime) as (Hh & Hmi & Hs).
  unfold text_stable. cbn [index_to_string parse_token DateTime_index].
  unfold io.format_iso_datetime. cbn [dt_year dt_month dt_day hour minute second].
  rewrite Hvalid, Htime. cbn [negb orb].
  eexists. split; [reflexivity|].
  destruct (printf_04d_digits y Hy) as (y1 & y2 & y3 & y4 & Ey & Y1 & Y2 & Y3 & Y4 & Vy).
  rewrite Ey.
  destruct (isdigit_cases y1 Y1) as (? & ? & ? & _).
  destruct (isdigit_cases y2 Y2) as (? & ? & ? & _).
  destruct (isdigit_cases y3 Y3) as (? & ? & ? & _).
  destruct (isdigit_cases y4 Y4) as (? & ? & ? & _).
  pose proof (printf_02u_digits m ltac:(lia)) as Pm. digits_of Pm.
  pose proof (printf_02u_digits d ltac:(lia)) as Pd. digits_of Pd.
  pose proof (printf_02u_digits h ltac:(lia)) as Ph. digits_of Ph.
  pose proof (printf_02u_digits mi ltac:(lia)) as Pmi. digits_of Pmi.
  pose proof (printf_02u_digits s ltac:(lia)) as Ps. digits_of Ps.
  cbn [append io.snprintf Nat.sub substring].
  split.
  - repeat split.
    + cbn [has_char]. repeat match goal with H : Ascii.eqb _ _ = false |- _ => rewrite H; clear H end.
      reflexivity.
    + cbn [has_char]. repeat match goal with H : Ascii.eqb _ _ = false |- _ => rewrite H; clear H end.
      reflexivity.
    + eapply trim_ends; [eassumption|reflexivity|assumption].
  - unfold io.parse_iso_datetime.
    cbn [String.length Nat.ltb Nat.leb negb io.char_is String.get Ascii.eqb Bool.eqb orb andb
         forallb io.digit_at].
    rewrite Y1, Y2, Y3, Y4. repeat match goal with H : isdigit _ = true |- _ => rewrite H end.
    cbn [andb negb]. unfold io.parse_number. cbn [substring].
    rewrite Vy. cbn [bind]. repeat match goal with V : digits_value _ = Some _ |- _ => rewrite V end.
    cbn [bind]. rewrite Hvalid, Htime. reflexivity.
Qed.

Lemma Date_binary_stable (x : Date) :
  (- 2 ^ 31 <= year x < 2 ^ 31)%Z -> (0 <= month x < 2 ^ 32)%Z ->
  (0 <= day x < 2 ^ 32)%Z -> binary_stable x.
Proof.
  destruct x as [y m d]. cbn [year month day]. intros Hy Hm Hd rest.
  cbn [read_index_value write_index_value Date_index].
  unfold read_Date, write_Date, detail.rbind. cbn [year month day].
  rewrite <- !app_assoc.
  rewrite read_pod_int_write by assumption.
  rewrite !read_pod_unsigned_write by assumption. reflexivity.
Qed.

Lemma DateTime_binary_stable (x : DateTime) :
  (- 2 ^ 31 <= dt_year x < 2 ^ 31)%Z -> (0 <= dt_month x < 2 ^ 32)%Z ->
  (0 <= dt_day x < 2 ^ 32)%Z -> (0 <= hour x < 2 ^ 32)%Z ->
  (0 <= minute x < 2 ^ 32)%Z -> (0 <= second x < 2 ^ 32)%Z -> binary_stable x.
Proof.
  destruct x as [y m d h mi s]. cbn [dt_year dt_month dt_day hour minute second].
  intros Hy Hm Hd Hh Hmi Hs rest.
  cbn [read_index_value write_index_value DateTime_index].
  unfold read_DateTime, write_DateTime, detail.rbind.
  cbn [dt_year dt_month dt_day hour minute second].
  rewrite <- !app_assoc.
  rewrite read_pod_int_write by assumption.
  rewrite !read_pod_unsigned_write by assumption. reflexivity.
Qed.

(** For an [int] index every value is restored by both codecs. *)
Theorem int_index_stable (z : Z) :
  (- 2 ^ 31 <= z < 2 ^ 31)%Z -> binary_stable z /\ text_stable z.
Proof. intros Hz. split; [now apply int_binary_stable|now apply int_text_stable]. Qed.

Lemma int_index_stable_witness : binary_stable (-2024)%Z /\ text_stable (-2024)%Z.
Proof. apply int_index_stable. lia. Defined.

(** For a [std::string] index the binary codec restores every label, and
    the text codec every label that is a clean field. *)
Theorem string_index_stable (s : string) :
  (fits_size_t (String.length s) -> binary_stable s) /\ (clean s -> text_stable s).
Proof. split; [apply string_binary_stable|apply string_text_stable]. Qed.

(** For a [Date] index both codecs restore every valid date of the years
    0 to 9999. *)
Theorem Date_index_stable (x : Date) :
  (0 <= year x <= 9999)%Z -> (0 <= month x)%Z ->
  is_valid_date (year x) (month x) (day x) = true ->
  binary_stable x /\ text_stable x.
Proof.
  intros Hy Hm Hvalid. split; [|now apply Date_text_stable].
  destruct (is_valid_date_range _ _ _ Hm Hvalid).
  apply Date_binary_stable; lia.
Qed.

Lemma Date_index_stable_witness :
  binary_stable (mkDate 2024 2 29) /\ text_stable (mkDate 2024 2 29).
Proof. apply Date_index_stable; [cbn; lia|cbn; lia|reflexivity]. Defined.

(** For a [DateTime] index both codecs restore every valid date and time
    of the years 0 to 9999. *)
Theorem DateTime_index_stable (x : DateTime) :
  (0 <= dt_year x <= 9999)%Z ->
  (0 <= dt_month x)%Z -> (0 <= hour x)%Z -> (0 <= minute x)%Z -> (0 <= second x)%Z ->
  is_valid_date (dt_year x) (dt_month x) (dt_day x) = true ->
  is_valid_time (hour x) (minute x) (second x) = true ->
  binary_stable x /\ text_stable x.
Proof.
  intros Hy Hm Hh Hmi Hs Hvalid Htime. split; [|now apply DateTime_text_stable].
  destruct (is_valid_date_range _ _ _ Hm Hvalid).
  destruct (is_valid_time_range _ _ _ Htime) as (? & ? & ?).
  apply DateTime_binary_stable; lia.
Qed.

Lemma DateTime_index_stable_witness :
  binary_stable (mkDateTime 1999 12 31 23 59 59)
  /\ text_stable (mkDateTime 1999 12 31 23 59 59).
Proof. apply DateTime_index_stable; first [cbn; lia|reflexivity]. Defined.

(** ** Selection *)

Lemma find_index_spec {A : Type} (eqb : A -> A -> bool) (d : A) (x : A) (v : list A)
      (i : nat) :
  find_index eqb x v = Some i ->
  i < List.length v /\ eqb (at_ d v i) x = true
  /\ forall k, k < i -> eqb (at_ d v k) x = false.
Proof.
  revert i. induction v as [|y v IH]; intros i H; [discriminate|].
  cbn [find_index] in H. destruct (eqb y x) eqn:E.
  - inversion H; subst. cbn. repeat split; [lia|exact E|intros k Hk; lia].
  - destruct (find_index eqb x v) as [j|] eqn:Ej; [|discriminate].
    inversion H; subst. destruct (IH j eq_refl) as (H1 & H2 & H3).
    repeat split; [cbn; lia|exact H2|].
    intros [|k] Hk; [exact E|]. apply H3. lia.
Qed.

Lemma find_index_None {A : Type} (eqb : A -> A -> bool) (x : A) (v : list A) :
  find_index eqb x v = None <-> forall y, In y v -> eqb y x = false.
Proof.
  induction v as [|y v IH]; cbn [find_index].
  - split; [intros _ z []|reflexivity].
  - destruct (eqb y x) eqn:E.
    + split; [discriminate|]. intros H. rewrite (H y (or_introl eq_refl)) in E. discriminate.
    + destruct (find_index eqb x v) as [j|]; cbn [option_map].
      * split; [discriminate|]. intros H.
        assert (Hn : Some j = None) by (apply IH; intros z Hz; apply H; now right).
        discriminate.
      * split; [|reflexivity]. intros _ z [<-|Hz]; [exact E|].
        now apply (proj1 IH).
Qed.

Lemma mapM_ok_exists {A B : Type} (f : A -> result B) (l : list A) :
  (forall x, In x l -> exists y, f x = Ok y) ->
  exists out, mapM f l = Ok out.
Proof.
  induction l as [|x l IH]; intros H; [now exists []|].
  destruct (H x (or_introl eq_refl)) as [y Hy].
  destruct IH as [out Hout]; [intros z Hz; apply H; now right|].
  exists (y :: out). cbn [mapM]. now rewrite Hy, Hout.
Qed.

Section Selection.

Context {IndexT : Type} {IT : IndexType IndexT}.
Implicit Types df : DataFrame IndexT.

(** [select_rows] fails when a requested label is not in the index, and
    otherwise returns, for every requested label in turn, the first row
    of the frame that carries it. *)
Theorem select_rows_contract df (values : list IndexT) :
  well_formed df ->
  ((exists v, In v values /\ forall x, In x (index_ df) -> index_eqb x v = false) ->
   select_rows df values = Err "dataframe::select_rows: requested index not found")
  /\ ((forall v, In v values -> exists x, In x (index_ df) /\ index_eqb x v = true) ->
      exists out,
        select_rows df values = Ok out
        /\ columns_ out = columns_ df /\ index_name_ out = index_name_ df
        /\ rows out = List.length values
        /\ List.length (index_ out) = List.length values
        /\ forall k, k < List.length values ->
             exists pos,
               pos < rows df
               /\ index_eqb (at_ index_init (index_ df) pos) (at_ index_init values k) = true
               /\ (forall p, p < pos ->
                     index_eqb (at_ index_init (index_ df) p) (at_ index_init values k)
                     = false)
               /\ at_ index_init (index_ out) k = at_ index_init (index_ df) pos
               /\ at_ [] (data_ out) k = at_ [] (data_ df) pos).
Proof.
  intros [Hindex _]. unfold select_rows. split.
  - intros (v & Hv & Hmissing).
    match goal with
    | |- bind (mapM ?f values) _ = _ =>
        assert (E : mapM f values
                    = Err "dataframe::select_rows: requested index not found")
    end.
    { apply mapM_err_msg.
      - intros x m _ H. destruct (find_index index_eqb x (index_ df)); [discriminate|].
        now inversion H.
      - apply (mapM_err _ values v Hv).
        apply find_index_None in Hmissing. now rewrite Hmissing. }
    now rewrite E.
  - intros Hall.
    match goal with
    | |- exists out, bind (mapM ?f values) _ = _ /\ _ =>
        destruct (mapM_ok_exists f values) as [positions Hpos]
    end.
    { intros v Hv. destruct (Hall v Hv) as (x & Hx & Hxv).
      destruct (find_index index_eqb v (index_ df)) as [pos|] eqn:E; [now exists pos|].
      rewrite find_index_None in E. rewrite (E x Hx) in Hxv. discriminate. }
    rewrite Hpos. cbn [bind].
    assert (Hlen : List.length positions = List.length values)
      by (now apply mapM_ok_length in Hpos).
    assert (Hfind : forall k, k < List.length values ->
              find_index index_eqb (at_ index_init values k) (index_ df)
              = Some (at_ 0 positions k)).
    { intros k Hk. pose proof (mapM_ok_at index_init 0 _ _ _ k Hpos Hk) as E.
      cbv beta in E.
      destruct (find_index index_eqb (at_ index_init values k) (index_ df));
        [now inversion E|discriminate]. }
    rewrite select_rows_ok.
    2:{ intros r Hr. apply (In_at 0) in Hr. destruct Hr as (k & Hk & <-).
        rewrite Hlen in Hk. apply Hfind in Hk.
        apply find_index_Some_length in Hk. now rewrite <- Hindex. }
    eexists. split; [reflexivity|]. unfold rows at 1.
    cbn [columns_ index_name_ index_ data_]. rewrite !length_map.
    refine (conj eq_refl (conj eq_refl (conj Hlen (conj Hlen _)))).
    intros k Hk. exists (at_ 0 positions k).
    destruct (find_index_spec index_eqb index_init _ _ _ (Hfind k Hk)) as (H1 & H2 & H3).
    repeat split; [now rewrite <- Hindex|exact H2|exact H3| |].
    + unfold at_ at 1. rewrite (nth_indep _ index_init (at_ index_init (index_ df) 0))
        by (rewrite length_map; lia).
      now rewrite (map_nth (at_ index_init (index_ df))).
    + unfold at_ at 1. rewrite (nth_indep _ [] (at_ [] (data_ df) 0))
        by (rewrite length_map; lia).
      now rewrite (map_nth (at_ [] (data_ df))).
Qed.

Lemma select_columns_ok df (positions : list nat) :
  (forall c, In c positions -> c < cols df) ->
  select_columns_by_positions df positions
  = Ok (mkDataFrame (map (at_ EmptyString (columns_ df)) positions) (index_ df)
          (tabulate (rows df) (fun r =>
             tabulate (List.length positions) (fun c =>
               value_at df r (at_ 0%nat positions c))))
          (index_name_ df)).
Proof.
  intros H. unfold select_columns_by_positions.
  rewrite (mapM_ok_map _ (at_ EmptyString (columns_ df))); [reflexivity|].
  intros c Hc. apply H in Hc. apply Nat.leb_gt in Hc. now rewrite Hc.
Qed.

(** [select_columns] fails when a requested name is not a column, and
    otherwise returns the requested columns in the requested order, each
    taken from the first column of that name, with the index unchanged. *)
Theorem select_columns_contract df (names : list string) :
  ((exists n, In n names /\ ~ In n (columns_ df)) ->
   select_columns df names = Err "dataframe::select_columns: column not found")
  /\ ((forall n, In n names -> In n (columns_ df)) ->
      exists out,
        select_columns df names = Ok out
        /\ columns_ out = names /\ index_ out = index_ df
        /\ index_name_ out = index_name_ df /\ rows out = rows df
        /\ forall k, k < List.length names ->
             exists c,
               c < cols df
               /\ at_ EmptyString (columns_ df) c = at_ EmptyString names k
               /\ (forall p, p < c ->
                     at_ EmptyString (columns_ df) p <> at_ EmptyString names k)
               /\ forall r, r < rows df -> value_at out r k = value_at df r c).
Proof.
  unfold select_columns. split.
  - intros (n & Hn & Hmissing).
    assert (E : mapM (find_column_index df) names
                = Err "dataframe::select_columns: column not found").
    { apply mapM_err_msg.
      - intros x m _ H. unfold find_column_index in H.
        destruct (find_index String.eqb x (columns_ df)); [discriminate|].
        now inversion H.
      - apply (mapM_err _ names n Hn). unfold find_column_index.
        assert (Hnone : find_index String.eqb n (columns_ df) = None).
        { apply find_index_None. intros y Hy. apply String.eqb_neq.
          intros ->. contradiction. }
        now rewrite Hnone. }
    now rewrite E.
  - intros Hall.
    destruct (mapM_ok_exists (find_column_index df) names) as [positions Hpos].
    { intros n Hn. unfold find_column_index.
      destruct (find_index String.eqb n (columns_ df)) as [pos|] eqn:E; [now exists pos|].
      rewrite find_index_None in E. specialize (E n (Hall n Hn)).
      rewrite String.eqb_refl in E. discriminate. }
    rewrite Hpos. cbn [bind].
    assert (Hlen : List.length positions = List.length names)
      by (now apply mapM_ok_length in Hpos).
    assert (Hfind : forall k, k < List.length names ->
              find_index String.eqb (at_ EmptyString names k) (columns_ df)
              = Some (at_ 0 positions k)).
    { intros k Hk. pose proof (mapM_ok_at EmptyString 0 _ _ _ k Hpos Hk) as E.
      unfold find_column_index in E.
      destruct (find_index String.eqb (at_ EmptyString names k) (columns_ df));
        [now inversion E|discriminate]. }
    rewrite select_columns_ok.
    2:{ intros c Hc. apply (In_at 0) in Hc. destruct Hc as (k & Hk & <-).
        rewrite Hlen in Hk. apply Hfind in Hk.
        now apply find_index_Some_length in Hk. }
    eexists. split; [reflexivity|].
    cbn [columns_ index_name_ index_].
    assert (Hnames : map (at_ EmptyString (columns_ df)) positions = names).
    { rewrite <- (map_at_seq EmptyString names).
      rewrite <- (map_at_seq 0 positions) at 1. rewrite map_map, Hlen.
      apply map_ext_in. intros k Hk. apply in_seq in Hk.
      destruct (find_index_spec String.eqb EmptyString _ _ _ (Hfind k ltac:(lia)))
        as (_ & H2 & _).
      now apply String.eqb_eq in H2. }
    refine (conj Hnames (conj eq_refl (conj eq_refl (conj _ _))));
      [apply tabulate_length|].
    intros k Hk. exists (at_ 0 positions k).
    destruct (find_index_spec String.eqb EmptyString _ _ _ (Hfind k Hk)) as (H1 & H2 & H3).
    repeat split; [exact H1|now apply String.eqb_eq| |].
    + intros p Hp. apply String.eqb_neq. now apply H3.
    + intros r Hr. unfold value_at at 1, cell. cbn [data_].
      rewrite (tabulate_at [] _ _ r Hr), (tabulate_at 0%float _ _ k) by lia.
      reflexivity.
Qed.

(** *** head and tail *)

Lemma map_at_firstn {A : Type} (d : A) (l : list A) (n : nat) :
  n <= List.length l -> map (at_ d l) (seq 0 n) = firstn n l.
Proof.
  revert n. induction l as [|x l IH]; intros n Hn.
  - simpl in Hn. assert (n = 0) by lia. subst. reflexivity.
  - destruct n as [|n]; [reflexivity|]. cbn [seq map firstn]. f_equal.
    rewrite <- seq_shift, map_map. apply IH. simpl in Hn. lia.
Qed.

Lemma map_at_skipn {A : Type} (d : A) (l : list A) (start n : nat) :
  start + n = List.length l ->
  map (at_ d l) (map (fun i => start + i) (seq 0 n)) = skipn start l.
Proof.
  revert l. induction start as [|start IH]; intros l H.
  - cbn [Nat.add] in *. rewrite map_id, skipn_O. subst n. apply map_at_seq.
  - destruct l as [|x l]; [simpl in H; lia|]. cbn [skipn].
    rewrite <- (IH l) by (simpl in H; lia).
    rewrite !map_map. apply map_ext. intros i. reflexivity.
Qed.

Lemma select_all_rows df :
  well_formed df -> select_rows_by_positions df (seq 0 (rows df)) = Ok df.
Proof.
  intros [Hindex _]. rewrite select_rows_ok by (intros r Hr; apply in_seq in Hr; lia).
  rewrite <- Hindex at 1. unfold rows. rewrite !map_at_seq. now destruct df.
Qed.

(** [head_rows] and [tail_rows] never fail on a frame that satisfies the
    invariant: they return its first and its last [count] rows, all of
    them when [count] is at least the number of rows. *)
Theorem head_tail_rows_contract df (count : nat) :
  well_formed df ->
  head_rows df count
  = Ok (mkDataFrame (columns_ df) (firstn count (index_ df)) (firstn count (data_ df))
                    (index_name_ df))
  /\ tail_rows df count
     = Ok (mkDataFrame (columns_ df) (skipn (rows df - count) (index_ df))
                       (skipn (rows df - count) (data_ df)) (index_name_ df)).
Proof.
  intros [Hindex Hrows]. unfold head_rows, tail_rows.
  destruct (count =? 0)%nat eqn:E0.
  - apply Nat.eqb_eq in E0. subst count. rewrite Nat.sub_0_r.
    rewrite <- Hindex at 1. unfold rows. rewrite !skipn_all. split; reflexivity.
  - destruct (rows df <=? count)%nat eqn:E1.
    + apply Nat.leb_le in E1.
      replace (rows df - count) with 0 by lia.
      rewrite !firstn_all2 by (unfold rows in *; lia). now destruct df.
    + apply Nat.leb_gt in E1. unfold tabulate.
      rewrite !select_rows_ok.
      * rewrite map_id, !map_at_firstn by (unfold rows in *; lia).
        rewrite !map_at_skipn by (unfold rows in *; lia). split; reflexivity.
      * intros r Hr. apply in_map_iff in Hr. destruct Hr as (i & <- & Hi).
        apply in_seq in Hi. lia.
      * intros r Hr. rewrite map_id in Hr. apply in_seq in Hr. lia.
Qed.

Lemma tabulate_firstn {A : Type} (d : A) (l : list A) (n : nat) :
  n <= List.length l -> tabulate n (at_ d l) = firstn n l.
Proof. apply map_at_firstn. Qed.

(** [head_columns] and [tail_columns] never fail on a frame that
    satisfies the invariant: they keep the first and the last [count]
    columns of every row, all of them when [count] is at least the number
    of columns. *)
Theorem head_tail_columns_contract df (count : nat) :
  well_formed df ->
  head_columns df count
  = Ok (mkDataFrame (firstn count (columns_ df)) (index_ df)
                    (map (firstn count) (data_ df)) (index_name_ df))
  /\ tail_columns df count
     = Ok (mkDataFrame (skipn (cols df - count) (columns_ df)) (index_ df)
                       (map (skipn (cols df - count)) (data_ df)) (index_name_ df)).
Proof.
  intros [Hindex Hrows]. unfold head_columns, tail_columns.
  assert (Hdata : forall (positions : list nat) (f : list double -> list double),
            (forall row, List.length row = cols df ->
               map (at_ 0%float row) positions = f row) ->
            tabulate (rows df) (fun r =>
              tabulate (List.length positions) (fun c =>
                value_at df r (at_ 0%nat positions c)))
            = map f (data_ df)).
  { intros positions f Hf. unfold rows.
    rewrite <- (tabulate_map [] f (data_ df)). apply tabulate_ext. intros r Hr.
    rewrite <- Hf.
    - rewrite <- (map_at_seq 0 positions) at 2. rewrite map_map. reflexivity.
    - rewrite Forall_forall in Hrows. apply Hrows. now apply nth_In. }
  destruct (count =? 0)%nat eqn:E0.
  - apply Nat.eqb_eq in E0. subst count. rewrite Nat.sub_0_r.
    rewrite !select_columns_ok by (intros c []).
    rewrite (Hdata [] (firstn 0)) by reflexivity. cbn [map firstn].
    unfold cols at 1. rewrite skipn_all. split; [reflexivity|].
    do 2 f_equal. apply map_ext_in. intros row Hrow.
    rewrite Forall_forall in Hrows. rewrite <- (Hrows row Hrow). now rewrite skipn_all.
  - destruct (cols df <=? count)%nat eqn:E1.
    + apply Nat.leb_le in E1.
      replace (cols df - count) with 0 by lia.
      rewrite firstn_all2 by (unfold cols in *; lia).
      assert (E : map (firstn count) (data_ df) = data_ df).
      { rewrite <- (map_id (data_ df)) at 2. apply map_ext_in. intros row Hrow.
        rewrite Forall_forall in Hrows. apply firstn_all2.
        rewrite (Hrows row Hrow). exact E1. }
      rewrite E. cbn [skipn]. rewrite map_id. now destruct df.
    + apply Nat.leb_gt in E1.
      change (tabulate count (fun i => i)) with (map (fun i : nat => i) (seq 0 count)).
      change (tabulate count (fun i => cols df - count + i))
        with (map (fun i => cols df - count + i) (seq 0 count)).
      rewrite !select_columns_ok.
      * rewrite map_id, map_at_firstn by (unfold cols in *; lia).
        rewrite map_at_skipn by (unfold cols in *; lia).
        rewrite (Hdata (seq 0 count) (firstn count)).
        2:{ intros row Hrow. apply map_at_firstn. lia. }
        rewrite (Hdata (map (fun i => cols df - count + i) (seq 0 count))
                       (skipn (cols df - count))).
        2:{ intros row Hrow. apply map_at_skipn. lia. }
        split; reflexivity.
      * intros c Hc. apply in_map_iff in Hc. destruct Hc as (i & <- & Hi).
        apply in_seq in Hi. lia.
      * intros c Hc. rewrite map_id in Hc. apply in_seq in Hc. lia.
Qed.

(** *** Rows in a range of labels *)

Lemma map_filter_comm {A B : Type} (f : A -> B) (p : B -> bool) (l : list A) :
  map f (filter (fun x => p (f x)) l) = filter p (map f l).
Proof.
  induction l as [|x l IH]; [reflexivity|]. cbn [filter map].
  destruct (p (f x)); cbn [map]; now rewrite IH.
Qed.

Lemma combine_map_seq {A B : Type} (da : A) (db : B) (l : list A) (l' : list B) :
  List.length l = List.length l' ->
  map (fun i => (at_ da l i, at_ db l' i)) (seq 0 (List.length l)) = combine l l'.
Proof.
  revert l'. induction l as [|x l IH]; intros [|y l'] H; try discriminate; [reflexivity|].
  cbn [List.length seq map combine]. f_equal.
  rewrite <- seq_shift, map_map. apply IH. simpl in H. lia.
Qed.

(** The rows [select_rows_by_positions] returns for the positions that
    satisfy a test on the row: the rows that satisfy it, in their order. *)
Lemma select_rows_filter df (p : IndexT * list double -> bool) :
  well_formed df ->
  exists out,
    select_rows_by_positions df
      (filter (fun r => p (at_ index_init (index_ df) r, at_ [] (data_ df) r))
              (seq 0 (rows df))) = Ok out
    /\ columns_ out = columns_ df /\ index_name_ out = index_name_ df
    /\ List.length (index_ out) = rows out
    /\ combine (index_ out) (data_ out) = filter p (combine (index_ df) (data_ df)).
Proof.
  intros [Hindex _]. rewrite select_rows_ok.
  2:{ intros r Hr. apply filter_In in Hr. destruct Hr as [Hr _]. apply in_seq in Hr. lia. }
  eexists. split; [reflexivity|]. cbn [columns_ index_name_ index_ data_].
  refine (conj eq_refl (conj eq_refl (conj _ _))).
  - unfold rows. cbn [data_]. now rewrite !length_map.
  - rewrite combine_map_map.
    rewrite (map_filter_comm (fun i => (at_ index_init (index_ df) i, at_ [] (data_ df) i)) p).
    rewrite <- Hindex. now rewrite combine_map_seq.
Qed.

(** [slice_rows_range] never fails on a frame that satisfies the
    invariant. It returns, in their order, the rows whose label is not
    less than the smaller bound and not greater than (with
    [inclusive_end]) or less than (without) the larger one; the bounds are
    exchanged when [end_ < start]. *)
Theorem slice_rows_range_contract df (start end_ : IndexT) (inclusive_end : bool) :
  well_formed df ->
  exists out,
    slice_rows_range df start end_ inclusive_end = Ok out
    /\ columns_ out = columns_ df /\ index_name_ out = index_name_ df
    /\ List.length (index_ out) = rows out
    /\ combine (index_ out) (data_ out)
       = filter (fun row =>
                   let lo := if index_ltb end_ start then end_ else start in
                   let hi := if index_ltb end_ start then start else end_ in
                   index_geb (fst row) lo
                   && (if inclusive_end then index_leb (fst row) hi
                       else index_ltb (fst row) hi))
                (combine (index_ df) (data_ df)).
Proof.
  intros Hwf. pose proof Hwf as [Hindex _].
  unfold slice_rows_range, find_row_positions_in_range.
  destruct (rows df =? 0)%nat eqn:E0.
  - apply Nat.eqb_eq in E0. exists (mkDataFrame (columns_ df) [] [] (index_name_ df)).
    refine (conj eq_refl (conj eq_refl (conj eq_refl (conj eq_refl _)))).
    unfold rows in E0. apply length_zero_iff_nil in E0. rewrite E0.
    cbn [index_ data_ combine]. now rewrite combine_nil.
  - rewrite Hindex.
    destruct (select_rows_filter df
                (fun row =>
                   let lo := if index_ltb end_ start then end_ else start in
                   let hi := if index_ltb end_ start then start else end_ in
                   index_geb (fst row) lo
                   && (if inclusive_end then index_leb (fst row) hi
                       else index_ltb (fst row) hi)) Hwf)
      as (out & E & H).
    exists out. split; [|exact H]. rewrite <- E. f_equal.
    destruct (index_ltb end_ start); reflexivity.
Qed.

(** *** Rows and columns with missing cells *)

Lemma select_all_columns df :
  well_formed df -> select_columns_by_positions df (seq 0 (cols df)) = Ok df.
Proof.
  intros [_ Hrows]. rewrite select_columns_ok by (intros c Hc; apply in_seq in Hc; lia).
  unfold cols at 1. rewrite map_at_seq, length_seq.
  assert (E : tabulate (rows df) (fun r =>
                tabulate (cols df) (fun c => value_at df r (at_ 0 (seq 0 (cols df)) c)))
              = data_ df).
  { unfold rows.
    transitivity (tabulate (List.length (data_ df)) (at_ [] (data_ df)));
      [|apply tabulate_self].
    apply tabulate_ext. intros r Hr.
    assert (Hlen : List.length (at_ [] (data_ df) r) = cols df).
    { rewrite Forall_forall in Hrows. apply Hrows. now apply nth_In. }
    transitivity (tabulate (List.length (at_ [] (data_ df) r))
                           (at_ 0%float (at_ [] (data_ df) r)));
      [|apply tabulate_self].
    rewrite Hlen. apply tabulate_ext. intros c Hc.
    unfold at_ at 1. now rewrite seq_nth. }
  rewrite E. now destruct df.
Qed.

(** [remove_rows_with_nan] never fails on a frame that satisfies the
    invariant. It returns, in their order, the rows that hold no NaN; no
    cell of the result is NaN, and removing again changes nothing. *)
Theorem remove_rows_with_nan_contract df :
  well_formed df ->
  exists out,
    remove_rows_with_nan df = Ok out
    /\ columns_ out = columns_ df /\ index_name_ out = index_name_ df
    /\ combine (index_ out) (data_ out)
       = filter (fun row => negb (existsb isnan (snd row)))
                (combine (index_ df) (data_ df))
    /\ Forall (Forall (fun v => isnan v = false)) (data_ out)
    /\ remove_rows_with_nan out = Ok out.
Proof.
  intros Hwf.
  destruct (select_rows_filter df (fun row => negb (existsb isnan (snd row))) Hwf)
    as (out & E & Hc & Hn & Hlen & Hrows).
  cbn [snd] in E. exists out. unfold remove_rows_with_nan at 1.
  refine (conj E (conj Hc (conj Hn (conj Hrows _)))).
  assert (Hclean : Forall (fun row => existsb isnan row = false) (data_ out)).
  { apply Forall_forall. intros row Hrow.
    assert (Hin : exists x, In (x, row) (combine (index_ out) (data_ out))).
    { apply (In_nth _ _ []) in Hrow. destruct Hrow as (k & Hk & <-).
      exists (nth k (index_ out) index_init).
      rewrite <- (combine_nth (index_ out) (data_ out) k index_init [])
        by (unfold rows in Hlen; exact Hlen).
      apply nth_In. rewrite length_combine. unfold rows in Hlen. lia. }
    destruct Hin as (x & Hin). rewrite Hrows in Hin. apply filter_In in Hin.
    destruct Hin as [_ Hin]. cbn [snd] in Hin. now apply negb_true_iff in Hin. }
  split.
  - eapply Forall_impl; [|exact Hclean]. intros row Hrow.
    apply Forall_forall. intros v Hv.
    destruct (isnan v) eqn:Ev; [|reflexivity].
    assert (existsb isnan row = true) by (apply existsb_exists; eauto). congruence.
  - unfold remove_rows_with_nan. rewrite filter_all.
    + apply select_all_rows. eapply select_rows_by_positions_wf; eassumption.
    + intros r Hr. apply in_seq in Hr. rewrite Forall_forall in Hclean.
      rewrite Hclean; [reflexivity|]. apply nth_In. unfold rows in Hr. lia.
Qed.

(** [remove_columns_with_nan] never fails on a frame that satisfies the
    invariant. It keeps the index and every column that holds no NaN; no
    cell of the result is NaN, and removing again changes nothing. *)
Theorem remove_columns_with_nan_contract df :
  well_formed df ->
  exists out,
    remove_columns_with_nan df = Ok out
    /\ index_ out = index_ df /\ index_name_ out = index_name_ df
    /\ rows out = rows df
    /\ (forall c, c < cols df ->
          (forall r, r < rows df -> isnan (value_at df r c) = false) ->
          exists k, k < cols out
                    /\ at_ EmptyString (columns_ out) k = at_ EmptyString (columns_ df) c
                    /\ forall r, r < rows df -> value_at out r k = value_at df r c)
    /\ (forall r k, r < rows out -> k < cols out -> isnan (value_at out r k) = false)
    /\ remove_columns_with_nan out = Ok out.
Proof.
  intros Hwf. unfold remove_columns_with_nan at 1.
  set (keep := filter (fun c => negb (existsb (fun r => isnan (value_at df r c))
                                              (seq 0 (rows df))))
                      (seq 0 (cols df))).
  assert (Hkeep : forall c, In c keep <->
            c < cols df /\ forall r, r < rows df -> isnan (value_at df r c) = false).
  { intros c. unfold keep. rewrite filter_In, in_seq, negb_true_iff. split.
    - intros [Hc H]. split; [lia|]. intros r Hr.
      destruct (isnan (value_at df r c)) eqn:E; [|reflexivity].
      assert (existsb (fun r => isnan (value_at df r c)) (seq 0 (rows df)) = true).
      { apply existsb_exists. exists r. split; [apply in_seq; lia|exact E]. }
      congruence.
    - intros [Hc H]. split; [lia|].
      destruct (existsb _ _) eqn:E; [|reflexivity].
      apply existsb_exists in E. destruct E as (r & Hr & E). apply in_seq in Hr.
      rewrite H in E by lia. discriminate. }
  assert (Hsel := select_columns_ok df keep ltac:(intros c Hc; now apply Hkeep in Hc)).
  rewrite Hsel. eexists. split; [reflexivity|].
  set (out := mkDataFrame _ _ _ _) in *.
  assert (Hwf' : well_formed out)
    by (eapply select_columns_by_positions_wf; [exact Hwf|exact Hsel]).
  assert (Hrows : rows out = rows df) by apply tabulate_length.
  assert (Hcols : cols out = List.length keep) by apply length_map.
  assert (Hcell : forall r k, r < rows df -> k < List.length keep ->
            value_at out r k = value_at df r (at_ 0 keep k)).
  { intros r k Hr Hk. unfold value_at at 1, cell. unfold out. cbn [data_].
    now rewrite (tabulate_at [] _ _ r Hr), (tabulate_at 0%float _ _ k Hk). }
  assert (Hclean : forall r k, r < rows out -> k < cols out ->
            isnan (value_at out r k) = false).
  { intros r k Hr Hk. rewrite Hcell by lia.
    apply (proj1 (Hkeep (at_ 0 keep k))); [|lia]. apply nth_In. lia. }
  refine (conj eq_refl (conj eq_refl (conj Hrows (conj _ (conj Hclean _))))).
  - intros c Hc Hnan.
    assert (Hin : In c keep) by (apply Hkeep; auto).
    apply (In_at 0) in Hin. destruct Hin as (k & Hk & Ek).
    exists k. repeat split; [lia| |].
    + unfold out. cbn [columns_]. unfold at_ at 1.
      rewrite (nth_indep _ EmptyString (at_ EmptyString (columns_ df) 0))
        by (now rewrite length_map).
      rewrite (map_nth (at_ EmptyString (columns_ df))). fold (at_ 0 keep k).
      now rewrite Ek.
    + intros r Hr. rewrite Hcell by assumption. now rewrite Ek.
  - unfold remove_columns_with_nan. rewrite filter_all.
    + now apply select_all_columns.
    + intros c Hc. apply in_seq in Hc. apply negb_true_iff.
      destruct (existsb _ _) eqn:E; [|reflexivity].
      apply existsb_exists in E. destruct E as (r & Hr & E). apply in_seq in Hr.
      rewrite Hclean in E by lia. discriminate.
Qed.

End Selection.

Lemma select_rows_contract_witness :
  exists out : DataFrame Z,
    select_rows (mkDataFrame ["a"] [10; 20; 10]%Z [[1]; [2]; [3]]%float "index")
                [20; 10]%Z = Ok out
    /\ rows out = 2.
Proof.
  destruct (select_rows_contract
              (mkDataFrame ["a"] [10; 20; 10]%Z [[1]; [2]; [3]]%float "index")
              [20; 10]%Z) as [_ H].
  - split; [reflexivity|repeat constructor].
  - destruct H as (out & E & _ & _ & Hrows & _).
    + intros v [<-|[<-|[]]].
      * exists 20%Z. split; [right; left; reflexivity|reflexivity].
      * exists 10%Z. split; [left; reflexivity|reflexivity].
    + exists out. split; [exact E|exact Hrows].
Defined.

Lemma head_tail_rows_contract_witness :
  head_rows (mkDataFrame ["a"] [10; 20; 30]%Z [[1]; [2]; [3]]%float "index") 2
  = Ok (mkDataFrame ["a"] [10; 20]%Z [[1]; [2]]%float "index")
  /\ tail_rows (mkDataFrame ["a"] [10; 20; 30]%Z [[1]; [2]; [3]]%float "index") 2
     = Ok (mkDataFrame ["a"] [20; 30]%Z [[2]; [3]]%float "index").
Proof.
  apply (head_tail_rows_contract
           (mkDataFrame ["a"] [10; 20; 30]%Z [[1]; [2]; [3]]%float "index") 2).
  split; [reflexivity|repeat constructor].
Defined.

Lemma head_tail_columns_contract_witness :
  head_columns (mkDataFrame ["a"; "b"; "c"] [10; 20]%Z
                            [[1; 2; 3]; [4; 5; 6]]%float "index") 2
  = Ok (mkDataFrame ["a"; "b"] [10; 20]%Z [[1; 2]; [4; 5]]%float "index")
  /\ tail_columns (mkDataFrame ["a"; "b"; "c"] [10; 20]%Z
                               [[1; 2; 3]; [4; 5; 6]]%float "index") 2
     = Ok (mkDataFrame ["b"; "c"] [10; 20]%Z [[2; 3]; [5; 6]]%float "index").
Proof.
  apply (head_tail_columns_contract
           (mkDataFrame ["a"; "b"; "c"] [10; 20]%Z [[1; 2; 3]; [4; 5; 6]]%float "index") 2).
  split; [reflexivity|repeat constructor].
Defined.

Lemma slice_rows_range_contract_witness :
  exists out : DataFrame Z,
    slice_rows_range (mkDataFrame ["a"] [10; 20; 30]%Z [[1]; [2]; [3]]%float "index")
                     25%Z 10%Z true = Ok out
    /\ index_ out = [10; 20]%Z.
Proof.
  destruct (slice_rows_range_contract
              (mkDataFrame ["a"] [10; 20; 30]%Z [[1]; [2]; [3]]%float "index")
              25%Z 10%Z true) as (out & E & _).
  - split; [reflexivity|repeat constructor].
  - exists out. split; [exact E|]. vm_compute in E. now inversion E.
Defined.

Lemma remove_rows_with_nan_contract_witness :
  exists out : DataFrame Z,
    remove_rows_with_nan (mkDataFrame ["a"; "b"] [10; 20; 30]%Z
                                      [[1; 2]; [nan; 4]; [5; 6]]%float "index") = Ok out
    /\ index_ out = [10; 30]%Z.
Proof.
  destruct (remove_rows_with_nan_contract
              (mkDataFrame ["a"; "b"] [10; 20; 30]%Z
                           [[1; 2]; [nan; 4]; [5; 6]]%float "index"))
    as (out & E & _).
  - split; [reflexivity|repeat constructor].
  - exists out. split; [exact E|]. vm_compute in E. now inversion E.
Defined.

Lemma remove_columns_with_nan_contract_witness :
  exists out : DataFrame Z,
    remove_columns_with_nan (mkDataFrame ["a"; "b"] [10; 20; 30]%Z
                                         [[1; 2]; [nan; 4]; [5; 6]]%float "index") = Ok out
    /\ columns_ out = ["b"].
Proof.
  destruct (remove_columns_with_nan_contract
              (mkDataFrame ["a"; "b"] [10; 20; 30]%Z
                           [[1; 2]; [nan; 4]; [5; 6]]%float "index"))
    as (out & E & _).
  - split; [reflexivity|repeat constructor].
  - exists out. split; [exact E|]. vm_compute in E. now inversion E.
Defined.

(** ** Adding a column and reading it back *)

Lemma find_index_app_l {A : Type} (eqb : A -> A -> bool) (x : A) (l l' : list A) (i : nat) :
  find_index eqb x l = Some i -> find_index eqb x (l ++ l') = Some i.
Proof.
  revert i. induction l as [|y l IH]; intros i H; [discriminate|].
  cbn [find_index app] in *. destruct (eqb y x); [exact H|].
  destruct (find_index eqb x l) as [j|]; [|discriminate].
  now rewrite (IH j eq_refl).
Qed.

Lemma find_index_app_r {A : Type} (eqb : A -> A -> bool) (x : A) (l l' : list A) :
  find_index eqb x l = None ->
  find_index eqb x (l ++ l')
  = option_map (fun i => List.length l + i) (find_index eqb x l').
Proof.
  induction l as [|y l IH]; intros H.
  - cbn [app List.length Nat.add]. now destruct (find_index eqb x l').
  - cbn [find_index app] in *. destruct (eqb y x); [discriminate|].
    destruct (find_index eqb x l); [discriminate|]. rewrite IH by reflexivity.
    now destruct (find_index eqb x l').
Qed.

Section AddColumnLookup.

Context {IndexT : Type}.
Implicit Types df : DataFrame IndexT.

(** After [add_column] has succeeded, [column_data] of the new name
    returns the values that were added and [column_data] of every older
    column returns what it returned before; before the call,
    [column_data] of the new name failed. *)
Theorem add_column_then_column_data df (name : string) (values : list double)
        (out : DataFrame IndexT) :
  well_formed df -> add_column df name values = Ok out ->
  column_data out name = Ok values
  /\ (forall other, In other (columns_ df) ->
        column_data out other = column_data df other)
  /\ column_data df name = Err "dataframe::select_columns: column not found".
Proof.
  intros [_ Hrows] Hadd.
  destruct (in_dec string_dec name (columns_ df)) as [Hin|Hnot].
  { rewrite add_column_duplicate in Hadd by assumption. discriminate. }
  assert (Hnone : find_index String.eqb name (columns_ df) = None).
  { apply find_index_None. intros y Hy. apply String.eqb_neq. intros ->. contradiction. }
  assert (Hlen : forall r, r < rows df -> List.length (at_ [] (data_ df) r) = cols df).
  { intros r Hr. rewrite Forall_forall in Hrows. apply Hrows. now apply nth_In. }
  assert (Hout : columns_ out = columns_ df ++ [name] /\ rows out = rows df
                 /\ List.length values = rows df
                 /\ forall r c, r < rows df ->
                      value_at out r c
                      = at_ 0%float (at_ [] (data_ df) r ++ [at_ 0%float values r]) c).
  { rewrite add_column_fresh in Hadd by assumption.
    destruct (rows df =? 0)%nat eqn:E0.
    - apply Nat.eqb_eq in E0. destruct values; [|discriminate].
      inversion Hadd; subst out. cbn [columns_]. unfold rows at 1. cbn [data_].
      repeat split; try (symmetry; exact E0). intros r c Hr. lia.
    - destruct (List.length values =? rows df)%nat eqn:E; [|discriminate].
      apply Nat.eqb_eq in E. inversion Hadd; subst out. cbn [columns_].
      unfold rows at 1. cbn [data_]. rewrite imap_length.
      repeat split; try assumption. intros r c Hr.
      unfold value_at, cell. cbn [data_]. now rewrite (imap_at [] []). }
  destruct Hout as (Hcolumns & Hrows' & Hvalues & Hcell).
  split; [|split].
  - unfold column_data, find_column_index. rewrite Hcolumns.
    rewrite find_index_app_r by exact Hnone. cbn [find_index].
    rewrite String.eqb_refl. cbn [option_map bind]. rewrite Nat.add_0_r.
    f_equal. unfold column_values. rewrite Hrows', <- Hvalues.
    transitivity (tabulate (List.length values) (at_ 0%float values));
      [|apply tabulate_self].
    apply tabulate_ext. intros r Hr. rewrite Hcell by lia.
    unfold at_ at 1. rewrite app_nth2 by (rewrite Hlen by lia; unfold cols; lia).
    rewrite Hlen by lia. unfold cols. now rewrite Nat.sub_diag.
  - intros other Hother. unfold column_data, find_column_index. rewrite Hcolumns.
    destruct (find_index String.eqb other (columns_ df)) as [c|] eqn:E.
    + rewrite (find_index_app_l _ _ _ _ _ E). cbn [bind]. f_equal.
      unfold column_values. rewrite Hrows'. apply tabulate_ext. intros r Hr.
      rewrite Hcell by lia. apply find_index_Some_length in E.
      unfold at_ at 1. rewrite app_nth1 by (rewrite Hlen by lia; exact E).
      reflexivity.
    + rewrite find_index_None in E. specialize (E other Hother).
      rewrite String.eqb_refl in E. discriminate.
  - unfold column_data, find_column_index. now rewrite Hnone.
Qed.

End AddColumnLookup.

Lemma add_column_then_column_data_witness :
  column_data (mkDataFrame ["a"; "b"] [10; 20]%Z [[1; 3]; [2; 4]]%float "index") "b"
  = Ok [3; 4]%float.
Proof.
  apply (add_column_then_column_data
           (mkDataFrame ["a"] [10; 20]%Z [[1]; [2]]%float "index") "b" [3; 4]%float
           (mkDataFrame ["a"; "b"] [10; 20]%Z [[1; 3]; [2; 4]]%float "index")).
  - split; [reflexivity|repeat constructor].
  - reflexivity.
Defined.

(** ** The calendar types *)

Ltac compare_fields :=
  repeat match goal with
         | |- context [(?a =? ?b)%Z] => destruct (Z.eqb_spec a b); cbn [negb]
         end;
  rewrite ?negb_true_iff, ?Z.ltb_ge, ?Z.ltb_lt.

Lemma Date_eqb_eq (a b : Date) : Date_eqb a b = true <-> a = b.
Proof.
  destruct a as [y m d], b as [y' m' d']. unfold Date_eqb. cbn [year month day].
  rewrite !andb_true_iff, !Z.eqb_eq. split.
  - intros [[-> ->] ->]. reflexivity.
  - intros H. inversion H. auto.
Qed.

Lemma Date_ltb_irrefl (a : Date) : Date_ltb a a = false.
Proof.
  destruct a as [y m d]. unfold Date_ltb. cbn [year month day].
  rewrite !Z.eqb_refl. cbn [negb]. apply Z.ltb_irrefl.
Qed.

Lemma Date_ltb_trans (a b c : Date) :
  Date_ltb a b = true -> Date_ltb b c = true -> Date_ltb a c = true.
Proof.
  destruct a as [y m d], b as [y' m' d'], c as [y'' m'' d''].
  unfold Date_ltb. cbn [year month day]. compare_fields; subst; lia.
Qed.

Lemma Date_ltb_total (a b : Date) : Date_ltb a b = true \/ a = b \/ Date_ltb b a = true.
Proof.
  destruct a as [y m d], b as [y' m' d'].
  unfold Date_ltb. cbn [year month day]. compare_fields; subst; try lia.
  assert (d = d' \/ d < d' \/ d' < d)%Z as [->|[?|?]] by lia; auto.
Qed.

Lemma Date_leb_spec (a b : Date) : index_leb a b = true <-> Date_ltb a b = true \/ a = b.
Proof.
  unfold index_leb. cbn [index_ltb Date_index]. rewrite negb_true_iff.
  destruct (Date_ltb_total a b) as [H|[H|H]].
  - split; [auto|]. intros _. destruct (Date_ltb b a) eqn:E; [|reflexivity].
    pose proof (Date_ltb_trans _ _ _ H E) as F. now rewrite Date_ltb_irrefl in F.
  - subst. rewrite Date_ltb_irrefl. split; auto.
  - rewrite H. split; [discriminate|]. intros [E| ->].
    + pose proof (Date_ltb_trans _ _ _ H E) as F. now rewrite Date_ltb_irrefl in F.
    + now rewrite Date_ltb_irrefl in H.
Qed.

Lemma DateTime_eqb_eq (a b : DateTime) : DateTime_eqb a b = true <-> a = b.
Proof.
  destruct a as [y m d h mi s], b as [y' m' d' h' mi' s']. unfold DateTime_eqb.
  cbn [dt_year dt_month dt_day hour minute second].
  rewrite !andb_true_iff, !Z.eqb_eq. split.
  - intros [[[[[-> ->] ->] ->] ->] ->]. reflexivity.
  - intros H. inversion H. repeat split; reflexivity.
Qed.

Lemma DateTime_ltb_irrefl (a : DateTime) : DateTime_ltb a a = false.
Proof.
  destruct a as [y m d h mi s]. unfold DateTime_ltb.
  cbn [dt_year dt_month dt_day hour minute second].
  rewrite !Z.eqb_refl. cbn [negb]. apply Z.ltb_irrefl.
Qed.

Lemma DateTime_ltb_trans (a b c : DateTime) :
  DateTime_ltb a b = true -> DateTime_ltb b c = true -> DateTime_ltb a c = true.
Proof.
  destruct a as [y m d h mi s], b as [y' m' d' h' mi' s'], c as [y'' m'' d'' h'' mi'' s''].
  unfold DateTime_ltb. cbn [dt_year dt_month dt_day hour minute second].
  compare_fields; subst; lia.
Qed.

Lemma DateTime_ltb_total (a b : DateTime) :
  DateTime_ltb a b = true \/ a = b \/ DateTime_ltb b a = true.
Proof.
  destruct a as [y m d h mi s], b as [y' m' d' h' mi' s'].
  unfold DateTime_ltb. cbn [dt_year dt_month dt_day hour minute second].
  compare_fields; subst; try lia.
  assert (s = s' \/ s < s' \/ s' < s)%Z as [->|[?|?]] by lia; auto.
Qed.

Lemma DateTime_leb_spec (a b : DateTime) :
  index_leb a b = true <-> DateTime_ltb a b = true \/ a = b.
Proof.
  unfold index_leb. cbn [index_ltb DateTime_index]. rewrite negb_true_iff.
  destruct (DateTime_ltb_total a b) as [H|[H|H]].
  - split; [auto|]. intros _. destruct (DateTime_ltb b a) eqn:E; [|reflexivity].
    pose proof (DateTime_ltb_trans _ _ _ H E) as F. now rewrite DateTime_ltb_irrefl in F.
  - subst. rewrite DateTime_ltb_irrefl. split; auto.
  - rewrite H. split; [discriminate|]. intros [E| ->].
    + pose proof (DateTime_ltb_trans _ _ _ H E) as F. now rewrite DateTime_ltb_irrefl in F.
    + now rewrite DateTime_ltb_irrefl in H.
Qed.

(** [==] on [Date] and [DateTime] is equality of all fields, and [<] is a
    strict total order: irreflexive, transitive, and any two values are
    equal or ordered one way; [<=], which is [!(rhs < lhs)], holds exactly
    when [<] or [==] does. *)
Theorem calendar_total_order :
  ((forall a b : Date, Date_eqb a b = true <-> a = b)
   /\ (forall a : Date, Date_ltb a a = false)
   /\ (forall a b c : Date,
         Date_ltb a b = true -> Date_ltb b c = true -> Date_ltb a c = true)
   /\ (forall a b : Date, Date_ltb a b = true \/ a = b \/ Date_ltb b a = true)
   /\ (forall a b : Date, index_leb a b = true <-> Date_ltb a b = true \/ a = b))
  /\ ((forall a b : DateTime, DateTime_eqb a b = true <-> a = b)
      /\ (forall a : DateTime, DateTime_ltb a a = false)
      /\ (forall a b c : DateTime,
            DateTime_ltb a b = true -> DateTime_ltb b c = true ->
            DateTime_ltb a c = true)
      /\ (forall a b : DateTime,
            DateTime_ltb a b = true \/ a = b \/ DateTime_ltb b a = true)
      /\ (forall a b : DateTime,
            index_leb a b = true <-> DateTime_ltb a b = true \/ a = b)).
Proof.
  split.
  - exact (conj Date_eqb_eq (conj Date_ltb_irrefl (conj Date_ltb_trans
             (conj Date_ltb_total Date_leb_spec)))).
  - exact (conj DateTime_eqb_eq (conj DateTime_ltb_irrefl (conj DateTime_ltb_trans
             (conj DateTime_ltb_total DateTime_leb_spec)))).
Qed.

(** *** Parsing and formatting *)

Lemma isdigit_In (c : ascii) :
  isdigit c = true ->
  In c ["0"; "1"; "2"; "3"; "4"; "5"; "6"; "7"; "8"; "9"]%char.
Proof.
  destruct c as [b0 b1 b2 b3 b4 b5 b6 b7].
  destruct b0, b1, b2, b3, b4, b5, b6, b7; intros H;
    solve [discriminate H | cbn; tauto].
Qed.

Lemma four_digits_text (c1 c2 c3 c4 : ascii) :
  isdigit c1 = true -> isdigit c2 = true -> isdigit c3 = true -> isdigit c4 = true ->
  exists v,
    digits_value (String c1 (String c2 (String c3 (String c4 "")))) = Some v
    /\ (0 <= v <= 9999)%Z
    /\ printf_04d v = String c1 (String c2 (String c3 (String c4 ""))).
Proof.
  intros H1 H2 H3 H4.
  pose (digits := ["0"; "1"; "2"; "3"; "4"; "5"; "6"; "7"; "8"; "9"]%char).
  assert (H : forallb (fun q =>
                let s := String (fst (fst q)) (String (snd (fst q))
                           (String (fst (snd q)) (String (snd (snd q)) ""))) in
                match digits_value s with
                | Some v => (0 <=? v)%Z && (v <=? 9999)%Z && String.eqb (printf_04d v) s
                | None => false
                end)
              (list_prod (list_prod digits digits) (list_prod digits digits)) = true)
    by (vm_compute; reflexivity).
  rewrite forallb_forall in H. specialize (H ((c1, c2), (c3, c4))).
  cbn [fst snd] in H.
  assert (Hin : In ((c1, c2), (c3, c4))
                   (list_prod (list_prod digits digits) (list_prod digits digits)))
    by (repeat apply in_prod; now apply isdigit_In).
  specialize (H Hin). destruct (digits_value _) as [v|]; [|discriminate].
  apply andb_true_iff in H. destruct H as [H Hs].
  apply andb_true_iff in H. destruct H as [Hlo Hhi].
  apply Z.leb_le in Hlo, Hhi. apply String.eqb_eq in Hs.
  exists v. auto.
Qed.

Lemma two_digits_text (c1 c2 : ascii) :
  isdigit c1 = true -> isdigit c2 = true ->
  exists v,
    digits_value (String c1 (String c2 "")) = Some v
    /\ (0 <= v <= 99)%Z
    /\ printf_02u v = String c1 (String c2 "").
Proof.
  intros H1 H2.
  pose (digits := ["0"; "1"; "2"; "3"; "4"; "5"; "6"; "7"; "8"; "9"]%char).
  assert (H : forallb (fun q =>
                let s := String (fst q) (String (snd q) "") in
                match digits_value s with
                | Some v => (0 <=? v)%Z && (v <=? 99)%Z && String.eqb (printf_02u v) s
                | None => false
                end)
              (list_prod digits digits) = true)
    by (vm_compute; reflexivity).
  rewrite forallb_forall in H. specialize (H (c1, c2)). cbn [fst snd] in H.
  assert (Hin : In (c1, c2) (list_prod digits digits))
    by (apply in_prod; now apply isdigit_In).
  specialize (H Hin). destruct (digits_value _) as [v|]; [|discriminate].
  apply andb_true_iff in H. destruct H as [H Hs].
  apply andb_true_iff in H. destruct H as [Hlo Hhi].
  apply Z.leb_le in Hlo, Hhi. apply String.eqb_eq in Hs.
  exists v. auto.
Qed.

Lemma string_length_10 (s : string) :
  String.length s = 10 ->
  exists c0 c1 c2 c3 c4 c5 c6 c7 c8 c9,
    s = String c0 (String c1 (String c2 (String c3 (String c4 (String c5
          (String c6 (String c7 (String c8 (String c9 ""))))))))).
Proof.
  intros H.
  destruct s as [|c0 [|c1 [|c2 [|c3 [|c4 [|c5 [|c6 [|c7 [|c8 [|c9 [|c10 s]]]]]]]]]]];
    try discriminate.
  now exists c0, c1, c2, c3, c4, c5, c6, c7, c8, c9.
Qed.

(** What [parse_iso_date] accepts: ten characters, digits around two
    hyphens, that are the text of the date it returns. *)
Lemma parse_iso_date_inv (s : string) (x : Date) :
  io.parse_iso_date s = Ok x ->
  is_valid_date (year x) (month x) (day x) = true
  /\ (0 <= year x <= 9999)%Z /\ (0 <= month x <= 99)%Z /\ (0 <= day x <= 99)%Z
  /\ s = (printf_04d (year x) ++ "-" ++ printf_02u (month x) ++ "-"
          ++ printf_02u (day x))%string.
Proof.
  unfold io.parse_iso_date. intros H.
  destruct (String.length s =? 10)%nat eqn:Hlen; [|discriminate].
  apply Nat.eqb_eq in Hlen.
  destruct (string_length_10 s Hlen) as (c0 & c1 & c2 & c3 & c4 & c5 & c6 & c7 & c8 & c9 & ->).
  cbn [negb orb io.char_is String.get] in H.
  destruct (Ascii.eqb c4 "-") eqn:E4; [|discriminate].
  destruct (Ascii.eqb c7 "-") eqn:E7; [|discriminate].
  apply Ascii.eqb_eq in E4, E7. subst c4 c7.
  cbn [negb orb forallb io.digit_at String.get andb] in H.
  destruct (isdigit c0) eqn:D0; [|discriminate].
  destruct (isdigit c1) eqn:D1; [|discriminate].
  destruct (isdigit c2) eqn:D2; [|discriminate].
  destruct (isdigit c3) eqn:D3; [|discriminate].
  destruct (isdigit c5) eqn:D5; [|discriminate].
  destruct (isdigit c6) eqn:D6; [|discriminate].
  destruct (isdigit c8) eqn:D8; [|discriminate].
  destruct (isdigit c9) eqn:D9; [|discriminate].
  cbn [negb andb] in H. unfold io.parse_number in H. cbn [substring] in H.
  destruct (four_digits_text c0 c1 c2 c3 D0 D1 D2 D3) as (y & Vy & Ry & Ty).
  destruct (two_digits_text c5 c6 D5 D6) as (m & Vm & Rm & Tm).
  destruct (two_digits_text c8 c9 D8 D9) as (d & Vd & Rd & Td).
  rewrite Vy, Vm, Vd in H. cbn [bind] in H.
  destruct (is_valid_date y m d) eqn:Hvalid; [|discriminate].
  cbn [negb] in H. inversion H; subst x. cbn [year month day].
  rewrite Ty, Tm, Td. repeat split; try assumption; lia.
Qed.

Lemma snprintf_parsed_date (s : string) (x : Date) :
  io.parse_iso_date s = Ok x ->
  io.snprintf 16 (printf_04d (year x) ++ "-" ++ printf_02u (month x) ++ "-"
                  ++ printf_02u (day x)) = s.
Proof.
  intros H. destruct (parse_iso_date_inv s x H) as (_ & _ & _ & _ & Hs).
  rewrite <- Hs. unfold io.parse_iso_date in H.
  destruct (String.length s =? 10)%nat eqn:Hlen; [|discriminate].
  apply Nat.eqb_eq in Hlen.
  destruct (string_length_10 s Hlen) as (c0 & c1 & c2 & c3 & c4 & c5 & c6 & c7 & c8 & c9 & ->).
  reflexivity.
Qed.

(** [format_iso_date] writes back the text from which [parse_iso_date]
    read a date. *)
Theorem format_parsed_iso_date (s : string) (x : Date) :
  io.parse_iso_date s = Ok x -> io.format_iso_date x = Ok s.
Proof.
  intros H. destruct (parse_iso_date_inv s x H) as (Hvalid & _).
  unfold io.format_iso_date. rewrite Hvalid. cbn [negb]. f_equal.
  now apply snprintf_parsed_date.
Qed.

Lemma format_parsed_iso_date_witness :
  io.format_iso_date (mkDate 2024 2 29) = Ok "2024-02-29".
Proof. apply format_parsed_iso_date. reflexivity. Defined.

Lemma string_length_19 (s : string) :
  (String.length s <? 19)%nat = false ->
  exists c0 c1 c2 c3 c4 c5 c6 c7 c8 c9 c10 c11 c12 c13 c14 c15 c16 c17 c18 rest,
    s = String c0 (String c1 (String c2 (String c3 (String c4 (String c5
          (String c6 (String c7 (String c8 (String c9 (String c10 (String c11
          (String c12 (String c13 (String c14 (String c15 (String c16
          (String c17 (String c18 rest)))))))))))))))))).
Proof.
  intros H.
  destruct s as [|c0 [|c1 [|c2 [|c3 [|c4 [|c5 [|c6 [|c7 [|c8 [|c9 [|c10 [|c11 [|c12
                [|c13 [|c14 [|c15 [|c16 [|c17 [|c18 rest]]]]]]]]]]]]]]]]]]];
    try discriminate.
  now exists c0, c1, c2, c3, c4, c5, c6, c7, c8, c9, c10, c11, c12, c13, c14, c15,
             c16, c17, c18, rest.
Qed.

Lemma substring_0_0 (s : string) : substring 0 0 s = EmptyString.
Proof. destruct s; reflexivity. Qed.

(** [parse_iso_datetime] reads the date and the time from the first 19
    characters only: the separator may be a space or [T] and a time-zone
    designator may follow, but [format_iso_datetime] of the result is the
    text with a space and without designator, and that text parses to the
    same value. *)
Theorem parse_iso_datetime_canonical (s : string) (x : DateTime) :
  io.parse_iso_datetime s = Ok x ->
  io.format_iso_datetime x = Ok (substring 0 10 s ++ " " ++ substring 11 8 s)%string
  /\ io.parse_iso_datetime (substring 0 10 s ++ " " ++ substring 11 8 s)%string = Ok x.
Proof.
  unfold io.parse_iso_datetime at 1. intros H.
  destruct (String.length s <? 19)%nat eqn:Hlen; [discriminate|].
  destruct (string_length_19 s Hlen)
    as (c0 & c1 & c2 & c3 & c4 & c5 & c6 & c7 & c8 & c9 & c10 & c11 & c12 & c13 & c14
        & c15 & c16 & c17 & c18 & rest & Hs).
  rewrite Hs in H. cbn [negb orb io.char_is String.get] in H.
  destruct (Ascii.eqb c4 "-") eqn:E4; [|discriminate].
  destruct (Ascii.eqb c7 "-") eqn:E7; [|discriminate].
  cbn [negb orb andb] in H.
  destruct (negb (Ascii.eqb c10 " ") && negb (Ascii.eqb c10 "T")) eqn:E10; [discriminate|].
  destruct (Ascii.eqb c13 ":") eqn:E13; [|discriminate].
  destruct (Ascii.eqb c16 ":") eqn:E16; [|discriminate].
  apply Ascii.eqb_eq in E4, E7, E13, E16. subst c4 c7 c13 c16.
  cbn [negb orb forallb io.digit_at String.get andb] in H.
  destruct (isdigit c0) eqn:D0; [|discriminate].
  destruct (isdigit c1) eqn:D1; [|discriminate].
  destruct (isdigit c2) eqn:D2; [|discriminate].
  destruct (isdigit c3) eqn:D3; [|discriminate].
  destruct (isdigit c5) eqn:D5; [|discriminate].
  destruct (isdigit c6) eqn:D6; [|discriminate].
  destruct (isdigit c8) eqn:D8; [|discriminate].
  destruct (isdigit c9) eqn:D9; [|discriminate].
  destruct (isdigit c11) eqn:D11; [|discriminate].
  destruct (isdigit c12) eqn:D12; [|discriminate].
  destruct (isdigit c14) eqn:D14; [|discriminate].
  destruct (isdigit c15) eqn:D15; [|discriminate].
  destruct (isdigit c17) eqn:D17; [|discriminate].
  destruct (isdigit c18) eqn:D18; [|discriminate].
  cbn [negb andb] in H. unfold io.parse_number in H. cbn [substring] in H.
  rewrite ?substring_0_0 in H.
  destruct (four_digits_text c0 c1 c2 c3 D0 D1 D2 D3) as (y & Vy & Ry & Ty).
  destruct (two_digits_text c5 c6 D5 D6) as (m & Vm & Rm & Tm).
  destruct (two_digits_text c8 c9 D8 D9) as (d & Vd & Rd & Td).
  destruct (two_digits_text c11 c12 D11 D12) as (h & Vh & Rh & Th).
  destruct (two_digits_text c14 c15 D14 D15) as (mi & Vmi & Rmi & Tmi).
  destruct (two_digits_text c17 c18 D17 D18) as (sec & Vs & Rs & Ts).
  rewrite Vy, Vm, Vd, Vh, Vmi, Vs in H. cbn [bind] in H.
  destruct (is_valid_date y m d) eqn:Hvalid; [|discriminate].
  destruct (is_valid_time h mi sec) eqn:Htime; [|discriminate].
  cbn [negb] in H.
  destruct (io.check_timezone _) as [[]|]; [|discriminate].
  cbn [bind] in H. inversion H; subst x. clear H.
  rewrite Hs. cbn [substring append]. rewrite ?substring_0_0. cbn [append].
  split.
  - unfold io.format_iso_datetime. cbn [dt_year dt_month dt_day hour minute second].
    rewrite Hvalid, Htime. cbn [negb orb]. f_equal.
    rewrite Ty, Tm, Td, Th, Tmi, Ts. reflexivity.
  - unfold io.parse_iso_datetime.
    cbn [String.length Nat.ltb Nat.leb negb orb andb io.char_is String.get Ascii.eqb
         Bool.eqb forallb io.digit_at].
    rewrite D0, D1, D2, D3, D5, D6, D8, D9, D11, D12, D14, D15, D17, D18.
    cbn [negb andb]. unfold io.parse_number. cbn [substring].
    rewrite Vy, Vm, Vd, Vh, Vmi, Vs. cbn [bind]. rewrite Hvalid, Htime.
    reflexivity.
Qed.

Lemma parse_iso_datetime_canonical_witness :
  io.format_iso_datetime (mkDateTime 2024 2 29 23 59 58) = Ok "2024-02-29 23:59:58"
  /\ io.parse_iso_datetime "2024-02-29 23:59:58" = Ok (mkDateTime 2024 2 29 23 59 58).
Proof.
  apply (parse_iso_datetime_canonical "2024-02-29T23:59:58+05:30"). reflexivity.
Defined.

(** *** Dates as integers *)

Lemma int_date_fields (y m d : Z) :
  (0 <= y)%Z -> (0 <= m < 100)%Z -> (0 <= d < 100)%Z ->
  let n := (y * 10000 + m * 100 + d)%Z in
  Z.quot n 10000 = y /\ Z.rem (Z.quot n 100) 100 = m /\ Z.rem n 100 = d.
Proof.
  intros Hy Hm Hd n.
  assert (Hn : (0 <= n)%Z) by (unfold n; lia).
  assert (Hq : (n / 100 = y * 100 + m)%Z).
  { symmetry. apply (Z.div_unique_pos n 100 (y * 100 + m) d); unfold n; lia. }
  repeat split.
  - rewrite Z.quot_div_nonneg by lia. symmetry.
    apply (Z.div_unique_pos n 10000 y (m * 100 + d)); unfold n; lia.
  - rewrite Z.quot_div_nonneg by lia. rewrite Hq.
    rewrite Z.rem_mod_nonneg by lia. symmetry.
    apply (Z.mod_unique_pos (y * 100 + m) 100 y m); lia.
  - rewrite Z.rem_mod_nonneg by lia. symmetry.
    apply (Z.mod_unique_pos n 100 (y * 100 + m) d); unfold n; lia.
Qed.

(** [format_int_date] writes back the text from which
    [parse_iso_date_to_int] read a number; and a positive number whose
    decimal digits [yyyymmdd] are a valid date of the years 0 to 9999 is
    read back from the text [format_int_date] writes for it. *)
Theorem int_date_round_trip :
  (forall s n, io.parse_iso_date_to_int s = Ok n -> io.format_int_date n = s)
  /\ (forall n,
        (0 < n < 100000000)%Z ->
        is_valid_date (Z.quot n 10000) (Z.rem (Z.quot n 100) 100) (Z.rem n 100) = true ->
        io.parse_iso_date_to_int (io.format_int_date n) = Ok n).
Proof.
  split.
  - intros s n H. unfold io.parse_iso_date_to_int in H.
    destruct (io.parse_iso_date s) as [x|] eqn:E; [|discriminate].
    cbn [bind] in H. inversion H; subst n. clear H.
    destruct (parse_iso_date_inv s x E) as (Hvalid & Hy & Hm & Hd & Hs).
    destruct (is_valid_date_range _ _ _ (proj1 Hm) Hvalid) as [Hm' Hd'].
    destruct (int_date_fields (year x) (month x) (day x)) as (Q1 & Q2 & Q3); try lia.
    cbv zeta in Q1, Q2, Q3.
    unfold io.format_int_date.
    assert (Hpos : (year x * 10000 + month x * 100 + day x <=? 0)%Z = false)
      by (apply Z.leb_gt; lia).
    rewrite Hpos, Q1, Q2, Q3, Hvalid. cbn [negb].
    now apply snprintf_parsed_date.
  - intros n Hn Hvalid. unfold io.format_int_date.
    assert (Hpos : (n <=? 0)%Z = false) by (apply Z.leb_gt; lia).
    rewrite Hpos, Hvalid. cbn [negb].
    set (y := Z.quot n 10000) in *. set (m := Z.rem (Z.quot n 100) 100) in *.
    set (d := Z.rem n 100) in *.
    assert (Hm : (0 <= m < 100)%Z).
    { unfold m. rewrite Z.quot_div_nonneg, Z.rem_mod_nonneg by (try apply Z.div_pos; lia).
      apply Z.mod_pos_bound. lia. }
    assert (Hy : (0 <= y <= 9999)%Z).
    { unfold y. rewrite Z.quot_div_nonneg by lia. split; [apply Z.div_pos; lia|].
      assert (n / 10000 < 10000)%Z by (apply Z.div_lt_upper_bound; lia). lia. }
    assert (Hparse : io.parse_iso_date
                       (io.snprintf 16 (printf_04d y ++ "-" ++ printf_02u m ++ "-"
                                        ++ printf_02u d)) = Ok (mkDate y m d)).
    { destruct (Date_text_stable (mkDate y m d)) as (s & Hs & _ & Hp).
      - exact Hy.
      - cbn [month]. lia.
      - exact Hvalid.
      - cbn [index_to_string Date_index] in Hs. unfold io.format_iso_date in Hs.
        cbn [year month day] in Hs. rewrite Hvalid in Hs. cbn [negb] in Hs.
        inversion Hs; subst s. exact Hp. }
    unfold io.parse_iso_date_to_int. rewrite Hparse. cbn [bind year month day].
    f_equal. unfold y, m, d.
    rewrite !Z.quot_div_nonneg, !Z.rem_mod_nonneg by (try apply Z.div_pos; lia).
    pose proof (Z.div_mod n 100 ltac:(lia)) as E1.
    pose proof (Z.div_mod (n / 100) 100 ltac:(lia)) as E2.
    assert (E3 : (n / 10000 = n / 100 / 100)%Z) by (rewrite Z.div_div by lia; reflexivity).
    lia.
Qed.

(** The integers [yyyymmdd] order as the dates they stand for. *)
Theorem int_dates_ordered (s1 s2 : string) (d1 d2 : Date) :
  io.parse_iso_date s1 = Ok d1 -> io.parse_iso_date s2 = Ok d2 ->
  exists n1 n2,
    io.parse_iso_date_to_int s1 = Ok n1 /\ io.parse_iso_date_to_int s2 = Ok n2
    /\ (n1 <? n2)%Z = Date_ltb d1 d2 /\ (n1 =? n2)%Z = Date_eqb d1 d2.
Proof.
  intros H1 H2. unfold io.parse_iso_date_to_int. rewrite H1, H2. cbn [bind].
  eexists. eexists. split; [reflexivity|]. split; [reflexivity|].
  destruct (parse_iso_date_inv s1 d1 H1) as (V1 & _ & M1 & _ & _).
  destruct (parse_iso_date_inv s2 d2 H2) as (V2 & _ & M2 & _ & _).
  destruct (is_valid_date_range _ _ _ (proj1 M1) V1) as [Hm1 Hd1].
  destruct (is_valid_date_range _ _ _ (proj1 M2) V2) as [Hm2 Hd2].
  destruct d1 as [y1 m1 a1], d2 as [y2 m2 a2]. cbn [year month day] in *.
  unfold Date_ltb, Date_eqb. cbn [year month day]. split.
  - destruct (Z.ltb_spec (y1 * 10000 + m1 * 100 + a1) (y2 * 10000 + m2 * 100 + a2));
      destruct (Z.eqb_spec y1 y2); destruct (Z.ltb_spec y1 y2);
      destruct (Z.eqb_spec m1 m2); destruct (Z.ltb_spec m1 m2);
      destruct (Z.ltb_spec a1 a2); cbn; try reflexivity; lia.
  - destruct (Z.eqb_spec (y1 * 10000 + m1 * 100 + a1) (y2 * 10000 + m2 * 100 + a2));
      destruct (Z.eqb_spec y1 y2); destruct (Z.eqb_spec m1 m2);
      destruct (Z.eqb_spec a1 a2); cbn; try reflexivity; lia.
Qed.

Lemma int_dates_ordered_witness :
  exists n1 n2,
    io.parse_iso_date_to_int "2024-01-31" = Ok n1
    /\ io.parse_iso_date_to_int "2024-02-01" = Ok n2
    /\ (n1 <? n2)%Z = Date_ltb (mkDate 2024 1 31) (mkDate 2024 2 1)
    /\ (n1 =? n2)%Z = Date_eqb (mkDate 2024 1 31) (mkDate 2024 2 1).
Proof.
  apply (int_dates_ordered "2024-01-31" "2024-02-01"); reflexivity.
Defined.

(** ** Symmetry of the correlation matrices *)

Lemma SFmul_comm (x y : spec_float) : SFmul prec emax x y = SFmul prec emax y x.
Proof.
  destruct x as [sx|sx| |sx mx ex], y as [sy|sy| |sy my ey]; cbn [SFmul];
    rewrite ?(xorb_comm sx sy); try reflexivity.
  now rewrite Pos.mul_comm, Z.add_comm.
Qed.

Lemma mul_comm (x y : double) : (x * y)%float = (y * x)%float.
Proof. apply Prim2SF_inj. rewrite !mul_spec. apply SFmul_comm. Qed.

Section Symmetry.

Context {IndexT : Type} {IT : IndexType IndexT}.
Implicit Types df : DataFrame IndexT.

Lemma valid_cov_sym df (valid : list nat) (i j : nat) :
  valid_cov df valid i j = valid_cov df valid j i.
Proof.
  unfold valid_cov. f_equal. apply fold_left_ext_in. intros acc r _.
  now rewrite mul_comm.
Qed.

Lemma correlation_matrix_sym df out (i j : nat) :
  correlation_matrix df = Ok out -> i < cols df -> j < cols df ->
  value_at out i j = value_at out j i.
Proof.
  intros H Hi Hj.
  rewrite (correlation_cell df out i j H Hi Hj), (correlation_cell df out j i H Hj Hi).
  rewrite (Nat.eqb_sym j i). destruct (i =? j)%nat; [reflexivity|].
  rewrite (orb_comm (valid_sd df (valid_rows df) j <=? 0)%float).
  destruct (_ || _); [reflexivity|].
  now rewrite valid_cov_sym, mul_comm.
Qed.

Lemma covariance_cell df out (i j : nat) :
  covariance_matrix df = Ok out -> i < cols df -> j < cols df ->
  value_at out i j = valid_cov df (valid_rows df) i j.
Proof.
  unfold covariance_matrix. intros H Hi Hj.
  destruct (is_nil (columns_ df)); [discriminate|].
  destruct (rows df <? 2)%nat; [discriminate|].
  destruct (List.length (valid_rows df) <? 2)%nat; [discriminate|].
  inversion H; subst; clear H. unfold value_at, cell. cbn [data_].
  rewrite (tabulate_at []) by assumption.
  now rewrite (tabulate_at 0%float) by assumption.
Qed.

(** The matrices of [correlation_matrix], [covariance_matrix] and
    [spearman_correlation_matrix] are symmetric, cell for cell: the sums
    that give the cells [(i, j)] and [(j, i)] add the same products. *)
Theorem correlation_matrices_symmetric df (i j : nat) :
  i < cols df -> j < cols df ->
  (forall out, correlation_matrix df = Ok out -> value_at out i j = value_at out j i)
  /\ (forall out, covariance_matrix df = Ok out -> value_at out i j = value_at out j i)
  /\ (forall out, spearman_correlation_matrix df = Ok out ->
        value_at out i j = value_at out j i).
Proof.
  intros Hi Hj. split; [|split].
  - intros out H. now apply (correlation_matrix_sym df).
  - intros out H.
    rewrite (covariance_cell df out i j H Hi Hj), (covariance_cell df out j i H Hj Hi).
    apply valid_cov_sym.
  - intros out H. unfold spearman_correlation_matrix in H.
    destruct (is_nil (columns_ df)); [discriminate|].
    destruct (rows df <? 2)%nat; [discriminate|].
    destruct (tabulateM (cols df) (column_ranks df)) as [ranks|]; [|discriminate].
    cbn [bind] in H. eapply correlation_matrix_sym; [exact H|exact Hi|exact Hj].
Qed.

(** [kendall_tau_matrix] is labelled by the column names on both axes,
    has 1 on its diagonal and is symmetric; a cell off the diagonal is NaN
    when fewer than two rows hold a value in both columns. *)
Theorem kendall_tau_matrix_contract df out :
  kendall_tau_matrix df = Ok out ->
  columns_ out = columns_ df /\ index_ out = columns_ df
  /\ rows out = cols df
  /\ (forall i, i < cols df -> value_at out i i = 1%float)
  /\ (forall i j, i < cols df -> j < cols df -> value_at out i j = value_at out j i)
  /\ (forall i j, i < cols df -> j < cols df -> i <> j ->
        List.length (filter (fun r => negb (isnan (value_at df r i))
                                      && negb (isnan (value_at df r j)))
                            (seq 0 (rows df))) < 2 ->
        isnan (value_at out i j) = true).
Proof.
  unfold kendall_tau_matrix. intros H.
  destruct (is_nil (columns_ df)); [discriminate|].
  destruct (rows df <? 2)%nat; [discriminate|].
  inversion H; subst out; clear H.
  assert (Hcell : forall i j, i < cols df -> j < cols df ->
            value_at (mkDataFrame (columns_ df) (columns_ df)
                        (tabulate (cols df) (fun i =>
                           tabulate (cols df) (fun j =>
                             if (i =? j)%nat then 1%float
                             else kendall_tau df (Nat.min i j) (Nat.max i j))))
                        "column") i j
            = if (i =? j)%nat then 1%float
              else kendall_tau df (Nat.min i j) (Nat.max i j)).
  { intros i j Hi Hj. unfold value_at, cell. cbn [data_].
    rewrite (tabulate_at []) by assumption.
    now rewrite (tabulate_at 0%float) by assumption. }
  refine (conj eq_refl (conj eq_refl (conj _ (conj _ (conj _ _))))).
  - apply tabulate_length.
  - intros i Hi. rewrite Hcell by assumption. now rewrite Nat.eqb_refl.
  - intros i j Hi Hj. rewrite !Hcell by assumption.
    rewrite (Nat.eqb_sym j i), (Nat.min_comm j i), (Nat.max_comm j i). reflexivity.
  - intros i j Hi Hj Hne Hfew. rewrite Hcell by assumption.
    apply Nat.eqb_neq in Hne. rewrite Hne.
    assert (Hpairs : forall a b,
              List.length (kendall_pairs df a b)
              = List.length (filter (fun r => negb (isnan (value_at df r a))
                                              && negb (isnan (value_at df r b)))
                                    (seq 0 (rows df)))).
    { intros a b. unfold kendall_pairs, tabulate.
      rewrite <- (map_filter_comm (fun r => (value_at df r a, value_at df r b))
                    (fun p => (fst p =? fst p)%float && (snd p =? snd p)%float)).
      rewrite length_map. f_equal. apply filter_ext. intros r. cbn [fst snd].
      unfold isnan. now rewrite !negb_involutive. }
    assert (Hlen : List.length (kendall_pairs df (Nat.min i j) (Nat.max i j)) < 2).
    { rewrite Hpairs. destruct (Nat.le_ge_cases i j) as [Hle|Hle].
      - now rewrite Nat.min_l, Nat.max_r by assumption.
      - rewrite Nat.min_r, Nat.max_l by assumption.
        erewrite filter_ext; [exact Hfew|]. intros r. apply andb_comm. }
    unfold kendall_tau. apply Nat.ltb_lt in Hlen. now rewrite Hlen.
Qed.

End Symmetry.

Lemma correlation_matrices_symmetric_witness :
  exists out : DataFrame string,
    correlation_matrix
      (mkDataFrame ["a"; "b"] [10; 20; 30]%Z [[1; 2]; [2; 5]; [4; 3]]%float "index")
    = Ok out
    /\ value_at out 0 1 = value_at out 1 0.
Proof.
  destruct (correlation_matrices_symmetric
              (mkDataFrame ["a"; "b"] [10; 20; 30]%Z [[1; 2]; [2; 5]; [4; 3]]%float "index")
              0 1) as [H _]; [cbn; lia|cbn; lia|].
  eexists. split; [vm_compute; reflexivity|].
  apply H. vm_compute. reflexivity.
Defined.

Lemma kendall_tau_matrix_contract_witness :
  value_at (mkDataFrame ["a"; "b"] ["a"; "b"] [[1; 1]; [1; 1]]%float "column") 0 1
  = value_at (mkDataFrame ["a"; "b"] ["a"; "b"] [[1; 1]; [1; 1]]%float "column") 1 0.
Proof.
  apply (kendall_tau_matrix_contract
           (mkDataFrame ["a"; "b"] [10; 20; 30]%Z [[1; 2]; [2; 5]; [4; 6]]%float "index"));
    [reflexivity|cbn; lia|cbn; lia].
Defined.

(** ** Reading CSV text without an index column *)

Section GeneratedIndex.

Context {RT : Runtime} {IndexT : Type} {IT : IndexType IndexT}.

Lemma from_csv_lines_generated (columns : list string) (lines : list string)
      (index index' : list IndexT) (data data' : list (list double)) :
  from_csv_lines columns false lines index data = Ok (index', data') ->
  List.length index = List.length data ->
  List.length index' = List.length data'
  /\ match of_size_t with
     | Some cast =>
         index = map cast (seq 0 (List.length index)) ->
         index' = map cast (seq 0 (List.length index'))
     | None => index' = index /\ data' = data
     end.
Proof.
  revert index data. induction lines as [|line lines IH]; intros index data H Hlen.
  - cbn in H. inversion H; subst. split; [exact Hlen|].
    destruct of_size_t; auto.
  - cbn [from_csv_lines] in H.
    destruct (detail.empty (detail.trim line)); [now apply IH|].
    unfold from_csv_line in H.
    destruct (negb (List.length (detail.split_csv line) =? List.length columns + 0)%nat);
      [discriminate|].
    destruct of_size_t as [cast|] eqn:Ecast; [|discriminate].
    cbn [bind] in H.
    destruct (tabulateM (List.length columns) _) as [row|]; [|discriminate].
    cbn [bind] in H. apply IH in H; [|rewrite !length_app; cbn; lia].
    destruct H as [H1 H2]. split; [exact H1|].
    intros Hindex. apply H2. rewrite length_app. cbn [List.length].
    rewrite Nat.add_1_r, seq_S, map_app. cbn [map Nat.add]. now rewrite <- Hindex.
Qed.

(** Read without an index column, a frame gets the index label
    ["index"], all header fields as columns and, for its rows, the labels
    0, 1, 2, ... converted to the index type; an index type that has no
    conversion from [std::size_t] gives a frame only when there is no data
    line. *)
Theorem from_csv_generated_index (input : string) (df : DataFrame IndexT) :
  from_csv input false = Ok df ->
  index_name_ df = "index"
  /\ (exists header rest,
        detail.getline newline input = Some (header, rest)
        /\ columns_ df = detail.split_csv header)
  /\ List.length (index_ df) = rows df
  /\ match of_size_t with
     | Some cast => index_ df = map cast (seq 0 (rows df))
     | None => rows df = 0
     end.
Proof.
  unfold from_csv. intros H.
  destruct (detail.getline newline input) as [[header rest]|] eqn:Eh; [|discriminate].
  destruct (is_nil (detail.split_csv header)); [discriminate|].
  cbn [andb skipn] in H.
  destruct (is_nil (detail.split_csv header)); [discriminate|].
  destruct (from_csv_lines _ false (detail.getlines newline rest) [] [])
    as [[index data]|] eqn:E; [|discriminate].
  cbn [bind] in H. inversion H; subst df; clear H.
  cbn [index_name_ columns_ index_]. unfold rows. cbn [data_].
  apply from_csv_lines_generated in E; [|reflexivity]. destruct E as [Hlen Hindex].
  refine (conj eq_refl (conj _ (conj Hlen _))).
  - exists header, rest. auto.
  - destruct of_size_t as [cast|].
    + rewrite <- Hlen. now apply Hindex.
    + destruct Hindex as [_ ->]. reflexivity.
Qed.

End GeneratedIndex.

Lemma from_csv_generated_index_witness :
  index_ (mkDataFrame ["a"; "b"] [0; 1]%Z [[1; 2]; [3; nan]]%float "index")
  = [0; 1]%Z.
Proof.
  destruct (from_csv_generated_index (RT := sample_runtime) (IndexT := Z)
              ("a,b" ++ String newline ("1,2" ++ String newline ("3," ++ String newline "")))
              (mkDataFrame ["a"; "b"] [0; 1]%Z [[1; 2]; [3; nan]]%float "index"))
    as (_ & _ & _ & H).
  - reflexivity.
  - exact H.
Defined.

(** ** Blank lines and the sample loaders *)

Lemma read_until_no_delim (d : ascii) (s : string) :
  has_char d (fst (detail.read_until d s)) = false.
Proof.
  induction s as [|c s IH]; [reflexivity|]. cbn [detail.read_until].
  destruct (Ascii.eqb c d) eqn:E; [reflexivity|].
  destruct (detail.read_until d s) as [out rest]. cbn [fst has_char] in *.
  now rewrite E, IH.
Qed.

Lemma getline_loop_no_delim (fuel : nat) (d : ascii) (s : string) :
  Forall (fun line => has_char d line = false) (detail.getline_loop fuel d s).
Proof.
  revert s. induction fuel as [|fuel IH]; intros s; [constructor|].
  cbn [detail.getline_loop]. unfold detail.getline.
  destruct s as [|c s]; [constructor|].
  pose proof (read_until_no_delim d (String c s)) as H.
  destruct (detail.read_until d (String c s)) as [out rest]. constructor; [exact H|apply IH].
Qed.

Section SkipEmpty.

Context {RT : Runtime} {IndexT : Type} {IT : IndexType IndexT}.

Lemma from_csv_lines_skip_empty (columns : list string) (has_index : bool)
      (lines : list string) (index : list IndexT) (data : list (list double)) :
  from_csv_lines columns has_index
                 (filter (fun line => negb (detail.empty line)) lines) index data
  = from_csv_lines columns has_index lines index data.
Proof.
  revert index data. induction lines as [|line lines IH]; intros index data; [reflexivity|].
  cbn [filter]. destruct line as [|c line]; cbn [detail.empty negb].
  - cbn [from_csv_lines]. change (detail.empty (detail.trim "")) with true. cbv iota.
    apply IH.
  - cbn [from_csv_lines]. destruct (detail.empty (detail.trim (String c line))); [apply IH|].
    destruct (from_csv_line columns has_index (List.length index) (String c line))
      as [[idx row]|]; [|reflexivity].
    cbn [bind]. apply IH.
Qed.

Lemma from_csv_buffered (input header rest : string) (has_index : bool) :
  detail.getline newline input = Some (header, rest) ->
  from_csv (IndexT := IndexT)
           (samples.buffered header (detail.getlines newline rest)) has_index
  = from_csv input has_index.
Proof.
  intros H. unfold from_csv at 2. rewrite H.
  assert (Hheader : has_char newline header = false).
  { unfold detail.getline in H. destruct input as [|c input]; [discriminate|].
    assert (E : detail.read_until newline (String c input) = (header, rest))
      by congruence.
    pose proof (read_until_no_delim newline (String c input)) as F.
    now rewrite E in F. }
  unfold from_csv, samples.buffered. rewrite (getline_app newline header _ Hheader).
  rewrite getlines_lines.
  2:{ unfold detail.getlines.
      pose proof (getline_loop_no_delim (String.length rest) newline rest) as F.
      rewrite Forall_forall in F. apply Forall_forall. intros line Hline.
      apply filter_In in Hline. apply F. tauto. }
  now rewrite from_csv_lines_skip_empty.
Qed.

End SkipEmpty.

(** The loaders of sample_utils.h return what [from_csv] returns on the
    content of the file, read with an index column, under the index label
    ["Date"] or ["Datetime"]: dropping the empty lines first changes
    nothing, because [from_csv] skips blank lines itself. A file that
    cannot be opened and an empty file are errors. *)
Theorem sample_loaders_contract {RT : Runtime} (path : string) :
  samples.load_prices_dataframe path None
  = Err ("samples::load_prices_dataframe: failed to open " ++ path)%string
  /\ samples.load_prices_dataframe path (Some "")
     = Err "samples::load_prices_dataframe: empty file"
  /\ samples.load_intraday_dataframe path None
     = Err ("samples::load_intraday_dataframe: failed to open " ++ path)%string
  /\ samples.load_intraday_dataframe path (Some "")
     = Err "samples::load_intraday_dataframe: empty file"
  /\ forall input, input <> EmptyString ->
       samples.load_prices_dataframe path (Some input)
       = (df <- from_csv input true ;; Ok (set_index_name df "Date"))
       /\ samples.load_intraday_dataframe path (Some input)
          = (df <- from_csv input true ;; Ok (set_index_name df "Datetime")).
Proof.
  repeat (split; [reflexivity|]).
  intros input Hne. unfold samples.load_prices_dataframe, samples.load_intraday_dataframe.
  destruct (detail.getline newline input) as [[header rest]|] eqn:E.
  - now rewrite !(from_csv_buffered input header rest true E).
  - destruct input; [congruence|discriminate].
Qed.

(** ** Truncated binary streams *)

Lemma read_exact_fail (n : nat) (msg : string) (input : detail.stream) :
  List.length input < n -> detail.read_exact n msg input = Err msg.
Proof.
  intros H. unfold detail.read_exact. apply Nat.ltb_lt in H. now rewrite H.
Qed.

Lemma rbind_fail {A B : Type} (m : detail.reader A) (k : A -> detail.reader B)
      (input : detail.stream) :
  is_ok (m input) = false -> is_ok (detail.rbind m k input) = false.
Proof. unfold detail.rbind. destruct (m input) as [[a rest]|]; [discriminate|reflexivity]. Qed.

(** A reader that consumes [bs1] and rejects what is cut short of it,
    followed by one that rejects what is cut short of [bs2]. *)
Lemma rbind_short {A B : Type} (m : detail.reader A) (k : A -> detail.reader B)
      (bs1 bs2 : detail.stream) (x : A) :
  (forall rest, m (bs1 ++ rest) = Ok (x, rest)) ->
  (forall n, n < List.length bs1 -> is_ok (m (firstn n bs1)) = false) ->
  (forall n, n < List.length bs2 -> is_ok (k x (firstn n bs2)) = false) ->
  forall n, n < List.length (bs1 ++ bs2) ->
    is_ok (detail.rbind m k (firstn n (bs1 ++ bs2))) = false.
Proof.
  intros Hm Hshort Hk n Hn. rewrite length_app in Hn. rewrite firstn_app.
  destruct (Nat.lt_ge_cases n (List.length bs1)) as [Hlt|Hge].
  - replace (n - List.length bs1) with 0 by lia. rewrite firstn_O, app_nil_r.
    apply rbind_fail. now apply Hshort.
  - rewrite firstn_all2 by exact Hge. unfold detail.rbind. rewrite Hm.
    apply Hk. lia.
Qed.

Lemma rbind_short_end {A B : Type} (m : detail.reader A) (k : A -> detail.reader B)
      (bs : detail.stream) :
  (forall n, n < List.length bs -> is_ok (m (firstn n bs)) = false) ->
  forall n, n < List.length bs -> is_ok (detail.rbind m k (firstn n bs)) = false.
Proof. intros H n Hn. apply rbind_fail. now apply H. Qed.

Lemma read_exact_short (n : nat) (msg : string) (bs : detail.stream) :
  List.length bs = n ->
  forall k, k < List.length bs -> is_ok (detail.read_exact n msg (firstn k bs)) = false.
Proof.
  intros H k Hk. rewrite read_exact_fail; [reflexivity|].
  rewrite length_firstn. lia.
Qed.

Lemma read_pod_u64_short (v : Z) (k : nat) :
  k < List.length (detail.write_pod_u64 v) ->
  is_ok (detail.read_pod_u64 (firstn k (detail.write_pod_u64 v))) = false.
Proof. apply rbind_short_end, read_exact_short, le_bytes_length. Qed.

Lemma read_pod_unsigned_short (v : Z) (k : nat) :
  k < List.length (detail.write_pod_unsigned v) ->
  is_ok (detail.read_pod_unsigned (firstn k (detail.write_pod_unsigned v))) = false.
Proof. apply rbind_short_end, read_exact_short, le_bytes_length. Qed.

Lemma read_pod_int_short (v : Z) (k : nat) :
  k < List.length (detail.write_pod_int v) ->
  is_ok (detail.read_pod_int (firstn k (detail.write_pod_int v))) = false.
Proof. apply rbind_short_end, read_exact_short, le_bytes_length. Qed.

Lemma read_pod_double_short (v : double) (k : nat) :
  k < List.length (detail.write_pod_double v) ->
  is_ok (detail.read_pod_double (firstn k (detail.write_pod_double v))) = false.
Proof. apply rbind_short_end, read_exact_short, le_bytes_length. Qed.

Lemma list_byte_of_string_length (s : string) :
  List.length (list_byte_of_string s) = String.length s.
Proof.
  unfold list_byte_of_string. rewrite length_map.
  induction s; simpl; auto.
Qed.

Lemma read_string_short (s : string) (k : nat) :
  fits_size_t (String.length s) ->
  k < List.length (detail.write_string s) ->
  is_ok (detail.read_string (firstn k (detail.write_string s))) = false.
Proof.
  intros Hfits. unfold detail.write_string, detail.read_string.
  apply (rbind_short _ _ _ _ (Z.of_nat (String.length s))).
  - intros rest. apply read_pod_u64_write. unfold fits_size_t in Hfits. lia.
  - apply read_pod_u64_short.
  - intros n Hn. rewrite list_byte_of_string_length in Hn.
    assert (E : (0 <? Z.of_nat (String.length s))%Z = true) by (apply Z.ltb_lt; lia).
    rewrite E. apply rbind_fail. rewrite read_exact_fail; [reflexivity|].
    rewrite length_firstn, list_byte_of_string_length. lia.
Qed.

Lemma read_n_short {A : Type} (m : detail.reader A) (w : A -> detail.stream)
      (l : list A) :
  Forall (fun x => (forall rest, m (w x ++ rest) = Ok (x, rest))
                   /\ forall n, n < List.length (w x) ->
                                is_ok (m (firstn n (w x))) = false) l ->
  forall n, n < List.length (List.concat (map w l)) ->
    is_ok (detail.read_n (List.length l) m (firstn n (List.concat (map w l)))) = false.
Proof.
  induction 1 as [|x l [Hx Hshort] _ IH]; intros n Hn; [simpl in Hn; lia|].
  cbn [map List.concat List.length detail.read_n] in *.
  apply (rbind_short _ _ _ _ x); [exact Hx|exact Hshort| |exact Hn].
  intros k Hk. apply rbind_fail. now apply IH.
Qed.

(** The four index types reject the proper prefixes of their own bytes. *)
Lemma int_rejects_prefix (z : Z) (n : nat) :
  n < List.length (write_index_value z) ->
  is_ok (read_index_value (IndexT := Z) (firstn n (write_index_value z))) = false.
Proof. apply read_pod_int_short. Qed.

Lemma string_rejects_prefix (s : string) (n : nat) :
  fits_size_t (String.length s) ->
  n < List.length (write_index_value s) ->
  is_ok (read_index_value (IndexT := string) (firstn n (write_index_value s))) = false.
Proof. apply read_string_short. Qed.

Lemma Date_rejects_prefix (x : Date) (n : nat) :
  (- 2 ^ 31 <= year x < 2 ^ 31)%Z -> (0 <= month x < 2 ^ 32)%Z ->
  n < List.length (write_index_value x) ->
  is_ok (read_index_value (IndexT := Date) (firstn n (write_index_value x))) = false.
Proof.
  intros Hy Hm. cbn [read_index_value write_index_value Date_index].
  unfold read_Date, write_Date. revert n.
  apply (rbind_short _ _ _ _ (year x));
    [intros rest; now apply read_pod_int_write|apply read_pod_int_short|].
  apply (rbind_short _ _ _ _ (month x));
    [intros rest; now apply read_pod_unsigned_write|apply read_pod_unsigned_short|].
  apply rbind_short_end, read_pod_unsigned_short.
Qed.

Lemma DateTime_rejects_prefix (x : DateTime) (n : nat) :
  (- 2 ^ 31 <= dt_year x < 2 ^ 31)%Z -> (0 <= dt_month x < 2 ^ 32)%Z ->
  (0 <= dt_day x < 2 ^ 32)%Z -> (0 <= hour x < 2 ^ 32)%Z ->
  (0 <= minute x < 2 ^ 32)%Z ->
  n < List.length (write_index_value x) ->
  is_ok (read_index_value (IndexT := DateTime) (firstn n (write_index_value x))) = false.
Proof.
  intros Hy Hm Hd Hh Hmi. cbn [read_index_value write_index_value DateTime_index].
  unfold read_DateTime, write_DateTime. revert n.
  apply (rbind_short _ _ _ _ (dt_year x));
    [intros rest; now apply read_pod_int_write|apply read_pod_int_short|].
  apply (rbind_short _ _ _ _ (dt_month x));
    [intros rest; now apply read_pod_unsigned_write|apply read_pod_unsigned_short|].
  apply (rbind_short _ _ _ _ (dt_day x));
    [intros rest; now apply read_pod_unsigned_write|apply read_pod_unsigned_short|].
  apply (rbind_short _ _ _ _ (hour x));
    [intros rest; now apply read_pod_unsigned_write|apply read_pod_unsigned_short|].
  apply (rbind_short _ _ _ _ (minute x));
    [intros rest; now apply read_pod_unsigned_write|apply read_pod_unsigned_short|].
  apply rbind_short_end, read_pod_unsigned_short.
Qed.

Section Truncation.

Context {IndexT : Type} {IT : IndexType IndexT}.

(** [from_binary] rejects a stream that does not start with the magic
    tag, and it rejects every proper prefix of what [to_binary] writes for
    a frame, provided [read_index_value] rejects the proper prefixes of
    the bytes of the frame's index values. *)
Theorem from_binary_rejects_truncation (df : DataFrame IndexT) :
  well_formed df -> binary_representable df ->
  Forall (fun x => forall n, n < List.length (write_index_value x) ->
                     is_ok (read_index_value (firstn n (write_index_value x))) = false)
         (index_ df) ->
  (forall input, firstn 6 input <> magic ->
     from_binary (IndexT := IndexT) input
     = Err "dataframe::from_binary: invalid file header")
  /\ forall n, n < List.length (to_binary df) ->
       is_ok (from_binary (IndexT := IndexT) (firstn n (to_binary df))) = false.
Proof.
  intros [Hindex Hrows] (Hr & Hc & Hname & Hcolumns & Hstable) Hshort. split.
  - intros input Hmagic. unfold from_binary, detail.rbind.
    destruct (List.length input <? 6)%nat; [reflexivity|].
    destruct (vector_eqb Byte.eqb (firstn 6 input) magic) eqn:E; [|reflexivity].
    exfalso. apply Hmagic. clear Hmagic. revert E. generalize (firstn 6 input) magic.
    induction l as [|b l IH]; intros [|b' l']; cbn [vector_eqb]; try discriminate;
      [reflexivity|].
    intros E. apply andb_true_iff in E. destruct E as [E1 E2].
    apply Byte.byte_dec_bl in E1. subst. f_equal. now apply IH.
  - unfold fits_size_t in *. unfold from_binary, to_binary.
    apply (rbind_short _ _ _ _ tt).
    { intros rest. destruct (from_binary_magic rest) as [M1 M2]. now rewrite M1, M2. }
    { intros n Hn. assert (E : (List.length (firstn n magic) <? 6)%nat = true).
      { apply Nat.ltb_lt. rewrite length_firstn. change (List.length magic) with 6 in *. lia. }
      now rewrite E. }
    apply (rbind_short _ _ _ _ (Z.of_nat (rows df)));
      [intros rest; apply read_pod_u64_write; lia|apply read_pod_u64_short|].
    apply (rbind_short _ _ _ _ (Z.of_nat (cols df)));
      [intros rest; apply read_pod_u64_write; lia|apply read_pod_u64_short|].
    apply (rbind_short _ _ _ _ (index_name_ df));
      [intros rest; apply read_string_write; lia
      |intros n; apply read_string_short; exact Hname|].
    apply (rbind_short _ _ _ _ (Z.of_nat (cols df)));
      [intros rest; apply read_pod_u64_write; unfold cols in *; lia
      |apply read_pod_u64_short|].
    rewrite Z.eqb_refl. cbn [negb]. rewrite !Nat2Z.id.
    apply (rbind_short _ _ _ _ (columns_ df)).
    { intros rest. apply read_n_write. eapply Forall_impl; [|exact Hcolumns].
      intros name Hn rest'. now apply read_string_write. }
    { apply read_n_short. eapply Forall_impl; [|exact Hcolumns].
      intros name Hn. split; [intros rest; now apply read_string_write|].
      intros n. now apply read_string_short. }
    apply (rbind_short _ _ _ _ (index_ df)).
    { intros rest. rewrite <- Hindex. now apply read_n_write. }
    { rewrite <- Hindex. apply read_n_short. apply Forall_forall. intros x Hx.
      rewrite Forall_forall in Hstable, Hshort. split; [apply Hstable|apply Hshort]; exact Hx. }
    apply rbind_short_end. unfold rows.
    apply (read_n_short (detail.read_n (cols df) detail.read_pod_double)
             (fun row => List.concat (map detail.write_pod_double row))).
    eapply Forall_impl; [|exact Hrows]. intros row Hrow. cbv beta. rewrite <- Hrow. split.
    + intros rest. apply read_n_write. apply Forall_forall.
      intros v _ rest'. apply read_pod_double_write.
    + apply read_n_short. apply Forall_forall. intros v _. split.
      * intros rest. apply read_pod_double_write.
      * apply read_pod_double_short.
Qed.

End Truncation.

Lemma from_binary_rejects_truncation_witness :
  is_ok (from_binary (IndexT := Z)
           (firstn 40 (to_binary (mkDataFrame ["a"] [10; 20]%Z [[1]; [nan]]%float "index"))))
  = false.
Proof.
  destruct (from_binary_rejects_truncation
              (mkDataFrame ["a"] [10; 20]%Z [[1]; [nan]]%float "index")) as [_ H].
  - split; [reflexivity|repeat constructor].
  - unfold binary_representable, fits_size_t. cbn.
    repeat split; try lia.
    + repeat constructor.
    + repeat constructor; intros rest; reflexivity.
  - repeat constructor; intros n Hn; apply int_rejects_prefix; exact Hn.
  - apply H. vm_compute. lia.
Defined.

(** ** rolling_std and rolling_rms *)

Lemma SFsqrt_not_negative (x : spec_float) :
  SFltb (SFsqrt prec emax x) (S754_zero false) = false.
Proof.
  destruct x as [s|[|]| |[|] m e]; try reflexivity.
  unfold SFsqrt. destruct (SFsqrt_core_binary _ _ _ _) as [[mz ez] lz].
  unfold binary_round_aux.
  destruct (shr_fexp prec emax mz ez lz) as [mrs' e'].
  destruct (shr_fexp prec emax _ e' loc_Exact) as [mrs'' e''].
  destruct (shr_m mrs''); try reflexivity.
  destruct (e'' <=? emax - prec)%Z; reflexivity.
Qed.

Lemma sqrt_not_negative (v : double) : (PrimFloat.sqrt v <? 0)%float = false.
Proof. rewrite ltb_spec, sqrt_spec. apply SFsqrt_not_negative. Qed.

Section RollingCount.

Context {IndexT : Type}.
Implicit Types df : DataFrame IndexT.







End RollingCount.

(** ** exponential_moving_average *)

Lemma ema_column_length (alpha : double) (values : list double) (ema : double)
      (has_ema : bool) :
  List.length (ema_column alpha values ema has_ema) = List.length values.
Proof.
  revert ema has_ema. induction values as [|v rest IH]; intros ema has_ema; cbn [ema_column].
  - reflexivity.
  - destruct (negb (v =? v)%float); cbn [List.length]; now rewrite IH.
Qed.

Lemma ema_column_nan (alpha : double) (values : list double) (ema : double)
      (has_ema : bool) (r : nat) :
  isnan (nth r values 0%float) = true ->
  r < List.length values ->
  nth r (ema_column alpha values ema has_ema) quiet_NaN = quiet_NaN.
Proof.
  revert ema has_ema r.
  induction values as [|v rest IH]; intros ema has_ema r Hnan Hr; [simpl in Hr; lia|].
  cbn [ema_column]. rewrite isnan_eqb.
  destruct r as [|r]; cbn [nth] in Hnan.
  - rewrite Hnan. reflexivity.
  - cbn [List.length] in Hr. destruct (isnan v); cbn [nth]; apply IH; auto; lia.
Qed.

(** The first cell that is not NaN after cells that all are. *)
Lemma ema_column_next (alpha : double) (values : list double) (ema : double)
      (has_ema : bool) (r : nat) :
  (forall q, q < r -> isnan (nth q values 0%float) = true) ->
  isnan (nth r values 0%float) = false ->
  r < List.length values ->
  nth r (ema_column alpha values ema has_ema) quiet_NaN
  = if has_ema then (alpha * nth r values 0 + (1 - alpha) * ema)%float
    else nth r values 0%float.
Proof.
  revert ema has_ema r.
  induction values as [|v rest IH]; intros ema has_ema r Hbefore Hr Hlen;
    [simpl in Hlen; lia|].
  cbn [ema_column]. rewrite isnan_eqb. destruct r as [|r].
  - cbn [nth] in *. rewrite Hr. reflexivity.
  - pose proof (Hbefore 0 ltac:(lia)) as H0. cbn [nth] in H0. rewrite H0.
    cbn [nth] in *. apply IH; [|assumption|cbn [List.length] in Hlen; lia].
    intros q Hq. apply (Hbefore (S q)). lia.
Qed.

Lemma ema_column_step (alpha : double) (values : list double) (ema : double)
      (has_ema : bool) (p r : nat) :
  p < r -> r < List.length values ->
  isnan (nth p values 0%float) = false ->
  (forall q, p < q < r -> isnan (nth q values 0%float) = true) ->
  isnan (nth r values 0%float) = false ->
  nth r (ema_column alpha values ema has_ema) quiet_NaN
  = (alpha * nth r values 0
     + (1 - alpha) * nth p (ema_column alpha values ema has_ema) quiet_NaN)%float.
Proof.
  revert ema has_ema p r.
  induction values as [|v rest IH]; intros ema has_ema p r Hpr Hlen Hp Hbetween Hr;
    [simpl in Hlen; lia|].
  destruct r as [|r]; [lia|]. cbn [List.length] in Hlen.
  cbn [ema_column]. rewrite isnan_eqb. destruct p as [|p].
  - cbn [nth] in Hp, Hr. rewrite Hp. cbn [nth].
    rewrite ema_column_next; [reflexivity| |assumption|lia].
    intros q Hq. apply (Hbetween (S q)). lia.
  - cbn [nth] in Hp, Hr.
    assert (Hb : forall q, p < q < r -> isnan (nth q rest 0%float) = true).
    { intros q Hq. apply (Hbetween (S q)). lia. }
    destruct (isnan v); cbn [nth]; apply IH; auto; lia.
Qed.

Section Ema.

Context {RT : Runtime} {IndexT : Type} {IT : IndexType IndexT}.
Implicit Types df : DataFrame IndexT.

Lemma column_values_at df (c r : nat) :
  r < rows df -> nth r (column_values df c) 0%float = value_at df r c.
Proof.
  intros H. unfold column_values.
  change (at_ 0%float (tabulate (rows df) (fun r => value_at df r c)) r = value_at df r c).
  now rewrite tabulate_at.
Qed.

(** [exponential_moving_average] rejects an [alpha] outside the open
    interval (0, 1), a NaN included. Otherwise the result has the columns,
    the index and the row count of the frame; a NaN cell stays NaN and
    does not touch the average of its column; the first cell of a column
    that is not NaN is copied; and every later cell that is not NaN is
    [alpha * value + (1 - alpha) * previous], where [previous] is the
    output at the closest earlier row whose cell is not NaN. *)
Theorem exponential_moving_average_contract df (alpha : double) :
  ((0 <? alpha)%float = false \/ (alpha <? 1)%float = false ->
   exponential_moving_average df alpha
   = Err "dataframe::exponential_moving_average: alpha must be in (0,1)")
  /\ ((0 <? alpha)%float = true -> (alpha <? 1)%float = true ->
      exists out,
        exponential_moving_average df alpha = Ok out
        /\ columns_ out = columns_ df /\ index_ out = index_ df
        /\ index_name_ out = index_name_ df /\ rows out = rows df
        /\ forall r c, r < rows df -> c < cols df ->
             (isnan (value_at df r c) = true -> value_at out r c = quiet_NaN)
             /\ (isnan (value_at df r c) = false ->
                 (forall q, q < r -> isnan (value_at df q c) = true) ->
                 value_at out r c = value_at df r c)
             /\ (forall p, p < r ->
                   isnan (value_at df p c) = false ->
                   (forall q, p < q < r -> isnan (value_at df q c) = true) ->
                   isnan (value_at df r c) = false ->
                   value_at out r c
                   = (alpha * value_at df r c + (1 - alpha) * value_at out p c)%float)).
Proof.
  unfold exponential_moving_average. split.
  - intros [H|H]; rewrite H; [reflexivity|]. now rewrite orb_true_r.
  - intros H0 H1. rewrite H0, H1. cbn [negb orb].
    eexists. split; [reflexivity|]. do 3 (split; [reflexivity|]).
    split; [apply tabulate_length|].
    intros r c Hr Hc.
    assert (Hlen : r < List.length (column_values df c))
      by (unfold column_values; now rewrite tabulate_length).
    assert (Hcell : forall r', r' < rows df ->
              value_at (mkDataFrame (columns_ df) (index_ df)
                 (tabulate (rows df) (fun r =>
                    tabulate (cols df) (fun c =>
                      at_ quiet_NaN
                          (ema_column alpha (column_values df c) quiet_NaN false) r)))
                 (index_name_ df)) r' c
              = nth r' (ema_column alpha (column_values df c) quiet_NaN false) quiet_NaN).
    { intros r' Hr'. unfold value_at at 1, cell. cbn [data_].
      rewrite (tabulate_at []) by assumption.
      now rewrite (tabulate_at 0%float) by assumption. }
    rewrite Hcell by assumption. split; [|split].
    + intros Hnan. apply ema_column_nan; [|assumption].
      now rewrite column_values_at.
    + intros Hnan Hbefore. rewrite ema_column_next; [now apply column_values_at| | |assumption].
      * intros q Hq. rewrite column_values_at by lia. now apply Hbefore.
      * now rewrite column_values_at.
    + intros p Hp Hpn Hbetween Hnan. rewrite Hcell by lia.
      rewrite <- (column_values_at df c r) by assumption.
      apply ema_column_step; try assumption.
      * rewrite column_values_at by lia. assumption.
      * intros q Hq. rewrite column_values_at by lia. now apply Hbetween.
      * now rewrite column_values_at.
Qed.

End Ema.

(** ** resample_rows *)

Section Resample.

Context {RT : Runtime} {IndexT : Type} {IT : IndexType IndexT}.
Implicit Types df : DataFrame IndexT.

(** [resample_rows] fails on a frame without rows. Otherwise, whatever
    the random engine yields, it returns as many rows as asked for (as
    many as the frame has when 0 is asked for), each of them a row of the
    frame; the row carries its own index value, unless the index type is
    integral and [reset_index] is set: then the index is 0, 1, 2, ... and
    is named resample_index. *)
Theorem resample_rows_contract df (entropy : nat -> nat) (sample_size : nat)
        (reset_index : bool) :
  (rows df = 0 ->
   resample_rows df entropy sample_size reset_index
   = Err "dataframe::resample_rows: no rows to sample")
  /\ (0 < rows df ->
      exists out,
        resample_rows df entropy sample_size reset_index = Ok out
        /\ columns_ out = columns_ df
        /\ rows out = (if (sample_size =? 0)%nat then rows df else sample_size)
        /\ List.length (index_ out) = rows out
        /\ (forall k, k < rows out ->
              exists pick, pick < rows df
                /\ at_ [] (data_ out) k = at_ [] (data_ df) pick
                /\ ((reset_index = false \/ integral_max = None \/ of_size_t = None) ->
                    at_ index_init (index_ out) k = at_ index_init (index_ df) pick))
        /\ ((reset_index = false \/ integral_max = None \/ of_size_t = None) ->
            index_name_ out = index_name_ df)
        /\ (forall top cast, integral_max = Some top -> of_size_t = Some cast ->
              reset_index = true ->
              index_name_ out = "resample_index"
              /\ forall k, k < rows out -> at_ index_init (index_ out) k = cast k)).
Proof.
  unfold resample_rows. split.
  - intros ->. reflexivity.
  - intros Hrows. destruct (rows df =? 0)%nat eqn:E; [apply Nat.eqb_eq in E; lia|].
    set (n := if (sample_size =? 0)%nat then rows df else sample_size).
    set (picks := tabulate n (fun i => uniform_int 0 (rows df - 1) (entropy i))).
    assert (Hpicks : List.length picks = n) by apply tabulate_length.
    assert (Hpick : forall k, k < n ->
              at_ 0 picks k = uniform_int 0 (rows df - 1) (entropy k)).
    { intros k Hk. unfold picks. now rewrite tabulate_at. }
    assert (Hrange : forall raw, uniform_int 0 (rows df - 1) raw < rows df).
    { intros raw. unfold uniform_int.
      replace (rows df - 1 - 0 + 1) with (rows df) by lia.
      apply Nat.mod_upper_bound. lia. }
    eexists. split; [reflexivity|]. split; [reflexivity|].
    split; [unfold rows at 1; cbn [data_]; now rewrite length_map|].
    split; [unfold rows at 1; cbn [data_ index_]; now rewrite imap_length, length_map|].
    assert (Hout : forall columns index name,
              rows (mkDataFrame columns (index : list IndexT)
                                (map (at_ [] (data_ df)) picks) name) = n).
    { intros. unfold rows. cbn [data_]. now rewrite length_map. }
    rewrite !Hout. cbn [data_ index_ index_name_].
    split; [|split].
    + intros k Hk. exists (at_ 0 picks k). split; [rewrite Hpick by assumption; apply Hrange|].
      split.
      * unfold at_ at 1. rewrite (nth_indep _ [] (at_ [] (data_ df) 0))
          by (now rewrite length_map, Hpicks).
        now rewrite (map_nth (at_ [] (data_ df)) picks 0 k).
      * intros Hcase. rewrite (imap_at 0) by lia.
        destruct Hcase as [->|[->| ->]]; [|reflexivity|];
          destruct integral_max; try destruct of_size_t; reflexivity.
    + intros [->|[->| ->]]; [|reflexivity|];
        destruct integral_max; try destruct of_size_t; reflexivity.
    + intros top cast -> -> ->. split; [reflexivity|].
      intros k Hk. now rewrite (imap_at 0) by lia.
Qed.

End Resample.

(** ** proportional_changes *)

Lemma div_nan (x y : double) : isnan y = true -> isnan (x / y)%float = true.
Proof.
  intros H. apply isnan_spec in H. apply isnan_spec. rewrite div_spec, H.
  destruct (Prim2SF x) as [?|?| |? ? ?]; reflexivity.
Qed.

Section ProportionalChanges.

Context {RT : Runtime} {IndexT : Type} {IT : IndexType IndexT}.
Implicit Types df : DataFrame IndexT.

(** [proportional_changes] needs two rows. It fails as soon as a cell
    above the last row is zero (of either sign), whatever the last row
    holds. Otherwise it returns one row less, the index without its first
    value, and in every cell (current - previous) / previous; a NaN in the
    previous row is not an error and gives a NaN. *)
Theorem proportional_changes_contract df :
  (rows df < 2 ->
   proportional_changes df = Err "dataframe::proportional_changes: need at least two rows")
  /\ (2 <= rows df ->
      ((exists r c, r + 1 < rows df /\ c < cols df /\ (value_at df r c =? 0)%float = true) ->
       proportional_changes df
       = Err "dataframe::proportional_changes: zero value encountered")
      /\ ((forall r c, r + 1 < rows df -> c < cols df ->
             (value_at df r c =? 0)%float = false) ->
          exists out,
            proportional_changes df = Ok out
            /\ columns_ out = columns_ df /\ index_ out = skipn 1 (index_ df)
            /\ index_name_ out = index_name_ df /\ rows out = rows df - 1
            /\ forall r c, r + 1 < rows df -> c < cols df ->
                 value_at out r c
                 = ((value_at df (r + 1) c - value_at df r c) / value_at df r c)%float
                 /\ (isnan (value_at df r c) = true -> isnan (value_at out r c) = true))).
Proof.
  unfold proportional_changes. split.
  - intros H. apply Nat.ltb_lt in H. now rewrite H.
  - intros H. destruct (rows df <? 2)%nat eqn:E; [apply Nat.ltb_lt in E; lia|]. split.
    + intros (r & c & Hr & Hc & Hzero).
      match goal with |- (bind ?m _) = _ =>
        assert (Hbad : is_ok m = false); [|destruct m as [data|msg] eqn:Em; [discriminate|]]
      end.
      { apply (tabulateM_err _ _ r); [lia|]. apply (tabulateM_err _ _ c); [assumption|].
        cbv zeta. now rewrite Hzero. }
      cbn [bind]. f_equal.
      apply (tabulateM_err_same _ _ _ _ Em). intros i m' Hi Hrow.
      apply (tabulateM_err_same _ _ _ _ Hrow). intros j m'' Hj Hcell. cbv zeta in Hcell.
      destruct (value_at df i j =? 0)%float; congruence.
    + intros Hall.
      rewrite (tabulateM_ok_tabulate _ _
                 (fun r => tabulate (cols df) (fun c =>
                    ((value_at df (r + 1) c - value_at df r c) / value_at df r c)%float))).
      2:{ intros r Hr. apply tabulateM_ok_tabulate. intros c Hc. cbv zeta.
          rewrite Hall by (assumption || lia). reflexivity. }
      cbn [bind]. eexists. split; [reflexivity|]. do 3 (split; [reflexivity|]).
      split; [apply tabulate_length|]. intros r c Hr Hc.
      assert (Hcell : forall name index cols',
                value_at (mkDataFrame cols' (index : list IndexT)
                  (tabulate (rows df - 1) (fun r => tabulate (cols df) (fun c =>
                     ((value_at df (r + 1) c - value_at df r c) / value_at df r c)%float)))
                  name) r c
                = ((value_at df (r + 1) c - value_at df r c) / value_at df r c)%float).
      { intros. unfold value_at at 1, cell. cbn [data_].
        rewrite (tabulate_at []) by lia. now rewrite (tabulate_at 0%float) by assumption. }
      rewrite Hcell. split; [reflexivity|]. apply div_nan.
Qed.

End ProportionalChanges.

(** ** standardize and normalize *)

Lemma isfinite_number (v : double) :
  isfinite v = true -> SFnumber (Prim2SF v) = true.
Proof.
  unfold isfinite, is_finite. intros H.
  apply negb_true_iff, orb_false_iff in H. destruct H as [Hn Hi].
  apply number_spec; [exact Hn|exact Hi].
Qed.

Lemma isfinite_infinity (v : double) (s : bool) :
  Prim2SF v = S754_infinity s -> isfinite v = false.
Proof.
  intros H. unfold isfinite, is_finite.
  assert (Hi : isinf v = true) by (apply isinf_spec; eauto).
  unfold isinf in Hi. rewrite Hi. now rewrite orb_true_r.
Qed.

Lemma std_max_number (a b : double) :
  isnan a = false -> isnan b = false -> isnan (std_max a b) = false.
Proof. unfold std_max. now destruct (a <? b)%float. Qed.

Lemma std_min_number (a b : double) :
  isnan a = false -> isnan b = false -> isnan (std_min a b) = false.
Proof. unfold std_min. now destruct (b <? a)%float. Qed.

Lemma std_max_infinity (a b : double) :
  isnan a = false ->
  Prim2SF a = S754_infinity false \/ Prim2SF b = S754_infinity false ->
  Prim2SF (std_max a b) = S754_infinity false.
Proof.
  intros Ha H. apply isnan_false_spec in Ha. unfold std_max. rewrite ltb_spec.
  destruct H as [H|H]; rewrite H in *.
  - destruct (Prim2SF b) as [s|[|]| |[|] m e]; cbn; assumption.
  - destruct (Prim2SF a) as [s|[|]| |[|] m e] eqn:E; cbn; congruence.
Qed.

Lemma std_min_infinity (a b : double) :
  isnan a = false ->
  Prim2SF a = S754_infinity true \/ Prim2SF b = S754_infinity true ->
  Prim2SF (std_min a b) = S754_infinity true.
Proof.
  intros Ha H. apply isnan_false_spec in Ha. unfold std_min. rewrite ltb_spec.
  destruct H as [H|H]; rewrite H in *.
  - destruct (Prim2SF b) as [s|[|]| |[|] m e]; cbn; assumption.
  - destruct (Prim2SF a) as [s|[|]| |[|] m e] eqn:E; cbn; congruence.
Qed.

(** An infinity among the values, or in the accumulator, stays. *)
Lemma fold_max_infinity (values : list double) (acc : double) :
  Forall (fun v => isnan v = false) values -> isnan acc = false ->
  (exists x, In x values /\ Prim2SF x = S754_infinity false)
  \/ Prim2SF acc = S754_infinity false ->
  Prim2SF (fold_left std_max values acc) = S754_infinity false.
Proof.
  intros Hall. revert acc. induction Hall as [|v rest Hv _ IH]; intros acc Hacc H.
  - destruct H as [[x [[] _]]|H]. exact H.
  - cbn [fold_left]. apply IH; [now apply std_max_number|].
    destruct H as [[x [[<-|Hin] Hx]]|H].
    + right. apply std_max_infinity; auto.
    + left. eauto.
    + right. apply std_max_infinity; auto.
Qed.

Lemma fold_min_infinity (values : list double) (acc : double) :
  Forall (fun v => isnan v = false) values -> isnan acc = false ->
  (exists x, In x values /\ Prim2SF x = S754_infinity true)
  \/ Prim2SF acc = S754_infinity true ->
  Prim2SF (fold_left std_min values acc) = S754_infinity true.
Proof.
  intros Hall. revert acc. induction Hall as [|v rest Hv _ IH]; intros acc Hacc H.
  - destruct H as [[x [[] _]]|H]. exact H.
  - cbn [fold_left]. apply IH; [now apply std_min_number|].
    destruct H as [[x [[<-|Hin] Hx]]|H].
    + right. apply std_min_infinity; auto.
    + left. eauto.
    + right. apply std_min_infinity; auto.
Qed.

Lemma fold_constant (f : double -> double -> double) (values : list double) (v : double) :
  f v v = v -> Forall (eq v) values -> fold_left f values v = v.
Proof.
  intros Hf. induction 1 as [|x rest <- _ IH]; [reflexivity|].
  cbn [fold_left]. now rewrite Hf.
Qed.

Lemma finite_below_infinity (v : double) :
  isfinite v = true -> (v <? infinity)%float = true /\ (neg_infinity <? v)%float = true.
Proof.
  intros H. apply isfinite_number in H. rewrite !ltb_spec.
  change (Prim2SF infinity) with (S754_infinity false).
  change (Prim2SF neg_infinity) with (S754_infinity true).
  destruct (Prim2SF v) as [s|s| |[|] m e]; try discriminate; split; reflexivity.
Qed.

Lemma sub_self_not_positive (v : double) :
  isfinite v = true -> (0 <? v - v)%float = false.
Proof.
  intros H. apply isfinite_number in H. rewrite ltb_spec, sub_spec.
  change (Prim2SF 0) with (S754_zero false).
  destruct (Prim2SF v) as [s|s| |s m e]; try discriminate.
  - destruct s; reflexivity.
  - unfold SF64sub. cbn [SFsub].
    match goal with |- context [binary_normalize _ _ ?d _ _] =>
      replace d with 0%Z by (symmetry; apply Z.sub_diag) end.
    reflexivity.
Qed.

Section Scaling.

Context {RT : Runtime} {IndexT : Type} {IT : IndexType IndexT}.
Implicit Types df : DataFrame IndexT.

Lemma column_values_In df (c : nat) (v : double) :
  In v (column_values df c) <-> exists r, r < rows df /\ value_at df r c = v.
Proof.
  unfold column_values, tabulate. rewrite in_map_iff. split.
  - intros [r [E Hin]]. apply in_seq in Hin. exists r. split; [lia|assumption].
  - intros [r [Hr E]]. exists r. split; [assumption|]. apply in_seq. lia.
Qed.

Lemma standardize_cell df (r c : nat) :
  r < rows df -> c < cols df ->
  value_at (standardize df) r c
  = let values := non_missing (column_values df c) in
    let count := List.length values in
    let mean := if (0 <? count)%nat
                then (fold_left (fun s v => (s + v)%float) values 0 / double_of_size_t count)%float
                else quiet_NaN in
    let sd := if (1 <? count)%nat then
                let accum := fold_left (fun a v => let diff := (v - mean)%float in
                                                   (a + diff * diff)%float) values 0%float in
                let var := (accum / double_of_size_t (count - 1))%float in
                if (0 <? var)%float then PrimFloat.sqrt var else quiet_NaN
              else quiet_NaN in
    let value := value_at df r c in
    if negb (value =? value)%float || negb (mean =? mean)%float
       || negb (sd =? sd)%float || (sd =? 0)%float
    then quiet_NaN
    else ((value - mean) / sd)%float.
Proof.
  intros Hr Hc. unfold standardize.
  destruct (rows df =? 0)%nat eqn:E0; [apply Nat.eqb_eq in E0; lia|].
  destruct (cols df =? 0)%nat eqn:E1; [apply Nat.eqb_eq in E1; lia|].
  cbn [orb]. unfold value_at at 1, cell. cbn [data_].
  rewrite (tabulate_at []) by assumption. rewrite (tabulate_at 0%float) by assumption.
  cbv zeta. rewrite !(tabulate_at 0%float) by assumption.
  rewrite !(tabulate_at 0) by assumption.
  reflexivity.
Qed.

Lemma normalize_cell df (r c : nat) :
  r < rows df -> c < cols df ->
  value_at (normalize df) r c
  = let v := value_at df r c in
    let mn := fold_left std_min (non_missing (column_values df c)) infinity in
    let mx := fold_left std_max (non_missing (column_values df c)) neg_infinity in
    if negb (v =? v)%float then quiet_NaN
    else if negb (isfinite mn) || negb (isfinite mx) then quiet_NaN
    else let spread := (mx - mn)%float in
         if (0 <? spread)%float then ((v - mn) / spread)%float else 0%float.
Proof.
  intros Hr Hc. unfold normalize.
  destruct (rows df =? 0)%nat eqn:E0; [apply Nat.eqb_eq in E0; lia|].
  destruct (cols df =? 0)%nat eqn:E1; [apply Nat.eqb_eq in E1; lia|].
  cbn [orb]. unfold value_at at 1, cell. cbn [data_].
  rewrite (tabulate_at []) by assumption. rewrite (tabulate_at 0%float) by assumption.
  cbv zeta. rewrite !(tabulate_at 0%float) by assumption. reflexivity.
Qed.

(** [standardize] and [normalize] keep the columns, the index and the row
    count. A NaN cell stays NaN under both. A column with fewer than two
    values that are not NaN standardizes to NaN in every row. A column
    that holds an infinity normalizes to NaN in every row, and a column
    whose values, apart from NaNs, are all the same finite number
    normalizes to 0 wherever it is not NaN. *)
Theorem standardize_normalize_contract df :
  columns_ (standardize df) = columns_ df /\ columns_ (normalize df) = columns_ df
  /\ index_ (standardize df) = index_ df /\ index_ (normalize df) = index_ df
  /\ rows (standardize df) = rows df /\ rows (normalize df) = rows df
  /\ forall r c, r < rows df -> c < cols df ->
       (isnan (value_at df r c) = true ->
        value_at (standardize df) r c = quiet_NaN
        /\ value_at (normalize df) r c = quiet_NaN)
       /\ (List.length (non_missing (column_values df c)) < 2 ->
           value_at (standardize df) r c = quiet_NaN)
       /\ ((exists r', r' < rows df /\ isinf (value_at df r' c) = true) ->
           value_at (normalize df) r c = quiet_NaN)
       /\ (isfinite (value_at df r c) = true ->
           (forall r', r' < rows df ->
              isnan (value_at df r' c) = true \/ value_at df r' c = value_at df r c) ->
           value_at (normalize df) r c = 0%float).
Proof.
  assert (Hshape : columns_ (standardize df) = columns_ df
                   /\ index_ (standardize df) = index_ df
                   /\ rows (standardize df) = rows df).
  { unfold standardize. destruct (_ || _); cbn [columns_ index_];
      (split; [reflexivity|split; [reflexivity|apply tabulate_length]]). }
  assert (Hshape' : columns_ (normalize df) = columns_ df
                    /\ index_ (normalize df) = index_ df
                    /\ rows (normalize df) = rows df).
  { unfold normalize. destruct (_ || _); cbn [columns_ index_];
      (split; [reflexivity|split; [reflexivity|apply tabulate_length]]). }
  destruct Hshape as (H1 & H2 & H3). destruct Hshape' as (H4 & H5 & H6).
  do 6 (split; [assumption|]). clear H1 H2 H3 H4 H5 H6.
  intros r c Hr Hc. rewrite standardize_cell, normalize_cell by assumption. cbv zeta.
  split; [|split; [|split]].
  - intros Hnan. rewrite !isnan_eqb, Hnan. cbn [orb]. split; reflexivity.
  - intros Hfew. apply Nat.ltb_ge in Hfew.
    replace (1 <? List.length (non_missing (column_values df c)))%nat with false
      by (symmetry; apply Nat.ltb_ge; apply Nat.ltb_ge in Hfew; lia).
    change (negb (quiet_NaN =? quiet_NaN)%float) with true.
    now rewrite !orb_true_r.
  - intros (r' & Hr' & Hinf).
    destruct (negb (value_at df r c =? value_at df r c)%float); [reflexivity|].
    assert (Hin : In (value_at df r' c) (non_missing (column_values df c))).
    { apply non_missing_In. split; [apply column_values_In; eauto|].
      apply isinf_spec in Hinf. destruct Hinf as [s Hs]. apply isnan_false_spec.
      rewrite Hs. discriminate. }
    apply isinf_spec in Hinf. destruct Hinf as [[|] Hs].
    + rewrite (isfinite_infinity _ true); [reflexivity|].
      apply fold_min_infinity; [apply non_missing_number|reflexivity|]. left. eauto.
    + rewrite (isfinite_infinity (fold_left std_max _ _) false);
        [now rewrite orb_true_r|].
      apply fold_max_infinity; [apply non_missing_number|reflexivity|]. left. eauto.
  - intros Hfin Hconst. set (v := value_at df r c) in *.
    assert (Hv : isnan v = false).
    { apply isfinite_number in Hfin. apply isnan_false_spec.
      destruct (Prim2SF v); discriminate || congruence. }
    rewrite isnan_eqb, Hv.
    assert (Hall : Forall (eq v) (non_missing (column_values df c))).
    { apply Forall_forall. intros x Hx. apply non_missing_In in Hx.
      destruct Hx as [Hx Hnan]. apply column_values_In in Hx.
      destruct Hx as (r' & Hr' & <-). destruct (Hconst r' Hr') as [E|E]; congruence. }
    assert (Hin : In v (non_missing (column_values df c))).
    { apply non_missing_In. split; [apply column_values_In; eauto|assumption]. }
    destruct (non_missing (column_values df c)) as [|x rest]; [destruct Hin|].
    inversion Hall as [|? ? <- Hrest]; subst. cbn [fold_left].
    destruct (finite_below_infinity v Hfin) as [Hlt Hgt].
    assert (Emin : std_min infinity v = v) by (unfold std_min; now rewrite Hlt).
    assert (Emax : std_max neg_infinity v = v) by (unfold std_max; now rewrite Hgt).
    rewrite Emin, Emax.
    rewrite !fold_constant;
      try assumption; try (unfold std_min, std_max; now rewrite ltb_irrefl).
    rewrite Hfin. cbn [negb orb]. now rewrite sub_self_not_positive.
Qed.

End Scaling.

(** ** stats::summary_stats *)

Lemma fold_min_max (rest : list double) (mn mx : double) :
  Forall (fun v => isnan v = false) rest -> isnan mn = false -> isnan mx = false ->
  let out := fold_left (fun acc v =>
                          let mn := if (v <? fst acc)%float then v else fst acc in
                          let mx := if (snd acc <? v)%float then v else snd acc in
                          (mn, mx))
                       rest (mn, mx) in
  In (fst out) (mn :: rest) /\ In (snd out) (mx :: rest)
  /\ (mn <? fst out)%float = false /\ (snd out <? mx)%float = false
  /\ forall v, In v rest -> (v <? fst out)%float = false /\ (snd out <? v)%float = false.
Proof.
  intros Hall. revert mn mx.
  induction Hall as [|v rest Hv Hrest IH]; intros mn mx Hmn Hmx; cbn [fold_left fst snd].
  - repeat split; try (now left); try apply ltb_irrefl; destruct H.
  - set (mn1 := if (v <? mn)%float then v else mn).
    set (mx1 := if (mx <? v)%float then v else mx).
    assert (Hmn1 : isnan mn1 = false) by (unfold mn1; now destruct (v <? mn)%float).
    assert (Hmx1 : isnan mx1 = false) by (unfold mx1; now destruct (mx <? v)%float).
    assert (Hlow : (mn <? mn1)%float = false /\ (v <? mn1)%float = false).
    { unfold mn1. destruct (v <? mn)%float eqn:E.
      - split; [now apply ltb_asym|apply ltb_irrefl].
      - split; [apply ltb_irrefl|assumption]. }
    assert (Hhigh : (mx1 <? mx)%float = false /\ (mx1 <? v)%float = false).
    { unfold mx1. destruct (mx <? v)%float eqn:E.
      - split; [now apply ltb_asym|apply ltb_irrefl].
      - split; [apply ltb_irrefl|assumption]. }
    destruct (IH mn1 mx1 Hmn1 Hmx1) as (I1 & I2 & I3 & I4 & I5). cbv zeta in *.
    set (out := fold_left _ rest (mn1, mx1)) in *.
    assert (Hout_mn : isnan (fst out) = false).
    { destruct I1 as [<-|Hin]; [assumption|].
      now apply (proj1 (Forall_forall _ _) Hrest). }
    assert (Hout_mx : isnan (snd out) = false).
    { destruct I2 as [<-|Hin]; [assumption|].
      now apply (proj1 (Forall_forall _ _) Hrest). }
    refine (conj _ (conj _ (conj _ (conj _ _)))).
    + destruct I1 as [<-|Hin]; [|right; now right].
      unfold mn1. destruct (v <? mn)%float; [right; now left|now left].
    + destruct I2 as [<-|Hin]; [|right; now right].
      unfold mx1. destruct (mx <? v)%float; [right; now left|now left].
    + apply (ltb_not_after_trans _ mn1); [assumption|assumption|apply Hlow].
    + apply (ltb_not_after_trans _ mx1); [assumption|apply Hhigh|assumption].
    + intros w [<-|Hin]; [|now apply I5]. split.
      * apply (ltb_not_after_trans _ mn1); [assumption|assumption|apply Hlow].
      * apply (ltb_not_after_trans _ mx1); [assumption|apply Hhigh|assumption].
Qed.

Section SummaryStats.

Context {RT : Runtime}.

(** [summary_stats] counts the values that are not NaN. Without any, all
    six statistics are NaN. The standard deviation needs two such values,
    the skewness three and the excess kurtosis four, and are NaN with
    fewer; the standard deviation is never below zero. With at least
    one value that is not NaN, the minimum and the maximum are values of
    the input, and no value of the input that is not NaN is below the
    minimum or above the maximum. *)
Theorem summary_stats_contract (x : list double) :
  let s := stats.summary_stats x in
  stats.s_n s = Z.of_nat (List.length (filter (fun v => negb (isnan v)) x))
  /\ (stats.s_n s = 0%Z ->
      stats.s_mean s = quiet_NaN /\ stats.s_sd s = quiet_NaN
      /\ stats.s_skew s = quiet_NaN /\ stats.s_ex_kurtosis s = quiet_NaN
      /\ stats.s_min s = quiet_NaN /\ stats.s_max s = quiet_NaN)
  /\ ((stats.s_n s <= 1)%Z -> stats.s_sd s = quiet_NaN)
  /\ ((stats.s_n s <= 2)%Z -> stats.s_skew s = quiet_NaN)
  /\ ((stats.s_n s <= 3)%Z -> stats.s_ex_kurtosis s = quiet_NaN)
  /\ (stats.s_sd s <? 0)%float = false
  /\ ((0 < stats.s_n s)%Z ->
      In (stats.s_min s) x /\ In (stats.s_max s) x
      /\ isnan (stats.s_min s) = false /\ isnan (stats.s_max s) = false
      /\ forall v, In v x -> isnan v = false ->
           (v <? stats.s_min s)%float = false /\ (stats.s_max s <? v)%float = false).
Proof.
  assert (Hfilter : filter (fun v => negb (isnan v)) x = filter (fun v => (v =? v)%float) x).
  { apply filter_ext. intros v. unfold isnan. apply negb_involutive. }
  rewrite Hfilter. unfold stats.summary_stats.
  pose proof (non_missing_number x) as Hall. unfold non_missing in Hall.
  assert (Hin : forall v, In v (filter (fun v => (v =? v)%float) x)
                          <-> In v x /\ isnan v = false) by apply non_missing_In.
  destruct (filter (fun v => (v =? v)%float) x) as [|v0 rest] eqn:Ef.
  - cbn. repeat split; try reflexivity; lia.
  - inversion Hall as [|? ? Hv0 Hrest]; subst.
    pose proof (fold_min_max rest v0 v0 Hrest Hv0 Hv0) as H. cbv zeta in H.
    destruct (fold_left _ rest (v0, v0)) as [mn mx]. cbn [fst snd] in H.
    destruct H as (I1 & I2 & I3 & I4 & I5).
    cbn [stats.s_n stats.s_mean stats.s_sd stats.s_skew stats.s_ex_kurtosis
         stats.s_min stats.s_max].
    unfold stats.size. split; [reflexivity|].
    split; [cbn [List.length]; lia|].
    split; [intros H; unfold stats.stdev, stats.size;
            apply Z.leb_le in H; now rewrite H|].
    split; [intros H; unfold stats.skew, stats.size;
            apply Z.leb_le in H; now rewrite H|].
    split; [intros H; unfold stats.excess_kurtosis, stats.size;
            apply Z.leb_le in H; now rewrite H|].
    split.
    { unfold stats.stdev. destruct (_ <=? 1)%Z; [reflexivity|]. cbv zeta.
      match goal with |- ((if ?b then _ else _) <? 0)%float = false => destruct b end;
        [reflexivity|apply sqrt_not_negative]. }
    intros _.
    assert (Hmn : In mn (v0 :: rest)) by exact I1.
    assert (Hmx : In mx (v0 :: rest)) by exact I2.
    apply Hin in Hmn. apply Hin in Hmx.
    destruct Hmn as [Hmn1 Hmn2]. destruct Hmx as [Hmx1 Hmx2].
    do 4 (split; [assumption|]).
    intros v Hv Hnan. assert (Hv' : In v (v0 :: rest)) by (apply Hin; auto).
    destruct Hv' as [<-|Hv']; [split; assumption|now apply I5].
Qed.

End SummaryStats.

(** ** Raw buffers *)

Section Stores.

Context {A : Type} (addr : A -> nat) (val : A -> double).

Lemma store_fold_other (l : list A) (out : buffer) (j : nat) :
  (forall x, In x l -> addr x <> j) ->
  fold_left (fun out x => store out (addr x) (val x)) l out j = out j.
Proof.
  revert out. induction l as [|x l IH]; intros out H; [reflexivity|].
  cbn [fold_left]. rewrite IH by (intros y Hy; apply H; now right).
  unfold store. pose proof (H x (or_introl eq_refl)) as Hx.
  destruct (Nat.eqb_spec j (addr x)); congruence.
Qed.

Lemma store_fold_written (l : list A) (out : buffer) (x : A) :
  In x l ->
  (forall y, In y l -> addr y = addr x -> val y = val x) ->
  fold_left (fun out x => store out (addr x) (val x)) l out (addr x) = val x.
Proof.
  induction l as [|y l IH] using rev_ind; intros Hin Hsame; [destruct Hin|].
  rewrite fold_left_app. cbn [fold_left]. unfold store at 1.
  destruct (Nat.eqb_spec (addr x) (addr y)) as [E|E].
  - apply Hsame; [apply in_or_app; right; now left|congruence].
  - apply IH.
    + apply in_app_or in Hin. destruct Hin as [Hin|[->|[]]]; [assumption|congruence].
    + intros z Hz. apply Hsame. apply in_or_app. now left.
Qed.

End Stores.

(** The two nested loops write the cells one after the other. *)
Lemma nested_stores (addr : nat -> nat -> nat) (val : nat -> nat -> double)
      (outer inner : list nat) (out : buffer) :
  fold_left (fun out a =>
               fold_left (fun out b => store out (addr a b) (val a b)) inner out)
            outer out
  = fold_left (fun out p => store out (addr (fst p) (snd p)) (val (fst p) (snd p)))
              (list_prod outer inner) out.
Proof.
  revert out. induction outer as [|a outer IH]; intros out; [reflexivity|].
  cbn [fold_left list_prod]. rewrite fold_left_app, fold_left_map. cbn [fst snd].
  apply IH.
Qed.

Lemma strided_injective (s r c r' c' : nat) :
  c < s -> c' < s -> r * s + c = r' * s + c' -> r = r' /\ c = c'.
Proof.
  intros Hc Hc' H.
  destruct (Nat.lt_total r r') as [Hlt|[->|Hlt]]; [exfalso| lia |exfalso].
  - assert ((r + 1) * s <= r' * s) by (apply Nat.mul_le_mono_r; lia). lia.
  - assert ((r' + 1) * s <= r * s) by (apply Nat.mul_le_mono_r; lia). lia.
Qed.

Section RawBuffers.

Context {IndexT : Type}.
Implicit Types df : DataFrame IndexT.

(** [to_row_major] and [to_column_major] reject a null buffer, and a
    stride that is not 0 and is shorter than a row (a column). They leave
    the buffer alone when the frame has no rows or no columns. Otherwise,
    with [stride] standing for the row (column) length when 0 is passed,
    the cell of row [r] and column [c] is afterwards at [r * stride + c]
    ([c * stride + r]), and no other position of the buffer has changed. *)
Theorem raw_buffers_contract df (out : buffer) (stride : nat) :
  (to_row_major df None stride = Err "dataframe::to_row_major: output buffer is null"
   /\ to_column_major df None stride
      = Err "dataframe::to_column_major: output buffer is null")
  /\ (rows df = 0 \/ cols df = 0 ->
      to_row_major df (Some out) stride = Ok out
      /\ to_column_major df (Some out) stride = Ok out)
  /\ (0 < rows df -> 0 < stride < cols df ->
      to_row_major df (Some out) stride
      = Err "dataframe::to_row_major: row_stride is too small")
  /\ (0 < cols df -> 0 < stride < rows df ->
      to_column_major df (Some out) stride
      = Err "dataframe::to_column_major: column_stride is too small")
  /\ (stride = 0 \/ cols df <= stride ->
      exists buf,
        to_row_major df (Some out) stride = Ok buf
        /\ let s := if (stride =? 0)%nat then cols df else stride in
           (forall r c, r < rows df -> c < cols df -> buf (r * s + c) = value_at df r c)
           /\ forall j, (forall r c, r < rows df -> c < cols df -> j <> r * s + c) ->
                        buf j = out j)
  /\ (stride = 0 \/ rows df <= stride ->
      exists buf,
        to_column_major df (Some out) stride = Ok buf
        /\ let s := if (stride =? 0)%nat then rows df else stride in
           (forall r c, r < rows df -> c < cols df -> buf (c * s + r) = value_at df r c)
           /\ forall j, (forall r c, r < rows df -> c < cols df -> j <> c * s + r) ->
                        buf j = out j).
Proof.
  unfold to_row_major, to_column_major.
  refine (conj (conj eq_refl eq_refl) (conj _ (conj _ (conj _ (conj _ _))))).
  - intros [-> | ->]; rewrite ?orb_true_r; split; reflexivity.
  - intros Hr Hs.
    destruct (rows df =? 0)%nat eqn:E0; [apply Nat.eqb_eq in E0; lia|].
    destruct (cols df =? 0)%nat eqn:E1; [apply Nat.eqb_eq in E1; lia|].
    destruct (stride =? 0)%nat eqn:E2; [apply Nat.eqb_eq in E2; lia|].
    cbn [orb]. destruct (Nat.ltb_spec stride (cols df)); [reflexivity|lia].
  - intros Hc Hs.
    destruct (rows df =? 0)%nat eqn:E0; [apply Nat.eqb_eq in E0; lia|].
    destruct (cols df =? 0)%nat eqn:E1; [apply Nat.eqb_eq in E1; lia|].
    destruct (stride =? 0)%nat eqn:E2; [apply Nat.eqb_eq in E2; lia|].
    cbn [orb]. destruct (Nat.ltb_spec stride (rows df)); [reflexivity|lia].
  - intros Hs. set (s := if (stride =? 0)%nat then cols df else stride).
    assert (Hle : cols df <= s).
    { unfold s. destruct (Nat.eqb_spec stride 0); lia. }
    destruct ((rows df =? 0)%nat || (cols df =? 0)%nat) eqn:E.
    { exists out. split; [reflexivity|]. split; [|reflexivity].
      intros r c Hr Hc. apply orb_true_iff in E.
      destruct E as [E|E]; apply Nat.eqb_eq in E; lia. }
    destruct (Nat.ltb_spec s (cols df)); [lia|].
    eexists. split; [reflexivity|]. rewrite nested_stores. split.
    + intros r c Hr Hc.
      apply (store_fold_written (fun p => fst p * s + snd p)
               (fun p => value_at df (fst p) (snd p)) _ out (r, c)).
      * apply in_prod; apply in_seq; lia.
      * intros [r' c'] Hin. apply in_prod_iff in Hin. rewrite !in_seq in Hin.
        cbn [fst snd]. intros Heq.
        destruct (strided_injective s r' c' r c) as [-> ->]; [lia|lia|assumption|].
        reflexivity.
    + intros j Hj.
      apply (store_fold_other (fun p => fst p * s + snd p)
               (fun p => value_at df (fst p) (snd p))).
      intros [r c] Hin. apply in_prod_iff in Hin. rewrite !in_seq in Hin.
      cbn [fst snd]. intros Heq. apply (Hj r c); lia.
  - intros Hs. set (s := if (stride =? 0)%nat then rows df else stride).
    assert (Hle : rows df <= s).
    { unfold s. destruct (Nat.eqb_spec stride 0); lia. }
    destruct ((rows df =? 0)%nat || (cols df =? 0)%nat) eqn:E.
    { exists out. split; [reflexivity|]. split; [|reflexivity].
      intros r c Hr Hc. apply orb_true_iff in E.
      destruct E as [E|E]; apply Nat.eqb_eq in E; lia. }
    destruct (Nat.ltb_spec s (rows df)); [lia|].
    eexists. split; [reflexivity|]. rewrite nested_stores. split.
    + intros r c Hr Hc.
      apply (store_fold_written (fun p => fst p * s + snd p)
               (fun p => value_at df (snd p) (fst p)) _ out (c, r)).
      * apply in_prod; apply in_seq; lia.
      * intros [c' r'] Hin. apply in_prod_iff in Hin. rewrite !in_seq in Hin.
        cbn [fst snd]. intros Heq.
        destruct (strided_injective s c' r' c r) as [-> ->]; [lia|lia|assumption|].
        reflexivity.
    + intros j Hj.
      apply (store_fold_other (fun p => fst p * s + snd p)
               (fun p => value_at df (snd p) (fst p))).
      intros [c r] Hin. apply in_prod_iff in Hin. rewrite !in_seq in Hin.
      cbn [fst snd]. intros Heq. apply (Hj r c); lia.
Qed.

End RawBuffers.

(** ** column_percentiles on the cells of a column *)

(** The insertion sort of the sample runtime keeps what the standard
    promises. *)
Lemma sample_sort_contract : std_sort_contract sample_runtime.
Proof.
  intros values Hnum. split; [apply stable_sort_perm|].
  apply (stable_sort_not_after _ _ (fun v => isnan v = false)); [apply ltb_asym| |assumption].
  intros x y z Hy. now apply ltb_not_after_trans.
Qed.

Lemma at_map {A B : Type} (da : A) (db : B) (f : A -> B) (l : list A) (k : nat) :
  k < List.length l -> at_ db (map f l) k = f (at_ da l k).
Proof.
  intros Hk. unfold at_. rewrite (nth_indep _ db (f da)) by now rewrite length_map.
  apply map_nth.
Qed.

Section PercentileCells.

Context {RT : Runtime} {IndexT : Type}.
Implicit Types df : DataFrame IndexT.

(** The values of a column that are not NaN are its cells in the rows
    where the cell is not NaN, top to bottom. *)
Lemma non_missing_cells df c :
  non_missing (column_values df c)
  = map (fun r => value_at df r c)
        (filter (fun r => negb (isnan (value_at df r c))) (seq 0 (rows df))).
Proof.
  unfold non_missing, column_values, tabulate.
  rewrite <- (map_filter_comm (fun r => value_at df r c) (fun v => (v =? v)%float)).
  f_equal. apply filter_ext. intros r. unfold isnan. now rewrite negb_involutive.
Qed.

(** In a result of [column_percentiles], under the contract of
    [std::sort]: the cell of a column in which every cell is NaN is NaN.
    For any other column there is an arrangement [order] of the rows
    whose cell is not NaN, each once, along which the cells never
    descend; a percentile that is 0 (of either sign) gives the first cell
    of that arrangement, which no cell of the column is below, 100 the
    last, which no cell is above, and a percentile strictly between gives
    [lower + fraction * (upper - lower)], with [lower] and [upper] the
    cells at the floor and the ceiling of the rank [p / 100 * (count - 1)]
    and [fraction] the rank less its floor. A percentile below 0 or above
    100 makes the call fail. *)
Lemma column_percentiles_contract df percentiles :
  std_sort_contract RT ->
  (forall p, In p percentiles ->
             (p <? 0)%float = true \/ (100 <? p)%float = true ->
             is_ok (column_percentiles df percentiles) = false)
  /\ (forall out p_idx c,
      column_percentiles df percentiles = Ok out ->
      p_idx < List.length percentiles -> c < cols df ->
      let p := at_ 0%float percentiles p_idx in
      ((forall r, r < rows df -> isnan (value_at df r c) = true) ->
       isnan (value_at out p_idx c) = true)
      /\ ((exists r, r < rows df /\ isnan (value_at df r c) = false) ->
          exists order,
            NoDup order
            /\ (forall r, In r order <-> r < rows df /\ isnan (value_at df r c) = false)
            /\ (forall a b, a < b -> b < List.length order ->
                  (value_at df (at_ 0%nat order b) c <? value_at df (at_ 0%nat order a) c)%float
                  = false)
            /\ let count := List.length order in
               let sorted := map (fun r => value_at df r c) order in
               ((p <=? 0)%float = true ->
                value_at out p_idx c = value_at df (at_ 0%nat order 0) c
                /\ forall r, r < rows df -> isnan (value_at df r c) = false ->
                     (value_at df r c <? value_at out p_idx c)%float = false)
               /\ ((0 <? p)%float = true -> (100 <=? p)%float = true ->
                   value_at out p_idx c = value_at df (at_ 0%nat order (count - 1)) c
                   /\ forall r, r < rows df -> isnan (value_at df r c) = false ->
                        (value_at out p_idx c <? value_at df r c)%float = false)
               /\ ((0 <? p)%float = true -> (p <? 100)%float = true ->
                   let rank := (p / 100 * double_of_size_t (count - 1))%float in
                   let lower := size_t_of_double (std_floor rank) in
                   let upper := size_t_of_double (std_ceil rank) in
                   let fraction := (rank - double_of_size_t lower)%float in
                   value_at out p_idx c
                   = (at_ 0%float sorted lower
                      + fraction * (at_ 0%float sorted upper - at_ 0%float sorted lower))%float))).
Proof.
  intros Hsort. split.
  - intros p Hin Hp. rewrite (column_percentiles_range df percentiles p Hin Hp).
    now destruct (is_nil (columns_ df)).
  - intros out p_idx c Hout Hp Hc p.
    pose proof (column_percentiles_cell df percentiles out p_idx c Hout Hp Hc) as Hcell.
    cbv zeta in Hcell. fold p in Hcell. rewrite non_missing_cells in Hcell.
    remember (filter (fun r => negb (isnan (value_at df r c))) (seq 0 (rows df)))
      as present eqn:Epresent.
    set (cell := fun r => value_at df r c) in *.
    assert (Hpresent : forall r, In r present <-> r < rows df /\ isnan (cell r) = false).
    { intros r. rewrite Epresent, filter_In, in_seq, negb_true_iff. intuition lia. }
    split.
    + intros Hall. assert (E : present = []).
      { destruct present as [|r l]; [reflexivity|].
        destruct (proj1 (Hpresent r) (or_introl eq_refl)) as [Hr Hn].
        unfold cell in Hn. rewrite (Hall r Hr) in Hn. discriminate. }
      rewrite E in Hcell. rewrite Hcell. reflexivity.
    + intros (r0 & Hr0 & Hn0).
      assert (Hin0 : In r0 present) by (apply Hpresent; auto).
      assert (Hnum : Forall (fun v => isnan v = false) (map cell present)).
      { apply Forall_forall. intros v Hv. apply in_map_iff in Hv.
        destruct Hv as (r & <- & Hr). now apply Hpresent. }
      destruct (Hsort _ Hnum) as [Hperm Hsorted].
      destruct (Permutation_map_inv _ _ Hperm) as (order & Eorder & Hperm').
      assert (Horder : forall r, In r order <-> r < rows df /\ isnan (cell r) = false).
      { intros r. rewrite <- Hpresent. split; intros H.
        - apply (Permutation_in _ (Permutation_sym Hperm') H).
        - apply (Permutation_in _ Hperm' H). }
      assert (Hlen : 0 < List.length order).
      { assert (H : In r0 order) by (apply Horder; auto).
        destruct order; [destruct H|simpl; lia]. }
      assert (Hasc : forall a b, a < b -> b < List.length order ->
                (cell (at_ 0%nat order b) <? cell (at_ 0%nat order a))%float = false).
      { intros a b Hab Hb. rewrite Eorder in Hsorted.
        pose proof (StronglySorted_at _ 0%float _ a b Hsorted Hab
                      ltac:(now rewrite length_map)) as H.
        unfold not_after in H.
        now rewrite !(at_map 0 0%float) in H by lia. }
      assert (Hnil : is_nil (map cell present) = false).
      { destruct present; [destruct Hin0|reflexivity]. }
      rewrite Hnil, Eorder in Hcell. unfold percentile_of in Hcell.
      rewrite length_map in Hcell.
      exists order. split; [|split; [exact Horder|split; [exact Hasc|]]].
      { apply (Permutation_NoDup Hperm'). rewrite Epresent. apply NoDup_filter, seq_NoDup. }
      cbv zeta. split; [|split].
      * intros E0. rewrite E0 in Hcell. rewrite (at_map 0 0%float) in Hcell by lia.
        split; [exact Hcell|]. intros r Hr Hn. rewrite Hcell.
        assert (Hin : In r order) by (apply Horder; auto).
        apply (In_at 0) in Hin. destruct Hin as (k & Hk & <-).
        destruct k as [|k]; [apply ltb_irrefl|]. apply Hasc; lia.
      * intros Hlo E100. destruct (ltb_true_number _ _ Hlo) as [_ Hpnum].
        assert (E0 : (p <=? 0)%float = false)
          by (rewrite leb_ltb by auto; now rewrite Hlo).
        rewrite E0, E100 in Hcell. rewrite (at_map 0 0%float) in Hcell by lia.
        split; [exact Hcell|]. intros r Hr Hn. rewrite Hcell.
        assert (Hin : In r order) by (apply Horder; auto).
        apply (In_at 0) in Hin. destruct Hin as (k & Hk & <-).
        destruct (Nat.eq_dec k (List.length order - 1)) as [->|Hne];
          [apply ltb_irrefl|]. apply Hasc; lia.
      * intros Hlo Hhi. destruct (ltb_true_number _ _ Hlo) as [_ Hpnum].
        assert (E0 : (p <=? 0)%float = false)
          by (rewrite leb_ltb by auto; now rewrite Hlo).
        assert (E100 : (100 <=? p)%float = false)
          by (rewrite leb_ltb by auto; now rewrite Hhi).
        rewrite E0, E100 in Hcell. exact Hcell.
Qed.

End PercentileCells.
